(* ===== verification/_CoqProject ===== *)
-Q . S2P
Prelude.v
Errors.v
Heap.v
Prog.v
GoStd.v
Api.v
DeepCopy.v
Updates.v
Effects.v
Cluster.v
Backed.v
Sync.v
Stage.v
Fakes.v
Labels.v
Config.v
Namespace.v
Rbac.v
Resources.v
Helm.v
Authorization.v
Harbor.v
HarborRobots.v
HarborMembers.v
HarborFake.v
HarborSync.v
HarborPull.v
RobotHttp.v
RobotFake.v
Lagging.v
Encoding.v
Webhook.v
Controller.v
Conflicts.v
Status.v
StatusHeap.v
Reconcile.v
Pulls.v
Watches.v
Main.v
Scheme.v
Crd.v
System.v
Total.v
Convergence.v
Serving.v
Idempotence.v
Queue.v
Wakeups.v
Settling.v
EndToEnd.v
Witnesses.v
Scenarios.v
