(* ===== verification/Prelude.v ===== *)
(** * The tenant operator, modelled and verified

    The program is a Kubernetes operator.  A cluster-scoped Workspace names a
    namespace, its members with their roles, and its quota, limits and network
    isolation.  A mutating and a validating webhook decide what Workspaces are
    stored (internal/webhook/v1alpha1/workspace_webhook.go); the reconciler
    (internal/controller/workspace_controller.go) makes the cluster and a Harbor
    registry agree with each of them, through one sync per resource
    (internal/workspace/) and a REST client (internal/harbor/client.go), and
    writes a status.  cmd/main.go wires the two into a manager.

    ** How a Go function is modelled

    A function that calls out of the repository is an interaction program
    [prog sysE A] (Prog.v): a finite tree of calls and answers.  [sysE]
    (Effects.v) has one event per outside call: the client of
    controller-runtime, CreateOrUpdate, the event recorder, the HTTP transport,
    the clock, randomness, and the iteration order of a Go map.  A (T, error)
    result is [result T] (Errors.v), with the error chains of fmt.Errorf and the
    classification by errors.As, IsNotFound and IsConflict.  Programs are
    executable; they are read in two ways:
      - [runs p tr a]: [p] can end with [a] after the trace [tr], whatever
        answered.  Statements over [runs] hold under any interference by other
        clients, any failures and any iteration order.
      - [exec p s]: [p] run against an implementation of the interface
        [Cluster] (Cluster.v), a state in which every object has a [view], what
        the API server stores, and a [cache], what the client is shown.
        Statements over [exec] hold for every instance that satisfies the
        documented behaviour of the API server towards one client acting alone
        between two of its calls; failing calls and late failures of writes
        that were applied are included.
    A tree is finite, as the program's loops are: an endless loop is not a
    program of this kind, and outside of the heap (below) neither is a nil
    dereference, so the totality lemmas of Total.v say that nothing panics by
    the program's own doing, and no more.

    ** The cache

    cmd/main.go gives the reconciler the manager's client, which reads from a
    cache; the webhooks read from the API server itself.  The laws come in two
    strengths.  [CachedLaws] relate reads to the cache, writes to the cache and
    the stored object together (CreateOrUpdate reads the one and writes the other;
    what is out of date is refused), and [current s k key] says that the cache
    shows an object as it is.  [ClusterLaws] add that the cache has caught up
    with everything.  What is said of Harbor, its members, its robots and the pull
    Secret is proved under [CachedLaws], with [current] for exactly the objects it
    needs ([Reconcile_pull_secret], [pull_secret_kept]).  The rest of what is said
    over [exec], in particular of whole reconciles and of the running controller,
    assumes [ClusterLaws]: it speaks of reconciles whose reads find the cache
    caught up, also with what they wrote themselves.  Statements over [runs]
    assume nothing.  Lagging.v puts a cache that lags behind a
    creation on top of any cluster and shows what it does to pull credentials.

    ** Third-party code

    Pure third-party code is a class parameter with laws: [CtrlLib] and
    [CtrlLaws] (SetControllerReference, SetStatusCondition), [NetLib] and
    [NetLaws] (net/url parsing, request construction, JSON decoding, quoting),
    [EventLib] and [EventLaws] (the builder's predicate and handlers),
    [SchemeLib] and [SchemeLaws] (runtime.Scheme).  Fakes.v, Cluster.v,
    HarborFake.v, RobotFake.v and Scenarios.v instantiate all of them by
    executable functions, which shows the laws consistent and runs the witnesses.

    ** How sharing is modelled

    Programs over [sysE] take objects as plain values.  What Go has, structs that
    share what their pointers, slices and maps reach, is modelled where the code
    relies on it: the generated deep copies, and the status writes that go through
    pointers.  These run in a monad over a heap of typed cells (Heap.v), in which
    a nil dereference or an index out of range is a panic; [rep h x v L] relates
    a Go value [x] to the plain value [v] it stands for, and [updates p v m v']
    (Updates.v) is a local change of what one pointer holds.  The theorems of
    StatusHeap.v connect the two views: the heap programs end in the plain values
    that Controller.v computes.

    ** Files

      - Prelude, Errors, Prog, GoStd: generic lemmas and automation; errors;
        programs; the parts of the Go standard library used (strings, maps with
        nil, base64, url escaping, JSON output).
      - Heap, Updates: the Go heap, representation, deep copying as a contract
        ([copies]), and updates in place.  DeepCopy:
        api/v1alpha1/zz_generated.deepcopy.go.
      - Api: the Workspace types (api/v1alpha1/workspace_types.go) and the
        fields of the Kubernetes objects in use.  Effects: the calls.
      - Cluster, Backed, Sync, Stage: the API server as an interface with laws, an
        in-memory instance, and the same with a server behind its HTTP calls; the
        shapes the syncs share; a logic of steps with
        footprints ([stage]), in which a postcondition survives every later step
        that writes elsewhere.
      - Labels, Config, Namespace, Rbac, Resources, Helm, Authorization:
        internal/labels and internal/workspace, one file per source file or two.
      - Harbor, HarborRobots, HarborMembers, HarborFake, HarborSync, Encoding:
        internal/harbor/client.go, and internal/workspace/harbor.go on top of
        it.  [HarborServer] and [HarborLaws] state what a Harbor project
        promises about its members; a listing without page parameters, which
        is what the client asks for, is one page of them ([h_page_size]).
        HarborFake implements it, with pages of ten.
      - HarborPull, RobotHttp, RobotFake: the robot account and the pull Secret.
        [RobotClient] is what the sync needs of a client, the HTTP client
        provides it on a server that obeys [RobotLaws], and RobotFake is one.
        A listing of robots is only taken to list robots there are; that it
        lists the one asked for by name is part of [ServingHarbor].
        Pulls: the same through whole reconciles.  Lagging: the same while the
        cache lags.
      - Webhook: both hooks.  Crd: the validation markers as decidable
        predicates.  System: the life of stored Workspaces as a step relation
        over admission, storage, status writes and deletion.
      - Controller, Conflicts, Status, Reconcile: the reconciler, its error
        classification and its status.  StatusHeap: the same status writes over
        the heap.  Watches: the predicates, the watches and the fan-out.  Main:
        options and startup.  Scheme: groupversion_info.go, the init functions.
      - Total, Convergence, Serving, Idempotence: absence of panics, success, and
        stability of whole reconciles.  [CooperativeClient] is what success needs
        of a Harbor client; Serving shows that the HTTP client is one on a Harbor
        that is up ([ServingHarbor]).
      - Queue, Wakeups, Settling: the running controller, as a step relation over
        the cluster, the work queue and the changes of others, which also keeps
        two sets of requests the controller dropped: those [refused] because
        of a foreign namespace, and those [relabelled], whose label it backfilled
        without asking to come back.  [stored_ok] is what the API server keeps
        true of stored objects (names, scope, distinct UIDs).  Every wakeup is
        accounted for, and a queue is worked off.  EndToEnd joins this to
        admission.
      - Witnesses, Scenarios: every property with hypotheses, applied to a concrete run.

    ** What is shown

      - Reconcile: a run without error leaves every resource as the spec asks, or
        touches nothing because the namespace is somebody else's
        ([Reconcile_refines]); when nothing outside refuses, it does succeed
        ([Reconcile_converges]); a second run changes nothing
        ([Reconcile_idempotent]); no run writes outside the tenant
        ([Reconcile_confined], [tenants_disjoint], [foreign_namespace_untouched]).
      - The controller as a whole: whatever others change between reconciles, each
        workspace is waiting in the queue, or its tenant is kept as its current
        spec and the operator's inputs ask, or the controller dropped its last
        request itself, refused or relabelled ([no_lost_wakeup]; that the
        backfill is not followed by a requeue is [backfill_not_requeued]); every change of an object a kept workspace requires is
        noticed ([drift_noticed]); and once nobody interferes and nothing stands in the
        way, the queue of that moment is worked off without an error in any order,
        no reconcile undoes another, and every tenant ends right
        ([controller_settles]).  [tenant_kept] leaves out what no watch covers:
        Harbor itself, the pull Secret and its place in the default
        ServiceAccount, surplus role bindings, quotas and policies that a
        spec without them would remove.
      - Admission and controller together: when nothing stands in the way,
        workspaces that came through the webhooks end with a namespace of their
        own, exactly the members their spec lists, and a pull Secret their
        default ServiceAccount lists ([admitted_workspaces_served]).  Of the
        Secret's contents this says nothing ([pull_configured]); that is
        [Reconcile_pull_secret].
      - Errors and requeues: which errors are permanent, which are retried, which
        are reported, and when the reconciler comes back
        ([handleReconcileError_correct], [Reconcile_requeues]).
      - Each sync refines the contract of its resource, whatever was there
        before, and leaves the rest of the cluster alone; network policies are
        judged by their documented semantics, role bindings by the roles they
        grant.
      - Harbor: members, roles and unknown users after a sync, exactly when they
        fit in a page of the listing, and with what becomes of the others when
        they do not; which request's answer lets a robot be deleted and created
        again ([RefreshRobotSecret_correct]); the pull Secret holds the robot's
        current credentials after every reconcile, failed ones included, that
        found it so or absent, in the cluster and in the cache
        ([Reconcile_pull_secret]); a stale one is not repaired
        ([pull_secret_kept]), and a lagging cache makes one
        ([lagging_cache_strands_secret]); no credentials without a secret; every
        response body closed exactly once.
      - Admission: what each hook decides and reads, the defaulter against a
        reference expression, and the invariants of everything stored
        ([stored_wellformed], [namespaces_unique], with the race of two creations
        as [create_race] and its resolution as [first_claim_wins]); admission and
        reconcile agree about namespaces.
      - Sharing: every generated copy is deep ([DeepCopy_deep]); the writes of
        updateStatus and setReadyConditionFalse compare with, and patch from, the
        workspace as it was ([updateStatus_staged],
        [setReadyConditionFalse_staged]).
      - Startup: nothing starts half configured ([startup_fails_closed]), and the
        scheme knows every kind in use ([scheme_complete]).
      - Round trips of backup and restore and of the registry credentials,
        bounds of generated names.

    ** Bounds

    There is no fuel: loops of the program range over finite lists and maps and
    are structural, and the search for a namespace name counts its attempts
    (namespaceNameAttempts).  Durations are Z in nanoseconds and lengths are nat;
    nothing in the program computes near the limits of int64.  Strings are byte
    strings, so that len is [String.length].  The room that append leaves in a
    new array is a parameter.

    ** Not modelled

    Logging; the text of Go's own error messages beyond what the program builds;
    the flag parser; sharing outside of the deep copies and the status writes
    (where a method changes an object its caller reads afterwards, the model
    returns it); the queue's delays and rate limits, and several reconciles at
    once, which the builder's defaults exclude; manifests, charts and
    end-to-end tests.  Changes by others, and updates of the cache, in the middle of
    a reconcile appear in statements over [runs] only.  The contents of quota and
    limit specs are opaque values, which the operator copies verbatim.  A slice in
    the heap stands for its elements, so nil and empty are one value there; the
    length limits of the schema count bytes where the schema counts characters.
    When a Namespace is created the server adds its name as a label: [persisted]
    allows that one label, and takes other labels to be stored as sent. *)
From Stdlib Require Export Ascii ZArith Lia.
From stdpp Require Export base gmap strings list fin_maps sorting pretty option countable.

(** Set tactics clear hypotheses twice; that is no news. *)
#[export] Set Warnings "-clear-no-such-hyp".

(** Hint databases of the development. *)
Create HintDb progs discriminated.
Create Rewrite HintDb progs.
#[export] Hint Constants Transparent : progs.
Create HintDb errs discriminated.
Create Rewrite HintDb errs.
#[export] Hint Constants Transparent : errs.

(** ** Tactics *)

(** Split every conjunction, existential and pair equation of the context. *)
Ltac flatten :=
  repeat match goal with
  | H : _ ∧ _ |- _ => destruct H
  | H : ∃ _, _ |- _ => destruct H
  | H : (_, _) = (_, _) |- _ => injection H; clear H; intros
  | H : Some _ = Some _ |- _ => injection H; clear H; intros
  end; subst.

(** Case analysis on the scrutinee of a match in the context. *)
Ltac case_in H :=
  match type of H with
  | context [match ?x with _ => _ end] => let E := fresh "E" in destruct x eqn:E
  end.

(** ** Lists *)

Section lists.
Context {A : Type}.
Implicit Types (l : list A) (P : A → bool).

Lemma existsb_In P l : existsb P l = true ↔ ∃ x, x ∈ l ∧ P x = true.
Proof.
  rewrite existsb_exists. by setoid_rewrite list_elem_of_In.
Qed.

Lemma forallb_In P l : forallb P l = true ↔ ∀ x, x ∈ l → P x = true.
Proof.
  rewrite forallb_forall. by setoid_rewrite list_elem_of_In.
Qed.

Lemma find_cons_Some P x l y :
  List.find P (x :: l) = Some y →
  (P x = true ∧ y = x) ∨ (P x = false ∧ List.find P l = Some y).
Proof. simpl. destruct (P x); intros; simplify_eq; auto. Qed.
End lists.

(** ** Strings *)

#[export] Instance append_assoc : Assoc (=) String.append.
Proof. intros a b c. induction a as [|x a IH]; [done|]. exact (f_equal (String x) IH). Qed.

Lemma append_nil_r s : s +:+ "" = s.
Proof. induction s as [|x s IH]; [done|]. exact (f_equal (String x) IH). Qed.

(** ** Maps *)

Section maps.
Context {V : Type}.
Implicit Types (m : gmap string V).

Lemma forallb_map_to_list (P : string * V → bool) m :
  forallb P (map_to_list m) = true ↔ ∀ k v, m !! k = Some v → P (k, v) = true.
Proof.
  rewrite forallb_In. split.
  - intros H k v Hk. apply H. by apply elem_of_map_to_list.
  - intros H [k v] Hin. apply H. by apply elem_of_map_to_list.
Qed.

Lemma union_lookup_l m1 m2 k v : m1 !! k = Some v → (m1 ∪ m2) !! k = Some v.
Proof. apply lookup_union_Some_l. Qed.
End maps.

#[export] Hint Resolve union_lookup_l : progs.
