(* ===== verification/Errors.v ===== *)
(** Go error values, their chains, and the [(T, error)] result of a Go
    function.

    An [error] of the program is one of: an API status error of the Kubernetes
    client (kept as its reason and text), the two error values the program
    declares itself ([workspace.NamespaceConflictError] and
    [harbor.ErrUserNotFound]), a text made by [errors.New] or by [fmt.Errorf]
    without %w, and a text wrapping another error ([fmt.Errorf] with a trailing
    %w).  The classifiers walk the chain, as [errors.Is], [errors.AsType] and
    the apierrors predicates do. *)
From S2P Require Import Prelude.

(** Reasons of an API status error the program tells apart. *)
Inductive StatusReason :=
  | StatusReasonNotFound
  | StatusReasonConflict
  | StatusReasonOther (reason : string).

Inductive error :=
  | StatusError (reason : StatusReason) (message : string)
  | NamespaceConflictError (Name : string)
  | ErrUserNotFound
  | ErrorString (text : string)
  | WrapError (prefix : string) (inner : error).

#[export] Instance StatusReason_eq_dec : EqDecision StatusReason.
Proof. solve_decision. Defined.
#[export] Instance error_eq_dec : EqDecision error.
Proof. solve_decision. Defined.

(** The Error() method of [*NamespaceConflictError]. *)
Definition NamespaceConflictError_Error (name : string) : string :=
  "namespace " +:+ name +:+ " exists but is not owned by this workspace".

(** The Error() text of a chain. *)
Fixpoint Error (e : error) : string :=
  match e with
  | StatusError _ m => m
  | NamespaceConflictError n => NamespaceConflictError_Error n
  | ErrUserNotFound => "harbor user not found"
  | ErrorString t => t
  | WrapError p e => p +:+ ": " +:+ Error e
  end.

(** The end of the chain [errors.Unwrap] follows. *)
Fixpoint root_cause (e : error) : error :=
  match e with WrapError _ e => root_cause e | _ => e end.

(** [apierrors.IsNotFound], [apierrors.IsConflict]: both look through wrapping. *)
Definition IsNotFound (e : error) : bool :=
  match root_cause e with StatusError StatusReasonNotFound _ => true | _ => false end.

Definition IsConflict (e : error) : bool :=
  match root_cause e with StatusError StatusReasonConflict _ => true | _ => false end.

(** [errors.AsType[*workspace.NamespaceConflictError](err)]. *)
Definition AsNamespaceConflictError (e : error) : option string :=
  match root_cause e with NamespaceConflictError n => Some n | _ => None end.

(** [errors.Is(err, harbor.ErrUserNotFound)]. *)
Definition IsErrUserNotFound (e : error) : bool :=
  match root_cause e with ErrUserNotFound => true | _ => false end.

(** An error that is not one of the program's own values. *)
Definition external (e : error) : Prop :=
  match root_cause e with NamespaceConflictError _ | ErrUserNotFound => False | _ => True end.

Lemma external_not_conflict e : external e → AsNamespaceConflictError e = None.
Proof. unfold external, AsNamespaceConflictError. by destruct (root_cause e). Qed.

(** ** Results *)

Inductive result (A : Type) : Type :=
  | Ok (a : A)
  | Err (e : error).
Arguments Ok {_} _.
Arguments Err {_} _.

#[export] Instance result_eq_dec `{EqDecision A} : EqDecision (result A).
Proof. solve_decision. Defined.

#[export] Instance Ok_inj {A} : Inj (=) (=) (@Ok A).
Proof. by intros ?? [=]. Qed.
#[export] Instance Err_inj {A} : Inj (=) (=) (@Err A).
Proof. by intros ?? [=]. Qed.

#[export] Instance result_ret : MRet result := fun A a => Ok a.
#[export] Instance result_bind : MBind result :=
  fun A B f r => match r with Ok a => f a | Err e => Err e end.

Definition is_Ok {A} (r : result A) : bool :=
  match r with Ok _ => true | Err _ => false end.

(** [if err != nil { return fmt.Errorf("prefix: %w", err) }]. *)
Definition wrapR {A} (prefix : string) (r : result A) : result A :=
  match r with Ok a => Ok a | Err e => Err (WrapError prefix e) end.

(** [client.IgnoreNotFound(err)]. *)
Definition IgnoreNotFound (r : result unit) : result unit :=
  match r with
  | Ok u => Ok u
  | Err e => if IsNotFound e then Ok tt else Err e
  end.

Section facts.
Context {A : Type}.
Implicit Types (r : result A).

Lemma wrapR_Ok p r a : wrapR p r = Ok a ↔ r = Ok a.
Proof. destruct r; simpl; split; congruence. Qed.

Lemma wrapR_Err p r e : wrapR p r = Err e ↔ ∃ e', r = Err e' ∧ e = WrapError p e'.
Proof. destruct r; simpl; naive_solver. Qed.

(** Wrapping is transparent to every classifier. *)
Lemma root_cause_wrap p e : root_cause (WrapError p e) = root_cause e.
Proof. done. Qed.

Lemma root_cause_idem e : root_cause (root_cause e) = root_cause e.
Proof. by induction e. Qed.
End facts.

(** [e'] is [e] with prefixes added in front: what an error becomes on its way
    up through [fmt.Errorf("...: %w", err)]. *)
Inductive wraps : error → error → Prop :=
  | wraps_refl e : wraps e e
  | wraps_step p e e' : wraps e e' → wraps e (WrapError p e').

Lemma wraps_root_cause e e' : wraps e e' → root_cause e' = root_cause e.
Proof. by induction 1. Qed.

Lemma wraps_trans e1 e2 e3 : wraps e1 e2 → wraps e2 e3 → wraps e1 e3.
Proof. intros H12 H23. induction H23; eauto using wraps. Qed.

#[export] Instance wraps_preorder : PreOrder wraps.
Proof. split; [exact wraps_refl | intros ???; apply wraps_trans]. Qed.

#[export] Hint Constructors wraps : errs.
#[export] Hint Rewrite @wrapR_Ok @wrapR_Err : errs.

(** The classification of an error survives wrapping. *)
Lemma wraps_IsNotFound e e' : wraps e e' → IsNotFound e' = IsNotFound e.
Proof. intros H. unfold IsNotFound. by rewrite (wraps_root_cause _ _ H). Qed.

Lemma wraps_IsConflict e e' : wraps e e' → IsConflict e' = IsConflict e.
Proof. intros H. unfold IsConflict. by rewrite (wraps_root_cause _ _ H). Qed.

Lemma wraps_NamespaceConflict e e' :
  wraps e e' → AsNamespaceConflictError e' = AsNamespaceConflictError e.
Proof. intros H. unfold AsNamespaceConflictError. by rewrite (wraps_root_cause _ _ H). Qed.
