(* ===== verification/Heap.v ===== *)
(** A Go heap: pointers, slices, and what it means to copy deeply.

    A heap maps locations to cells; a cell holds a value of one of several Go
    types ([Stored]).  A [slice] is a window on an array.  [heapM] is the monad
    of heap operations, in which a nil dereference or an index out of range is
    a panic, [None].

    [rep h x v L] says that the Go value [x] stands for the plain value [v] in
    heap [h], reading the cells [L] and no others.  [copies f] is the contract of
    a deep copy: the result stands for the same value, in cells that did not
    exist before, and everything that existed is as it was. *)
From S2P Require Import Prelude.

Abbreviation loc := positive.

(** A type of values that fit in a cell. *)
Class Stored (cell T : Type) := {
  pack : T → cell;
  unpack : cell → option T;
  unpack_pack v : unpack (pack v) = Some v;
}.

#[export] Instance pack_inj `{Stored cell T} : Inj (=) (=) (pack (T := T)).
Proof. intros x y Hxy%(f_equal unpack). rewrite !unpack_pack in Hxy. congruence. Qed.

(** The zero value of a type. *)
Class Zero (T : Type) := zero : T.

Definition heapM (cell A : Type) : Type := gmap loc cell → option (A * gmap loc cell).

#[export] Instance heapM_ret {cell} : MRet (heapM cell) := fun A a h => Some (a, h).
#[export] Instance heapM_bind {cell} : MBind (heapM cell) :=
  fun A B f p h => match p h with Some (a, h') => f a h' | None => None end.

(** A pointer that is not nil, and a slice that is not nil; [cap] is the room of
    the array behind it. *)
Record ptr (T : Type) := Ptr { addr : loc }.
Record slice (T : Type) := mkSlice { arr : loc; off : nat; len : nat; cap : nat }.
Arguments Ptr {T} _.
Arguments addr {T} _.
Arguments mkSlice {T} _ _ _ _.
Arguments arr {T} _.
Arguments off {T} _.
Arguments len {T} _.
Arguments cap {T} _.

Section operations.
Context {cell : Type}.
Implicit Types (h : gmap loc cell).

Section typed.
Context {T : Type} `{!Stored cell T} `{!Zero T}.

(** [new(T)] *)
Definition new_ (v : T) : heapM cell (ptr T) := fun h =>
  let l := fresh (dom h) in Some (Ptr l, <[l := pack v]> h).

(** [*p] *)
Definition load (p : ptr T) : heapM cell T := fun h =>
  match h !! addr p ≫= unpack with Some v => Some (v, h) | None => None end.

(** [*p = v] *)
Definition store (p : ptr T) (v : T) : heapM cell unit := fun h =>
  match h !! addr p with Some _ => Some (tt, <[addr p := pack v]> h) | None => None end.

(** What [p] points to changed by [f], as in the assignment of a field. *)
Definition modify (p : ptr T) (f : T → T) : heapM cell unit := x ← load p; store p (f x).

(** [x.DeepCopy()] for a struct: [out := new(T); x.DeepCopyInto(out)]. *)
Definition copy_new (DeepCopyInto : T → heapM cell T) (x : T) : heapM cell (ptr T) :=
  out ← new_ zero; x' ← DeepCopyInto x; store out x';; mret out.

(** A pointer copied with what it points to:
    [if p != nil { out = new(T); p.DeepCopyInto(out) }]. *)
Definition copy_ptr (DeepCopyInto : T → heapM cell T) (p : option (ptr T)) : heapM cell (option (ptr T)) :=
  match p with
  | None => mret None
  | Some p => x ← load p; out ← copy_new DeepCopyInto x; mret (Some out)
  end.
End typed.

Section arrays.
Context {T : Type} `{!Stored cell (list T)} `{!Zero T}.

(** [s[i]] *)
Definition index (s : slice T) (i : nat) : heapM cell T := fun h =>
  match h !! arr s ≫= unpack with
  | Some xs => if i <? len s then match xs !! (off s + i) with Some x => Some (x, h) | None => None end else None
  | None => None
  end.

(** [s[i] = x] *)
Definition set_index (s : slice T) (i : nat) (x : T) : heapM cell unit := fun h =>
  match h !! arr s ≫= unpack with
  | Some xs => if (i <? len s) && (off s + i <? length xs)
               then Some (tt, <[arr s := pack (<[off s + i := x]> xs)]> h) else None
  | None => None
  end.

(** [make([]T, n)] *)
Definition make_ (n : nat) : heapM cell (slice T) :=
  p ← new_ (T := list T) (replicate n zero); mret (mkSlice (addr p) 0 n n).

(** [for i := range src { src[i].DeepCopyInto(&dst[i]) }], from [i] on. *)
Fixpoint copy_each (DeepCopyInto : T → heapM cell T) (src dst : slice T) (i n : nat) : heapM cell unit :=
  match n with
  | 0 => mret tt
  | S n =>
      x ← index src i;
      y ← DeepCopyInto x;
      set_index dst i y;;
      copy_each DeepCopyInto src dst (S i) n
  end.

Definition copy_slice (DeepCopyInto : T → heapM cell T) (s : option (slice T)) : heapM cell (option (slice T)) :=
  match s with
  | None => mret None
  | Some src =>
      dst ← make_ (len src);
      copy_each DeepCopyInto src dst 0 (len src);;
      mret (Some dst)
  end.

(** [append(s, x)]: in the array of [s] while there is room, else in a new array
    with some room more. *)
Definition append_ (room : nat) (s : option (slice T)) (x : T) : heapM cell (option (slice T)) :=
  match s with
  | None =>
      a ← new_ (T := list T) (x :: replicate room zero);
      mret (Some (mkSlice (addr a) 0 1 (S room)))
  | Some s =>
      xs ← load (T := list T) (Ptr (arr s));
      if len s <? cap s then
        store (T := list T) (Ptr (arr s)) (<[off s + len s := x]> xs);;
        mret (Some (mkSlice (arr s) (off s) (S (len s)) (cap s)))
      else
        a ← new_ (T := list T) (take (len s) (drop (off s) xs) ++ x :: replicate room zero);
        mret (Some (mkSlice (addr a) 0 (S (len s)) (S (len s + room))))
  end.

(** [slices.SortFunc(s, cmp)], in place. *)
Definition sort_ (R : relation T) `{!∀ x y, Decision (R x y)} (s : option (slice T)) : heapM cell unit :=
  match s with
  | None => mret tt
  | Some s => modify (T := list T) (Ptr (arr s)) (fun xs =>
      take (off s) xs ++ merge_sort R (take (len s) (drop (off s) xs)) ++ drop (off s + len s) xs)
  end.

(** [for _, x := range s { a = f(a, x) }] *)
Fixpoint fold_each {A} (f : A → T → A) (s : slice T) (i n : nat) (a : A) : heapM cell A :=
  match n with
  | 0 => mret a
  | S n => x ← index s i; fold_each f s (S i) n (f a x)
  end.

Definition fold_range {A} (f : A → T → A) (s : option (slice T)) (a : A) : heapM cell A :=
  match s with None => mret a | Some s => fold_each f s 0 (len s) a end.
End arrays.
End operations.

(** ** Representation *)

Class Rep (cell G V : Type) := rep : gmap loc cell → G → V → gset loc → Prop.

Class RepLaws (cell G V : Type) `{Rep cell G V} : Prop := {
  rep_agree h h' (x : G) (v : V) L :
    rep h x v L → (∀ l, l ∈ L → h' !! l = h !! l) → rep h' x v L;
  rep_dom h (x : G) (v : V) L : rep h x v L → L ⊆ dom h;
}.

(** The contract of a deep copy. *)
Definition copies {cell G} V `{Rep cell G V} (DeepCopyInto : G → heapM cell G) : Prop :=
  ∀ h x v L, rep h x v L → ∃ x' h' L',
    DeepCopyInto x h = Some (x', h') ∧ h ⊆ h' ∧ rep h' x' v L' ∧ L' ## dom h.

Section rep.
Context {cell : Type}.
Implicit Types (h : gmap loc cell).

Lemma rep_mono {G V} `{RepLaws cell G V} h h' (x : G) (v : V) L : h ⊆ h' → rep h x v L → rep h' x v L.
Proof.
  intros Hsub Hr. eapply rep_agree; [exact Hr|]. intros l Hl. apply (rep_dom _ _ _ _ Hr) in Hl.
  apply elem_of_dom in Hl as [c Hc]. rewrite Hc. by eapply lookup_weaken.
Qed.

(** Values without pointers stand for themselves. *)
Definition rep_flat {V} : Rep cell V V := fun h x v L => x = v ∧ L = ∅.

#[export] Instance rep_flat_laws {V} : @RepLaws cell V V rep_flat.
Proof. split; [by intros h h' x v L [-> ->] _|by intros h x v L [-> ->]]. Qed.

Lemma copies_flat {V} : @copies cell V V rep_flat mret.
Proof. intros h x v L [-> ->]. exists v, h, ∅. split_and!; [done..|set_solver]. Qed.

Section pointers.
Context {G V : Type} `{!Stored cell G} `{RepLaws cell G V}.

#[export] Instance rep_ptr : Rep cell (option (ptr G)) (option V) := fun h p v L =>
  match p, v with
  | None, None => L = ∅
  | Some p, Some v => ∃ (x : G) L0, h !! addr p = Some (pack x) ∧ rep h x v L0 ∧ L = {[addr p]} ∪ L0
  | _, _ => False
  end.

#[export] Instance rep_ptr_laws : RepLaws cell (option (ptr G)) (option V).
Proof.
  split.
  - intros h h' [l|] [v|] L; try done. intros (x & L0 & Hl & Hr & ->) Hag. exists x, L0. split_and!; [|..|done].
    + rewrite Hag; [done|set_solver].
    + eapply rep_agree; [done|]. intros l' Hl'. apply Hag. set_solver.
  - intros h [l|] [v|] L; try done; [|by intros ->]. intros (x & L0 & Hl & Hr & ->).
    apply rep_dom in Hr. apply elem_of_dom_2 in Hl. set_solver.
Qed.

(** The result of [copy_new]: a new cell, not reached from what it holds. *)
Lemma copy_new_spec `{!Zero G} (into : G → heapM cell G) h (x : G) (v : V) L :
  copies V into → rep h x v L → ∃ p h' x' L',
    copy_new into x h = Some (p, h') ∧ h ⊆ h' ∧ h' !! addr p = Some (pack x') ∧ rep h' x' v L' ∧
    addr p ∉ dom h ∧ addr p ∉ L' ∧ L' ## dom h.
Proof.
  intros Hinto Hr. set (out := fresh (dom h)).
  assert (out ∉ dom h) as Hout by apply is_fresh. set (h1 := <[out := pack (zero : G)]> h).
  assert (h ⊆ h1) as Hh1 by by apply insert_subseteq, not_elem_of_dom.
  assert (dom h1 = {[out]} ∪ dom h) as Hd1 by apply dom_insert_L.
  destruct (Hinto h1 x v L) as (x' & h2 & L' & Hx & Hsub & Hr' & Hfresh); [by eapply rep_mono|].
  assert (∀ l, l ≠ out → <[out := pack x']> h2 !! l = h2 !! l) as Hother
    by (intros l Hl; by apply lookup_insert_ne).
  exists (Ptr out), (<[out := pack x']> h2), x', L'. split_and!.
  - unfold copy_new, mbind, heapM_bind, new_, store, mret, heapM_ret. fold out h1. simpl. rewrite Hx.
    assert (h1 !! out = Some (pack (zero : G))) as Ho by apply lookup_insert_eq.
    by rewrite (lookup_weaken _ _ _ _ Ho Hsub).
  - apply map_subseteq_spec. intros l c Hc. rewrite Hother; [by do 2 (eapply lookup_weaken; [|done])|].
    intros ->. apply Hout. by eapply elem_of_dom_2.
  - apply lookup_insert_eq.
  - eapply rep_agree; [done|]. intros l Hl. apply Hother. set_solver.
  - done.
  - set_solver.
  - set_solver.
Qed.

(** A test for nil. *)
Lemma rep_ptr_if {A} h (q : option (ptr G)) (v : option V) L (a b : A) :
  rep h q v L → (if q then a else b) = (if v then a else b).
Proof. by destruct q, v. Qed.

Lemma copies_ptr `{!Zero G} (into : G → heapM cell G) :
  copies V into → copies (option V) (copy_ptr into).
Proof.
  intros Hinto h [l|] [v|] L; try done; [|intros ->; exists None, h, ∅; split_and!; [done..|set_solver]].
  intros (x & L0 & Hl & Hr & ->).
  destruct (copy_new_spec into h x v L0) as (p & h' & x' & L' & Hc & Hsub & Hp & Hr' & Hpf & Hpl & Hf); [done..|].
  exists (Some p), h', ({[addr p]} ∪ L'). split_and!; [|done|by exists x', L'|set_solver].
  unfold copy_ptr, mbind, heapM_bind, load, mret, heapM_ret. rewrite Hl. simpl. by rewrite unpack_pack, Hc.
Qed.
End pointers.

Section slices.
Context {G V : Type} `{!Stored cell (list G)} `{RepLaws cell G V}.

Fixpoint reps h (xs : list G) (vs : list V) (L : gset loc) : Prop :=
  match xs, vs with
  | [], [] => L = ∅
  | x :: xs, v :: vs => ∃ L1 L2, rep h x v L1 ∧ reps h xs vs L2 ∧ L = L1 ∪ L2
  | _, _ => False
  end.

Lemma reps_agree h h' xs vs L : reps h xs vs L → (∀ l, l ∈ L → h' !! l = h !! l) → reps h' xs vs L.
Proof.
  revert vs L. induction xs as [|x xs IH]; intros [|v vs] L; simpl; try done.
  intros (L1 & L2 & Hx & Hxs & ->) Hag. exists L1, L2. split_and!; [|apply IH; [done|]|done].
  - eapply rep_agree; [done|]. intros l Hl. apply Hag. set_solver.
  - intros l Hl. apply Hag. set_solver.
Qed.

Lemma reps_dom h xs vs L : reps h xs vs L → L ⊆ dom h.
Proof.
  revert vs L. induction xs as [|x xs IH]; intros [|v vs] L; simpl; try done; [by intros ->|].
  intros (L1 & L2 & Hx%rep_dom & Hxs%IH & ->). set_solver.
Qed.

Lemma reps_length h xs vs L : reps h xs vs L → length xs = length vs.
Proof.
  revert vs L. induction xs as [|x xs IH]; intros [|v vs] L; simpl; try done.
  intros (? & ? & _ & Hxs & _). by erewrite IH.
Qed.

Lemma reps_snoc h xs vs L x v L' :
  reps h xs vs L → rep h x v L' → reps h (xs ++ [x]) (vs ++ [v]) (L ∪ L').
Proof.
  revert vs L. induction xs as [|y xs IH]; intros [|w vs] L; simpl; try done.
  - intros -> Hx. exists L', ∅. split_and!; [done..|set_solver].
  - intros (L1 & L2 & Hy & Hxs & ->) Hx. exists L1, (L2 ∪ L'). split_and!; [done|by apply IH|set_solver].
Qed.

#[export] Instance rep_slice : Rep cell (option (slice G)) (list V) := fun h s vs L =>
  match s with
  | None => vs = [] ∧ L = ∅
  | Some s => ∃ all L0, h !! arr s = Some (pack all) ∧ (len s ≤ cap s ∧ off s + cap s ≤ length all) ∧
      reps h (take (len s) (drop (off s) all)) vs L0 ∧ L = {[arr s]} ∪ L0
  end.

#[export] Instance rep_slice_laws : RepLaws cell (option (slice G)) (list V).
Proof.
  split.
  - intros h h' [s|] vs L; [|by intros [-> ->]]. intros (all & L0 & Hl & [Hcap Hlen] & Hr & ->) Hag.
    exists all, L0. split_and!; [|done|done| |done].
    + rewrite Hag; [done|set_solver].
    + eapply reps_agree; [done|]. intros l' Hl'. apply Hag. set_solver.
  - intros h [s|] vs L; [|by intros [_ ->]]. intros (all & L0 & Hl & _ & Hr%reps_dom & ->).
    apply elem_of_dom_2 in Hl. set_solver.
Qed.

Context `{!Zero G}.

(** One iteration: the element is read, copied, and written. *)
Lemma copy_each_step (into : G → heapM cell G) (src : slice G) all dst x y ys zs h h1 n :
  h !! arr src = Some (pack all) → length ys < len src → all !! (off src + length ys) = Some x →
  into x h = Some (y, h1) → h1 !! dst = Some (pack (ys ++ zero :: zs)) →
  copy_each into src (mkSlice dst 0 (len src) (len src)) (length ys) (S n) h =
    copy_each into src (mkSlice dst 0 (len src) (len src)) (S (length ys)) n
      (<[dst := pack ((ys ++ [y]) ++ zs)]> h1).
Proof.
  intros Hsrc Hlt Hi Hy Hd. simpl. unfold mbind, heapM_bind, index at 1, set_index at 1. simpl.
  rewrite Hsrc. simpl. rewrite unpack_pack, Hi, (proj2 (Nat.ltb_lt _ _)) by done. rewrite Hy, Hd. simpl.
  rewrite unpack_pack, length_app, length_cons, !(proj2 (Nat.ltb_lt _ _)) by lia. simpl.
  by rewrite insert_app_r_alt, Nat.sub_diag, <-(assoc_L (++)) by done.
Qed.

(** The loop of a slice copy: [ys] copied so far, [xs] to go. *)
Lemma copy_each_spec (into : G → heapM cell G) h0 (src : slice G) all dst ys vs1 L1 xs vs2 L2 h :
  copies V into → dst ∉ dom h0 → h0 ⊆ h →
  h0 !! arr src = Some (pack all) → off src + len src ≤ length all →
  len src = length ys + length xs → drop (length ys) (take (len src) (drop (off src) all)) = xs →
  reps h0 xs vs2 L2 →
  h !! dst = Some (pack (ys ++ replicate (length xs) zero)) →
  reps h ys vs1 L1 → L1 ## dom h0 → dst ∉ L1 →
  ∃ ys' h' L', copy_each into src (mkSlice dst 0 (len src) (len src)) (length ys) (length xs) h = Some (tt, h') ∧
    h0 ⊆ h' ∧ h' !! dst = Some (pack ys') ∧ reps h' ys' (vs1 ++ vs2) L' ∧ L' ## dom h0 ∧ dst ∉ L'.
Proof.
  intros Hinto Hdst Hh Hsrc Hlen. revert ys vs1 L1 vs2 L2 h Hh.
  induction xs as [|x xs IH]; intros ys vs1 L1 vs2 L2 h Hh Hn Hxs Hr2 Hd Hr1 Hfresh Hdl.
  { destruct vs2; [|done]. exists ys, h, L1. rewrite !app_nil_r in *. by split_and!. }
  destruct vs2 as [|v vs2]; [done|]. destruct Hr2 as (Lx & L2' & Hx & Hr2 & ->).
  destruct (Hinto h x v Lx) as (y & h1 & Ly & Hy & Hsub & Hry & Hly); [by eapply rep_mono|].
  assert (dst ∈ dom h) as Hdd by by eapply elem_of_dom_2.
  assert (dom h0 ⊆ dom h) as Hdom by by apply subseteq_dom.
  set (ys' := ys ++ [y]). set (h2 := <[dst := pack (ys' ++ replicate (length xs) (zero : G))]> h1).
  assert (∀ l, l ≠ dst → h2 !! l = h1 !! l) as Hh2 by (intros; by apply lookup_insert_ne).
  destruct (IH ys' (vs1 ++ [v]) (L1 ∪ Ly) vs2 L2' h2) as (zs & h' & L' & Hc & Hrest).
  - apply map_subseteq_spec. intros l c Hc. rewrite Hh2; [|intros ->; by apply elem_of_dom_2, Hdst in Hc].
    by do 2 (eapply lookup_weaken; [|done]).
  - unfold ys'. rewrite length_app. simpl in *. lia.
  - unfold ys'. rewrite length_app, Nat.add_1_r. 
    replace (S (length ys)) with (length ys + 1) by lia. by rewrite <-drop_drop, Hxs.
  - done.
  - apply lookup_insert_eq.
  - apply reps_snoc.
    + eapply reps_agree; [exact Hr1|]. intros l Hl. rewrite Hh2 by (intros ->; done).
      apply (reps_dom _ _ _ _ Hr1) in Hl. apply elem_of_dom in Hl as [c Hc]. rewrite Hc. by eapply lookup_weaken.
    + eapply rep_agree; [exact Hry|]. intros l Hl. apply Hh2. set_solver.
  - set_solver.
  - set_solver.
  - exists zs, h', L'. rewrite <-(assoc_L (++)) in Hrest. split; [|done].
    assert (all !! (off src + length ys) = Some x) as Hi.
    { rewrite <-lookup_drop. rewrite <-(lookup_take_lt _ (len src)) by (simpl in Hn; lia).
      rewrite <-(Nat.add_0_r (length ys)), <-lookup_drop, Hxs. done. }
    rewrite length_cons, (copy_each_step into src all dst x y ys (replicate (length xs) zero) h h1); try done.
    + unfold ys' in Hc. by rewrite length_app, Nat.add_1_r in Hc.
    + by apply (lookup_weaken _ _ _ _ Hsrc).
    + simpl in Hn. lia.
    + exact (lookup_weaken _ _ _ _ Hd Hsub).
Qed.

Lemma copies_slice (into : G → heapM cell G) : copies V into → copies (list V) (copy_slice into).
Proof.
  intros Hinto h [s|] vs L; [|intros [-> ->]; exists None, h, ∅; split_and!; [done..|set_solver]].
  intros (all & L0 & Hl & [Hcap Hlen] & Hr & ->). set (dst := fresh (dom h)).
  assert (dst ∉ dom h) as Hdst by apply is_fresh.
  set (h1 := <[dst := pack (replicate (len s) (zero : G))]> h).
  assert (length (take (len s) (drop (off s) all)) = len s) as Hn by (rewrite length_take, length_drop; lia).
  destruct (copy_each_spec into h s all dst [] [] ∅ (take (len s) (drop (off s) all)) vs L0 h1)
    as (ys & h' & L' & Hc & Hsub & Hd & Hr' & Hfresh & _); try done; try lia.
  - by apply insert_subseteq, not_elem_of_dom.
  - rewrite Hn. apply lookup_insert_eq.
  - rewrite Hn in Hc. exists (Some (mkSlice dst 0 (len s) (len s))), h', ({[dst]} ∪ L'). split_and!.
    + unfold copy_slice, make_, new_, mbind, heapM_bind, mret, heapM_ret. simpl. fold dst h1.
      simpl in Hc. by rewrite Hc.
    + done.
    + exists ys, L'. pose proof (reps_length _ _ _ _ Hr') as Hly. pose proof (reps_length _ _ _ _ Hr) as Hlv.
      rewrite Hn in Hlv. simpl in *. rewrite <-Hly in Hlv. split_and!; [done|done|lia| |done].
      by rewrite drop_0, firstn_all2 by lia.
    + set_solver.
Qed.

(** A loop over a slice is a fold over what it stands for. *)
Lemma fold_range_spec {A} (f : A → G → A) (f' : A → V → A) h s vs L a :
  rep h s vs L → (∀ a x v L, rep h x v L → f a x = f' a v) →
  fold_range f s a h = Some (foldl f' a vs, h).
Proof.
  destruct s as [s|]; [|by intros [-> _] _]. intros (all & L0 & Hl & [Hcap Hlen] & Hr & _) Hf. simpl.
  assert (∀ n i vs L0 a, i + n = len s →
    reps h (drop i (take (len s) (drop (off s) all))) vs L0 →
    fold_each f s i n a h = Some (foldl f' a vs, h)) as Hloop; [|by apply (Hloop _ 0 vs L0)].
  clear vs L0 Hr a. induction n as [|n IH]; intros i vs L0 a Hi Hr; simpl.
  - rewrite drop_ge in Hr by (rewrite length_take, length_drop; lia). by destruct vs.
  - assert (∃ x, all !! (off s + i) = Some x) as [x Hx] by (apply lookup_lt_is_Some; lia).
    assert (take (len s) (drop (off s) all) !! i = Some x) as Hx'
      by (rewrite lookup_take_lt, lookup_drop by lia; done).
    rewrite (drop_S _ x) in Hr by done. destruct vs as [|v vs]; [done|]. destruct Hr as (L1 & L2 & Hxv & Hr & _).
    unfold mbind, heapM_bind, index. rewrite Hl. simpl.
    rewrite unpack_pack, (proj2 (Nat.ltb_lt i (len s))), Hx by lia.
    rewrite (Hf _ _ _ _ Hxv). eapply IH; [lia|exact Hr].
Qed.
End slices.

(** ** Sequences of copies *)

(** The operation succeeds, changes no existing cell, and ends in [Q]. *)
Definition extends {A} (m : heapM cell A) h (Q : A → gmap loc cell → Prop) : Prop :=
  ∃ a h', m h = Some (a, h') ∧ h ⊆ h' ∧ Q a h'.

Lemma extends_ret {A} (a : A) h Q : Q a h → extends (mret a) h Q.
Proof. intros HQ. by exists a, h. Qed.

Lemma extends_bind {A B} (m : heapM cell A) (k : A → heapM cell B) h Q :
  extends m h (fun a h1 => extends (k a) h1 Q) → extends (m ≫= k) h Q.
Proof.
  intros (a & h1 & Hm & Hs1 & b & h2 & Hk & Hs2 & HQ). exists b, h2. split_and!; [|by etrans|done].
  unfold mbind, heapM_bind. by rewrite Hm.
Qed.

(** Copying, among others, a part of a value that [h0] represented. *)
Lemma extends_copy {G V} `{RepLaws cell G V} (into : G → heapM cell G) h0 h (x : G) (v : V) L Q :
  copies V into → rep h0 x v L → h0 ⊆ h →
  (∀ x' h' L', h ⊆ h' → rep h' x' v L' → L' ## dom h0 → Q x' h') → extends (into x) h Q.
Proof.
  intros Hinto Hr Hsub HQ. pose proof (subseteq_dom _ _ Hsub).
  destruct (Hinto h x v L) as (x' & h' & L' & Hx & Hs & Hr' & Hf); [by eapply rep_mono|].
  exists x', h'. split_and!; [done..|]. eapply HQ; [done..|set_solver].
Qed.

Lemma copies_extends {G V} `{Rep cell G V} (into : G → heapM cell G) :
  (∀ h x v L, rep h x v L → extends (into x) h (fun x' h' => ∃ L', rep h' x' v L' ∧ L' ## dom h)) →
  copies V into.
Proof.
  intros Hinto h x v L (x' & h' & Hx & Hs & L' & Hr & Hf)%Hinto. by exists x', h', L'.
Qed.
End rep.

(** Copy one field, whose representation is [H] in an earlier heap, with the
    contract [lem]; every earlier heap is then known to be part of the new one. *)
Ltac copy_field H lem :=
  apply extends_bind;
  eapply extends_copy; [exact lem|exact H|first [reflexivity|eassumption|etrans; eassumption]|];
  let x := fresh "x" in let h := fresh "h" in let L := fresh "L" in
  let Hs := fresh "Hs" in let Hr := fresh "Hr" in let Hf := fresh "Hf" in
  intros x h L Hs Hr Hf;
  repeat (match goal with H1 : ?h0 ⊆ ?h1, H2 : ?h1 ⊆ h |- _ =>
         lazymatch goal with
         | _ : h0 ⊆ h |- _ => fail
         | |- _ => assert (h0 ⊆ h) by (etrans; eassumption)
         end
       end).
