(* ===== verification/Prog.v ===== *)
(** Interaction programs: a Go function that calls out of the repository is a
    finite tree of those calls.

    [prog E A] is a computation that performs events [E X] (an API request, an
    HTTP exchange, a clock read), receives an [X] for each, and ends with an
    [A].  A program says nothing about who answers: [runs p tr a] relates it to
    every trace [tr] of events and answers the environment can produce, and
    [interp] runs it against a handler, the executable environment the witnesses
    use.  [emits] is the trace predicate "every event satisfies P", with the
    rules that make it compositional. *)
From S2P Require Import Prelude Errors.

Section prog.
Context {E : Type → Type}.

Inductive prog (A : Type) : Type :=
  | Ret (a : A)
  | Vis {X : Type} (e : E X) (k : X → prog A).

(** One event and its answer. *)
Inductive obs : Type := | Obs {X : Type} (e : E X) (x : X).
End prog.
Arguments prog : clear implicits.
Arguments obs : clear implicits.
Arguments Ret {E A} a.
Arguments Vis {E A X} e k.
Arguments Obs {E X} e x.

Definition trigger {E X} (e : E X) : prog E X := Vis e Ret.

#[export] Instance prog_ret {E} : MRet (prog E) := fun A a => Ret a.
#[export] Instance prog_bind {E} : MBind (prog E) :=
  fun A B f => fix go p :=
    match p with
    | Ret a => f a
    | Vis e k => Vis e (fun x => go (k x))
    end.
#[export] Instance prog_fmap {E} : FMap (prog E) :=
  fun A B f p => p ≫= fun a => Ret (f a).

(** ** Error-returning programs *)

(** [x, err := p; if err != nil { return err }; k x]. *)
Definition bindR {E A B} (p : prog E (result A)) (f : A → prog E (result B))
    : prog E (result B) :=
  p ≫= fun r => match r with Ok a => f a | Err e => Ret (Err e) end.

Definition okR {E A} (a : A) : prog E (result A) := Ret (Ok a).
Definition errR {E A} (e : error) : prog E (result A) := Ret (Err e).

(** [if err != nil { return fmt.Errorf("prefix: %w", err) }]. *)
Definition wrap {E A} (prefix : string) (p : prog E (result A)) : prog E (result A) :=
  p ≫= fun r => Ret (wrapR prefix r).

Declare Scope go_scope.
Delimit Scope go_scope with go.
Notation "x ←? p ; q" := (bindR p (fun x => q))
  (at level 20, p at level 100, q at level 200, only parsing) : go_scope.
Notation "' x ←? p ; q" := (bindR p (fun x => q))
  (at level 20, x pattern, p at level 100, q at level 200, only parsing) : go_scope.
Notation "p ;;? q" := (bindR p (fun _ => q))
  (at level 100, q at level 200, right associativity, only parsing) : go_scope.
#[global] Open Scope go_scope.

(** [for _, x := range l { if err := f(x); err != nil { return err } }]. *)
Fixpoint forR {E A} (f : A → prog E (result unit)) (l : list A) : prog E (result unit) :=
  match l with
  | [] => okR tt
  | x :: l => f x ;;? forR f l
  end.

(** ** Traces *)

Section runs.
Context {E : Type → Type}.
Implicit Types (tr : list (obs E)).

(** [runs p tr a]: some environment answers the events of [p] as [tr] records
    and [p] then returns [a]. *)
Fixpoint runs {A} (p : prog E A) (tr : list (obs E)) (a : A) : Prop :=
  match p with
  | Ret b => tr = [] ∧ a = b
  | Vis e k => ∃ x tr', tr = Obs e x :: tr' ∧ runs (k x) tr' a
  end.

Lemma runs_bind {A B} (p : prog E A) (f : A → prog E B) tr b :
  runs (p ≫= f) tr b ↔
  ∃ tr1 tr2 a, tr = tr1 ++ tr2 ∧ runs p tr1 a ∧ runs (f a) tr2 b.
Proof.
  revert tr. induction p as [a|X e k IH]; intros tr; simpl.
  - split.
    + intros H. by exists [], tr, a.
    + by intros (? & ? & ? & -> & (-> & ->) & H).
  - split.
    + intros (x & tr' & -> & (tr1 & tr2 & a & -> & H1 & H2)%IH).
      exists (Obs e x :: tr1), tr2, a. split_and!; eauto.
    + intros (tr1 & tr2 & a & -> & (x & tr' & -> & H1) & H2).
      exists x, (tr' ++ tr2). split; [done|]. apply IH. eauto 10.
Qed.

Lemma runs_trigger {X} (e : E X) tr x : runs (trigger e) tr x ↔ tr = [Obs e x].
Proof.
  simpl. split.
  - by intros (? & ? & -> & -> & ->).
  - intros ->. eauto.
Qed.

Lemma runs_bindR {A B} (p : prog E (result A)) (f : A → prog E (result B)) tr r :
  runs (bindR p f) tr r ↔
  (∃ e, runs p tr (Err e) ∧ r = Err e) ∨
  (∃ tr1 tr2 a, tr = tr1 ++ tr2 ∧ runs p tr1 (Ok a) ∧ runs (f a) tr2 r).
Proof.
  unfold bindR. rewrite runs_bind. split.
  - intros (tr1 & tr2 & [a|e] & -> & H1 & H2).
    + right. eauto 10.
    + left. destruct H2 as [-> ->]. rewrite app_nil_r. eauto.
  - intros [(e & H & ->)|(tr1 & tr2 & a & -> & H1 & H2)].
    + exists tr, [], (Err e). rewrite app_nil_r. by split_and!.
    + eauto 10.
Qed.

Lemma runs_wrap {A} p (q : prog E (result A)) tr r :
  runs (wrap p q) tr r ↔ ∃ r', runs q tr r' ∧ r = wrapR p r'.
Proof.
  unfold wrap. rewrite runs_bind. split.
  - intros (tr1 & tr2 & a & -> & H & -> & ->). rewrite app_nil_r. eauto.
  - intros (r' & H & ->). exists tr, [], r'. by rewrite app_nil_r.
Qed.

(** The same as one case analysis, on the result of the first part. *)
Lemma runs_bindR_match {A B} (p : prog E (result A)) (f : A → prog E (result B)) tr r :
  runs (bindR p f) tr r ↔
  ∃ tr1 tr2 a, tr = tr1 ++ tr2 ∧ runs p tr1 a ∧
    match a with Ok a => runs (f a) tr2 r | Err e => tr2 = [] ∧ r = Err e end.
Proof.
  unfold bindR. rewrite runs_bind. split; intros (tr1 & tr2 & [a|e] & ? & ? & ?); eauto 10.
Qed.

Lemma runs_wrap_okR {A B} s (p : prog E (result A)) (f : A → B) tr r :
  runs (bindR (wrap s p) (fun a => okR (f a))) tr r ↔
  ∃ r', runs p tr r' ∧
    r = match r' with Ok a => Ok (f a) | Err e => Err (WrapError s e) end.
Proof.
  rewrite runs_bindR_match. split.
  - intros (tr1 & tr2 & a & -> & (r' & Hr & ->)%runs_wrap & H). exists r'.
    destruct r'; simpl in H; destruct H as [-> ->]; by rewrite app_nil_r.
  - intros (r' & Hr & ->). exists tr, [], (wrapR s r'). rewrite app_nil_r. split; [done|].
    split; [apply runs_wrap; eauto|]. by destruct r'.
Qed.

Lemma runs_fmap {A B} (f : A → B) (p : prog E A) tr b :
  runs (f <$> p) tr b ↔ ∃ a, runs p tr a ∧ b = f a.
Proof.
  unfold fmap, prog_fmap. rewrite runs_bind. split.
  - intros (tr1 & tr2 & a & -> & H & -> & ->). rewrite app_nil_r. eauto.
  - intros (a & H & ->). exists tr, [], a. by rewrite app_nil_r.
Qed.
End runs.

(** Take a run apart along the structure of its program. *)
Ltac run_inv1 H :=
  lazymatch type of H with
  | runs (Ret _) _ _ => destruct H as [? ?]; try subst
  | runs (okR _) _ _ => destruct H as [? ?]; try subst
  | runs (errR _) _ _ => destruct H as [? ?]; try subst
  | runs (mret _) _ _ => destruct H as [? ?]; try subst
  | runs (trigger _) _ _ => apply runs_trigger in H; try subst
  | runs (bindR _ _) _ _ =>
      apply runs_bindR in H;
      let e := fresh "e" in let tr1 := fresh "tr" in let tr2 := fresh "tr" in
      let a := fresh "a" in let H1 := fresh "Hr" in let H2 := fresh "Hr" in
      destruct H as [(e & H1 & H2)|(tr1 & tr2 & a & H & H1 & H2)]; try subst
  | runs (wrap _ _) _ _ =>
      apply runs_wrap in H;
      let r := fresh "r" in let H1 := fresh "Hr" in let H2 := fresh "Hw" in
      destruct H as (r & H1 & H2)
  | runs (_ ≫= _) _ _ =>
      apply runs_bind in H;
      let tr1 := fresh "tr" in let tr2 := fresh "tr" in
      let a := fresh "a" in let H1 := fresh "Hr" in let H2 := fresh "Hr" in
      destruct H as (tr1 & tr2 & a & H & H1 & H2); try subst
  end.

Ltac run_inv :=
  repeat match goal with
  | H : runs _ _ _ |- _ => run_inv1 H
  | H : Ok _ = wrapR _ _ |- _ => symmetry in H; apply wrapR_Ok in H; try subst
  | H : Err _ = wrapR _ _ |- _ =>
      symmetry in H; apply wrapR_Err in H;
      let e := fresh "e" in let H2 := fresh "He" in
      destruct H as (e & H & H2); try subst
  | H : Ok _ = Err _ |- _ => discriminate H
  | H : Err _ = Ok _ |- _ => discriminate H
  | H : Ok _ = Ok _ |- _ => apply (inj Ok) in H; try subst
  | H : Err _ = Err _ |- _ => apply (inj Err) in H; try subst
  end; try discriminate.

(** ** Events of a program *)

Section emits.
Context {E : Type → Type} (P : obs E → Prop).

(** Every event the program can perform, whatever it is answered, satisfies [P]. *)
Fixpoint emits {A} (p : prog E A) : Prop :=
  match p with
  | Ret _ => True
  | Vis e k => ∀ x, P (Obs e x) ∧ emits (k x)
  end.

Lemma emits_runs {A} (p : prog E A) tr a : emits p → runs p tr a → Forall P tr.
Proof.
  revert tr. induction p as [b|X e k IH]; intros tr Hp; simpl in *.
  - intros [-> _]. constructor.
  - intros (x & tr' & -> & Hr). destruct (Hp x). constructor; eauto.
Qed.

Lemma emits_ret {A} (a : A) : emits (Ret a).
Proof. done. Qed.

Lemma emits_okR {A} (a : A) : emits (okR a).
Proof. done. Qed.

Lemma emits_errR {A} e : emits (errR (A:=A) e).
Proof. done. Qed.

Lemma emits_trigger {X} (e : E X) : (∀ x, P (Obs e x)) → emits (trigger e).
Proof. intros H x. split; [apply H | done]. Qed.

Lemma emits_bind {A B} (p : prog E A) (f : A → prog E B) :
  emits p → (∀ a, emits (f a)) → emits (p ≫= f).
Proof.
  intros Hp Hf. induction p as [a|X e k IH]; simpl in *; [apply Hf|].
  intros x. destruct (Hp x). split; [done|]. by apply IH.
Qed.

Lemma emits_bindR {A B} (p : prog E (result A)) (f : A → prog E (result B)) :
  emits p → (∀ a, emits (f a)) → emits (bindR p f).
Proof. intros Hp Hf. apply emits_bind; [done|]. intros [a|e]; [apply Hf | done]. Qed.

Lemma emits_wrap {A} s (p : prog E (result A)) : emits p → emits (wrap s p).
Proof. intros Hp. by apply emits_bind. Qed.

Lemma emits_fmap {A B} (f : A → B) (p : prog E A) : emits p → emits (f <$> p).
Proof. intros Hp. by apply emits_bind. Qed.

Lemma emits_forR {A} (f : A → prog E (result unit)) l :
  (∀ x, emits (f x)) → emits (forR f l).
Proof. intros Hf. induction l; [done|]. by apply emits_bindR. Qed.
End emits.

#[export] Hint Resolve emits_ret emits_okR emits_errR emits_trigger emits_bind
  emits_bindR emits_wrap emits_fmap emits_forR : progs.

(** ** Running against a handler *)

Section interp.
Context {E : Type → Type} {W : Type}.

(** A handler answers every event of a world, or refuses it ([None]: the
    process died, e.g. a Go panic). *)
Definition handler := ∀ X, E X → W → option (X * W).

Fixpoint interp (h : handler) {A} (p : prog E A) (w : W) : option (A * W) :=
  match p with
  | Ret a => Some (a, w)
  | Vis e k => '(x, w') ← h _ e w; interp h (k x) w'
  end.

Lemma interp_bind h {A B} (p : prog E A) (f : A → prog E B) w :
  interp h (p ≫= f) w = '(a, w') ← interp h p w; interp h (f a) w'.
Proof.
  revert w. induction p as [a|X e k IH]; intros w; [done|].
  cbn. destruct (h X e w) as [[x w']|]; [apply IH | done].
Qed.

Lemma interp_bindR h {A B} (p : prog E (result A)) (f : A → prog E (result B)) w :
  interp h (bindR p f) w =
  '(r, w') ← interp h p w;
  match r with Ok a => interp h (f a) w' | Err e => Some (Err e, w') end.
Proof.
  unfold bindR. rewrite interp_bind.
  by destruct (interp h p w) as [[[a|e] w']|].
Qed.

Lemma interp_wrap h {A} s (p : prog E (result A)) w :
  interp h (wrap s p) w = '(r, w') ← interp h p w; Some (wrapR s r, w').
Proof. apply interp_bind. Qed.

(** An executed program is one of its runs. *)
Lemma interp_runs h {A} (p : prog E A) w a w' :
  interp h p w = Some (a, w') → ∃ tr, runs p tr a.
Proof.
  revert w. induction p as [b|X e k IH]; intros w; cbn.
  - intros [= -> ->]. by exists [].
  - destruct (h X e w) as [[x w1]|] eqn:Hh; [|done].
    intros (tr & Htr)%IH. exists (Obs e x :: tr). eauto.
Qed.

(** The same, starting from the answer to its first call. *)
Lemma interp_runs_head h {A X} (p : prog E A) (e : E X) k w x w1 a w' :
  p = Vis e k → h X e w = Some (x, w1) → interp h p w = Some (a, w') → ∃ tr, runs p (Obs e x :: tr) a.
Proof.
  intros -> Hh. cbn. rewrite Hh. intros [tr Htr]%interp_runs. exists tr, x, tr. done.
Qed.
End interp.
Arguments handler : clear implicits.
