(* ===== verification/GoStd.v ===== *)
(** The parts of Go's standard library the program computes with.

    Go strings are byte strings; they are [string] here, one [ascii] per byte,
    so [len] is [String.length].  Modelled: [strings.TrimRight], [strings.Join],
    the percent escaping of [net/url], [base64.StdEncoding], the text
    [encoding/json] produces for the maps the program marshals, and maps that
    may be nil.  What of the standard library is too large to restate (parsing
    of URLs and of JSON, %q quoting) is a parameter: see [NetLib] in Effects. *)
From S2P Require Import Prelude Errors.

(** ** Strings *)

(** [strings.TrimRight(s, cutset)] for a cutset of single bytes. *)
Fixpoint TrimRight (s : string) (cutset : list ascii) : string :=
  match s with
  | EmptyString => EmptyString
  | String c s =>
      match TrimRight s cutset with
      | EmptyString => if bool_decide (c ∈ cutset) then EmptyString else String c EmptyString
      | s' => String c s'
      end
  end.

(** [strings.Join(l, sep)]. *)
Fixpoint Join (l : list string) (sep : string) : string :=
  match l with
  | [] => ""
  | [s] => s
  | s :: l => s +:+ sep +:+ Join l sep
  end.

(** [strings.HasPrefix(s, p)]. *)
Definition HasPrefix (s p : string) : bool := String.prefix p s.

(** [b, _ := io.ReadAll(io.LimitReader(r, n))] for a reader over [s]. *)
Definition ReadLimited (n : nat) (s : string) : string := String.substring 0 n s.

(** ** Maps that may be nil *)

(** A Go map value: [None] is the nil map, which reads as empty and panics on
    a write.  The program only writes through a map it has made non-nil. *)
Abbreviation gomap V := (option (gmap string V)).

Definition gomap_view {V} (m : gomap V) : gmap string V := default ∅ m.

(** [m[k]] of a [map[string]string]: the zero value when absent. *)
Definition gomap_get (m : gomap string) (k : string) : string :=
  default "" (gomap_view m !! k).

(** [if m == nil { m = map[string]string{} }]. *)
Definition gomap_make {V} (m : gomap V) : gmap string V :=
  match m with None => ∅ | Some m => m end.

(** [maps.Copy(dst, src)] into a non-nil map. *)
Definition maps_Copy {V} (dst src : gmap string V) : gmap string V := src ∪ dst.

(** ** net/url escaping *)

Definition byte (c : ascii) : N := N_of_ascii c.

Definition in_range (lo c hi : ascii) : bool :=
  (byte lo <=? byte c)%N && (byte c <=? byte hi)%N.

Definition unreserved (c : ascii) : bool :=
  in_range "a" c "z" || in_range "A" c "Z" || in_range "0" c "9"
  || bool_decide (c ∈ ["-"; "_"; "."; "~"]%char).

Inductive encoding := encodePathSegment | encodeQueryComponent.

(** [shouldEscape] of net/url, for the two modes the program uses. *)
Definition shouldEscape (c : ascii) (mode : encoding) : bool :=
  if unreserved c then false
  else if bool_decide (c ∈ ["$"; "&"; "+"; ","; "/"; ":"; ";"; "="; "?"; "@"]%char) then
    match mode with
    | encodePathSegment => bool_decide (c ∈ ["/"; ";"; ","; "?"]%char)
    | encodeQueryComponent => true
    end
  else true.

Definition upperhex (n : N) : ascii :=
  if (n <? 10)%N then ascii_of_N (48 + n) else ascii_of_N (55 + n).

Fixpoint escape (s : string) (mode : encoding) : string :=
  match s with
  | EmptyString => EmptyString
  | String c s =>
      if bool_decide (c = " "%char) && (match mode with encodeQueryComponent => true | _ => false end)
      then String "+" (escape s mode)
      else if shouldEscape c mode then
        String "%" (String (upperhex (byte c / 16)) (String (upperhex (byte c mod 16)) (escape s mode)))
      else String c (escape s mode)
  end.

Definition PathEscape (s : string) : string := escape s encodePathSegment.
Definition QueryEscape (s : string) : string := escape s encodeQueryComponent.

(** ** encoding/base64, StdEncoding *)

Definition base64_digit (n : N) : ascii :=
  if (n <? 26)%N then ascii_of_N (65 + n)
  else if (n <? 52)%N then ascii_of_N (71 + n)
  else if (n <? 62)%N then ascii_of_N (n - 4)
  else if (n =? 62)%N then "+" else "/".

Fixpoint base64_EncodeToString (s : string) : string :=
  match s with
  | EmptyString => EmptyString
  | String a EmptyString =>
      let v := (byte a * 65536)%N in
      String (base64_digit (v / 262144))
        (String (base64_digit (v / 4096 mod 64)) "==")
  | String a (String b EmptyString) =>
      let v := (byte a * 65536 + byte b * 256)%N in
      String (base64_digit (v / 262144))
        (String (base64_digit (v / 4096 mod 64))
          (String (base64_digit (v / 64 mod 64)) "="))
  | String a (String b (String c s)) =>
      let v := (byte a * 65536 + byte b * 256 + byte c)%N in
      String (base64_digit (v / 262144))
        (String (base64_digit (v / 4096 mod 64))
          (String (base64_digit (v / 64 mod 64))
            (String (base64_digit (v mod 64)) (base64_EncodeToString s))))
  end.

(** ** encoding/json *)

(** The values the program marshals: strings, integers, booleans, slices, and
    maps with string keys (in any order; the encoder sorts them). *)
Inductive json :=
  | JString (s : string)
  | JInt (z : Z)
  | JBool (b : bool)
  | JArray (l : list json)
  | JObject (fields : list (string * json)).

Definition lowerhex (n : N) : ascii :=
  if (n <? 10)%N then ascii_of_N (48 + n) else ascii_of_N (87 + n).

Definition between (lo c hi : N) : bool := (lo <=? c)%N && (c <=? hi)%N.

(** The number of bytes of the UTF-8 sequence [s] starts with, when that byte
    is not ASCII; [None] when the sequence is malformed. *)
Definition utf8_size (s : string) : option nat :=
  match s with
  | String a (String b s) =>
      let a := byte a in let b := byte b in
      if between 194 a 223 then if between 128 b 191 then Some 2 else None
      else match s with
      | String c s =>
          let c := byte c in
          if between 224 a 239 then
            let lo := if (a =? 224)%N then 160%N else 128%N in
            let hi := if (a =? 237)%N then 159%N else 191%N in
            if between lo b hi && between 128 c 191 then Some 3 else None
          else match s with
          | String d _ =>
              if between 240 a 244 then
                let lo := if (a =? 240)%N then 144%N else 128%N in
                let hi := if (a =? 244)%N then 143%N else 191%N in
                if between lo b hi && between 128 c 191 && between 128 (byte d) 191
                then Some 4 else None
              else None
          | _ => None
          end
      | _ => None
      end
  | _ => None
  end.

Definition json_escape_ascii (c : ascii) : string :=
  if bool_decide (c ∈ ["034"; "\"]%char) then String "\" (String c "")
  else if bool_decide (c = "008"%char) then "\b"
  else if bool_decide (c = "012"%char) then "\f"
  else if bool_decide (c = "010"%char) then "\n"
  else if bool_decide (c = "013"%char) then "\r"
  else if bool_decide (c = "009"%char) then "\t"
  else if (byte c <? 32)%N || bool_decide (c ∈ ["<"; ">"; "&"]%char)
  then "\u00" +:+ String (lowerhex (byte c / 16)) (String (lowerhex (byte c mod 16)) "")
  else String c "".

(** The body of a JSON string: [copy] bytes of a multi-byte sequence remain to
    be copied verbatim. *)
Fixpoint json_escape (copy : nat) (s : string) : string :=
  match s with
  | EmptyString => EmptyString
  | String c s' =>
      match copy with
      | S n => String c (json_escape n s')
      | O =>
          if (byte c <? 128)%N then json_escape_ascii c +:+ json_escape 0 s'
          else match utf8_size s with
          | None => "\ufffd" +:+ json_escape 0 s'
          | Some n =>
              match s' with
              | String "128" (String "168" s'') =>
                  if bool_decide (c = "226"%char) then "\u2028" +:+ json_escape 0 s''
                  else String c (json_escape (pred n) s')
              | String "128" (String "169" s'') =>
                  if bool_decide (c = "226"%char) then "\u2029" +:+ json_escape 0 s''
                  else String c (json_escape (pred n) s')
              | _ => String c (json_escape (pred n) s')
              end
          end
      end
  end.

Definition json_quote (s : string) : string :=
  String "034" (json_escape 0 s +:+ String "034" "").

Definition key_le {V} : relation (string * V) := fun a b => String.leb a.1 b.1 = true.
#[export] Instance key_le_dec {V} (a b : string * V) : Decision (key_le a b).
Proof. unfold key_le. apply _. Defined.

(** [json.Marshal]: total on these values, so its error branch is never taken. *)
Fixpoint json_Marshal (j : json) : string :=
  match j with
  | JString s => json_quote s
  | JInt z => pretty z
  | JBool b => if b then "true" else "false"
  | JArray l => "[" +:+ Join (json_Marshal <$> l) "," +:+ "]"
  | JObject fs =>
      let fields := merge_sort key_le (prod_map id json_Marshal <$> fs) in
      "{" +:+ Join ((fun f => json_quote f.1 +:+ ":" +:+ f.2) <$> fields) "," +:+ "}"
  end.
