(* ===== verification/Api.v ===== *)
(** The data model: the Workspace API (api/v1alpha1/workspace_types.go) and the
    Kubernetes objects the operator reads and writes, with the fields it uses.

    Every object is an [object P]: metadata plus a payload [P]; [Kind] lists the
    kinds and [payload_of] gives the payload of each, so that the client's
    operations are typed by kind. *)
From S2P Require Import Prelude Errors GoStd.

(** ** Metadata *)

Record OwnerReference := mkOwnerReference {
  Owner_APIVersion : string;
  Owner_Kind : string;
  Owner_Name : string;
  Owner_UID : string;
  Owner_Controller : bool;
  Owner_BlockOwnerDeletion : bool;
}.

(** [metav1.ObjectMeta]; a zero time is [None]. *)
Record ObjectMeta := mkObjectMeta {
  Meta_Name : string;
  Meta_Namespace : string;
  Meta_UID : string;
  Meta_Generation : Z;
  Meta_Labels : gomap string;
  Meta_Annotations : gomap string;
  Meta_OwnerReferences : list OwnerReference;
  Meta_CreationTimestamp : option Z;
  Meta_DeletionTimestamp : option Z;
}.

(** The metadata of a Go literal that names the object and nothing else. *)
Definition named (name namespace : string) : ObjectMeta :=
  mkObjectMeta name namespace "" 0 None None [] None None.

Definition set_Labels (l : gomap string) (m : ObjectMeta) : ObjectMeta :=
  mkObjectMeta (Meta_Name m) (Meta_Namespace m) (Meta_UID m) (Meta_Generation m) l
    (Meta_Annotations m) (Meta_OwnerReferences m)
    (Meta_CreationTimestamp m) (Meta_DeletionTimestamp m).
Definition set_Annotations (a : gomap string) (m : ObjectMeta) : ObjectMeta :=
  mkObjectMeta (Meta_Name m) (Meta_Namespace m) (Meta_UID m) (Meta_Generation m)
    (Meta_Labels m) a (Meta_OwnerReferences m)
    (Meta_CreationTimestamp m) (Meta_DeletionTimestamp m).
Definition set_OwnerReferences (r : list OwnerReference) (m : ObjectMeta) : ObjectMeta :=
  mkObjectMeta (Meta_Name m) (Meta_Namespace m) (Meta_UID m) (Meta_Generation m)
    (Meta_Labels m) (Meta_Annotations m) r
    (Meta_CreationTimestamp m) (Meta_DeletionTimestamp m).

Record object (P : Type) := mkObject { metadata : ObjectMeta; payload : P }.
Arguments mkObject {P} _ _.
Arguments metadata {P} _.
Arguments payload {P} _.

Definition with_meta {P} (f : ObjectMeta → ObjectMeta) (o : object P) : object P :=
  mkObject (f (metadata o)) (payload o).
Definition with_payload {P} (p : P) (o : object P) : object P :=
  mkObject (metadata o) p.

(** ** Workspace *)

(** [MemberRole] is a Go string type: values other than the three constants are
    rejected by the CRD schema, not by the type. *)
Definition MemberRole := string.
Definition MemberRoleAdmin : MemberRole := "admin".
Definition MemberRoleEdit : MemberRole := "edit".
Definition MemberRoleView : MemberRole := "view".

(** Ordered from most to least privileged. *)
Definition AllMemberRoles : list MemberRole :=
  [MemberRoleAdmin; MemberRoleEdit; MemberRoleView].

Record WorkspaceMember := mkMember {
  Member_Role : MemberRole;
  Member_Subject : string;
  Member_Name : option string;
  Member_ServiceAccount : bool;
}.

Record NetworkIsolationSpec := mkNetworkIsolation {
  Isolation_Enabled : bool;
  Isolation_AllowedNamespaces : list string;
}.

(** [corev1.ResourceQuotaSpec] and [corev1.LimitRangeSpec], which the operator
    carries from the Workspace to the cluster without looking inside: their
    wire form. *)
Record ResourceQuotaSpec := mkResourceQuotaSpec { quota_wire : string }.
Record LimitRangeSpec := mkLimitRangeSpec { limits_wire : string }.

Record WorkspaceSpec := mkWorkspaceSpec {
  Spec_Namespace : string;
  Spec_Members : list WorkspaceMember;
  Spec_ResourceQuota : option ResourceQuotaSpec;
  Spec_LimitRange : option LimitRangeSpec;
  Spec_NetworkIsolation : NetworkIsolationSpec;
}.

Record ResourceReference := mkRef { Ref_Name : string; Ref_Namespace : string }.

(** [metav1.Condition]; the time is in seconds, 0 for the zero time. *)
Record Condition := mkCondition {
  Cond_Type : string;
  Cond_Status : string;
  Cond_ObservedGeneration : Z;
  Cond_LastTransitionTime : Z;
  Cond_Reason : string;
  Cond_Message : string;
}.

Definition ConditionTrue := "True".
Definition ConditionFalse := "False".

Record WorkspaceStatus := mkStatus {
  Status_ObservedGeneration : Z;
  Status_NamespaceRef : option ResourceReference;
  Status_ResourceQuotaRef : option ResourceReference;
  Status_LimitRangeRef : option ResourceReference;
  Status_RoleBindingRefs : list ResourceReference;
  Status_NetworkPolicyRef : option ResourceReference;
  Status_ImagePullSecretRef : option ResourceReference;
  Status_HelmRepositoryRef : option ResourceReference;
  Status_Conditions : list Condition;
}.

Record WorkspaceBody := mkWorkspaceBody { Spec : WorkspaceSpec; Status : WorkspaceStatus }.

Abbreviation Workspace := (object WorkspaceBody).

Definition W_Name (w : Workspace) : string := Meta_Name (metadata w).
Definition W_UID (w : Workspace) : string := Meta_UID (metadata w).
Definition W_Generation (w : Workspace) : Z := Meta_Generation (metadata w).
Definition W_Labels (w : Workspace) : gomap string := Meta_Labels (metadata w).
Definition W_Spec (w : Workspace) : WorkspaceSpec := Spec (payload w).
Definition W_Status (w : Workspace) : WorkspaceStatus := Status (payload w).
Definition W_Namespace (w : Workspace) : string := Spec_Namespace (W_Spec w).
Definition W_Members (w : Workspace) : list WorkspaceMember := Spec_Members (W_Spec w).

Definition set_W_Status (st : WorkspaceStatus) (w : Workspace) : Workspace :=
  with_payload (mkWorkspaceBody (W_Spec w) st) w.
Definition set_W_Namespace (ns : string) (w : Workspace) : Workspace :=
  with_payload (mkWorkspaceBody
    (mkWorkspaceSpec ns (W_Members w) (Spec_ResourceQuota (W_Spec w))
       (Spec_LimitRange (W_Spec w)) (Spec_NetworkIsolation (W_Spec w)))
    (W_Status w)) w.
Definition set_W_Labels (l : gomap string) (w : Workspace) : Workspace :=
  with_meta (set_Labels l) w.

(** ** The objects the operator manages *)

(** [rbacv1.Subject] and [rbacv1.RoleRef]. *)
Record Subject := mkSubject {
  Subject_Kind : string;
  Subject_APIGroup : string;
  Subject_Name : string;
  Subject_Namespace : string;
}.
Record RoleRef := mkRoleRef { RoleRef_APIGroup : string; RoleRef_Kind : string; RoleRef_Name : string }.
Record RoleBindingBody := mkRoleBindingBody { Subjects : list Subject; RoleRef_ : RoleRef }.

(** [corev1.Secret]: type and data, bytes as strings. *)
Record SecretBody := mkSecretBody { Secret_Type : string; Secret_Data : gomap string }.

(** [corev1.ServiceAccount]: the names of its imagePullSecrets. *)
Record ServiceAccountBody := mkServiceAccountBody { ImagePullSecrets : list string }.

(** [networkingv1.NetworkPolicySpec].  A label selector is its matchLabels (the
    empty selector selects everything); a peer's selectors may be unset. *)
Record LabelSelector := mkLabelSelector { MatchLabels : gmap string string }.
Record NetworkPolicyPeer := mkPeer {
  Peer_PodSelector : option LabelSelector;
  Peer_NamespaceSelector : option LabelSelector;
}.
Record NetworkPolicyIngressRule := mkIngressRule { Rule_From : list NetworkPolicyPeer }.
Record NetworkPolicySpec := mkNetworkPolicySpec {
  Policy_PodSelector : LabelSelector;
  Policy_PolicyTypes : list string;
  Policy_Ingress : list NetworkPolicyIngressRule;
}.

(** [sourcev1.HelmRepositorySpec]; the interval is in nanoseconds, as
    [time.Duration] is. *)
Record HelmRepositorySpec := mkHelmRepositorySpec {
  Helm_SecretRef : option string;
  Helm_Type : string;
  Helm_URL : string;
  Helm_Interval : Z;
  Helm_Insecure : bool;
}.

Inductive Kind :=
  | KWorkspace | KNamespace | KSecret | KConfigMap | KServiceAccount | KRoleBinding
  | KResourceQuota | KLimitRange | KNetworkPolicy | KHelmRepository.

Definition payload_of (k : Kind) : Type :=
  match k with
  | KWorkspace => WorkspaceBody
  | KNamespace => unit
  | KSecret => SecretBody
  | KConfigMap => gomap string
  | KServiceAccount => ServiceAccountBody
  | KRoleBinding => RoleBindingBody
  | KResourceQuota => ResourceQuotaSpec
  | KLimitRange => LimitRangeSpec
  | KNetworkPolicy => NetworkPolicySpec
  | KHelmRepository => HelmRepositorySpec
  end.

Abbreviation obj k := (object (payload_of k)).

(** The zero payload of each kind, as in [&corev1.Secret{Name: ..., ...}]. *)
Definition zero_payload (k : Kind) : payload_of k :=
  match k with
  | KWorkspace => mkWorkspaceBody (mkWorkspaceSpec "" [] None None (mkNetworkIsolation false []))
                    (mkStatus 0 None None None [] None None None [])
  | KNamespace => tt
  | KSecret => mkSecretBody "" None
  | KConfigMap => None
  | KServiceAccount => mkServiceAccountBody []
  | KRoleBinding => mkRoleBindingBody [] (mkRoleRef "" "" "")
  | KResourceQuota => mkResourceQuotaSpec "{}"
  | KLimitRange => mkLimitRangeSpec "{}"
  | KNetworkPolicy => mkNetworkPolicySpec (mkLabelSelector ∅) [] []
  | KHelmRepository => mkHelmRepositorySpec None "" "" 0 false
  end.

(** [types.NamespacedName] / [client.ObjectKey]. *)
Record ObjectKey := mkKey { Key_Namespace : string; Key_Name : string }.

(** NamespacedName.String(). *)
Definition ObjectKey_String (k : ObjectKey) : string :=
  Key_Namespace k +:+ "/" +:+ Key_Name k.

(** The object a Go composite literal with only name and namespace makes. *)
Definition literal (k : Kind) (key : ObjectKey) : obj k :=
  mkObject (named (Key_Name key) (Key_Namespace key)) (zero_payload k).

(** A [client.Object] of any kind. *)
Inductive AnyObject := Any (k : Kind) (o : obj k).

Definition Any_meta (a : AnyObject) : ObjectMeta :=
  match a with Any k o => metadata o end.
Definition GetName (a : AnyObject) : string := Meta_Name (Any_meta a).
Definition GetNamespace (a : AnyObject) : string := Meta_Namespace (Any_meta a).

(** ** Decidable equality *)

#[export] Instance OwnerReference_eq_dec : EqDecision OwnerReference.
Proof. solve_decision. Defined.
#[export] Instance ObjectMeta_eq_dec : EqDecision ObjectMeta.
Proof. solve_decision. Defined.
#[export] Instance object_eq_dec `{EqDecision P} : EqDecision (object P).
Proof. solve_decision. Defined.
#[export] Instance WorkspaceMember_eq_dec : EqDecision WorkspaceMember.
Proof. solve_decision. Defined.
#[export] Instance NetworkIsolationSpec_eq_dec : EqDecision NetworkIsolationSpec.
Proof. solve_decision. Defined.
#[export] Instance ResourceQuotaSpec_eq_dec : EqDecision ResourceQuotaSpec.
Proof. solve_decision. Defined.
#[export] Instance LimitRangeSpec_eq_dec : EqDecision LimitRangeSpec.
Proof. solve_decision. Defined.
#[export] Instance WorkspaceSpec_eq_dec : EqDecision WorkspaceSpec.
Proof. solve_decision. Defined.
#[export] Instance ResourceReference_eq_dec : EqDecision ResourceReference.
Proof. solve_decision. Defined.
#[export] Instance Condition_eq_dec : EqDecision Condition.
Proof. solve_decision. Defined.
#[export] Instance WorkspaceStatus_eq_dec : EqDecision WorkspaceStatus.
Proof. solve_decision. Defined.
#[export] Instance WorkspaceBody_eq_dec : EqDecision WorkspaceBody.
Proof. solve_decision. Defined.
#[export] Instance Subject_eq_dec : EqDecision Subject.
Proof. solve_decision. Defined.
#[export] Instance RoleRef_eq_dec : EqDecision RoleRef.
Proof. solve_decision. Defined.
#[export] Instance RoleBindingBody_eq_dec : EqDecision RoleBindingBody.
Proof. solve_decision. Defined.
#[export] Instance SecretBody_eq_dec : EqDecision SecretBody.
Proof. solve_decision. Defined.
#[export] Instance ServiceAccountBody_eq_dec : EqDecision ServiceAccountBody.
Proof. solve_decision. Defined.
#[export] Instance LabelSelector_eq_dec : EqDecision LabelSelector.
Proof. solve_decision. Defined.
#[export] Instance NetworkPolicyPeer_eq_dec : EqDecision NetworkPolicyPeer.
Proof. solve_decision. Defined.
#[export] Instance NetworkPolicyIngressRule_eq_dec : EqDecision NetworkPolicyIngressRule.
Proof. solve_decision. Defined.
#[export] Instance NetworkPolicySpec_eq_dec : EqDecision NetworkPolicySpec.
Proof. solve_decision. Defined.
#[export] Instance HelmRepositorySpec_eq_dec : EqDecision HelmRepositorySpec.
Proof. solve_decision. Defined.
#[export] Instance Kind_eq_dec : EqDecision Kind.
Proof. solve_decision. Defined.
#[export] Instance payload_eq_dec k : EqDecision (payload_of k).
Proof. destruct k; apply _. Defined.
#[export] Instance ObjectKey_eq_dec : EqDecision ObjectKey.
Proof. solve_decision. Defined.
#[export] Instance ObjectKey_countable : Countable ObjectKey.
Proof.
  refine (inj_countable' (fun k => (Key_Namespace k, Key_Name k))
            (fun p => mkKey p.1 p.2) _). by intros [].
Defined.

(** ** Metadata lemmas *)

Section meta.
Implicit Types (m : ObjectMeta).

Lemma set_Labels_id m : set_Labels (Meta_Labels m) m = m.
Proof. by destruct m. Qed.
Lemma set_Annotations_id m : set_Annotations (Meta_Annotations m) m = m.
Proof. by destruct m. Qed.
Lemma set_OwnerReferences_id m : set_OwnerReferences (Meta_OwnerReferences m) m = m.
Proof. by destruct m. Qed.
End meta.
