(* ===== verification/DeepCopy.v ===== *)
(** The generated deep copies (api/v1alpha1/zz_generated.deepcopy.go), over the
    heap of Heap.v.

    Elsewhere the development takes a Workspace as a plain value.  Here it is
    what Go has: structs with pointers, slices and maps in a heap, which two
    variables may share.  A [DeepCopyInto] takes what [*in] holds and returns
    what it leaves in [*out], the destination being overwritten first thing
    ([*out = *in]); a [DeepCopy] works on pointers.  The theorems say that a
    copy stands for the same plain value and shares no cell with the original,
    which is what lets the rest of the development ignore sharing. *)
From S2P Require Import Prelude Errors GoStd Heap Api.

(** ** Types of other packages *)

(** Their Go representation, what their pointers point at, and their zero values. *)
Class GoLib := {
  GoObjectMeta : Type;
  GoListMeta : Type;
  GoResourceQuotaSpec : Type;
  GoLimitRangeSpec : Type;
  foreign_cell : Type;
  GoObjectMeta_zero : GoObjectMeta;
  GoListMeta_zero : GoListMeta;
  GoResourceQuotaSpec_zero : GoResourceQuotaSpec;
  GoLimitRangeSpec_zero : GoLimitRangeSpec;
  go_Generation : GoObjectMeta → Z;
}.

(** ** The types of the package *)

(** [metav1.TypeMeta] and the plain value of [metav1.ListMeta]. *)
Record TypeMeta := mkTypeMeta { TypeMeta_Kind : string; TypeMeta_APIVersion : string }.
Record ListMeta := mkListMeta {
  List_ResourceVersion : string;
  List_Continue : string;
  List_RemainingItemCount : option Z;
}.

Section types.
Context {GL : GoLib}.

Record GoWorkspaceMember := mkGoMember {
  go_Role : MemberRole;
  go_Subject : string;
  go_Name : option (ptr string);
  go_ServiceAccount : bool;
}.

Record GoNetworkIsolationSpec := mkGoIsolation {
  go_Enabled : bool;
  go_AllowedNamespaces : option (slice string);
}.

Record GoWorkspaceSpec := mkGoSpec {
  go_Namespace : string;
  go_Members : option (slice GoWorkspaceMember);
  go_ResourceQuota : option (ptr GoResourceQuotaSpec);
  go_LimitRange : option (ptr GoLimitRangeSpec);
  go_NetworkIsolation : GoNetworkIsolationSpec;
}.

Record GoWorkspaceStatus := mkGoStatus {
  go_ObservedGeneration : Z;
  go_NamespaceRef : option (ptr ResourceReference);
  go_ResourceQuotaRef : option (ptr ResourceReference);
  go_LimitRangeRef : option (ptr ResourceReference);
  go_RoleBindingRefs : option (slice ResourceReference);
  go_NetworkPolicyRef : option (ptr ResourceReference);
  go_ImagePullSecretRef : option (ptr ResourceReference);
  go_HelmRepositoryRef : option (ptr ResourceReference);
  go_Conditions : option (slice Condition);
}.

Record GoWorkspace := mkGoWorkspace {
  go_TypeMeta : TypeMeta;
  go_ObjectMeta : GoObjectMeta;
  go_Spec : GoWorkspaceSpec;
  go_Status : GoWorkspaceStatus;
}.

Record GoWorkspaceList := mkGoWorkspaceList {
  go_ListTypeMeta : TypeMeta;
  go_ListMeta : GoListMeta;
  go_Items : option (slice GoWorkspace);
}.

(** What a pointer or a slice of these types can point at. *)
Inductive cell :=
  | CString (s : string) | CReference (x : ResourceReference)
  | CQuota (x : GoResourceQuotaSpec) | CLimits (x : GoLimitRangeSpec)
  | CMember (x : GoWorkspaceMember) | CIsolation (x : GoNetworkIsolationSpec)
  | CSpec (x : GoWorkspaceSpec) | CStatus (x : GoWorkspaceStatus)
  | CWorkspace (x : GoWorkspace) | CWorkspaceList (x : GoWorkspaceList)
  | CStrings (x : list string) | CReferences (x : list ResourceReference)
  | CConditions (x : list Condition) | CMembers (x : list GoWorkspaceMember)
  | CWorkspaces (x : list GoWorkspace)
  | CForeign (x : foreign_cell).

#[export] Instance string_stored : Stored cell string :=
  {| pack := CString; unpack c := match c with CString x => Some x | _ => None end; unpack_pack _ := eq_refl |}.
#[export] Instance reference_stored : Stored cell ResourceReference :=
  {| pack := CReference; unpack c := match c with CReference x => Some x | _ => None end; unpack_pack _ := eq_refl |}.
#[export] Instance quota_stored : Stored cell GoResourceQuotaSpec :=
  {| pack := CQuota; unpack c := match c with CQuota x => Some x | _ => None end; unpack_pack _ := eq_refl |}.
#[export] Instance limits_stored : Stored cell GoLimitRangeSpec :=
  {| pack := CLimits; unpack c := match c with CLimits x => Some x | _ => None end; unpack_pack _ := eq_refl |}.
#[export] Instance member_stored : Stored cell GoWorkspaceMember :=
  {| pack := CMember; unpack c := match c with CMember x => Some x | _ => None end; unpack_pack _ := eq_refl |}.
#[export] Instance isolation_stored : Stored cell GoNetworkIsolationSpec :=
  {| pack := CIsolation; unpack c := match c with CIsolation x => Some x | _ => None end; unpack_pack _ := eq_refl |}.
#[export] Instance spec_stored : Stored cell GoWorkspaceSpec :=
  {| pack := CSpec; unpack c := match c with CSpec x => Some x | _ => None end; unpack_pack _ := eq_refl |}.
#[export] Instance status_stored : Stored cell GoWorkspaceStatus :=
  {| pack := CStatus; unpack c := match c with CStatus x => Some x | _ => None end; unpack_pack _ := eq_refl |}.
#[export] Instance workspace_stored : Stored cell GoWorkspace :=
  {| pack := CWorkspace; unpack c := match c with CWorkspace x => Some x | _ => None end; unpack_pack _ := eq_refl |}.
#[export] Instance workspacelist_stored : Stored cell GoWorkspaceList :=
  {| pack := CWorkspaceList; unpack c := match c with CWorkspaceList x => Some x | _ => None end; unpack_pack _ := eq_refl |}.
#[export] Instance strings_stored : Stored cell (list string) :=
  {| pack := CStrings; unpack c := match c with CStrings x => Some x | _ => None end; unpack_pack _ := eq_refl |}.
#[export] Instance references_stored : Stored cell (list ResourceReference) :=
  {| pack := CReferences; unpack c := match c with CReferences x => Some x | _ => None end; unpack_pack _ := eq_refl |}.
#[export] Instance conditions_stored : Stored cell (list Condition) :=
  {| pack := CConditions; unpack c := match c with CConditions x => Some x | _ => None end; unpack_pack _ := eq_refl |}.
#[export] Instance members_stored : Stored cell (list GoWorkspaceMember) :=
  {| pack := CMembers; unpack c := match c with CMembers x => Some x | _ => None end; unpack_pack _ := eq_refl |}.
#[export] Instance workspaces_stored : Stored cell (list GoWorkspace) :=
  {| pack := CWorkspaces; unpack c := match c with CWorkspaces x => Some x | _ => None end; unpack_pack _ := eq_refl |}.

#[export] Instance string_zero : Zero string := "".
#[export] Instance reference_zero : Zero ResourceReference := mkRef "" "".
#[export] Instance condition_zero : Zero Condition := mkCondition "" "" 0 0 "" "".
#[export] Instance quota_zero : Zero GoResourceQuotaSpec := GoResourceQuotaSpec_zero.
#[export] Instance limits_zero : Zero GoLimitRangeSpec := GoLimitRangeSpec_zero.
#[export] Instance member_zero : Zero GoWorkspaceMember := mkGoMember "" "" None false.
#[export] Instance isolation_zero : Zero GoNetworkIsolationSpec := mkGoIsolation false None.
#[export] Instance spec_zero : Zero GoWorkspaceSpec := mkGoSpec "" None None None zero.
#[export] Instance status_zero : Zero GoWorkspaceStatus := mkGoStatus 0 None None None None None None None None.
#[export] Instance workspace_zero : Zero GoWorkspace :=
  mkGoWorkspace (mkTypeMeta "" "") GoObjectMeta_zero zero zero.
#[export] Instance workspacelist_zero : Zero GoWorkspaceList :=
  mkGoWorkspaceList (mkTypeMeta "" "") GoListMeta_zero None.
End types.
Arguments cell : clear implicits.
Arguments cell {GL}.

(** ** The copies of other packages *)

Class GoCopies `{GL : GoLib} := {
  ObjectMeta_DeepCopyInto : GoObjectMeta → heapM cell GoObjectMeta;
  ListMeta_DeepCopyInto : GoListMeta → heapM cell GoListMeta;
  ResourceQuotaSpec_DeepCopyInto : GoResourceQuotaSpec → heapM cell GoResourceQuotaSpec;
  LimitRangeSpec_DeepCopyInto : GoLimitRangeSpec → heapM cell GoLimitRangeSpec;
  Condition_DeepCopyInto : Condition → heapM cell Condition;
  #[global] rep_ObjectMeta :: Rep cell GoObjectMeta ObjectMeta;
  #[global] rep_ListMeta :: Rep cell GoListMeta ListMeta;
  #[global] rep_ResourceQuotaSpec :: Rep cell GoResourceQuotaSpec ResourceQuotaSpec;
  #[global] rep_LimitRangeSpec :: Rep cell GoLimitRangeSpec LimitRangeSpec;
}.

(** ** The generated functions *)

Section functions.
Context {GL : GoLib} {GC : GoCopies}.

Definition NetworkIsolationSpec_DeepCopyInto (in_ : GoNetworkIsolationSpec) : heapM cell GoNetworkIsolationSpec :=
  allowed ← copy_slice mret (go_AllowedNamespaces in_);
  mret (mkGoIsolation (go_Enabled in_) allowed).

Definition NetworkIsolationSpec_DeepCopy := copy_ptr NetworkIsolationSpec_DeepCopyInto.

Definition ResourceReference_DeepCopyInto (in_ : ResourceReference) : heapM cell ResourceReference := mret in_.

Definition ResourceReference_DeepCopy := copy_ptr ResourceReference_DeepCopyInto.

Definition WorkspaceMember_DeepCopyInto (in_ : GoWorkspaceMember) : heapM cell GoWorkspaceMember :=
  name ← copy_ptr mret (go_Name in_);
  mret (mkGoMember (go_Role in_) (go_Subject in_) name (go_ServiceAccount in_)).

Definition WorkspaceMember_DeepCopy := copy_ptr WorkspaceMember_DeepCopyInto.

Definition WorkspaceSpec_DeepCopyInto (in_ : GoWorkspaceSpec) : heapM cell GoWorkspaceSpec :=
  members ← copy_slice WorkspaceMember_DeepCopyInto (go_Members in_);
  quota ← copy_ptr ResourceQuotaSpec_DeepCopyInto (go_ResourceQuota in_);
  limits ← copy_ptr LimitRangeSpec_DeepCopyInto (go_LimitRange in_);
  isolation ← NetworkIsolationSpec_DeepCopyInto (go_NetworkIsolation in_);
  mret (mkGoSpec (go_Namespace in_) members quota limits isolation).

Definition WorkspaceSpec_DeepCopy := copy_ptr WorkspaceSpec_DeepCopyInto.

Definition WorkspaceStatus_DeepCopyInto (in_ : GoWorkspaceStatus) : heapM cell GoWorkspaceStatus :=
  namespace ← copy_ptr mret (go_NamespaceRef in_);
  quota ← copy_ptr mret (go_ResourceQuotaRef in_);
  limits ← copy_ptr mret (go_LimitRangeRef in_);
  bindings ← copy_slice mret (go_RoleBindingRefs in_);
  policy ← copy_ptr mret (go_NetworkPolicyRef in_);
  secret ← copy_ptr mret (go_ImagePullSecretRef in_);
  helm ← copy_ptr mret (go_HelmRepositoryRef in_);
  conditions ← copy_slice Condition_DeepCopyInto (go_Conditions in_);
  mret (mkGoStatus (go_ObservedGeneration in_) namespace quota limits bindings policy secret helm conditions).

Definition WorkspaceStatus_DeepCopy := copy_ptr WorkspaceStatus_DeepCopyInto.

Definition Workspace_DeepCopyInto (in_ : GoWorkspace) : heapM cell GoWorkspace :=
  meta ← ObjectMeta_DeepCopyInto (go_ObjectMeta in_);
  spec ← WorkspaceSpec_DeepCopyInto (go_Spec in_);
  status ← WorkspaceStatus_DeepCopyInto (go_Status in_);
  mret (mkGoWorkspace (go_TypeMeta in_) meta spec status).

Definition Workspace_DeepCopy := copy_ptr Workspace_DeepCopyInto.

(** A nil copy becomes a nil interface. *)
Definition Workspace_DeepCopyObject (in_ : option (ptr GoWorkspace)) : heapM cell (option (ptr GoWorkspace)) :=
  c ← Workspace_DeepCopy in_;
  match c with Some c => mret (Some c) | None => mret None end.

Definition WorkspaceList_DeepCopyInto (in_ : GoWorkspaceList) : heapM cell GoWorkspaceList :=
  meta ← ListMeta_DeepCopyInto (go_ListMeta in_);
  items ← copy_slice Workspace_DeepCopyInto (go_Items in_);
  mret (mkGoWorkspaceList (go_ListTypeMeta in_) meta items).

Definition WorkspaceList_DeepCopy := copy_ptr WorkspaceList_DeepCopyInto.

Definition WorkspaceList_DeepCopyObject (in_ : option (ptr GoWorkspaceList))
    : heapM cell (option (ptr GoWorkspaceList)) :=
  c ← WorkspaceList_DeepCopy in_;
  match c with Some c => mret (Some c) | None => mret None end.

(** ** The plain values they stand for *)

#[export] Instance rep_string : Rep cell string string := rep_flat.
#[export] Instance rep_reference : Rep cell ResourceReference ResourceReference := rep_flat.
#[export] Instance rep_condition : Rep cell Condition Condition := rep_flat.

#[export] Instance rep_isolation : Rep cell GoNetworkIsolationSpec NetworkIsolationSpec := fun h x v L =>
  go_Enabled x = Isolation_Enabled v ∧ rep h (go_AllowedNamespaces x) (Isolation_AllowedNamespaces v) L.

#[export] Instance rep_member : Rep cell GoWorkspaceMember WorkspaceMember := fun h x v L =>
  go_Role x = Member_Role v ∧ go_Subject x = Member_Subject v ∧
  go_ServiceAccount x = Member_ServiceAccount v ∧ rep h (go_Name x) (Member_Name v) L.

#[export] Instance rep_spec : Rep cell GoWorkspaceSpec WorkspaceSpec := fun h x v L =>
  go_Namespace x = Spec_Namespace v ∧ ∃ L1 L2 L3 L4,
    rep h (go_Members x) (Spec_Members v) L1 ∧ rep h (go_ResourceQuota x) (Spec_ResourceQuota v) L2 ∧
    rep h (go_LimitRange x) (Spec_LimitRange v) L3 ∧
    rep h (go_NetworkIsolation x) (Spec_NetworkIsolation v) L4 ∧ L = L1 ∪ L2 ∪ L3 ∪ L4.

#[export] Instance rep_status : Rep cell GoWorkspaceStatus WorkspaceStatus := fun h x v L =>
  go_ObservedGeneration x = Status_ObservedGeneration v ∧ ∃ L1 L2 L3 L4 L5 L6 L7 L8,
    rep h (go_NamespaceRef x) (Status_NamespaceRef v) L1 ∧
    rep h (go_ResourceQuotaRef x) (Status_ResourceQuotaRef v) L2 ∧
    rep h (go_LimitRangeRef x) (Status_LimitRangeRef v) L3 ∧
    rep h (go_RoleBindingRefs x) (Status_RoleBindingRefs v) L4 ∧
    rep h (go_NetworkPolicyRef x) (Status_NetworkPolicyRef v) L5 ∧
    rep h (go_ImagePullSecretRef x) (Status_ImagePullSecretRef v) L6 ∧
    rep h (go_HelmRepositoryRef x) (Status_HelmRepositoryRef v) L7 ∧
    rep h (go_Conditions x) (Status_Conditions v) L8 ∧
    L = L1 ∪ L2 ∪ L3 ∪ L4 ∪ L5 ∪ L6 ∪ L7 ∪ L8.

#[export] Instance rep_workspace : Rep cell GoWorkspace (TypeMeta * Workspace) := fun h x v L =>
  go_TypeMeta x = v.1 ∧ ∃ L1 L2 L3,
    rep h (go_ObjectMeta x) (metadata v.2) L1 ∧ rep h (go_Spec x) (W_Spec v.2) L2 ∧
    rep h (go_Status x) (W_Status v.2) L3 ∧ L = L1 ∪ L2 ∪ L3.

#[export] Instance rep_workspacelist : Rep cell GoWorkspaceList (TypeMeta * ListMeta * list (TypeMeta * Workspace)) :=
  fun h x v L =>
  go_ListTypeMeta x = v.1.1 ∧ ∃ L1 L2,
    rep h (go_ListMeta x) v.1.2 L1 ∧ rep h (go_Items x) v.2 L2 ∧ L = L1 ∪ L2.
End functions.

(** The contracts of the other packages' copies; none of their types holds a
    slice of conditions. *)
Class GoCopiesLaws `{GoCopies} : Prop := {
  #[global] laws_ObjectMeta :: RepLaws cell GoObjectMeta ObjectMeta;
  #[global] laws_ListMeta :: RepLaws cell GoListMeta ListMeta;
  #[global] laws_ResourceQuotaSpec :: RepLaws cell GoResourceQuotaSpec ResourceQuotaSpec;
  #[global] laws_LimitRangeSpec :: RepLaws cell GoLimitRangeSpec LimitRangeSpec;
  ObjectMeta_copies : copies ObjectMeta ObjectMeta_DeepCopyInto;
  ListMeta_copies : copies ListMeta ListMeta_DeepCopyInto;
  ResourceQuotaSpec_copies : copies ResourceQuotaSpec ResourceQuotaSpec_DeepCopyInto;
  LimitRangeSpec_copies : copies LimitRangeSpec LimitRangeSpec_DeepCopyInto;
  Condition_copies : copies Condition Condition_DeepCopyInto;
  go_Generation_rep h x v L : rep h x v L → go_Generation x = Meta_Generation v;
  ObjectMeta_no_conditions h (x : GoObjectMeta) (v : ObjectMeta) L l cs :
    rep h x v L → l ∈ L → h !! l ≠ Some (CConditions cs);
  ResourceQuotaSpec_no_conditions h (x : GoResourceQuotaSpec) (v : ResourceQuotaSpec) L l cs :
    rep h x v L → l ∈ L → h !! l ≠ Some (CConditions cs);
  LimitRangeSpec_no_conditions h (x : GoLimitRangeSpec) (v : LimitRangeSpec) L l cs :
    rep h x v L → l ∈ L → h !! l ≠ Some (CConditions cs);
}.

Section laws.
Context {GL : GoLib} {GC : GoCopies} {GCL : GoCopiesLaws}.

#[export] Instance laws_string : RepLaws cell string string := rep_flat_laws.
#[export] Instance laws_reference : RepLaws cell ResourceReference ResourceReference := rep_flat_laws.
#[export] Instance laws_condition : RepLaws cell Condition Condition := rep_flat_laws.

(** The parts of a struct still stand for what they stood for, and lie in the heap. *)
Ltac parts_agree Hag :=
  split_and!; try reflexivity; (eapply rep_agree; [eassumption|]); intros ? ?; apply Hag; set_solver.
Ltac parts_dom :=
  repeat match goal with H : rep _ _ _ _ |- _ => apply rep_dom in H end; set_solver.

#[export] Instance laws_isolation : RepLaws cell GoNetworkIsolationSpec NetworkIsolationSpec.
Proof.
  split; [intros h h' x v L [He H1] Hag; split; [done|by eapply rep_agree]|by intros h x v L [_ H1%rep_dom]].
Qed.

#[export] Instance laws_member : RepLaws cell GoWorkspaceMember WorkspaceMember.
Proof.
  split; [|by intros h x v L (_ & _ & _ & H1%rep_dom)].
  intros h h' x v L (Hr & Hs & Ha & H1) Hag. split_and!; [done..|by eapply rep_agree].
Qed.

#[export] Instance laws_spec : RepLaws cell GoWorkspaceSpec WorkspaceSpec.
Proof.
  split.
  - intros h h' x v L (Hn & L1 & L2 & L3 & L4 & H1 & H2 & H3 & H4 & ->) Hag.
    split; [done|]. exists L1, L2, L3, L4. parts_agree Hag.
  - intros h x v L (Hn & L1 & L2 & L3 & L4 & H1 & H2 & H3 & H4 & ->). parts_dom.
Qed.

#[export] Instance laws_status : RepLaws cell GoWorkspaceStatus WorkspaceStatus.
Proof.
  split.
  - intros h h' x v L (Hn & L1 & L2 & L3 & L4 & L5 & L6 & L7 & L8 & H1 & H2 & H3 & H4 & H5 & H6 & H7 & H8 & ->) Hag.
    split; [done|]. exists L1, L2, L3, L4, L5, L6, L7, L8. parts_agree Hag.
  - intros h x v L (Hn & L1 & L2 & L3 & L4 & L5 & L6 & L7 & L8 & H1 & H2 & H3 & H4 & H5 & H6 & H7 & H8 & ->).
    parts_dom.
Qed.

#[export] Instance laws_workspace : RepLaws cell GoWorkspace (TypeMeta * Workspace).
Proof.
  split.
  - intros h h' x v L (Hn & L1 & L2 & L3 & H1 & H2 & H3 & ->) Hag.
    split; [done|]. exists L1, L2, L3. parts_agree Hag.
  - intros h x v L (Hn & L1 & L2 & L3 & H1 & H2 & H3 & ->). parts_dom.
Qed.

#[export] Instance laws_workspacelist :
  RepLaws cell GoWorkspaceList (TypeMeta * ListMeta * list (TypeMeta * Workspace)).
Proof.
  split.
  - intros h h' x v L (Hn & L1 & L2 & H1 & H2 & ->) Hag.
    split; [done|]. exists L1, L2. parts_agree Hag.
  - intros h x v L (Hn & L1 & L2 & H1 & H2 & ->). parts_dom.
Qed.
End laws.

(** ** The copies are deep *)

Section copies.
Context {GL : GoLib} {GC : GoCopies} {GCL : GoCopiesLaws}.

(** The copied parts still stand for what they stood for when they were copied. *)
Ltac parts_kept :=
  split_and!; try reflexivity;
  match goal with Hr : rep ?h ?x _ _ |- rep ?h' ?x _ _ =>
    first [exact Hr | apply (rep_mono h h'); [assumption|exact Hr]]
  end.

Lemma copies_name : copies (option string) (copy_ptr (T := string) mret).
Proof. apply copies_ptr, copies_flat. Qed.

Lemma copies_names : copies (list string) (copy_slice (T := string) mret).
Proof. apply copies_slice, copies_flat. Qed.

Lemma copies_reference : copies (option ResourceReference) (copy_ptr (T := ResourceReference) mret).
Proof. apply copies_ptr, copies_flat. Qed.

Lemma copies_references : copies (list ResourceReference) (copy_slice (T := ResourceReference) mret).
Proof. apply copies_slice, copies_flat. Qed.

Lemma NetworkIsolationSpec_copies : copies NetworkIsolationSpec NetworkIsolationSpec_DeepCopyInto.
Proof.
  apply copies_extends. intros h x v L [He H1].
  copy_field H1 copies_names. apply extends_ret. eexists. split; [|done]. split; done.
Qed.

Lemma WorkspaceMember_copies : copies WorkspaceMember WorkspaceMember_DeepCopyInto.
Proof.
  apply copies_extends. intros h x v L (Hr & Hs & Ha & H1).
  copy_field H1 copies_name. apply extends_ret. eexists. split; [|done]. split_and!; done.
Qed.

Lemma WorkspaceSpec_copies : copies WorkspaceSpec WorkspaceSpec_DeepCopyInto.
Proof.
  apply copies_extends. intros h x v L (Hn & L1 & L2 & L3 & L4 & H1 & H2 & H3 & H4 & ->).
  copy_field H1 (copies_slice _ WorkspaceMember_copies).
  copy_field H2 (copies_ptr _ ResourceQuotaSpec_copies).
  copy_field H3 (copies_ptr _ LimitRangeSpec_copies).
  copy_field H4 NetworkIsolationSpec_copies.
  apply extends_ret. eexists. split; [split; [done|]; do 4 eexists; parts_kept|set_solver].
Qed.

Lemma WorkspaceStatus_copies : copies WorkspaceStatus WorkspaceStatus_DeepCopyInto.
Proof.
  apply copies_extends. intros h x v L (Hn & L1 & L2 & L3 & L4 & L5 & L6 & L7 & L8 & H1 & H2 & H3 & H4 & H5 & H6 & H7 & H8 & ->).
  copy_field H1 copies_reference. copy_field H2 copies_reference. copy_field H3 copies_reference.
  copy_field H4 copies_references. copy_field H5 copies_reference. copy_field H6 copies_reference.
  copy_field H7 copies_reference. copy_field H8 (copies_slice _ Condition_copies).
  apply extends_ret. eexists. split; [split; [done|]; do 8 eexists; parts_kept|set_solver].
Qed.

Lemma Workspace_copies : copies (TypeMeta * Workspace) Workspace_DeepCopyInto.
Proof.
  apply copies_extends. intros h x v L (Hn & L1 & L2 & L3 & H1 & H2 & H3 & ->).
  copy_field H1 ObjectMeta_copies. copy_field H2 WorkspaceSpec_copies. copy_field H3 WorkspaceStatus_copies.
  apply extends_ret. eexists. split; [split; [done|]; do 3 eexists; parts_kept|set_solver].
Qed.

Lemma WorkspaceList_copies :
  copies (TypeMeta * ListMeta * list (TypeMeta * Workspace)) WorkspaceList_DeepCopyInto.
Proof.
  apply copies_extends. intros h x v L (Hn & L1 & L2 & H1 & H2 & ->).
  copy_field H1 ListMeta_copies. copy_field H2 (copies_slice _ Workspace_copies).
  apply extends_ret. eexists. split; [split; [done|]; do 2 eexists; parts_kept|set_solver].
Qed.

(** [Workspace_DeepCopyObject] only turns a nil pointer into a nil interface. *)
Lemma Workspace_DeepCopyObject_eq p h : Workspace_DeepCopyObject p h = Workspace_DeepCopy p h.
Proof. unfold Workspace_DeepCopyObject, mbind, heapM_bind. by destruct (Workspace_DeepCopy p h) as [[[]]|]. Qed.

Lemma WorkspaceList_DeepCopyObject_eq p h : WorkspaceList_DeepCopyObject p h = WorkspaceList_DeepCopy p h.
Proof. unfold WorkspaceList_DeepCopyObject, mbind, heapM_bind. by destruct (WorkspaceList_DeepCopy p h) as [[[]]|]. Qed.

(** C29. Every generated DeepCopy and DeepCopyObject is a deep copy: from any heap in
    which the pointer stands for a value (nil for none) it returns without a
    panic a pointer that stands for the same value, every cell it can reach did
    not exist before, and every cell that existed is unchanged; so no write
    through either of the two is seen through the other. *)
Theorem DeepCopy_deep :
  copies (option NetworkIsolationSpec) NetworkIsolationSpec_DeepCopy ∧
  copies (option ResourceReference) ResourceReference_DeepCopy ∧
  copies (option WorkspaceMember) WorkspaceMember_DeepCopy ∧
  copies (option WorkspaceSpec) WorkspaceSpec_DeepCopy ∧
  copies (option WorkspaceStatus) WorkspaceStatus_DeepCopy ∧
  copies (option (TypeMeta * Workspace)) Workspace_DeepCopy ∧
  copies (option (TypeMeta * Workspace)) Workspace_DeepCopyObject ∧
  copies (option (TypeMeta * ListMeta * list (TypeMeta * Workspace))) WorkspaceList_DeepCopy ∧
  copies (option (TypeMeta * ListMeta * list (TypeMeta * Workspace))) WorkspaceList_DeepCopyObject.
Proof.
  pose proof (copies_ptr _ Workspace_copies) as Hw. pose proof (copies_ptr _ WorkspaceList_copies) as Hl.
  split_and!; try done.
  - apply copies_ptr, NetworkIsolationSpec_copies.
  - apply copies_ptr, copies_flat.
  - apply copies_ptr, WorkspaceMember_copies.
  - apply copies_ptr, WorkspaceSpec_copies.
  - apply copies_ptr, WorkspaceStatus_copies.
  - intros h p v L Hp. rewrite Workspace_DeepCopyObject_eq. exact (Hw h p v L Hp).
  - intros h p v L Hp. rewrite WorkspaceList_DeepCopyObject_eq. exact (Hl h p v L Hp).
Qed.
End copies.
