(* ===== verification/Updates.v ===== *)
(** Updates in place of what a pointer points to, and of what that reaches.

    [holds h p v L]: [p] points to a value that stands for [v] and reaches the
    cells [L], [p]'s own not among them.  [updates p v m v']: from any heap where
    [p] holds [v], the operation [m] returns, [p] then holds [v'], the only cells
    written are [p]'s and those that [v] reached, and [v'] reaches some of these
    and new ones.  Such steps compose. *)
From S2P Require Import Prelude Heap.

(** No cell is lost, and none outside [S] is changed. *)
Definition writes {cell} (h h' : gmap loc cell) (S : gset loc) : Prop :=
  dom h ⊆ dom h' ∧ ∀ l, l ∈ dom h → l ∉ S → h' !! l = h !! l.

Section updates.
Context {cell : Type}.
Implicit Types (h : gmap loc cell) (l : loc) (S L : gset loc).

Lemma writes_refl h S : writes h h S.
Proof. by split. Qed.

Lemma writes_trans h1 h2 h3 S S' :
  writes h1 h2 S → writes h2 h3 S' → (∀ l, l ∈ dom h1 → l ∈ S' → l ∈ S) → writes h1 h3 S.
Proof.
  intros [Hd1 H1] [Hd2 H2] HS. split; [by etrans|]. intros l Hl HlS.
  rewrite H2; [by apply H1|by apply Hd1|]. intros Hl'. apply HlS. by apply HS.
Qed.

Lemma writes_weaken h h' S S' : writes h h' S → S ⊆ S' → writes h h' S'.
Proof. intros [Hd Hw] HS. split; [done|]. intros l Hl Hn. apply Hw; [done|set_solver]. Qed.

Lemma writes_insert h l c : l ∈ dom h → writes h (<[l := c]> h) {[l]}.
Proof. intros Hl. split; [set_solver|]. intros l' _ Hl'. apply lookup_insert_ne. set_solver. Qed.

Lemma subseteq_writes h h' S : h ⊆ h' → writes h h' S.
Proof.
  intros Hs. split; [by apply subseteq_dom|]. intros l [c Hc]%elem_of_dom _.
  rewrite Hc. by eapply lookup_weaken.
Qed.

Lemma writes_subseteq h h' S : writes h h' S → S ## dom h → h ⊆ h'.
Proof.
  intros [Hd Hw] HS. apply map_subseteq_spec. intros l c Hl. rewrite Hw; [done| |].
  - by eapply elem_of_dom_2.
  - apply elem_of_dom_2 in Hl. set_solver.
Qed.

(** The operation returns, in a heap of [Q]. *)
Definition reaches {A} (m : heapM cell A) h (Q : A → gmap loc cell → Prop) : Prop :=
  ∃ a h', m h = Some (a, h') ∧ Q a h'.

Lemma reaches_ret {A} (a : A) h Q : Q a h → reaches (mret a) h Q.
Proof. intros HQ. by exists a, h. Qed.

Lemma reaches_bind {A B} (m : heapM cell A) (k : A → heapM cell B) h Q :
  reaches m h (fun a h1 => reaches (k a) h1 Q) → reaches (m ≫= k) h Q.
Proof.
  intros (a & h1 & Hm & b & h2 & Hk & HQ). exists b, h2. split; [|done].
  unfold mbind, heapM_bind. by rewrite Hm.
Qed.

Lemma reaches_mono {A} (m : heapM cell A) h (Q Q' : A → gmap loc cell → Prop) :
  reaches m h Q → (∀ a h', Q a h' → Q' a h') → reaches m h Q'.
Proof. intros (a & h' & Hm & HQ) Himp. exists a, h'. split; [done|by apply Himp]. Qed.

Lemma reaches_new `{!Stored cell T} h (x : T) : reaches (new_ x) h (fun p h' =>
  h ⊆ h' ∧ addr p ∉ dom h ∧ h' !! addr p = Some (pack x)).
Proof.
  eexists _, _. split; [done|]. split_and!; [|apply is_fresh|apply lookup_insert_eq].
  apply insert_subseteq, not_elem_of_dom, is_fresh.
Qed.

Section typed.
Context {G V : Type} `{!Stored cell G} `{RepLaws cell G V}.
Implicit Types (p : ptr G) (x : G) (v : V).

Definition holds h p v L : Prop := ∃ x, h !! addr p = Some (pack x) ∧ rep h x v L ∧ addr p ∉ L.

Definition updates {A} p v (m : heapM cell A) v' : Prop :=
  ∀ h L, holds h p v L → reaches m h (fun _ h' =>
    ∃ L', holds h' p v' L' ∧ writes h h' ({[addr p]} ∪ L) ∧ L' ## dom h ∖ L).

Lemma holds_dom h p v L : holds h p v L → addr p ∈ dom h ∧ L ⊆ dom h.
Proof. intros (x & Hp & Hr & _). split; [by eapply elem_of_dom_2|by eapply rep_dom]. Qed.

Lemma holds_rep h p v L : holds h p v L → rep h (Some p) (Some v) ({[addr p]} ∪ L).
Proof. intros (x & Hp & Hr & _). by exists x, L. Qed.

Lemma holds_writes h h' p v L S :
  holds h p v L → writes h h' S → ({[addr p]} ∪ L) ## S → holds h' p v L.
Proof.
  intros Hh [Hd Hw] HS. assert (addr p ∉ S) as Hp by (intros Hp; apply (HS (addr p)); set_solver).
  assert (L ## S) as HL by set_solver. clear HS. destruct (holds_dom _ _ _ _ Hh) as [Hpd Hld]. destruct Hh as (x & Hx & Hr & Hn).
  exists x. split_and!; [by rewrite Hw| |done]. eapply rep_agree; [done|].
  intros l Hl. apply Hw; set_solver.
Qed.

Lemma reaches_load h p v L (Q : G → gmap loc cell → Prop) :
  holds h p v L → (∀ x, h !! addr p = Some (pack x) → rep h x v L → Q x h) → reaches (load p) h Q.
Proof.
  intros (x & Hp & Hr & _) HQ. exists x, h. split; [|by apply HQ].
  unfold load. rewrite Hp. simpl. by rewrite unpack_pack.
Qed.

Lemma reaches_modify_raw h p x (f : G → G) :
  h !! addr p = Some (pack x) → reaches (modify p f) h (fun _ h' => h' = <[addr p := pack (f x)]> h).
Proof.
  intros Hx. eexists tt, _. split; [|done].
  unfold modify, mbind, heapM_bind, load, store. rewrite Hx. simpl. by rewrite unpack_pack, Hx.
Qed.

(** Changing the value in place. *)
Lemma reaches_modify h p v v' L (f : G → G) (P : gset loc → Prop) :
  holds h p v L → (∀ x, rep h x v L → ∃ L', rep h (f x) v' L' ∧ addr p ∉ L' ∧ P L') →
  reaches (modify p f) h (fun _ h' => ∃ L', holds h' p v' L' ∧ P L' ∧ writes h h' {[addr p]}).
Proof.
  intros Hh Hf. destruct (holds_dom _ _ _ _ Hh) as [Hpd _]. destruct Hh as (x & Hx & Hr & Hn).
  destruct (Hf x Hr) as (L' & Hr' & Hp & HP).
  eapply reaches_mono; [by apply reaches_modify_raw|]. intros _ h' ->.
  exists L'. split_and!; [|done|by apply writes_insert]. exists (f x). split_and!; [apply lookup_insert_eq| |done].
  eapply rep_agree; [done|]. intros l Hl. apply lookup_insert_ne. by intros <-.
Qed.

Lemma updates_bind {A B} p v v' v'' (m : heapM cell A) (k : A → heapM cell B) :
  updates p v m v' → (∀ a, updates p v' (k a) v'') → updates p v (m ≫= k) v''.
Proof.
  intros Hm Hk h L Hh. apply reaches_bind. eapply reaches_mono; [by apply Hm|].
  intros a h1 (L1 & Hh1 & Hw1 & HL1). eapply reaches_mono; [by apply Hk|].
  intros b h2 (L2 & Hh2 & Hw2 & HL2). pose proof (proj1 Hw1). exists L2. split_and!; [done| |set_solver].
  eapply writes_trans; [done..|]. intros l Hl Hl1. destruct (decide (l ∈ L)); set_solver.
Qed.

Lemma updates_ret {A} p v (a : A) : updates p v (mret a) v.
Proof. intros h L Hh. apply reaches_ret. exists L. split_and!; [done|apply writes_refl|set_solver]. Qed.

(** A change that reaches no new cell. *)
Lemma updates_modify p v v' (f : G → G) :
  (∀ h x L, rep h x v L → ∃ L', rep h (f x) v' L' ∧ L' ⊆ L) → updates p v (modify p f) v'.
Proof.
  intros Hf h L Hh. assert (addr p ∉ L) as Hp by by destruct Hh as (? & _ & _ & ?).
  eapply reaches_mono; [apply (reaches_modify _ _ _ v' _ _ (fun L' => L' ⊆ L) Hh)|].
  - intros x (L' & Hr & HL')%Hf. exists L'. split_and!; [done|set_solver|done].
  - intros _ h' (L' & Hh' & HL' & Hw). exists L'.
    split_and!; [done|eapply writes_weaken; [done|set_solver]|set_solver].
Qed.
End typed.
End updates.

(** ** Slices of values without pointers *)

Section flat.
Context {cell V : Type} `{!Stored cell (list V)} `{!Zero V}.
Implicit Types (h : gmap loc cell) (s : option (slice V)) (vs all : list V) (L : gset loc).
#[local] Existing Instance rep_flat.

Lemma reps_flat h xs vs L : reps h xs vs L ↔ xs = vs ∧ L = ∅.
Proof.
  split.
  - revert vs L. induction xs as [|x xs IH]; intros [|v vs] L; simpl; try done.
    intros (L1 & L2 & [-> ->] & [-> ->]%IH & ->). split; [done|set_solver].
  - intros [-> ->]. induction vs as [|v vs IH]; simpl; [done|]. exists ∅, ∅. split_and!; [done..|set_solver].
Qed.

(** The window of a slice, and the array it is a window on. *)
Lemma rep_flat_slice h (s : slice V) vs L :
  rep h (Some s) vs L ↔ ∃ all, h !! arr s = Some (pack all) ∧ (len s ≤ cap s ∧ off s + cap s ≤ length all) ∧
    take (len s) (drop (off s) all) = vs ∧ L = {[arr s]}.
Proof.
  split.
  - intros (all & L0 & Hl & Hc & [Hv ->]%reps_flat & ->). exists all. destruct Hc. split_and!; [done..|set_solver].
  - intros (all & Hl & [] & Hv & ->). exists all, ∅. split_and!; [done..| |set_solver]. by apply reps_flat.
Qed.

(** [append] writes at most the array of the slice, and ends in that array or in
    a new one. *)
Lemma append_spec room h s vs L x :
  rep h s vs L → reaches (append_ room s x) h (fun s' h' =>
    ∃ L', rep h' s' (vs ++ [x]) L' ∧ writes h h' L ∧ L' ## dom h ∖ L).
Proof.
  destruct s as [s|]; simpl; [rewrite rep_flat_slice; intros (all & Hl & [Hlc Hca] & Hv & ->)|intros [-> ->]].
  2:{ apply reaches_bind. eapply reaches_mono; [apply reaches_new|]. intros a h' (Hs & Ha & Hl).
      apply reaches_ret. exists {[addr a]}. split_and!; [|by apply subseteq_writes|set_solver].
      apply rep_flat_slice. eexists. split_and!; [exact Hl|simpl; lia|simpl; rewrite length_replicate; lia|done|done]. }
  assert (length vs = len s) as Hlen by (rewrite <-Hv, length_take, length_drop; lia).
  apply reaches_bind. exists all, h. split; [unfold load; simpl; rewrite Hl; simpl; by rewrite unpack_pack|].
  destruct (len s <? cap s) eqn:Hroom; apply reaches_bind.
  - apply Nat.ltb_lt in Hroom. eexists tt, _. split; [unfold store; simpl; by rewrite Hl|].
    apply reaches_ret. exists {[arr s]}. split_and!; [|apply writes_insert; by eapply elem_of_dom_2|set_solver].
    apply rep_flat_slice. simpl. eexists. rewrite lookup_insert_eq, length_insert.
    split_and!; [done|lia|lia| |done]. rewrite <-Hv. apply list_eq. intros i.
    destruct (decide (i < len s)) as [Hi|Hi]; [|destruct (decide (i = len s)) as [->|]].
    + rewrite lookup_take_lt, lookup_drop, list_lookup_insert_ne by lia.
      rewrite lookup_app_l by (rewrite Hv; lia). by rewrite lookup_take_lt, lookup_drop by lia.
    + rewrite lookup_take_lt, lookup_drop, list_lookup_insert_eq by lia.
      rewrite lookup_app_r by (rewrite Hv; lia). by rewrite Hv, Hlen, Nat.sub_diag.
    + rewrite lookup_take_ge by lia. symmetry. apply lookup_ge_None. rewrite Hv, length_app. simpl. lia.
  - eapply reaches_mono; [apply reaches_new|]. intros a h' (Hs & Ha & Hl').
    apply reaches_ret. exists {[addr a]}. split_and!; [|by apply subseteq_writes|set_solver].
    apply rep_flat_slice. eexists. rewrite Hv in Hl'. split_and!; [exact Hl'|simpl..|done].
    + lia.
    + rewrite length_app, length_cons, length_replicate. lia.
    + rewrite drop_0, (cons_middle x), (assoc_L (++)), take_app_length' by (rewrite length_app; simpl; lia). done.
Qed.

(** Rewriting the window of a slice in place. *)
Lemma window_spec (f : list V → list V) h (s : slice V) vs L :
  rep h (Some s) vs L → length (f vs) = length vs →
  reaches (modify (Ptr (arr s)) (fun xs =>
    take (off s) xs ++ f (take (len s) (drop (off s) xs)) ++ drop (off s + len s) xs)) h
    (fun _ h' => rep h' (Some s) (f vs) L ∧ writes h h' L).
Proof.
  rewrite rep_flat_slice. intros (all & Hl & [Hlc Hca] & Hv & ->) Hf.
  eapply reaches_mono; [apply reaches_modify_raw; exact Hl|]. intros _ h' ->.
  split; [|apply writes_insert; by eapply elem_of_dom_2]. simpl. rewrite rep_flat_slice, Hv.
  assert (length (f vs) = len s) as Hlen by (rewrite Hf, <-Hv, length_take, length_drop; lia).
  eexists. rewrite lookup_insert_eq. split_and!; [done|done| | |done].
  - rewrite !length_app, length_take, length_drop, Hlen. lia.
  - rewrite drop_app_length' by (rewrite length_take; lia). by rewrite take_app_length' by lia.
Qed.

Lemma sort_spec (R : relation V) `{!∀ x y, Decision (R x y)} h s vs L :
  rep h s vs L → reaches (sort_ R s) h (fun _ h' => rep h' s (merge_sort R vs) L ∧ writes h h' L).
Proof.
  destruct s as [s|]; [|intros [-> ->]; apply reaches_ret; split; [done|apply writes_refl]].
  intros Hs. apply (window_spec (merge_sort R)); [done|by rewrite merge_sort_Permutation].
Qed.
End flat.

(** ** Separate parts *)

(** A part of a value that can be replaced on its own, because nothing else in
    the value reaches its cells. *)
Definition separate {G V P Q} `{Rep cell G V, Rep cell P Q} (get : G → P) (getv : V → Q)
    (put : P → G → G) (putv : Q → V → V) : Prop :=
  ∀ h (x : G) (v : V) L, rep h x v L → ∃ Lo Lp, L = Lo ∪ Lp ∧ Lo ## Lp ∧ rep h (get x) (getv v) Lp ∧
    ∀ h' (y : P) (w : Q) Lp', rep h' y w Lp' → (∀ l, l ∈ Lo → h' !! l = h !! l) →
      rep h' (put y x) (putv w v) (Lo ∪ Lp').

Section separate.
Context {cell G V P Q : Type} `{!Stored cell G} `{RepLaws cell G V} `{RepLaws cell P Q}.
Context (get : G → P) (getv : V → Q) (put : P → G → G) (putv : Q → V → V).
Implicit Types (p : ptr G) (v : V) (w : Q).

(** An operation on the part, whose result is assigned to it. *)
Lemma separate_updates p v w (m : P → heapM cell P) :
  separate get getv put putv →
  (∀ h y L, rep h y (getv v) L → reaches (m y) h (fun y' h' =>
     ∃ L', rep h' y' w L' ∧ writes h h' L ∧ L' ## dom h ∖ L)) →
  updates p v (x ← load p; y ← m (get x); modify p (put y)) (putv w v).
Proof.
  intros Hsep Hm h L Hh. destruct (holds_dom _ _ _ _ Hh) as [Hpd Hld]. apply reaches_bind.
  eapply reaches_load; [done|]. intros x Hx Hr. assert (addr p ∉ L) as Hp by by destruct Hh as (? & _ & _ & ?).
  destruct (Hsep _ _ _ _ Hr) as (Lo & Lp & -> & Hdisj & Hy & Hput).
  apply reaches_bind. eapply reaches_mono; [by apply Hm|]. intros y h1 (L' & Hy' & [Hd Hw] & Hfresh).
  eapply reaches_mono; [apply reaches_modify_raw; rewrite Hw; [exact Hx|done|set_solver]|]. intros _ h2 ->.
  assert (addr p ∉ L') as Hp' by set_solver. exists (Lo ∪ L'). split_and!.
  - exists (put y x). split_and!; [apply lookup_insert_eq| |set_solver]. apply Hput.
    + eapply rep_agree; [done|]. intros l Hl. apply lookup_insert_ne. by intros <-.
    + intros l Hl. rewrite lookup_insert_ne by (intros <-; set_solver). apply Hw; set_solver.
  - split; [set_solver|]. intros l Hl Hn. rewrite lookup_insert_ne by (intros <-; set_solver). apply Hw; set_solver.
  - set_solver.
Qed.

(** An operation on the part in place. *)
Lemma separate_in_place {A} p v w (m : P → heapM cell A) :
  separate get getv put putv → (∀ x, put (get x) x = x) →
  (∀ h y L, rep h y (getv v) L → reaches (m y) h (fun _ h' => rep h' y w L ∧ writes h h' L)) →
  updates p v (x ← load p; m (get x)) (putv w v).
Proof.
  intros Hsep Hid Hm h L Hh. destruct (holds_dom _ _ _ _ Hh) as [Hpd Hld]. apply reaches_bind.
  eapply reaches_load; [done|]. intros x Hx Hr. assert (addr p ∉ L) as Hp by by destruct Hh as (? & _ & _ & ?).
  destruct (Hsep _ _ _ _ Hr) as (Lo & Lp & -> & Hdisj & Hy & Hput).
  eapply reaches_mono; [by apply Hm|]. intros a h1 [Hy' [Hd Hw]]. exists (Lo ∪ Lp). split_and!; [| |set_solver].
  - exists x. split_and!; [rewrite Hw; [done..|set_solver]| |done]. rewrite <-(Hid x). apply Hput; [done|].
    intros l Hl. apply Hw; set_solver.
  - split; [done|]. intros l Hl Hn. apply Hw; set_solver.
Qed.
End separate.

(** ** A value of one's own *)

(** [p] holds [v] in cells that [h0] did not have, and [h0] is as it was. *)
Definition private {cell G V} `{!Stored cell G, Rep cell G V} (h0 h : gmap loc cell) (p : ptr G) (v : V) : Prop :=
  h0 ⊆ h ∧ ∃ L, holds h p v L ∧ ({[addr p]} ∪ L) ## dom h0.

Lemma private_step {A} {cell G V} `{!Stored cell G} `{RepLaws cell G V} h0 h (p : ptr G) (v v' : V) (m : heapM cell A) :
  private h0 h p v → updates p v m v' → reaches m h (fun _ h' => private h0 h' p v').
Proof.
  intros (Hs & L & Hh & Hd) Hm. eapply reaches_mono; [by apply Hm|]. intros a h' (L' & Hh' & Hw & HL').
  pose proof (subseteq_dom _ _ Hs). split; [|exists L'; split; [done|set_solver]].
  apply map_subseteq_spec. intros l c Hl. pose proof (elem_of_dom_2 _ _ _ Hl) as Hld.
  rewrite (proj2 Hw); [by eapply lookup_weaken|set_solver..].
Qed.

Lemma private_copy {cell G V} `{!Stored cell G} `{RepLaws cell G V} `{!Zero G} (into : G → heapM cell G) h (x : G) (v : V) L :
  copies V into → rep h x v L → reaches (copy_new into x) h (fun p h' => private h h' p v).
Proof.
  intros Hinto Hr.
  destruct (copy_new_spec into h x v L) as (p & h' & x' & L' & Hc & Hs & Hp & Hr' & Hpf & Hpl & Hf); [done..|].
  exists p, h'. split; [done|]. split; [done|]. exists L'. split; [by exists x'|set_solver].
Qed.
