(* ===== verification/Effects.v ===== *)
(** What the operator calls outside the repository.

    [sysE] has one constructor per call with an effect: the controller-runtime
    client, [controllerutil.CreateOrUpdate], the event recorder, the HTTP
    transport, the clock, the random sources, the order of a map range, and a Go
    panic (whose answer type is empty: nothing runs after it).  The pure
    functions of third-party packages are the fields of [CtrlLib] and [NetLib];
    the laws the proofs use of them are [CtrlLaws].  Logging is not an event:
    nothing in the program reads it back. *)
From S2P Require Import Prelude Errors Prog GoStd Api.

(** ** Values exchanged *)

(** [controllerutil.OperationResult]. *)
Inductive OperationResult :=
  | OperationResultNone | OperationResultCreated | OperationResultUpdated.
#[export] Instance OperationResult_eq_dec : EqDecision OperationResult.
Proof. solve_decision. Defined.

#[export] Instance OperationResult_inhabited : Inhabited OperationResult :=
  populate OperationResultNone.

(** [authenticationv1.UserInfo]. *)
Record UserInfo := mkUserInfo {
  User_Username : string;
  User_UID : string;
  User_Groups : list string;
  User_Extra : gmap string (list string);
}.

(** [authorizationv1.SubjectAccessReviewSpec] with the resource attributes the
    program asks about. *)
Record SubjectAccessReviewSpec := mkSAR {
  SAR_User : string;
  SAR_Groups : list string;
  SAR_UID : string;
  SAR_Extra : gmap string (list string);
  SAR_Verb : string;
  SAR_Group : string;
  SAR_Resource : string;
}.

(** An HTTP request as built by [http.NewRequestWithContext] and the header
    setters, and the response as far as the program looks at it. *)
Record Request := mkRequest {
  Req_Method : string;
  Req_URL : string;
  Req_BasicAuth : string * string;
  Req_ContentType : option string;
  Req_Body : option string;
}.
Record Response := mkResponse { StatusCode : Z; Body : string }.
#[export] Instance Request_eq_dec : EqDecision Request.
Proof. solve_decision. Defined.
#[export] Instance Response_eq_dec : EqDecision Response.
Proof. solve_decision. Defined.

(** ** Events *)

Inductive sysE : Type → Type :=
  (** client.Reader and client.Writer *)
  | ClientGet (k : Kind) (key : ObjectKey) : sysE (result (obj k))
  | ClientListWorkspaces : sysE (result (list Workspace))
  | ClientUpdateWorkspace (w : Workspace) : sysE (result unit)
  | ClientDelete (k : Kind) (key : ObjectKey) : sysE (result unit)
  | ClientStatusPatch (base modified : Workspace) : sysE (result unit)
  | ClientCreateReview (spec : SubjectAccessReviewSpec) : sysE (result bool)
  (** controllerutil.CreateOrUpdate with its mutate function *)
  | CreateOrUpdateE (k : Kind) (key : ObjectKey) (mutate : obj k → result (obj k))
      : sysE (result OperationResult)
  (** events.EventRecorder: type, reason, action and the formatted note *)
  | EventfE (w : Workspace) (eventType reason action note : string) : sysE unit
  (** http.Client.Do, and Close on a response body *)
  | HttpDo (r : Request) : sysE (result Response)
  | BodyClose (r : Response) : sysE unit
  (** the clock, crypto/rand.Read of one byte, util/rand.String *)
  | TimeNow : sysE Z
  | RandByte : sysE (result ascii)
  | UtilRandString (n : nat) : sysE string
  (** the order in which a range over a map visits the keys: a rank per key *)
  | MapOrder : sysE (string → nat)
  | PanicE (message : string) : sysE Empty_set.

Abbreviation io := (prog sysE).
Abbreviation trace := (list (obs sysE)).

(** The answer a Get of kind [k] received. *)
Definition got (k : Kind) (o : obs sysE) : option (result (obj k)) :=
  match o with
  | Obs e x =>
      match e in sysE X return X → option (result (obj k)) with
      | ClientGet k' _ => fun x =>
          match decide (k' = k) with
          | left E => Some (eq_rect k' (fun k => result (obj k)) x k E)
          | right _ => None
          end
      | _ => fun _ => None
      end x
  end.

Lemma got_Get k key a : got k (Obs (ClientGet k key) a) = Some a.
Proof.
  simpl. destruct (decide (k = k)) as [E|]; [|done].
  by rewrite (Eqdep_dec.UIP_dec Kind_eq_dec E eq_refl).
Qed.

Lemma Get_inj k key a b (tr1 tr2 : list (obs sysE)) :
  Obs (ClientGet k key) a :: tr1 = Obs (ClientGet k key) b :: tr2 → a = b.
Proof.
  intros Hab%(f_equal (fun tr => head tr ≫= got k)). simpl in Hab.
  change (got k (Obs (ClientGet k key) a) = got k (Obs (ClientGet k key) b)) in Hab.
  rewrite !got_Get in Hab. congruence.
Qed.

(** Operations of the client, under their Go names. *)
Definition Get (k : Kind) (key : ObjectKey) : io (result (obj k)) := trigger (ClientGet k key).
Definition List_ : io (result (list Workspace)) := trigger ClientListWorkspaces.
Definition Update (w : Workspace) : io (result unit) := trigger (ClientUpdateWorkspace w).
Definition Delete (k : Kind) (key : ObjectKey) : io (result unit) := trigger (ClientDelete k key).
Definition CreateOrUpdate (k : Kind) (key : ObjectKey) (mutate : obj k → result (obj k))
    : io (result OperationResult) := trigger (CreateOrUpdateE k key mutate).
Definition panic {A} (message : string) : io A :=
  Vis (PanicE message) (fun x : Empty_set => match x with end).

(** [for k, v := range m]: some order of the entries, chosen by the runtime. *)
Definition rank_le {V} (rank : string → nat) : relation (string * V) :=
  fun a b => rank a.1 ≤ rank b.1.
#[export] Instance rank_le_dec {V} rank (a b : string * V) : Decision (rank_le rank a b).
Proof. unfold rank_le. apply _. Defined.

Definition in_order {V} (rank : string → nat) (m : gmap string V) : list (string * V) :=
  merge_sort (rank_le rank) (map_to_list m).

Definition range_map {V} (m : gmap string V) : io (list (string * V)) :=
  rank ← trigger MapOrder; mret (in_order rank m).

Lemma in_order_perm {V} rank (m : gmap string V) : in_order rank m ≡ₚ map_to_list m.
Proof. apply merge_sort_Permutation. Qed.

(** ** Third-party functions without effects *)

(** [controllerutil.SetControllerReference(owner, obj, scheme)] as a function of
    the owner's name and UID and of the object's owner references, and [meta.SetStatusCondition] given the time
    it reads. *)
Class CtrlLib := {
  SetControllerReference (name uid : string) : list OwnerReference → result (list OwnerReference);
  SetStatusCondition : Z → list Condition → Condition → list Condition;
}.

(** [IsOwned] of internal/workspace/helpers.go is needed to state the law. *)
Definition IsOwned (refs : list OwnerReference) (uid : string) : bool :=
  existsb (fun ref => bool_decide (Owner_UID ref = uid)) refs.

(** The condition of a type, [meta.FindStatusCondition]. *)
Definition FindStatusCondition (cs : list Condition) (t : string) : option Condition :=
  List.find (fun c => bool_decide (Cond_Type c = t)) cs.

(** Everything but the transition time. *)
Definition same_condition (a b : Condition) : Prop :=
  Cond_Type a = Cond_Type b ∧ Cond_Status a = Cond_Status b ∧
  Cond_ObservedGeneration a = Cond_ObservedGeneration b ∧
  Cond_Reason a = Cond_Reason b ∧ Cond_Message a = Cond_Message b.

(** The documented behaviour the proofs rely on. *)
Class CtrlLaws `{CtrlLib} : Prop := {
  (** on success the object is owned by the workspace *)
  SetControllerReference_owned name uid refs refs' :
    SetControllerReference name uid refs = Ok refs' → IsOwned refs' uid = true;
  (** nobody else becomes an owner *)
  SetControllerReference_only name uid refs refs' other :
    SetControllerReference name uid refs = Ok refs' → other ≠ uid →
    IsOwned refs' other = true → IsOwned refs other = true;
  (** setting it again changes nothing *)
  SetControllerReference_idem name uid refs refs' :
    SetControllerReference name uid refs = Ok refs' → SetControllerReference name uid refs' = Ok refs';
  (** an object has one controller; owners are told apart by name *)
  SetControllerReference_exclusive name uid refs name' uid' :
    SetControllerReference name uid refs = Ok refs → name' ≠ name →
    ∃ e, SetControllerReference name' uid' refs = Err e;
  (** a refusal is the library's own error *)
  SetControllerReference_external name uid refs e :
    SetControllerReference name uid refs = Err e → external e;
  (** an object without owners can always be owned *)
  SetControllerReference_nil name uid : ∃ refs', SetControllerReference name uid [] = Ok refs';
  (** the condition is present afterwards *)
  SetStatusCondition_find now cs c :
    ∃ c', FindStatusCondition (SetStatusCondition now cs c) (Cond_Type c) = Some c' ∧
          same_condition c' c;
  (** conditions of other types keep their values *)
  SetStatusCondition_other now cs c t :
    t ≠ Cond_Type c →
    FindStatusCondition (SetStatusCondition now cs c) t = FindStatusCondition cs t;
  (** at most one condition per type is kept *)
  SetStatusCondition_types now cs c :
    NoDup (Cond_Type <$> cs) → NoDup (Cond_Type <$> SetStatusCondition now cs c);
  (** an unchanged condition leaves the list as it is, transition time included *)
  SetStatusCondition_same now cs c c' :
    Cond_LastTransitionTime c = 0%Z →
    FindStatusCondition cs (Cond_Type c) = Some c' → same_condition c' c →
    SetStatusCondition now cs c = cs;
}.

(** [return ctrlutil.SetControllerReference(w, obj, scheme)] at the end of a
    mutate function. *)
Definition own `{CtrlLib} {P} (w : Workspace) (o : object P) : result (object P) :=
  refs ← SetControllerReference (W_Name w) (W_UID w) (Meta_OwnerReferences (metadata o));
  mret (with_meta (set_OwnerReferences refs) o).

(** [w] controls the object: it is an owner, and taking control again would
    change nothing. *)
Record controlled `{CtrlLib} {P} (w : Workspace) (o : object P) : Prop := {
  controlled_own : own w o = Ok o;
  controlled_owned : IsOwned (Meta_OwnerReferences (metadata o)) (W_UID w) = true;
}.

Section own.
Context {CL : CtrlLib} {HCL : CtrlLaws} {P : Type}.
Implicit Types (o : object P).

Lemma own_Ok w o o' :
  own w o = Ok o' ↔ ∃ refs,
    SetControllerReference (W_Name w) (W_UID w) (Meta_OwnerReferences (metadata o)) = Ok refs ∧
    o' = with_meta (set_OwnerReferences refs) o.
Proof.
  unfold own. destruct (SetControllerReference _ _ _) as [refs|e]; simpl.
  - split; [intros [= <-]; eauto | by intros (? & [= <-] & ->)].
  - naive_solver.
Qed.

Lemma own_owned w o o' :
  own w o = Ok o' → IsOwned (Meta_OwnerReferences (metadata o')) (W_UID w) = true.
Proof. intros (refs & Hs & ->)%own_Ok. simpl. by eapply SetControllerReference_owned. Qed.

Lemma own_idem w o o' : own w o = Ok o' → own w o' = Ok o'.
Proof.
  intros (refs & Hs & ->)%own_Ok. apply own_Ok. exists refs. simpl.
  split; [by eapply SetControllerReference_idem|]. by destruct o as [[]].
Qed.

(** Owning touches the owner references only. *)
Lemma own_payload w o o' : own w o = Ok o' → payload o' = payload o.
Proof. by intros (refs & Hs & ->)%own_Ok. Qed.
Lemma own_labels w o o' : own w o = Ok o' → Meta_Labels (metadata o') = Meta_Labels (metadata o).
Proof. by intros (refs & Hs & ->)%own_Ok. Qed.
Lemma own_annotations w o o' :
  own w o = Ok o' → Meta_Annotations (metadata o') = Meta_Annotations (metadata o).
Proof. by intros (refs & Hs & ->)%own_Ok. Qed.
Lemma own_name w o o' : own w o = Ok o' → Meta_Name (metadata o') = Meta_Name (metadata o).
Proof. by intros (refs & Hs & ->)%own_Ok. Qed.
End own.

(** Functions of Go's standard library taken as they come: the validity check
    of [http.NewRequestWithContext], [url.Parse] (scheme and host), [%q], and
    [json.Decoder.Decode] into the four response structures the Harbor client
    declares. *)
Record existingMember := mkExisting { Existing_ID : Z; Existing_RoleID : Z; Existing_Username : string }.
Record robotRef := mkRobotRef { Robot_ID : Z; Robot_Name : string }.
Record RobotCredentials := mkRobotCredentials { Creds_Name : string; Creds_Secret : string }.

#[export] Instance existingMember_eq_dec : EqDecision existingMember.
Proof. solve_decision. Defined.

Class NetLib := {
  NewRequest_error : string → string → option error;
  url_Parse : string → result (string * string);
  Quote : string → string;
  Decode_existingMembers : string → result (list existingMember);
  Decode_projectID : string → result Z;
  Decode_robots : string → result (list robotRef);
  Decode_createdRobot : string → result RobotCredentials;
}.

(** Their errors are their own: none is one of the program's error values. *)
Class NetLaws `{NetLib} : Prop := {
  NewRequest_external m u e : NewRequest_error m u = Some e → external e;
  url_Parse_external u e : url_Parse u = Err e → external e;
  Decode_existingMembers_external s e : Decode_existingMembers s = Err e → external e;
  Decode_projectID_external s e : Decode_projectID s = Err e → external e;
  Decode_robots_external s e : Decode_robots s = Err e → external e;
  Decode_createdRobot_external s e : Decode_createdRobot s = Err e → external e;
}.
