(* ===== verification/Cluster.v ===== *)
(** What a Kubernetes API server promises its clients, as far as the
    development relies on it: an interface ([Cluster]), its laws, the facts about
    sequences of calls that follow, and an in-memory implementation that
    discharges the laws.

    The client a manager hands out writes to the server and reads from a cache
    its watches feed.  [CachedLaws] is that client: a read answers what the
    cache holds, and a write based on an outdated read is refused.
    [ClusterLaws] is the same client once its cache has caught up.

    The laws speak of one client acting alone: between two calls of the program
    the cluster does not change.  The theorems that must hold with other clients
    interfering are stated over all traces ([runs]) instead. *)
From S2P Require Import Prelude Errors Prog GoStd Api Effects.

Class Cluster (W : Type) := {
  serve : handler sysE W;
  (** the objects the server holds *)
  view : W → ∀ k, ObjectKey → option (obj k);
  (** the objects the client's reads see *)
  cache : W → ∀ k, ObjectKey → option (obj k);
}.

(** The cache has caught up with an object. *)
Definition current {W} `{Cluster W} (w : W) (k : Kind) (key : ObjectKey) : Prop :=
  cache w k key = view w k key.

(** The label the server itself puts on every namespace. *)
Definition LabelMetadataName := "kubernetes.io/metadata.name".

(** The server keeps what it is sent, and fills in the metadata that is its own.
    A Namespace may also be given the label with its name, a LimitRange defaults
    in its payload. *)
Record persisted {k} (sent kept : obj k) : Prop := {
  persisted_name : Meta_Name (metadata kept) = Meta_Name (metadata sent);
  persisted_labels : Meta_Labels (metadata kept) = Meta_Labels (metadata sent) ∨
    k = KNamespace ∧ Meta_Labels (metadata kept) =
      Some (<[LabelMetadataName := Meta_Name (metadata sent)]> (gomap_view (Meta_Labels (metadata sent))));
  persisted_annotations : Meta_Annotations (metadata kept) = Meta_Annotations (metadata sent);
  persisted_owners : Meta_OwnerReferences (metadata kept) = Meta_OwnerReferences (metadata sent);
  persisted_payload : k ≠ KLimitRange → payload kept = payload sent;
}.

Lemma persisted_refl {k} (o : obj k) : persisted o o.
Proof. split; auto. Qed.

Lemma persisted_same_labels {k} (sent kept : obj k) :
  persisted sent kept → k ≠ KNamespace → Meta_Labels (metadata kept) = Meta_Labels (metadata sent).
Proof. intros Hp Hk. by destruct (persisted_labels _ _ Hp) as [?|[? _]]. Qed.

(** A mutate function settles: what it produced, as the server kept it, it
    leaves alone.  Reconciling again over an object it wrote is then no update. *)
Definition settles {k} (f : obj k → result (obj k)) : Prop :=
  ∀ o sent kept, f o = Ok sent → persisted sent kept → f kept = Ok kept.

(** [controllerutil.CreateOrUpdate] as documented: fetch the object, or start
    from the literal when there is none; call the mutate function; create, or
    update if it changed anything.  A failing write may or may not have been
    applied; a refusing mutate function means no write. *)
Inductive create_or_update {k} (key : ObjectKey) (f : obj k → result (obj k))
    : option (obj k) → result OperationResult → option (obj k) → Prop :=
  | cou_failed before e :
      external e → create_or_update key f before (Err e) before
  | cou_failed_late before e sent kept :
      external e → f (default (literal k key) before) = Ok sent → persisted sent kept →
      create_or_update key f before (Err e) (Some kept)
  | cou_refused before e :
      f (default (literal k key) before) = Err e → create_or_update key f before (Err e) before
  | cou_unchanged o :
      f o = Ok o → create_or_update key f (Some o) (Ok OperationResultNone) (Some o)
  | cou_written before sent kept :
      f (default (literal k key) before) = Ok sent → before ≠ Some sent → persisted sent kept →
      create_or_update key f before
        (Ok (if before then OperationResultUpdated else OperationResultCreated)) (Some kept).

(** The same from a cache: current, it is as documented; lagging, the write is
    refused (AlreadyExists, Conflict or NotFound), unless there is none. *)
Inductive cached_create_or_update {k} (key : ObjectKey) (f : obj k → result (obj k))
    : option (obj k) → option (obj k) → result OperationResult → option (obj k) → Prop :=
  | ccou_current before r after :
      create_or_update key f before r after → cached_create_or_update key f before before r after
  | ccou_failed cached before e :
      external e → cached_create_or_update key f cached before (Err e) before
  | ccou_refused cached before e :
      f (default (literal k key) cached) = Err e → cached_create_or_update key f cached before (Err e) before
  | ccou_unchanged o before :
      f o = Ok o → cached_create_or_update key f (Some o) before (Ok OperationResultNone) before.

(** Delete.  The kinds the operator deletes carry no finalizers, so success
    means gone. *)
Definition deletion {k} (before : option (obj k)) (r : result unit) (after : option (obj k)) : Prop :=
  match r with
  | Ok _ => after = None
  | Err e => if IsNotFound e then before = None ∧ after = None
             else external e ∧ (after = before ∨ after = None)
  end.

(** The object an event may write. *)
Definition writes (o : obs sysE) (k : Kind) (key : ObjectKey) : Prop :=
  match o with
  | Obs e _ =>
      match e with
      | CreateOrUpdateE k' key' _ | ClientDelete k' key' => k' = k ∧ key' = key
      | ClientUpdateWorkspace w | ClientStatusPatch _ w => k = KWorkspace ∧ key = mkKey "" (W_Name w)
      | _ => False
      end
  end.

(** The tenant boundary: what a reconcile of [w] may write is the workspace
    itself, its Namespace object, and objects inside that namespace. *)
Definition confined (w : Workspace) (o : obs sysE) : Prop :=
  ∀ k key, writes o k key →
    k = KWorkspace ∧ key = mkKey "" (W_Name w) ∨
    k = KNamespace ∧ key = mkKey "" (W_Namespace w) ∨
    Key_Namespace key = W_Namespace w.

(** The boundary without the workspace: what the resource syncs may write. *)
Definition inside (w : Workspace) (o : obs sysE) : Prop :=
  ∀ k key, writes o k key → k ≠ KNamespace ∧ k ≠ KWorkspace ∧ Key_Namespace key = W_Namespace w.

Class CachedLaws (W : Type) `{Cluster W} : Prop := {
  cached_get k key w r w' :
    serve _ (ClientGet k key) w = Some (r, w') →
    match r with
    | Ok o => cache w k key = Some o
    | Err e => external e ∧ (IsNotFound e = true → cache w k key = None)
    end;
  cached_write k key f w r w' :
    serve _ (CreateOrUpdateE k key f) w = Some (r, w') →
    cached_create_or_update key f (cache w k key) (view w k key) r (view w' k key);
  (** an update of a workspace: the webhooks may complete its metadata, its
      identity and scope are the server's *)
  serve_update p w r w' :
    serve _ (ClientUpdateWorkspace p) w = Some (r, w') →
    let key := mkKey "" (W_Name p) in
    is_Ok r = false ∧ view w' KWorkspace key = view w KWorkspace key ∨
    ∃ old kept, view w KWorkspace key = Some old ∧ view w' KWorkspace key = Some kept ∧
      W_Name kept = W_Name p ∧ W_Spec kept = W_Spec p ∧ W_UID kept = W_UID old ∧
      Meta_Namespace (metadata kept) = Meta_Namespace (metadata old);
  serve_delete k key w r w' :
    serve _ (ClientDelete k key) w = Some (r, w') → deletion (view w k key) r (view w' k key);
  (** the status subresource: whatever is patched, the stored workspace keeps
      everything but its status *)
  serve_status_patch base p w r w' :
    serve _ (ClientStatusPatch base p) w = Some (r, w') →
    let key := mkKey "" (W_Name p) in
    view w' KWorkspace key = view w KWorkspace key ∨
    ∃ old status, view w KWorkspace key = Some old ∧ view w' KWorkspace key = Some (set_W_Status status old);
  (** the transport's errors are its own *)
  serve_http req w e w' : serve _ (HttpDo req) w = Some (Err e, w') → external e;
  serve_frame X (e : sysE X) w x w' k key :
    serve X e w = Some (x, w') → ¬ writes (Obs e x) k key → view w' k key = view w k key;
  (** the server stamps every object it stores with a creation time *)
  view_created w k key o : view w k key = Some o → Meta_CreationTimestamp (metadata o) ≠ None;
  (** a cache that has caught up with an object has until somebody writes it *)
  cache_current X (e : sysE X) w x w' k key :
    serve X e w = Some (x, w') → ¬ writes (Obs e x) k key → current w k key → current w' k key;
}.

Class ClusterLaws (W : Type) `{Cluster W} : Prop := {
  cluster_cached :: CachedLaws W;
  caught_up (w : W) k key : current w k key;
}.

Section caught_up.
Context {W : Type} {CW : Cluster W} {LW : ClusterLaws W}.

Lemma serve_get k key (w : W) r w' :
  serve _ (ClientGet k key) w = Some (r, w') →
  match r with
  | Ok o => view w k key = Some o
  | Err e => external e ∧ (IsNotFound e = true → view w k key = None)
  end.
Proof. intros Hs%cached_get. by rewrite (caught_up w k key) in Hs. Qed.

Lemma cached_current {k} key (f : obj k → result (obj k)) before r after :
  cached_create_or_update key f before before r after → create_or_update key f before r after.
Proof. inversion 1; subst; [done|by constructor..]. Qed.

Lemma serve_create_or_update k key f (w : W) r w' :
  serve _ (CreateOrUpdateE k key f) w = Some (r, w') →
  create_or_update key f (view w k key) r (view w' k key).
Proof. intros Hs%cached_write. rewrite (caught_up w k key) in Hs. by apply cached_current. Qed.
End caught_up.

(** ** Running the program against a cluster *)

Definition exec {W} `{Cluster W} {A} (p : io A) (w : W) : option (A * W) := interp serve p w.

Section exec.
Context {W : Type} {CW : Cluster W} {LW : CachedLaws W}.
Implicit Types (w : W).

Lemma exec_ret {A} (a b : A) w w' : exec (Ret a) w = Some (b, w') → b = a ∧ w' = w.
Proof. unfold exec. cbn. by intros [= -> ->]. Qed.

Lemma exec_bind {A B} (p : io A) (f : A → io B) w b w' :
  exec (p ≫= f) w = Some (b, w') →
  ∃ a w1, exec p w = Some (a, w1) ∧ exec (f a) w1 = Some (b, w').
Proof.
  unfold exec. rewrite interp_bind.
  destruct (interp serve p w) as [[a w1]|]; simpl; [eauto|done].
Qed.

Lemma exec_bindR {A B} (p : io (result A)) (f : A → io (result B)) w b w' :
  exec (bindR p f) w = Some (b, w') →
  (∃ e, exec p w = Some (Err e, w') ∧ b = Err e) ∨
  (∃ a w1, exec p w = Some (Ok a, w1) ∧ exec (f a) w1 = Some (b, w')).
Proof.
  unfold exec. rewrite interp_bindR.
  destruct (interp serve p w) as [[[a|e] w1]|]; simpl; [|intros [= <- <-]|done]; eauto 10.
Qed.

Lemma exec_wrap {A} s (p : io (result A)) w r w' :
  exec (wrap s p) w = Some (r, w') → ∃ r', exec p w = Some (r', w') ∧ r = wrapR s r'.
Proof.
  unfold exec. rewrite interp_wrap.
  destruct (interp serve p w) as [[r' w1]|]; simpl; [|done]. intros [= <- <-]. eauto.
Qed.

Lemma exec_fmap {A B} (f : A → B) (p : io A) w b w' :
  exec (f <$> p) w = Some (b, w') → ∃ a, exec p w = Some (a, w') ∧ b = f a.
Proof.
  unfold exec, fmap, prog_fmap. rewrite interp_bind.
  destruct (interp serve p w) as [[a w1]|]; simpl; [|done]. intros [= <- <-]. eauto.
Qed.

Lemma exec_trigger {X} (e : sysE X) w x w' :
  exec (trigger e) w = Some (x, w') → serve X e w = Some (x, w').
Proof.
  unfold exec, trigger. cbn. destruct (serve X e w) as [[x1 w1]|]; [|done].
  cbn. by intros [= -> ->].
Qed.

(** A preorder that every event of a program respects relates the two ends of
    its executions. *)
Lemma exec_rel {A} (R : relation W) `{!PreOrder R} (P : obs sysE → Prop) (p : io A) w a w' :
  (∀ X (e : sysE X) w x w', serve X e w = Some (x, w') → P (Obs e x) → R w w') →
  emits P p → exec p w = Some (a, w') → R w w'.
Proof.
  intros HP. unfold exec. revert w. induction p as [b|X e c IH]; intros w; cbn.
  - by intros _ [= -> ->].
  - intros He. destruct (serve X e w) as [[x w1]|] eqn:Hs; [|done]. cbn.
    destruct (He x) as [Hx Hc]. intros Hrun. trans w1; [by eapply HP|by eapply IH].
Qed.

(** The same for a function of the state that the events keep. *)
Lemma exec_keeps {A B} (f : W → B) (P : obs sysE → Prop) (p : io A) w a w' :
  (∀ X (e : sysE X) w x w', serve X e w = Some (x, w') → P (Obs e x) → f w' = f w) →
  emits P p → exec p w = Some (a, w') → f w' = f w.
Proof.
  intros HP. assert (PreOrder (fun w w' => f w' = f w)).
  { split; [done|]. intros w1 w2 w3 H1 H2. congruence. }
  by apply (exec_rel (fun w w' => f w' = f w)).
Qed.

(** A program none of whose events writes an object leaves it alone. *)
Lemma exec_frame {A} (p : io A) w a w' k key :
  emits (fun o => ¬ writes o k key) p → exec p w = Some (a, w') → view w' k key = view w k key.
Proof. apply (exec_keeps (fun w => view w k key)). intros X e w0 x w1. apply serve_frame. Qed.

(** And leaves it current in the cache. *)
Lemma exec_current {A} (p : io A) w a w' k key :
  emits (fun o => ¬ writes o k key) p → exec p w = Some (a, w') → current w k key → current w' k key.
Proof.
  intros He Hx. assert (PreOrder (fun w w' => current w k key → current w' k key)) by (split; red; auto).
  eapply (exec_rel (fun w w' => current w k key → current w' k key) (fun o => ¬ writes o k key)); [|done..].
  intros X e w0 x w1. apply cache_current.
Qed.

Lemma exec_get_cached k key w r w' :
  exec (Get k key) w = Some (r, w') →
  match r with
  | Ok o => cache w k key = Some o
  | Err e => external e ∧ (IsNotFound e = true → cache w k key = None)
  end ∧ ∀ k' key', view w' k' key' = view w k' key'.
Proof.
  intros Hx%exec_trigger. split; [by eapply cached_get|].
  intros k' key'. eapply serve_frame; [done|]. simpl. tauto.
Qed.

Lemma exec_write_cached k key f w r w' :
  exec (CreateOrUpdate k key f) w = Some (r, w') →
  cached_create_or_update key f (cache w k key) (view w k key) r (view w' k key) ∧
  ∀ k' key', (k', key') ≠ (k, key) → view w' k' key' = view w k' key'.
Proof.
  intros Hx%exec_trigger. split; [by eapply cached_write|].
  intros k' key' Hne. eapply serve_frame; [done|]. simpl. naive_solver.
Qed.

Lemma exec_delete k key w r w' :
  exec (Delete k key) w = Some (r, w') →
  deletion (view w k key) r (view w' k key) ∧
  ∀ k' key', (k', key') ≠ (k, key) → view w' k' key' = view w k' key'.
Proof.
  intros Hx%exec_trigger. split; [by eapply serve_delete|].
  intros k' key' Hne. eapply serve_frame; [done|]. simpl. naive_solver.
Qed.
End exec.

(** Take an execution apart along the structure of its program. *)
Ltac exec_inv1 H :=
  lazymatch type of H with
  | exec (Ret _) _ = Some _ => apply exec_ret in H; destruct H as [? ?]; try subst
  | exec (okR _) _ = Some _ => apply exec_ret in H; destruct H as [? ?]; try subst
  | exec (errR _) _ = Some _ => apply exec_ret in H; destruct H as [? ?]; try subst
  | exec (mret _) _ = Some _ => apply exec_ret in H; destruct H as [? ?]; try subst
  | exec (trigger _) _ = Some _ => apply exec_trigger in H
  | exec (bindR _ _) _ = Some _ =>
      apply exec_bindR in H;
      let e := fresh "e" in let a := fresh "a" in let w := fresh "σ" in
      let H1 := fresh "Hx" in let H2 := fresh "Hx" in
      destruct H as [(e & H1 & H2)|(a & w & H1 & H2)]; try subst
  | exec (wrap _ _) _ = Some _ =>
      apply exec_wrap in H;
      let r := fresh "r" in let H1 := fresh "Hx" in let H2 := fresh "Hw" in
      destruct H as (r & H1 & H2)
  | exec (_ ≫= _) _ = Some _ =>
      apply exec_bind in H;
      let a := fresh "a" in let w := fresh "σ" in
      let H1 := fresh "Hx" in let H2 := fresh "Hx" in
      destruct H as (a & w & H1 & H2)
  | exec (_ <$> _) _ = Some _ =>
      apply exec_fmap in H;
      let r := fresh "r" in let H1 := fresh "Hx" in let H2 := fresh "Hw" in
      destruct H as (r & H1 & H2)
  end.

Ltac exec_inv :=
  repeat match goal with
  | H : exec _ _ = Some _ |- _ => exec_inv1 H
  | H : Ok _ = wrapR _ _ |- _ => symmetry in H; apply wrapR_Ok in H; try subst
  | H : Err _ = wrapR _ _ |- _ =>
      symmetry in H; apply wrapR_Err in H;
      let e := fresh "e" in let H2 := fresh "He" in
      destruct H as (e & H & H2); try subst
  | H : Ok _ = Err _ |- _ => discriminate H
  | H : Err _ = Ok _ |- _ => discriminate H
  | H : Ok _ = Ok _ |- _ => apply (inj Ok) in H; try subst
  | H : Err _ = Err _ |- _ => apply (inj Err) in H; try subst
  end.

Section contracts.
Context {W : Type} {CW : Cluster W} {LW : ClusterLaws W}.
Implicit Types (σ : W).

(** CreateOrUpdate: on success the stored object is one the mutate function
    accepts as its output; when the mutate function refuses what is there,
    nothing is written and the error is the refusal or the API's. *)
Lemma create_or_update_ok {k} key (f : obj k → result (obj k)) before op after :
  create_or_update key f before (Ok op) after →
  ∃ sent kept, after = Some kept ∧ f (default (literal k key) before) = Ok sent ∧
    persisted sent kept.
Proof. inversion 1; subst; simpl; eauto 10 using persisted_refl. Qed.

(** Over an object a settling mutate function wrote, success changes nothing. *)
Lemma create_or_update_settled {k} key (f : obj k → result (obj k)) o sent kept op after :
  settles f → f o = Ok sent → persisted sent kept →
  create_or_update key f (Some kept) (Ok op) after → after = Some kept.
Proof.
  intros Hs Hf Hp. pose proof (Hs _ _ _ Hf Hp) as Hk.
  inversion 1; subst; simpl in *; congruence.
Qed.

Lemma create_or_update_refused {k} key (f : obj k → result (obj k)) before r after e :
  f (default (literal k key) before) = Err e →
  create_or_update key f before r after →
  after = before ∧ ∃ e', r = Err e' ∧ (e' = e ∨ external e').
Proof. intros Hf. inversion 1; subst; simpl in *; try congruence; split; eauto.
  eexists. split; [done|]. left. congruence.
Qed.

Lemma exec_create_or_update k key f σ r σ' :
  exec (CreateOrUpdate k key f) σ = Some (r, σ') →
  create_or_update key f (view σ k key) r (view σ' k key) ∧
  ∀ k' key', (k', key') ≠ (k, key) → view σ' k' key' = view σ k' key'.
Proof.
  intros Hx%exec_trigger. split; [by eapply serve_create_or_update|].
  intros k' key' Hne. eapply serve_frame; [done|]. simpl. naive_solver.
Qed.

Lemma exec_get k key σ r σ' :
  exec (Get k key) σ = Some (r, σ') →
  match r with
  | Ok o => view σ k key = Some o
  | Err e => external e ∧ (IsNotFound e = true → view σ k key = None)
  end ∧ ∀ k' key', view σ' k' key' = view σ k' key'.
Proof.
  intros Hx%exec_trigger. split; [by eapply serve_get|].
  intros k' key'. eapply serve_frame; [done|]. simpl. tauto.
Qed.

(** The object at [key] came out of [f]. *)
Definition synced k key (f : obj k → result (obj k)) (before after : option (obj k)) : Prop :=
  ∃ sent kept, after = Some kept ∧ f (default (literal k key) before) = Ok sent ∧
    persisted sent kept.

Lemma exec_write k key f message σ r σ' :
  exec (wrap message (CreateOrUpdate k key f)) σ = Some (r, σ') →
  (is_Ok r = true → synced k key f (view σ k key) (view σ' k key)) ∧
  ∀ k' key', (k', key') ≠ (k, key) → view σ' k' key' = view σ k' key'.
Proof.
  intros (r1 & [Hc Hf]%exec_create_or_update & ->)%exec_wrap. split; [|done].
  destruct r1; [|done]. intros _. by eapply create_or_update_ok.
Qed.

(** The shape of every sync: CreateOrUpdate, its error wrapped. *)
Lemma exec_sync k key f message σ r σ' :
  exec (wrap message (CreateOrUpdate k key f) ;;? okR tt) σ = Some (r, σ') →
  (r = Ok tt → synced k key f (view σ k key) (view σ' k key)) ∧
  ∀ k' key', (k', key') ≠ (k, key) → view σ' k' key' = view σ k' key'.
Proof.
  intros [(e & [_ Hf]%exec_write & ->)|(op & σ1 & [Hs Hf]%exec_write & Hx)]%exec_bindR.
  - by split.
  - exec_inv. split; [|done]. intros _. by apply Hs.
Qed.

(** Run again over its own output, a sync that succeeds changes nothing. *)
Lemma exec_sync_settled k key f message before σ σ' :
  settles f → synced k key f before (view σ k key) →
  exec (wrap message (CreateOrUpdate k key f) ;;? okR tt) σ = Some (Ok tt, σ') →
  ∀ k' key', view σ' k' key' = view σ k' key'.
Proof.
  intros Hs (sent & kept & Hk & Hf & Hp)
    [(e & (r1 & _ & _)%exec_wrap & [=])
    |(op & σ1 & (r1 & [Hc Hfr]%exec_create_or_update & Hr)%exec_wrap & Hx)]%exec_bindR.
  exec_inv. intros k' key'. destruct (decide ((k', key') = (k, key))) as [[= -> ->]|Hne];
    [|by apply Hfr].
  rewrite Hk in Hc |- *. by eapply create_or_update_settled.
Qed.

(** A loop of steps that each own one object: the frame, and each step's
    postcondition, survive the later steps. *)
Lemma exec_forR_local {A} (f : A → io (result unit)) (loc : A → Kind * ObjectKey)
    (Q : A → W → Prop) l σ r σ' :
  (∀ a σ r σ', exec (f a) σ = Some (r, σ') →
     (r = Ok tt → Q a σ') ∧ ∀ k key, (k, key) ≠ loc a → view σ' k key = view σ k key) →
  (∀ a σ σ', (∀ k key, (k, key) = loc a → view σ' k key = view σ k key) → Q a σ → Q a σ') →
  NoDup (loc <$> l) → exec (forR f l) σ = Some (r, σ') →
  (r = Ok tt → ∀ a, a ∈ l → Q a σ') ∧
  ∀ k key, (k, key) ∉ loc <$> l → view σ' k key = view σ k key.
Proof.
  intros Hstep Hloc. revert σ. induction l as [|a l IH]; intros σ; simpl.
  - intros _ Hx. exec_inv. split; [|done]. intros _ a. by rewrite elem_of_nil.
  - intros [Hni Hnd]%list.NoDup_cons Hx.
    apply exec_bindR in Hx as [(e & [_ Hf]%Hstep & ->)|([] & σ1 & [HQ Hf]%Hstep & Hx)].
    + split; [done|]. intros k key Hk. apply Hf. set_solver.
    + apply IH in Hx as [HQs Hfs]; [|done]. split.
      * intros Hr a' [->|Ha]%elem_of_cons; [|by apply HQs].
        eapply Hloc; [|by apply HQ]. intros k key Hk. apply Hfs. by rewrite Hk.
      * intros k key Hk. rewrite Hfs by set_solver. apply Hf. set_solver.
Qed.

(** IgnoreNotFound around a delete: success means gone. *)
Lemma deletion_ignored {k} (before after : option (obj k)) r :
  deletion before r after → IgnoreNotFound r = Ok tt → after = None.
Proof.
  destruct r as [[]|e]; simpl; [done|]. destruct (IsNotFound e); [|done].
  by intros [_ ->] _.
Qed.
End contracts.

(** ** An in-memory API server *)

(** The object of a kind, if it is of that kind. *)
Definition cast_object (k : Kind) (a : AnyObject) : option (obj k) :=
  match a with
  | Any k' o =>
      match decide (k' = k) with
      | left E => Some (eq_rect k' (fun k => obj k) o k E)
      | right _ => None
      end
  end.

Lemma cast_object_same k o : cast_object k (Any k o) = Some o.
Proof.
  unfold cast_object. destruct (decide (k = k)) as [E|]; [|done].
  by rewrite (Eqdep_dec.UIP_dec Kind_eq_dec E eq_refl).
Qed.

#[global] Arguments cast_object : simpl never.

Definition kind_index (k : Kind) : nat :=
  match k with
  | KWorkspace => 0 | KNamespace => 1 | KSecret => 2 | KConfigMap => 3 | KServiceAccount => 4
  | KRoleBinding => 5 | KResourceQuota => 6 | KLimitRange => 7 | KNetworkPolicy => 8
  | KHelmRepository => 9
  end.
#[export] Instance kind_index_inj : Inj (=) (=) kind_index.
Proof. intros [] []; simpl; congruence. Qed.
#[export] Instance Kind_countable : Countable Kind.
Proof.
  refine (inj_countable kind_index
    (fun n => nth_error [KWorkspace; KNamespace; KSecret; KConfigMap; KServiceAccount;
       KRoleBinding; KResourceQuota; KLimitRange; KNetworkPolicy; KHelmRepository] n) _).
  by intros [].
Defined.

(** Objects by kind and key, the time, and the Harbor server behind the
    transport. *)
Record memory := mkMemory {
  mem_objects : gmap (Kind * ObjectKey) AnyObject;
  mem_now : Z;
  mem_http : Request → string + Response;
}.

(** Creation stamps the object. *)
Definition stamped (now : Z) {k} (o : obj k) : obj k :=
  with_meta (fun m => mkObjectMeta (Meta_Name m) (Meta_Namespace m) (Meta_UID m) (Meta_Generation m)
    (Meta_Labels m) (Meta_Annotations m) (Meta_OwnerReferences m)
    (if Meta_CreationTimestamp m then Meta_CreationTimestamp m else Some now)
    (Meta_DeletionTimestamp m)) o.

Definition mem_view (m : memory) (k : Kind) (key : ObjectKey) : option (obj k) :=
  stamped 0 <$> (mem_objects m !! (k, key) ≫= cast_object k).

Definition mem_write (m : memory) (k : Kind) (key : ObjectKey) (o : option (obj k)) : memory :=
  mkMemory (partial_alter (fun _ => Any k <$> o) (k, key) (mem_objects m)) (mem_now m) (mem_http m).

Definition notFound : error := StatusError StatusReasonNotFound "not found".

Definition mem_create_or_update (k : Kind) (key : ObjectKey) (f : obj k → result (obj k)) (m : memory)
    : result OperationResult * memory :=
  match mem_view m k key with
  | None =>
      match f (literal k key) with
      | Err e => (Err e, m)
      | Ok o => (Ok OperationResultCreated, mem_write m k key (Some (stamped (mem_now m) o)))
      end
  | Some o =>
      match f o with
      | Err e => (Err e, m)
      | Ok o' =>
          if decide (o = o') then (Ok OperationResultNone, m)
          else (Ok OperationResultUpdated, mem_write m k key (Some (stamped (mem_now m) o')))
      end
  end.

Definition mem_delete (k : Kind) (key : ObjectKey) (m : memory) : result unit * memory :=
  match mem_view m k key with
  | None => (Err notFound, m)
  | Some _ => (Ok tt, mem_write m k key None)
  end.

(** Updating keeps the object's UID and namespace. *)
Definition with_identity {k} (old o : obj k) : obj k :=
  with_meta (fun m => mkObjectMeta (Meta_Name m) (Meta_Namespace (metadata old)) (Meta_UID (metadata old))
    (Meta_Generation m) (Meta_Labels m) (Meta_Annotations m) (Meta_OwnerReferences m)
    (Meta_CreationTimestamp m) (Meta_DeletionTimestamp m)) o.

Definition mem_serve : handler sysE memory := fun X e m =>
  match e in sysE X return option (X * memory) with
  | ClientGet k key =>
      Some (match mem_view m k key with Some o => Ok o | None => Err notFound end, m)
  | ClientListWorkspaces =>
      Some (Ok (omap (fun '(_, a) => cast_object KWorkspace a) (map_to_list (mem_objects m))), m)
  | ClientUpdateWorkspace w =>
      Some (match mem_view m KWorkspace (mkKey "" (W_Name w)) with
            | None => (Err notFound, m)
            | Some old => (Ok tt, mem_write m KWorkspace (mkKey "" (W_Name w))
                (Some (stamped (k:=KWorkspace) (mem_now m) (with_identity old w))))
            end)
  | ClientDelete k key => Some (mem_delete k key m)
  | ClientStatusPatch _ w =>
      Some (Ok tt, match mem_view m KWorkspace (mkKey "" (W_Name w)) with
                   | Some old => mem_write m KWorkspace (mkKey "" (W_Name w))
                       (Some (stamped (k:=KWorkspace) (mem_now m) (set_W_Status (W_Status w) old)))
                   | None => m
                   end)
  | ClientCreateReview _ => Some (Ok false, m)
  | CreateOrUpdateE k key f => Some (mem_create_or_update k key f m)
  | EventfE _ _ _ _ _ => Some (tt, m)
  | HttpDo r => Some (match mem_http m r with inl e => Err (ErrorString e) | inr resp => Ok resp end, m)
  | BodyClose _ => Some (tt, m)
  | TimeNow => Some (mem_now m, m)
  | RandByte => Some (Ok "004"%char, m)
  | UtilRandString n => Some (String.concat "" (replicate n "x"), m)
  | MapOrder => Some (String.length, m)
  | PanicE _ => None
  end.

#[export] Instance memory_cluster : Cluster memory :=
  {| serve := mem_serve; view := mem_view; cache := mem_view |}.

Lemma stamped_persisted now {k} (o : obj k) : persisted o (stamped now o).
Proof. split; auto. Qed.

Lemma stamped_created now {k} (o : obj k) : Meta_CreationTimestamp (metadata (stamped now o)) ≠ None.
Proof. destruct o as [[]]. simpl. by case_match. Qed.

Lemma stamped_twice t now {k} (o : obj k) : stamped t (stamped now o) = stamped now o.
Proof. destruct o as [[? ? ? ? ? ? ? [c|] ?]]; done. Qed.

Lemma mem_view_write m k key o : mem_view (mem_write m k key o) k key = stamped 0 <$> o.
Proof.
  unfold mem_view, mem_write. simpl. rewrite lookup_partial_alter_eq.
  destruct o as [o|]; simpl; [by rewrite cast_object_same | done].
Qed.

Lemma mem_view_write_ne m k key o k' key' :
  (k, key) ≠ (k', key') → mem_view (mem_write m k key o) k' key' = mem_view m k' key'.
Proof. intros Hne. unfold mem_view, mem_write. simpl. by rewrite lookup_partial_alter_ne. Qed.

Lemma mem_create_or_update_spec k key f m :
  let '(r, m') := mem_create_or_update k key f m in
  create_or_update key f (mem_view m k key) r (mem_view m' k key) ∧
  ∀ k' key', (k, key) ≠ (k', key') → mem_view m' k' key' = mem_view m k' key'.
Proof.
  unfold mem_create_or_update. destruct (mem_view m k key) as [o|] eqn:Hv.
  - destruct (f o) as [o'|e] eqn:Hf.
    + case_decide as Ho.
      * subst. rewrite Hv. split; [|done]. by constructor.
      * rewrite mem_view_write. simpl. rewrite stamped_twice. split.
        -- eapply (cou_written key f (Some o)); [done| congruence | apply stamped_persisted].
        -- intros. by apply mem_view_write_ne.
    + rewrite Hv. split; [|done]. by constructor.
  - destruct (f (literal k key)) as [o'|e] eqn:Hf.
    + rewrite mem_view_write. simpl. rewrite stamped_twice. split.
      * eapply (cou_written key f None); [done| congruence | apply stamped_persisted].
      * intros. by apply mem_view_write_ne.
    + rewrite Hv. split; [|done]. by constructor.
Qed.

Lemma memory_cached_laws : CachedLaws memory.
Proof.
  split.
  - intros k key m r m'. simpl. intros [= <- <-]. by destruct (mem_view m k key).
  - intros k key f m r m' Hs. pose proof (mem_create_or_update_spec k key f m) as Hc.
    simpl in Hs. injection Hs as Hs. rewrite Hs in Hc. apply ccou_current, Hc.
  - intros p m r m'. simpl. destruct (mem_view m KWorkspace _) as [old|] eqn:Hv; intros [= <- <-]; [right|by left].
    exists old, (stamped (k:=KWorkspace) (mem_now m) (with_identity old p)).
    split_and!; [done| |by destruct p as [[] []]..]. rewrite mem_view_write. simpl. by rewrite stamped_twice.
  - intros k key m r m'. simpl. unfold mem_delete.
    destruct (mem_view m k key) eqn:Hv; intros [= <- <-]; simpl.
    + by rewrite mem_view_write.
    + done.
  - intros base p m r m'. simpl. intros [= <- <-].
    destruct (mem_view m KWorkspace _) as [old|] eqn:Hv; [right|by left]. exists old, (W_Status p).
    split; [done|]. rewrite mem_view_write. simpl. rewrite stamped_twice. f_equal.
    unfold mem_view in Hv. apply fmap_Some in Hv as (raw & _ & ->). by destruct raw as [[? ? ? ? ? ? ? [c|] ?] []].
  - intros req m e m'. simpl. by destruct (mem_http m req); intros [= <- <-].
  - intros X e m x m' k key Hs Hw. simpl in *.
    destruct e as [| |w'|k' key'|? w'| |k' key' f| | | | | | | |]; simpl in *; simplify_eq; try done.
    + destruct (mem_view m KWorkspace _); simplify_eq; [|done]. apply mem_view_write_ne. naive_solver.
    + unfold mem_delete in Hs. destruct (mem_view m k' key'); simplify_eq; [|done].
      apply mem_view_write_ne. naive_solver.
    + destruct (mem_view m KWorkspace _); [|done]. apply mem_view_write_ne. naive_solver.
    + pose proof (mem_create_or_update_spec k' key' f m) as Hc.
      rewrite Hs in Hc. apply Hc. naive_solver.
  - intros m k key o. simpl. unfold mem_view.
    intros (o' & _ & ->)%fmap_Some. apply stamped_created.
  - done.
Qed.

Lemma memory_laws : ClusterLaws memory.
Proof. split; [apply memory_cached_laws|done]. Qed.
