(* ===== verification/Backed.v ===== *)
(** In-memory worlds that answer HTTP themselves and leave every other call to
    the in-memory API server.

    A world is [Backed] by a [memory] it can read and replace; a world that obeys
    [BackedLaws] is a lawful cluster. *)
From S2P Require Import Prelude Errors Prog GoStd Api Effects Cluster.

Class Backed (W : Type) := {
  back : W → memory;
  set_back : memory → W → W;
  respond : Request → W → result Response * W;
}.

Class BackedLaws (W : Type) `{Backed W} : Prop := {
  back_set m σ : back (set_back m σ) = m;
  respond_back r σ : back (respond r σ).2 = back σ;
  respond_error r σ e : (respond r σ).1 = Err e → external e;
}.

Definition is_http {X} (e : sysE X) : bool := match e with HttpDo _ => true | _ => false end.

Section backed.
Context {W : Type} {B : Backed W}.
Implicit Types (σ : W).

Definition on_back σ {X} (e : sysE X) : option (X * W) :=
  match mem_serve X e (back σ) with
  | Some (x, m) => Some (x, set_back m σ)
  | None => None
  end.

Definition backed_serve : handler sysE W := fun X e σ =>
  match e in sysE X return sysE X → option (X * W) with
  | HttpDo r => fun _ => Some (respond r σ)
  | _ => fun e => on_back σ e
  end e.

Definition backed_cluster : Cluster W := {|
  serve := backed_serve;
  view σ := mem_view (back σ);
  cache σ := mem_view (back σ);
|}.

Lemma backed_serve_http r σ x σ' : backed_serve _ (HttpDo r) σ = Some (x, σ') → respond r σ = (x, σ').
Proof. by intros [= ->]. Qed.

Lemma on_back_Some {X} (e : sysE X) σ x σ' :
  on_back σ e = Some (x, σ') → ∃ m, mem_serve X e (back σ) = Some (x, m) ∧ σ' = set_back m σ.
Proof.
  unfold on_back. destruct (mem_serve X e (back σ)) as [[y m]|]; [|done]. intros [= -> <-]. by exists m.
Qed.

Lemma backed_serve_mem X (e : sysE X) σ x σ' :
  is_http e = false → backed_serve X e σ = Some (x, σ') →
  ∃ m, mem_serve X e (back σ) = Some (x, m) ∧ σ' = set_back m σ.
Proof. intros He Hs. apply on_back_Some. by destruct e. Qed.

Lemma backed_serve_other X (e : sysE X) σ x σ' :
  backed_serve X e σ = Some (x, σ') → is_http e = false → ∃ m, σ' = set_back m σ.
Proof. intros Hs He. apply backed_serve_mem in Hs as (m & _ & ->); [by exists m|done]. Qed.

Context {BL : BackedLaws W}.

Lemma backed_cached_laws : @CachedLaws W backed_cluster.
Proof.
  destruct memory_cached_laws as [Hget Hcou Hupd Hdel Hpatch Hhttp Hframe Hcreated Hcurrent]. split.
  - intros k key σ r σ' (m & Hs & ->)%(backed_serve_mem _ (ClientGet k key)); [|done]. by eapply Hget.
  - intros k key f σ r σ' (m & Hs & ->)%(backed_serve_mem _ (CreateOrUpdateE k key f)); [|done].
    simpl. rewrite back_set. by apply Hcou.
  - intros p σ r σ' (m & Hs & ->)%(backed_serve_mem _ (ClientUpdateWorkspace p)); [|done].
    simpl. rewrite back_set. by eapply Hupd.
  - intros k key σ r σ' (m & Hs & ->)%(backed_serve_mem _ (ClientDelete k key)); [|done].
    simpl. rewrite back_set. by apply Hdel.
  - intros base p σ r σ' (m & Hs & ->)%(backed_serve_mem _ (ClientStatusPatch base p)); [|done].
    simpl. rewrite back_set. by eapply Hpatch.
  - intros req σ e σ' Hs%backed_serve_http. eapply (respond_error req σ). by rewrite Hs.
  - intros X e σ x σ' k key Hs Hw. simpl in *. destruct (is_http e) eqn:He.
    + destruct e; try discriminate He. apply backed_serve_http in Hs.
      pose proof (respond_back r σ) as Hb. rewrite Hs in Hb. simpl in Hb. by rewrite Hb.
    + apply backed_serve_mem in Hs as (m & Hs & ->); [|done]. rewrite back_set. by eapply Hframe.
  - intros σ. apply Hcreated.
  - done.
Qed.

Lemma backed_laws : @ClusterLaws W backed_cluster.
Proof. split; [apply backed_cached_laws|done]. Qed.
End backed.
