(* ===== verification/Sync.v ===== *)
(** The shapes the syncs of internal/workspace share: the delete that ignores
    NotFound, the mutate function that overwrites and owns, and the tenant
    boundary of the objects a sync writes. *)
From S2P Require Import Prelude Errors Prog GoStd Api Effects Cluster.

(** [if err := client.IgnoreNotFound(c.Delete(ctx, obj)); err != nil { wrap }]. *)
Definition deleteIfPresent (k : Kind) (key : ObjectKey) (message : string) : io (result unit) :=
  wrap message (IgnoreNotFound <$> Delete k key).

Section delete.
Context {W : Type} {CW : Cluster W} {LW : ClusterLaws W}.

Lemma exec_deleteIfPresent k key message σ r σ' :
  exec (deleteIfPresent k key message) σ = Some (r, σ') →
  (r = Ok tt → view σ' k key = None) ∧
  ∀ k' key', (k', key') ≠ (k, key) → view σ' k' key' = view σ k' key'.
Proof.
  unfold deleteIfPresent. intros (r1 & (r2 & Hx & ->)%exec_fmap & ->)%exec_wrap.
  apply exec_delete in Hx as [Hd Hf]. split; [|done].
  intros Hok%wrapR_Ok. by eapply deletion_ignored.
Qed.
End delete.

(** What a mutate function owned, the workspace controls as the server keeps it. *)
Lemma own_controlled {CL : CtrlLib} {HCL : CtrlLaws} {k} w (o sent kept : obj k) :
  own w o = Ok sent → persisted sent kept → controlled w kept.
Proof.
  intros Hown [_ _ _ Ho _]. split; [|rewrite Ho; by eapply own_owned].
  pose proof (own_idem _ _ _ Hown) as (refs & Hs & He)%own_Ok. apply own_Ok. exists refs.
  rewrite Ho. split; [done|]. rewrite He in Ho. destruct kept as [[] ?]. simpl in *. by subst.
Qed.

(** A mutate function that overwrites the labels, and the payload with what
    [p] makes of it, and then owns the object, settles (what the server adds makes
    LimitRange and Namespace the exceptions). *)
Lemma overwrite_settles {CL : CtrlLib} {HCL : CtrlLaws} k (w : Workspace) l (p : payload_of k → payload_of k) :
  k ≠ KLimitRange → k ≠ KNamespace → (∀ x, p (p x) = p x) →
  settles (k := k) (fun o => own w (with_payload (p (payload o)) (with_meta (set_Labels l) o))).
Proof.
  intros Hk Hns Hp o sent kept Hown Hps. pose proof (persisted_same_labels _ _ Hps Hns) as Hl.
  destruct Hps as [_ _ Ha Ho Hpl]. specialize (Hpl Hk).
  pose proof (own_idem _ _ _ Hown) as Hi. apply own_Ok in Hi as (refs & Hs & Hr).
  rewrite (own_labels _ _ _ Hown) in Hl. rewrite (own_payload _ _ _ Hown) in Hpl.
  apply own_Ok. exists refs. simpl in *. rewrite Ho. split; [done|].
  rewrite Hr in Ho. destruct kept as [[] ?]. unfold with_payload, with_meta, set_Labels, set_OwnerReferences.
  simpl in *. subst. by rewrite Hp.
Qed.

(** ** Quiet programs *)

(** The event writes no object of the cluster. *)
Definition quiet (o : obs sysE) : Prop := ∀ k key, ¬ writes o k key.

(** A weaker event predicate. *)
Lemma emits_impl {E : Type → Type} (P Q : obs E → Prop) {A} (p : prog E A) :
  (∀ o, P o → Q o) → emits P p → emits Q p.
Proof.
  intros HPQ. induction p as [b|X e c IH]; simpl; [done|]. intros Hp x.
  destruct (Hp x). split; [auto|by apply IH].
Qed.

Lemma exec_quiet {W : Type} {CW : Cluster W} {LW : CachedLaws W} {A} (p : io A) σ a σ' :
  emits quiet p → exec p σ = Some (a, σ') → ∀ k key, view σ' k key = view σ k key.
Proof.
  intros Hq Hx k key. eapply exec_frame; [|done]. eapply emits_impl; [|done].
  intros o Ho. apply Ho.
Qed.

(** Replace an execution of a quiet program by the fact that the cluster is as it
    was. *)
Ltac quietly H lem :=
  let Hv := fresh "Hv" in pose proof (exec_quiet _ _ _ _ lem H) as Hv; clear H; rename Hv into H.

(** ** Confinement *)

Section confinement.
Lemma inside_quiet w o : (∀ k key, ¬ writes o k key) → inside w o.
Proof. intros Hq k key Hw. by apply Hq in Hw. Qed.

Lemma emits_quiet_inside {A} w (p : io A) : emits quiet p → emits (inside w) p.
Proof. apply emits_impl. intros o. apply inside_quiet. Qed.

Lemma inside_create_or_update w k key f x :
  k ≠ KNamespace → k ≠ KWorkspace → Key_Namespace key = W_Namespace w →
  inside w (Obs (CreateOrUpdateE k key f) x).
Proof. by intros H1 H2 H3 k' key' [-> ->]. Qed.

Lemma inside_delete w k key x :
  k ≠ KNamespace → k ≠ KWorkspace → Key_Namespace key = W_Namespace w →
  inside w (Obs (ClientDelete k key) x).
Proof. by intros H1 H2 H3 k' key' [-> ->]. Qed.

Lemma emits_inside_sync w k key f :
  k ≠ KNamespace → k ≠ KWorkspace → Key_Namespace key = W_Namespace w →
  emits (inside w) (CreateOrUpdate k key f).
Proof. intros ???. apply emits_trigger. intros x. by apply inside_create_or_update. Qed.

Lemma emits_inside_delete w k key message :
  k ≠ KNamespace → k ≠ KWorkspace → Key_Namespace key = W_Namespace w →
  emits (inside w) (deleteIfPresent k key message).
Proof.
  intros ???. apply emits_wrap, emits_fmap, emits_trigger. intros x. by apply inside_delete.
Qed.

Lemma emits_inside_get w k key : emits (inside w) (Get k key).
Proof. apply emits_trigger. intros x. apply inside_quiet. by intros ?? []. Qed.
End confinement.

#[export] Hint Resolve emits_inside_sync emits_inside_delete emits_inside_get : progs.
#[export] Hint Extern 1 (_ ≠ _) => discriminate : progs.

