(* ===== verification/Stage.v ===== *)
(** Contracts of the steps of a reconcile, and their composition.

    A step owns a footprint, the objects it may write.  [stage p foot post] says
    that [p], on success, leaves [post] true; that, success or not, it changes
    nothing outside its footprint; and that [post] speaks of the footprint only,
    so that later steps with disjoint footprints keep it. *)
From S2P Require Import Prelude Errors Prog GoStd Api Effects Cluster Sync.

Abbreviation footprint := (list (Kind * ObjectKey)).

Definition disjoint_footprints (f1 f2 : footprint) : Prop := ∀ x, x ∈ f1 → x ∉ f2.

Section stage.
Context {W : Type} {CW : Cluster W} {LW : ClusterLaws W}.
Implicit Types (σ : W).

Definition frame (foot : footprint) σ σ' : Prop :=
  ∀ k key, (k, key) ∉ foot → view σ' k key = view σ k key.

Definition local (foot : footprint) (post : W → Prop) : Prop :=
  ∀ σ σ', (∀ k key, (k, key) ∈ foot → view σ' k key = view σ k key) → post σ → post σ'.

Record stage {A} (p : io (result A)) (foot : footprint) (post : W → Prop) : Prop := {
  stage_post σ a σ' : exec p σ = Some (Ok a, σ') → post σ';
  stage_frame σ r σ' : exec p σ = Some (r, σ') → frame foot σ σ';
  stage_local : local foot post;
}.

Lemma frame_refl foot σ : frame foot σ σ.
Proof. done. Qed.

Lemma frame_trans foot σ1 σ2 σ3 : frame foot σ1 σ2 → frame foot σ2 σ3 → frame foot σ1 σ3.
Proof. intros H1 H2 k key Hk. by rewrite H2, H1. Qed.

Lemma frame_mono f1 f2 σ σ' : f1 ⊆ f2 → frame f1 σ σ' → frame f2 σ σ'.
Proof. intros Hsub Hf k key Hk. apply Hf. intros Hin. by apply Hk, Hsub. Qed.

(** A postcondition outside the footprint of a step survives it. *)
Lemma local_frame f1 f2 post σ σ' :
  local f1 post → frame f2 σ σ' → disjoint_footprints f1 f2 → post σ → post σ'.
Proof. intros Hl Hf Hd. apply Hl. intros k key Hk. apply Hf. by apply Hd. Qed.

Lemma local_and f1 f2 P Q : local f1 P → local f2 Q → local (f1 ++ f2) (fun σ => P σ ∧ Q σ).
Proof.
  intros HP HQ σ σ' Hv [? ?]. split; [apply (HP σ)|apply (HQ σ)]; try done;
    intros k key Hk; apply Hv, elem_of_app; auto.
Qed.

Lemma stage_seq {A B} `{!Inhabited A} (p : io (result A)) (q : A → io (result B)) f1 f2 P Q :
  stage p f1 P → (∀ a, stage (q a) f2 Q) → disjoint_footprints f1 f2 →
  stage (bindR p q) (f1 ++ f2) (fun σ => P σ ∧ Q σ).
Proof.
  intros [Hp Hfp Hlp] Hq Hd. split.
  - intros σ b σ' [(e & _ & [=])|(a & σ1 & H1 & H2)]%exec_bindR. split.
    + eapply local_frame; [done| |done|by eapply Hp]. by eapply (stage_frame _ _ _ (Hq a)).
    + by eapply (stage_post _ _ _ (Hq a)).
  - intros σ r σ' [(e & H1 & _)|(a & σ1 & H1 & H2)]%exec_bindR; apply Hfp in H1.
    + eapply frame_mono; [|done]. set_solver.
    + apply (stage_frame _ _ _ (Hq a)) in H2.
      eapply frame_trans; (eapply frame_mono; [|done]); set_solver.
  - apply local_and; [done|]. apply (stage_local _ _ _ (Hq inhabitant)).
Qed.

(** A step that returns what it was given. *)
Lemma stage_ret {A} (a : A) : stage (okR a) [] (fun _ => True).
Proof. split; [done| |done]. intros σ r σ' Hx. by exec_inv. Qed.

Lemma stage_weaken {A} (p : io (result A)) f f' P P' :
  stage p f P → f ≡ₚ f' → (∀ σ, P σ ↔ P' σ) → stage p f' P'.
Proof.
  intros [Hp Hf Hl] Hperm HP. split.
  - intros. apply HP. by eapply Hp.
  - intros σ r σ' Hx. eapply frame_mono; [|by eapply Hf]. by rewrite Hperm.
  - intros σ σ' Hv H%HP. apply HP. eapply Hl; [|done]. intros k key. rewrite Hperm. apply Hv.
Qed.
End stage.

(** ** Errors *)

Section errors.
Context {W : Type} {CW : Cluster W} {LW : CachedLaws W}.
Implicit Types (σ : W).

(** The program never fails with a namespace conflict: only the namespace step
    does, so that the error handler's classification means what it says. *)
Definition no_conflict {A} (p : io (result A)) : Prop :=
  ∀ σ e σ', exec p σ = Some (Err e, σ') → AsNamespaceConflictError e = None.

Lemma nc_okR {A} (a : A) : no_conflict (okR a).
Proof. intros σ e σ' Hx. exec_inv. Qed.

Lemma nc_errR {A} e : AsNamespaceConflictError e = None → no_conflict (errR (A := A) e).
Proof. intros He σ e' σ' Hx. by exec_inv. Qed.

Lemma nc_bind {A B} (p : io A) (f : A → io (result B)) :
  (∀ a, no_conflict (f a)) → no_conflict (p ≫= f).
Proof. intros Hf σ e σ' (a & σ1 & _ & Hx)%exec_bind. by eapply Hf. Qed.

Lemma nc_bindR {A B} (p : io (result A)) (f : A → io (result B)) :
  no_conflict p → (∀ a, no_conflict (f a)) → no_conflict (bindR p f).
Proof.
  intros Hp Hf σ e σ' [(e' & Hx & [= ->])|(a & σ1 & _ & Hx)]%exec_bindR; [by eapply Hp|by eapply Hf].
Qed.

Lemma nc_wrap {A} s (p : io (result A)) : no_conflict p → no_conflict (wrap s p).
Proof. intros Hp σ e σ' (r & Hx & Hr)%exec_wrap. exec_inv. by eapply Hp in Hx. Qed.

Lemma nc_forR {A} (f : A → io (result unit)) l :
  (∀ x, no_conflict (f x)) → no_conflict (forR f l).
Proof. intros Hf. induction l; simpl; [apply nc_okR|]. by apply nc_bindR. Qed.

Lemma nc_get k key : no_conflict (Get k key).
Proof. intros σ e σ' [[He _] _]%(exec_get_cached k). by apply external_not_conflict. Qed.

Lemma nc_create_or_update k key (f : obj k → result (obj k)) :
  (∀ o e, f o = Err e → external e) → no_conflict (CreateOrUpdate k key f).
Proof.
  intros Hf σ e σ' [Hc _]%exec_write_cached. apply external_not_conflict.
  inversion Hc as [? ? ? Hcur| | |]; subst; [inversion Hcur; subst|..]; eauto.
Qed.

Lemma nc_deleteIfPresent k key message : no_conflict (deleteIfPresent k key message).
Proof.
  apply nc_wrap. intros σ e σ' (r & [Hd _]%exec_delete & Hr)%exec_fmap. apply external_not_conflict.
  destruct r as [|e']; simpl in Hr; [done|]. simpl in Hd. destruct (IsNotFound e'); [done|].
  injection Hr as ->. apply Hd.
Qed.

Lemma nc_http req : no_conflict (trigger (HttpDo req)).
Proof. intros σ e σ' Hx%exec_trigger. by eapply external_not_conflict, serve_http. Qed.

Lemma nc_own {CL : CtrlLib} {HCL : CtrlLaws} {P} w (o : object P) e : own w o = Err e → external e.
Proof.
  unfold own. destruct (SetControllerReference _ _ _) as [|e'] eqn:Hs; simpl; [done|].
  intros [= <-]. by eapply SetControllerReference_external.
Qed.
End errors.

#[export] Hint Resolve nc_okR nc_bindR nc_wrap nc_forR nc_get nc_deleteIfPresent nc_http : progs.
#[export] Hint Extern 2 (no_conflict (errR _)) => apply nc_errR; reflexivity : progs.
#[export] Hint Extern 2 (no_conflict (CreateOrUpdate _ _ _)) =>
  apply nc_create_or_update; intros ? ? ?; eapply nc_own; eassumption : progs.
