(* ===== verification/Fakes.v ===== *)
(** Executable stand-ins for the third-party functions: they satisfy the laws,
    so the hypotheses of the development are consistent, and the witnesses
    evaluate against them. *)
From S2P Require Import Prelude Errors GoStd Api Effects.

(** ** Owner references and conditions *)

Definition ownerRef (name uid : string) : OwnerReference :=
  mkOwnerReference "tenant.otterscale.io/v1alpha1" "Workspace" name uid true true.

Definition fakeSetControllerReference (name uid : string) (refs : list OwnerReference)
    : result (list OwnerReference) :=
  let others := filter (fun r => ¬ (Owner_Kind r = "Workspace" ∧ Owner_Name r = name)) refs in
  if existsb Owner_Controller others then Err (ErrorString "already owned by another controller")
  else Ok (others ++ [ownerRef name uid]).

Definition condition_since (t : Z) (c : Condition) : Condition :=
  mkCondition (Cond_Type c) (Cond_Status c) (Cond_ObservedGeneration c) t (Cond_Reason c) (Cond_Message c).

Definition newCondition (now : Z) (c : Condition) : Condition :=
  if bool_decide (Cond_LastTransitionTime c = 0%Z) then condition_since now c else c.

Definition replaceCondition (now : Z) (old c : Condition) : Condition :=
  if bool_decide (Cond_Status old = Cond_Status c) then condition_since (Cond_LastTransitionTime old) c
  else newCondition now c.

Fixpoint fakeSetStatusCondition (now : Z) (cs : list Condition) (c : Condition) : list Condition :=
  match cs with
  | [] => [newCondition now c]
  | x :: cs =>
      if bool_decide (Cond_Type x = Cond_Type c) then replaceCondition now x c :: cs
      else x :: fakeSetStatusCondition now cs c
  end.

Definition fakeCtrlLib : CtrlLib := {|
  SetControllerReference := fakeSetControllerReference;
  SetStatusCondition := fakeSetStatusCondition;
|}.

Lemma newCondition_same now c : same_condition (newCondition now c) c.
Proof. unfold newCondition, same_condition. by case_bool_decide. Qed.

Lemma replaceCondition_same now x c : same_condition (replaceCondition now x c) c.
Proof.
  unfold replaceCondition. case_bool_decide; [by split_and!|apply newCondition_same].
Qed.

Lemma newCondition_type now c : Cond_Type (newCondition now c) = Cond_Type c.
Proof. apply newCondition_same. Qed.

Lemma replaceCondition_type now x c : Cond_Type (replaceCondition now x c) = Cond_Type c.
Proof. apply replaceCondition_same. Qed.

Lemma fakeSetStatusCondition_types now cs c t :
  t ∈ Cond_Type <$> fakeSetStatusCondition now cs c ↔ t = Cond_Type c ∨ t ∈ Cond_Type <$> cs.
Proof.
  induction cs as [|x cs IH]; simpl.
  - rewrite newCondition_type. set_solver.
  - case_bool_decide as Ht; simpl; rewrite ?replaceCondition_type, ?Ht; set_solver.
Qed.

Lemma IsOwned_app refs1 refs2 uid :
  IsOwned (refs1 ++ refs2) uid = IsOwned refs1 uid || IsOwned refs2 uid.
Proof. apply existsb_app. Qed.

Lemma fakeCtrlLaws : @CtrlLaws fakeCtrlLib.
Proof.
  split; simpl; unfold fakeSetControllerReference.
  - intros name uid refs refs'. case_match; intros; simplify_eq.
    rewrite IsOwned_app. simpl. rewrite bool_decide_eq_true_2 by done. by rewrite orb_true_r.
  - intros name uid refs refs' other. case_match; intros [= <-] Hne. rewrite IsOwned_app. simpl.
    rewrite (bool_decide_eq_false_2 (uid = other)), !orb_false_r by congruence.
    unfold IsOwned. rewrite !existsb_In. intros (ref & [_ Hin]%list_elem_of_filter & Hu). by exists ref.
  - intros name uid refs refs'. case_match eqn:Hex; intros; simplify_eq.
    rewrite list.filter_app, filter_cons_False, filter_nil, app_nil_r by (simpl; tauto).
    rewrite list_filter_filter_l by done. by rewrite Hex.
  - intros name uid refs name' uid' Hs Hne. destruct (existsb _ _) eqn:He in Hs; [done|].
    injection Hs as Hs. rewrite (proj2 (existsb_exists _ _)); [by eexists|].
    exists (ownerRef name uid). split; [|done]. apply list_elem_of_In, list_elem_of_filter.
    split; [simpl; naive_solver|]. rewrite <-Hs. set_solver.
  - intros name uid refs e. case_match; by intros [= <-].
  - intros name uid. by exists [ownerRef name uid].
  - intros now cs c. induction cs as [|x cs IH]; simpl; unfold FindStatusCondition in *; simpl.
    + rewrite newCondition_type, bool_decide_eq_true_2 by done.
      eexists. split; [done|]. apply newCondition_same.
    + case_bool_decide as Ht; simpl.
      * rewrite replaceCondition_type, bool_decide_eq_true_2 by done.
        eexists. split; [done|]. apply replaceCondition_same.
      * by rewrite (bool_decide_eq_false_2 _ Ht).
  - intros now cs c t Ht. unfold FindStatusCondition.
    induction cs as [|x cs IH]; simpl.
    + by rewrite newCondition_type, bool_decide_eq_false_2 by done.
    + case_bool_decide as Hx; simpl.
      * by rewrite replaceCondition_type, Hx, bool_decide_eq_false_2 by done.
      * by rewrite IH.
  - intros now cs c. induction cs as [|x cs IH]; simpl; intros Hnd.
    + apply NoDup_singleton.
    + apply list.NoDup_cons in Hnd as [Hx Hnd]. case_bool_decide as Ht; simpl.
      * rewrite replaceCondition_type, <-Ht. by apply list.NoDup_cons.
      * apply list.NoDup_cons. split; [|by apply IH].
        rewrite fakeSetStatusCondition_types. naive_solver.
  - intros now cs c c' Ht0. unfold FindStatusCondition.
    induction cs as [|x cs IH]; simpl; [done|].
    case_bool_decide; simpl.
    + intros [= ->] (? & Hs & ? & ? & ?). unfold replaceCondition.
      rewrite bool_decide_eq_true_2 by done. destruct c, c'. simpl in *. by subst.
    + intros. f_equal. by apply IH.
Qed.

(** ** Standard-library functions *)

(** Every request is valid, every URL is https://harbor.example, strings are
    quoted verbatim; the decoders read the one document their tests use. *)
Definition fakeNetLib : NetLib := {|
  NewRequest_error _ _ := None;
  url_Parse _ := Ok ("https", "harbor.example");
  Quote s := String "034" (s +:+ String "034" "");
  Decode_existingMembers _ := Ok [];
  Decode_projectID _ := Ok 7%Z;
  Decode_robots _ := Ok [];
  Decode_createdRobot _ := Ok (mkRobotCredentials "robot$ns+ns" "s3cret");
|}.

Lemma fakeNetLaws : @NetLaws fakeNetLib.
Proof. by split. Qed.

(** ** Example objects *)

Definition exampleMembers : list WorkspaceMember :=
  [mkMember MemberRoleAdmin "alice" None false;
   mkMember MemberRoleView "bob" None false;
   mkMember MemberRoleEdit "ci-bot" None true].

Definition workspaceWith (name uid ns : string) (members : list WorkspaceMember)
    (net : NetworkIsolationSpec) : Workspace :=
  mkObject (mkObjectMeta name "" uid 1 None None [] (Some 1%Z) None)
    (mkWorkspaceBody (mkWorkspaceSpec ns members None None net) (Status (zero_payload KWorkspace))).

Definition exampleWorkspace (name uid ns : string) : Workspace :=
  workspaceWith name uid ns exampleMembers (mkNetworkIsolation false []).
