(* ===== verification/Labels.v ===== *)
(** internal/labels/labels.go and internal/workspace/helpers.go: the labels the
    operator stamps on everything it manages, and the names it uses. *)
From S2P Require Import Prelude Errors GoStd Api Effects.

Module labels.
Definition Name := "app.kubernetes.io/name".
Definition Component := "app.kubernetes.io/component".
Definition PartOf := "app.kubernetes.io/part-of".
Definition ManagedBy := "app.kubernetes.io/managed-by".
Definition Version := "app.kubernetes.io/version".
Definition System := "otterscale-system".
Definition Operator := "tenant-operator".

Definition Standard (name component version : string) : gmap string string :=
  let m := <[Name := name]> (<[Component := component]>
            (<[PartOf := System]> (<[ManagedBy := Operator]> ∅))) in
  if bool_decide (version ≠ "") then <[Version := version]> m else m.
End labels.

Definition OperatorNamespace := "otterscale-system".
Definition ServiceAccountName := "workspace-deployer".
Definition RoleBindingName := "workspace-role-binding".
Definition ResourceQuotaName := "workspace-resource-quota".
Definition LimitRangeName := "workspace-limit-range".
Definition NetworkPolicyName := "workspace-network-policy".
Definition ImagePullSecretName := "workspace-image-pull-secret".
Definition HelmRepositoryName := "workspace-helm-repository".
Definition HarborDefaultProjectName := "library".
Definition LabelFromHarbor := "tenant.otterscale.io/from-harbor".
Definition LabelInternal := "tenant.otterscale.io/internal".
Definition LabelWorkspaceNamespace := "tenant.otterscale.io/namespace".
Definition UserLabelPrefix := "user.otterscale.io/".
Definition clusterRoleKind := "ClusterRole".
Definition ConditionTypeReady := "Ready".

(** Constants of the Kubernetes and Flux API packages the source names. *)
Definition rbacv1_GroupName := "rbac.authorization.k8s.io".
Definition rbacv1_UserKind := "User".
Definition rbacv1_ServiceAccountKind := "ServiceAccount".
Definition SecretTypeDockerConfigJson := "kubernetes.io/dockerconfigjson".
Definition DockerConfigJsonKey := ".dockerconfigjson".
Definition HelmRepositoryTypeOCI := "oci".
Definition PolicyTypeIngress := "Ingress".
Definition EventTypeNormal := "Normal".
Definition EventTypeWarning := "Warning".

Definition LabelsForWorkspace (workspace version : string) : gmap string string :=
  labels.Standard workspace "workspace" version.

(** ** Facts *)

(** The label set of a workspace, key by key. *)
Lemma LabelsForWorkspace_lookup ws version k :
  LabelsForWorkspace ws version !! k =
    if bool_decide (k = labels.Name) then Some ws
    else if bool_decide (k = labels.Component) then Some "workspace"
    else if bool_decide (k = labels.PartOf) then Some labels.System
    else if bool_decide (k = labels.ManagedBy) then Some labels.Operator
    else if bool_decide (k = labels.Version ∧ version ≠ "") then Some version
    else None.
Proof.
  unfold LabelsForWorkspace, labels.Standard.
  repeat case_bool_decide; destruct_and?; subst; simplify_map_eq; try done.
  all: rewrite ?lookup_insert_ne by (intros <-; naive_solver); simplify_map_eq.
  all: by rewrite ?lookup_insert_ne by naive_solver.
Qed.
