(* ===== verification/Config.v ===== *)
(** internal/workspace/config.go, and the credentials half of
    internal/workspace/harbor.go: the two operator-wide inputs, read on every
    reconcile. *)
From S2P Require Import Prelude Errors Prog GoStd Api Effects Cluster Labels.

Definition OperatorConfigName := "tenant-operator-config".
Definition operatorConfigKey := mkKey OperatorNamespace OperatorConfigName.

(** A missing ConfigMap is a nil map. *)
Definition operatorConfigData : io (result (gomap string)) :=
  r ← Get KConfigMap operatorConfigKey;
  match r with
  | Err e =>
      if IsNotFound e then okR None
      else errR (WrapError ("reading operator ConfigMap " +:+ ObjectKey_String operatorConfigKey) e)
  | Ok cm => okR (payload cm : gomap string)
  end.

(** The object may be a nil interface. *)
Definition IsOperatorConfig (o : option AnyObject) : bool :=
  match o with
  | None => false
  | Some o => bool_decide (GetName o = OperatorConfigName)
              && bool_decide (GetNamespace o = OperatorNamespace)
  end.

Definition OperatorSecretName := "tenant-operator-secret".
Definition HarborURLKey := "HARBOR_URL".
Definition HarborRobotNameKey := "HARBOR_ROBOT_NAME".
Definition HarborRobotSecretKey := "HARBOR_ROBOT_SECRET".

Record HarborCredentials := mkHarborCredentials {
  Harbor_URL : string;
  Harbor_RobotName : string;
  Harbor_RobotSecret : string;
}.

Definition operatorSecretKey := mkKey OperatorNamespace OperatorSecretName.

(** The keys whose value is empty, in the order of the table. *)
Definition missingKeys (creds : HarborCredentials) : list string :=
  fst <$> filter (fun field => field.2 = "")
    [(HarborURLKey, Harbor_URL creds);
     (HarborRobotNameKey, Harbor_RobotName creds);
     (HarborRobotSecretKey, Harbor_RobotSecret creds)].

Definition credentialsOf (secret : obj KSecret) : HarborCredentials :=
  let data := Secret_Data (payload secret) in
  mkHarborCredentials (gomap_get data HarborURLKey) (gomap_get data HarborRobotNameKey)
    (gomap_get data HarborRobotSecretKey).

Definition OperatorHarborCredentials : io (result HarborCredentials) :=
  secret ←? wrap ("reading Harbor credentials from Secret " +:+ ObjectKey_String operatorSecretKey)
              (Get KSecret operatorSecretKey);
  let creds := credentialsOf secret in
  let missing := missingKeys creds in
  if bool_decide (0 < length missing)
  then errR (ErrorString ("secret " +:+ ObjectKey_String operatorSecretKey +:+
                          " is missing required keys: " +:+ Join missing ", "))
  else okR creds.

Definition IsOperatorSecret (o : option AnyObject) : bool :=
  match o with
  | None => false
  | Some o => bool_decide (GetName o = OperatorSecretName)
              && bool_decide (GetNamespace o = OperatorNamespace)
  end.

Lemma missingKeys_spec s k :
  k ∈ missingKeys (credentialsOf s) ↔
  k ∈ [HarborURLKey; HarborRobotNameKey; HarborRobotSecretKey] ∧
  gomap_get (Secret_Data (payload s)) k = "".
Proof.
  unfold missingKeys. rewrite list_elem_of_fmap.
  setoid_rewrite list_elem_of_filter. setoid_rewrite elem_of_cons.
  setoid_rewrite elem_of_cons. setoid_rewrite elem_of_cons.
  setoid_rewrite elem_of_nil. split.
  - intros ([k' v] & -> & Hv & Hin). simpl in *.
    destruct Hin as [?|[?|[?|[]]]]; simplify_eq; eauto.
  - intros [Hin Hv]. exists (k, ""). simpl. split_and!; [done..|].
    destruct Hin as [->|[->|[->|[]]]]; [left|right; left|right; right; left]; by f_equal.
Qed.

Lemma missingKeys_nil c :
  length (missingKeys c) = 0 ↔ Harbor_URL c ≠ "" ∧ Harbor_RobotName c ≠ "" ∧ Harbor_RobotSecret c ≠ "".
Proof.
  unfold missingKeys. rewrite !filter_cons. simpl.
  repeat case_decide; simpl; split; try naive_solver lia.
Qed.

(** The two reads, from a cache. *)
Section cached.
Context {W : Type} {CW : Cluster W} {LW : CachedLaws W}.
Implicit Types (σ : W).

Lemma operatorConfigData_cached σ r σ' :
  exec operatorConfigData σ = Some (r, σ') →
  match r with
  | Ok data => data = (cm ← cache σ KConfigMap operatorConfigKey; payload cm)
  | Err e => external e
  end ∧ ∀ k key, view σ' k key = view σ k key.
Proof.
  intros (a & σ1 & Hg & Hx)%exec_bind. revert Hx.
  destruct (exec_get_cached KConfigMap _ _ _ _ Hg) as [Ha Hv]. destruct a as [cm|e].
  - intros Hx. exec_inv. by rewrite Ha.
  - destruct Ha as [He Hn]. destruct (IsNotFound e); intros Hx; exec_inv.
    + by rewrite Hn.
    + done.
Qed.

Lemma OperatorHarborCredentials_cached σ r σ' :
  exec OperatorHarborCredentials σ = Some (r, σ') →
  match r with
  | Ok creds => ∃ secret, cache σ KSecret operatorSecretKey = Some secret ∧ creds = credentialsOf secret
  | Err e => external e
  end ∧ ∀ k key, view σ' k key = view σ k key.
Proof.
  unfold OperatorHarborCredentials.
  intros [(e & (r1 & [Hr Hv]%(exec_get_cached KSecret) & Hw)%exec_wrap & ->)
         |(s & σ1 & (r1 & [Hr Hv]%(exec_get_cached KSecret) & Hw)%exec_wrap & Hx)]%exec_bindR.
  - split; [|done]. symmetry in Hw. apply wrapR_Err in Hw as (e' & -> & ->). by destruct Hr.
  - symmetry in Hw. apply wrapR_Ok in Hw as ->. case_bool_decide; exec_inv; (split; [|done]); [done|].
    by exists s.
Qed.
End cached.

(** The configuration a cluster holds. *)
Section cluster.
Context {W : Type} {CW : Cluster W} {LW : ClusterLaws W}.

Definition configured (σ : W) : gomap string :=
  cm ← view σ KConfigMap operatorConfigKey; payload cm.

Lemma exec_operatorConfigData σ r σ' :
  exec operatorConfigData σ = Some (r, σ') →
  match r with Ok data => data = configured σ | Err e => external e end ∧
  ∀ k key, view σ' k key = view σ k key.
Proof. intros [Hr Hv]%operatorConfigData_cached. split; [|done]. by rewrite (caught_up σ KConfigMap) in Hr. Qed.

Lemma exec_OperatorHarborCredentials σ r σ' :
  exec OperatorHarborCredentials σ = Some (r, σ') →
  match r with
  | Ok creds => ∃ secret, view σ KSecret operatorSecretKey = Some secret ∧ creds = credentialsOf secret
  | Err e => external e
  end ∧ ∀ k key, view σ' k key = view σ k key.
Proof. intros [Hr Hv]%OperatorHarborCredentials_cached. split; [|done]. by rewrite (caught_up σ KSecret) in Hr. Qed.
End cluster.

(** ** Properties *)

(** Credentials are handed out only complete: OperatorHarborCredentials reads
    the one Secret, and succeeds exactly when all three values are non-empty,
    with those values; otherwise the error lists precisely the missing keys, and
    a read failure is an error too (there is no degraded mode). *)
Theorem OperatorHarborCredentials_correct tr r :
  runs OperatorHarborCredentials tr r →
  ∃ answer, tr = [Obs (ClientGet KSecret operatorSecretKey) answer] ∧
  match answer, r with
  | Err e, Err e' => IsNotFound e' = IsNotFound e ∧ IsConflict e' = IsConflict e
  | Ok s, Ok c =>
      c = credentialsOf s ∧ Harbor_URL c ≠ "" ∧ Harbor_RobotName c ≠ "" ∧ Harbor_RobotSecret c ≠ ""
  | Ok s, Err e => ∃ missing, missing ≠ [] ∧
      (∀ k, k ∈ missing ↔
            k ∈ [HarborURLKey; HarborRobotNameKey; HarborRobotSecretKey] ∧
            gomap_get (Secret_Data (payload s)) k = "") ∧
      e = ErrorString ("secret otterscale-system/tenant-operator-secret is missing required keys: "
                       +:+ Join missing ", ")
  | Err _, Ok _ => False
  end.
Proof.
  unfold OperatorHarborCredentials, Get. intros Hr. run_inv.
  - by exists (Err e0).
  - exists (Ok a). case_bool_decide as Hm; run_inv; (split; [done|]).
    + exists (missingKeys (credentialsOf a)). split; [|split; [|done]].
      * by destruct (missingKeys _); [simpl in Hm; lia|].
      * apply missingKeys_spec.
    + split; [done|]. apply missingKeys_nil. lia.
Qed.
