(* ===== verification/Namespace.v ===== *)
(** internal/workspace/namespace.go: the workspace's namespace, its labels, and
    the two checks that keep the operator off namespaces it does not own.

    [namespaceMutate] is the closure ReconcileNamespace hands to CreateOrUpdate;
    [ValidateNamespaceAvailable] is its admission-time counterpart. *)
From S2P Require Import Prelude Errors Prog GoStd Api Effects Cluster Sync Stage Fakes Labels Config.

Definition rancherProjectIDAnnotation := "field.cattle.io/projectId".
Definition RancherProjectIDKey := "RancherProjectID".

Definition podSecurityLabels : gmap string string :=
  <["pod-security.kubernetes.io/enforce" := "baseline"]>
  (<["pod-security.kubernetes.io/warn" := "restricted"]>
  (<["pod-security.kubernetes.io/audit" := "restricted"]> ∅)).

(** The range over the four identity labels stops at the first difference. *)
Definition hasWorkspaceIdentityLabels (namespaceLabels : gomap string) (workspace : string) : bool :=
  forallb (fun '(key, value) => bool_decide (gomap_get namespaceLabels key = value))
    (map_to_list (LabelsForWorkspace workspace "")).

Definition namespaceKey (w : Workspace) : ObjectKey := mkKey "" (W_Namespace w).

Section namespace.
Context {CL : CtrlLib} {NL : NetLib}.

Definition ValidateNamespaceAvailable (ws : Workspace) : io (result unit) :=
  r ← Get KNamespace (namespaceKey ws);
  match r with
  | Err e =>
      if IsNotFound e then okR tt
      else errR (WrapError ("checking whether namespace " +:+ Quote (W_Namespace ws) +:+
                            " is available") e)
  | Ok namespace =>
      let m := metadata namespace in
      if bool_decide (Meta_DeletionTimestamp m ≠ None) then
        errR (ErrorString ("namespace " +:+ Quote (W_Namespace ws) +:+
          " is terminating: wait for the deletion to finish, then retry"))
      else if bool_decide (length (Meta_OwnerReferences m) = 0)
              && hasWorkspaceIdentityLabels (Meta_Labels m) (W_Name ws) then okR tt
      else errR (ErrorString ("namespace " +:+ Quote (W_Namespace ws) +:+
          " already exists: a workspace creates its own namespace, so choose a different spec.namespace or leave it empty to have one generated"))
  end.

Definition namespaceMutate (w : Workspace) (version rancherProjectID : string)
    (namespace : obj KNamespace) : result (obj KNamespace) :=
  let m := metadata namespace in
  let adoptable := bool_decide (length (Meta_OwnerReferences m) = 0)
                   && hasWorkspaceIdentityLabels (Meta_Labels m) (W_Name w) in
  if negb (IsOwned (Meta_OwnerReferences m) (W_UID w))
     && bool_decide (Meta_CreationTimestamp m ≠ None) && negb adoptable
  then Err (NamespaceConflictError (Meta_Name m))
  else
    let labels := gomap_make (Meta_Labels m) in
    let labels := maps_Copy labels (LabelsForWorkspace (W_Name w) version) in
    let labels := maps_Copy labels podSecurityLabels in
    let namespace := with_meta (set_Labels (Some labels)) namespace in
    let namespace :=
      if bool_decide (rancherProjectID ≠ "") then
        let annotations := gomap_make (Meta_Annotations (metadata namespace)) in
        with_meta (set_Annotations
          (Some (<[rancherProjectIDAnnotation := rancherProjectID]> annotations))) namespace
      else namespace in
    own w namespace.

Definition ReconcileNamespace (w : Workspace) (version : string) : io (result unit) :=
  globalConfig ←? operatorConfigData;
  let rancherProjectID := gomap_get globalConfig RancherProjectIDKey in
  wrap ("reconciling Namespace " +:+ Quote (W_Namespace w))
    (CreateOrUpdate KNamespace (namespaceKey w)
       (namespaceMutate w version rancherProjectID)) ;;?
  okR tt.
End namespace.

(** ** Specification *)

(** The namespace carries the identity the operator stamps for [ws]. *)
Definition identity_labels (labels : gomap string) (ws : string) : Prop :=
  ∀ k v, LabelsForWorkspace ws "" !! k = Some v → gomap_get labels k = v.

Lemma hasWorkspaceIdentityLabels_spec l ws :
  hasWorkspaceIdentityLabels l ws = true ↔ identity_labels l ws.
Proof.
  unfold hasWorkspaceIdentityLabels, identity_labels. rewrite forallb_map_to_list.
  by setoid_rewrite bool_decide_eq_true.
Qed.

(** Restored from a backup for [w]: no owners, identity labels. *)
Definition adoptable (w : Workspace) (ns : obj KNamespace) : Prop :=
  Meta_OwnerReferences (metadata ns) = [] ∧
  identity_labels (Meta_Labels (metadata ns)) (W_Name w).

(** An existing namespace that is neither owned nor adoptable by [w]. *)
Definition foreign (w : Workspace) (ns : obj KNamespace) : Prop :=
  Meta_CreationTimestamp (metadata ns) ≠ None ∧
  IsOwned (Meta_OwnerReferences (metadata ns)) (W_UID w) = false ∧ ¬ adoptable w ns.

Definition adoptableb (w : Workspace) (ns : obj KNamespace) : bool :=
  bool_decide (length (Meta_OwnerReferences (metadata ns)) = 0)
  && hasWorkspaceIdentityLabels (Meta_Labels (metadata ns)) (W_Name w).

Lemma adoptableb_spec w ns : adoptableb w ns = true ↔ adoptable w ns.
Proof.
  unfold adoptableb, adoptable.
  by rewrite andb_true_iff, bool_decide_eq_true, hasWorkspaceIdentityLabels_spec, length_zero_iff_nil.
Qed.

#[export] Instance adoptable_dec w ns : Decision (adoptable w ns).
Proof.
  destruct (adoptableb w ns) eqn:E; [left | right].
  - by apply adoptableb_spec.
  - intros Ha%adoptableb_spec. congruence.
Defined.
#[export] Instance foreign_dec w ns : Decision (foreign w ns).
Proof. unfold foreign. apply _. Defined.

(** The namespace [ns'] is [ns] put in the state [w] wants. *)
Record claimed (w : Workspace) (version rancherProjectID : string) (ns ns' : obj KNamespace) : Prop := {
  claimed_owned : IsOwned (Meta_OwnerReferences (metadata ns')) (W_UID w) = true;
  claimed_workspace k v : LabelsForWorkspace (W_Name w) version !! k = Some v →
    gomap_view (Meta_Labels (metadata ns')) !! k = Some v;
  claimed_security k v : podSecurityLabels !! k = Some v →
    gomap_view (Meta_Labels (metadata ns')) !! k = Some v;
  claimed_others k : LabelsForWorkspace (W_Name w) version !! k = None →
    podSecurityLabels !! k = None →
    gomap_view (Meta_Labels (metadata ns')) !! k = gomap_view (Meta_Labels (metadata ns)) !! k;
  claimed_project : rancherProjectID ≠ "" →
    gomap_get (Meta_Annotations (metadata ns')) rancherProjectIDAnnotation = rancherProjectID;
  claimed_annotations k : k ≠ rancherProjectIDAnnotation →
    gomap_view (Meta_Annotations (metadata ns')) !! k = gomap_view (Meta_Annotations (metadata ns)) !! k;
}.

(** What the mutate function writes before owning the namespace. *)
Definition stampedLabels (w : Workspace) (version : string) (l : gomap string) : gmap string string :=
  podSecurityLabels ∪ (LabelsForWorkspace (W_Name w) version ∪ gomap_view l).

Definition stampedAnnotations (rid : string) (a : gomap string) : gomap string :=
  if bool_decide (rid ≠ "") then Some (<[rancherProjectIDAnnotation := rid]> (gomap_view a)) else a.

Definition stamp (w : Workspace) (version rid : string) (ns : obj KNamespace) : obj KNamespace :=
  with_meta (fun m => set_Annotations (stampedAnnotations rid (Meta_Annotations m))
                        (set_Labels (Some (stampedLabels w version (Meta_Labels m))) m)) ns.

Lemma podSecurityLabels_None k :
  podSecurityLabels !! k = None ↔
  k ≠ "pod-security.kubernetes.io/enforce" ∧ k ≠ "pod-security.kubernetes.io/warn" ∧
  k ≠ "pod-security.kubernetes.io/audit".
Proof.
  unfold podSecurityLabels. rewrite !lookup_insert_None, lookup_empty. naive_solver.
Qed.

(** The two label sets do not compete for a key. *)
Lemma security_disjoint ws version : podSecurityLabels ##ₘ LabelsForWorkspace ws version.
Proof.
  apply map_disjoint_spec. intros k v1 v2 H1 H2.
  rewrite LabelsForWorkspace_lookup in H2.
  repeat case_bool_decide; destruct_and?; subst; done.
Qed.

Lemma stampedLabels_workspace w version l k v :
  LabelsForWorkspace (W_Name w) version !! k = Some v → stampedLabels w version l !! k = Some v.
Proof.
  intros Hk. unfold stampedLabels. rewrite lookup_union_r; [by apply lookup_union_Some_l|].
  eapply map_disjoint_Some_r; [apply security_disjoint | done].
Qed.

Lemma stampedLabels_others w version l k :
  LabelsForWorkspace (W_Name w) version !! k = None → podSecurityLabels !! k = None →
  stampedLabels w version l !! k = gomap_view l !! k.
Proof. intros H1 H2. unfold stampedLabels. by rewrite !lookup_union_r. Qed.

(** The identity labels are part of the labels of every version. *)
Lemma LabelsForWorkspace_version ws version k v :
  LabelsForWorkspace ws "" !! k = Some v → LabelsForWorkspace ws version !! k = Some v.
Proof.
  rewrite !LabelsForWorkspace_lookup. repeat case_bool_decide; destruct_and?; naive_solver.
Qed.

Lemma stampedLabels_idem w version l :
  stampedLabels w version (Some (stampedLabels w version l)) = stampedLabels w version l.
Proof.
  unfold stampedLabels; simpl. apply map_eq. intros k.
  destruct (podSecurityLabels !! k) eqn:H1.
  - by erewrite !lookup_union_Some_l.
  - rewrite !(lookup_union_r podSecurityLabels _ k H1).
    destruct (LabelsForWorkspace (W_Name w) version !! k) eqn:H2.
    + by erewrite !lookup_union_Some_l.
    + by rewrite !lookup_union_r.
Qed.

(** The server's label is none of the operator's. *)
Lemma stamped_name_label w version l name :
  stampedLabels w version (Some (<[LabelMetadataName := name]> (stampedLabels w version l))) =
    <[LabelMetadataName := name]> (stampedLabels w version l).
Proof.
  apply map_eq. intros k. destruct (decide (k = LabelMetadataName)) as [->|Hne].
  - rewrite lookup_insert_eq, stampedLabels_others; [by simpl; rewrite lookup_insert_eq|..].
    + rewrite LabelsForWorkspace_lookup. by repeat case_bool_decide; destruct_and?.
    + by apply podSecurityLabels_None.
  - rewrite lookup_insert_ne by done. rewrite <-(stampedLabels_idem w version l) at 2.
    unfold stampedLabels at 1 3. rewrite !lookup_union. simpl. by rewrite lookup_insert_ne.
Qed.

Lemma stampedAnnotations_idem rid a :
  stampedAnnotations rid (stampedAnnotations rid a) = stampedAnnotations rid a.
Proof.
  unfold stampedAnnotations. case_bool_decide; [|done].
  simpl. by rewrite insert_insert_eq.
Qed.

Lemma stamp_idem w version rid ns : stamp w version rid (stamp w version rid ns) = stamp w version rid ns.
Proof.
  destruct ns as [[] []]. unfold stamp; simpl. unfold with_meta, set_Annotations, set_Labels; simpl.
  by rewrite stampedLabels_idem, stampedAnnotations_idem.
Qed.

#[export] Hint Rewrite stampedLabels_idem stampedAnnotations_idem stamp_idem : progs.

Lemma identity_stamped w version rid ns :
  identity_labels (Meta_Labels (metadata (stamp w version rid ns))) (W_Name w).
Proof.
  intros k v Hk. unfold gomap_get. simpl.
  by erewrite stampedLabels_workspace by (by apply LabelsForWorkspace_version).
Qed.

Section mutate.
Context {CL : CtrlLib} {HCL : CtrlLaws} {NL : NetLib}.
Implicit Types (w : Workspace) (ns : obj KNamespace).

(** The mutate function is: refuse a foreign namespace, otherwise stamp and own. *)
Lemma namespaceMutate_eq w version rid ns :
  namespaceMutate w version rid ns =
    if decide (foreign w ns) then Err (NamespaceConflictError (Meta_Name (metadata ns)))
    else own w (stamp w version rid ns).
Proof.
  unfold namespaceMutate. fold (adoptableb w ns).
  assert (negb (IsOwned (Meta_OwnerReferences (metadata ns)) (W_UID w))
          && bool_decide (Meta_CreationTimestamp (metadata ns) ≠ None)
          && negb (adoptableb w ns) = bool_decide (foreign w ns)) as ->.
  { apply eq_true_iff_eq. rewrite !andb_true_iff, !negb_true_iff, !bool_decide_eq_true.
    unfold foreign. rewrite <-adoptableb_spec, not_true_iff_false. naive_solver. }
  case_bool_decide; [by rewrite decide_True|].
  rewrite decide_False by done. f_equal.
  destruct ns as [[????[l|] ????] []];
    unfold stamp, stampedAnnotations, stampedLabels, maps_Copy; simpl; by case_bool_decide.
Qed.

(** A namespace one workspace has written is not adoptable by another. *)
Lemma stamp_not_adoptable w w' version rid ns ns' :
  W_Name w' ≠ W_Name w → Meta_Labels (metadata ns') = Meta_Labels (metadata (stamp w version rid ns)) →
  ¬ adoptable w' ns'.
Proof.
  intros Hne Hl [_ Hid]. rewrite Hl in Hid.
  specialize (Hid labels.Name (W_Name w')). unfold gomap_get in Hid. simpl in Hid.
  erewrite stampedLabels_workspace in Hid
    by (rewrite LabelsForWorkspace_lookup; by rewrite bool_decide_eq_true_2).
  rewrite LabelsForWorkspace_lookup, bool_decide_eq_true_2 in Hid by done.
  by specialize (Hid eq_refl).
Qed.
End mutate.

(** ** Properties *)

Section properties.
Context {CL : CtrlLib} {HCL : CtrlLaws} {NL : NetLib}.
Implicit Types (w : Workspace) (ns : obj KNamespace).

(** An owned namespace is never foreign. *)
Lemma owned_not_foreign w ns :
  IsOwned (Meta_OwnerReferences (metadata ns)) (W_UID w) = true → ¬ foreign w ns.
Proof. unfold foreign. intros ->. naive_solver. Qed.

Lemma claimed_stamp w version rid ns ns' :
  own w (stamp w version rid ns) = Ok ns' → claimed w version rid ns ns'.
Proof.
  intros Hown. pose proof (own_labels _ _ _ Hown) as Hl.
  pose proof (own_annotations _ _ _ Hown) as Ha. split.
  - by eapply own_owned.
  - intros k v Hk. rewrite Hl. simpl. by apply stampedLabels_workspace.
  - intros k v Hk. rewrite Hl. simpl. by apply lookup_union_Some_l.
  - intros k H1 H2. rewrite Hl. simpl. by apply stampedLabels_others.
  - intros Hrid. rewrite Ha. simpl. unfold stampedAnnotations.
    rewrite bool_decide_eq_true_2 by done. unfold gomap_get. simpl. by simplify_map_eq.
  - intros k Hk. rewrite Ha. simpl. unfold stampedAnnotations.
    case_bool_decide; [|done]. simpl. by rewrite lookup_insert_ne.
Qed.

(** The mutate function of ReconcileNamespace refuses exactly the foreign
    namespaces (existing, not owned, not restored for this workspace) with a
    NamespaceConflictError; any other namespace it claims: owned, carrying the
    workspace and Pod Security labels and the Rancher project when one is
    configured, every other label and annotation kept.  The only other failure
    is SetControllerReference's own. *)
Theorem namespaceMutate_correct w version rid ns :
  match namespaceMutate w version rid ns with
  | Ok ns' => ¬ foreign w ns ∧ claimed w version rid ns ns'
  | Err e =>
      foreign w ns ∧ e = NamespaceConflictError (Meta_Name (metadata ns)) ∨
      ¬ foreign w ns ∧ SetControllerReference (W_Name w) (W_UID w) (Meta_OwnerReferences (metadata ns)) = Err e
  end.
Proof.
  rewrite namespaceMutate_eq. case_decide as Hf; [by left|].
  destruct (own w (stamp w version rid ns)) as [ns'|e] eqn:Hown.
  - split; [done|]. by apply claimed_stamp.
  - right. split; [done|]. unfold own in Hown. simpl in Hown.
    by destruct (SetControllerReference _ _ _); simplify_eq/=.
Qed.

(** Level-triggered reconciliation settles: a namespace the mutate function
    produced, as the server stored it, is left unchanged by the next run, so it
    causes no update. *)
Lemma namespaceMutate_settles w version rid :
  settles (k := KNamespace) (namespaceMutate w version rid).
Proof.
  intros ns sent kept. rewrite !namespaceMutate_eq. case_decide; [done|]. intros Hown [_ Hl Ha Ho _].
  assert (Meta_Labels (metadata sent) = Some (stampedLabels w version (Meta_Labels (metadata ns)))) as Hlab
    by by rewrite (own_labels _ _ _ Hown).
  rewrite Hlab in Hl. cbn [gomap_view] in Hl.
  rewrite decide_False by (eapply owned_not_foreign; rewrite Ho; by eapply own_owned).
  assert (stamp w version rid kept = kept) as ->.
  { rewrite (own_annotations _ _ _ Hown) in Ha. simpl in Ha.
    assert (stampedLabels w version (Meta_Labels (metadata kept)) = gomap_view (Meta_Labels (metadata kept))) as Hst
      by (destruct Hl as [-> | [_ ->]]; [apply stampedLabels_idem|apply stamped_name_label]).
    assert (Meta_Labels (metadata kept) ≠ None) as Hsome by (by destruct Hl as [-> | [_ ->]]).
    destruct kept as [[? ? ? ? [l|] ? ? ? ?] []]; [|done].
    unfold stamp, with_meta, set_Annotations, set_Labels. simpl in *. subst.
    by rewrite Hst, stampedAnnotations_idem. }
  apply own_idem in Hown. apply own_Ok in Hown as (refs & Hs & Hr). apply own_Ok.
  exists refs. rewrite Ho. split; [done|]. rewrite Hr in Ho. destruct kept as [[] []]. simpl in *.
  by subst.
Qed.

(** C33. Backup and restore: take any namespace the operator claimed for [w], strip
    its owner references and keep its labels (what restore tooling does).  The
    restored workspace of the same name, whatever its new UID, adopts it; a
    workspace of another name and UID is refused with a conflict. *)
Theorem restored_namespace w version rid ns ns' w2 version2 rid2 ns2 :
  namespaceMutate w version rid ns = Ok ns' →
  Meta_Labels (metadata ns2) = Meta_Labels (metadata ns') →
  Meta_OwnerReferences (metadata ns2) = [] →
  Meta_CreationTimestamp (metadata ns2) ≠ None →
  if decide (W_Name w2 = W_Name w)
  then ∃ ns3, namespaceMutate w2 version2 rid2 ns2 = Ok ns3 ∧ claimed w2 version2 rid2 ns2 ns3
  else namespaceMutate w2 version2 rid2 ns2 =
       Err (NamespaceConflictError (Meta_Name (metadata ns2))).
Proof.
  rewrite !namespaceMutate_eq. case_decide; [done|]. intros Hown Hl Ho Hc.
  rewrite (own_labels _ _ _ Hown) in Hl. case_decide as Hn.
  - rewrite decide_False.
    + destruct (SetControllerReference_nil (W_Name w2) (W_UID w2)) as [refs Hrefs]. rewrite <-Ho in Hrefs.
      assert (∃ ns3, own w2 (stamp w2 version2 rid2 ns2) = Ok ns3) as [ns3 H3].
      { eexists. apply own_Ok. by exists refs. }
      exists ns3. split; [done|]. by apply claimed_stamp.
    + intros (_ & _ & Ha). apply Ha. split; [done|]. rewrite Hl, Hn. apply identity_stamped.
  - rewrite decide_True; [done|]. split; [done|]. split; [by rewrite Ho|].
    by eapply stamp_not_adoptable.
Qed.

(** The admission check agrees with the reconciler.  For a workspace that does
    not own the namespace yet, on the answer [a] its single Get received:
    admission is granted only if the namespace is absent or one reconcile will
    adopt; refused on a live, non-terminating namespace only if reconcile would
    refuse it as foreign; a read failure refuses with the error wrapped. *)
Theorem ValidateNamespaceAvailable_correct w tr r :
  runs (ValidateNamespaceAvailable w) tr r →
  ∃ a, tr = [Obs (ClientGet KNamespace (namespaceKey w)) a] ∧
  match a with
  | Err e => r = Ok tt ∧ IsNotFound e = true ∨
             IsNotFound e = false ∧ ∃ e', r = Err e' ∧ wraps e e'
  | Ok ns =>
      (r = Ok tt ↔ Meta_DeletionTimestamp (metadata ns) = None ∧ adoptable w ns) ∧
      (r = Ok tt → ¬ foreign w ns) ∧
      (r ≠ Ok tt → Meta_DeletionTimestamp (metadata ns) = None →
       Meta_CreationTimestamp (metadata ns) ≠ None →
       IsOwned (Meta_OwnerReferences (metadata ns)) (W_UID w) = false → foreign w ns)
  end.
Proof.
  unfold ValidateNamespaceAvailable, Get.
  intros (tr1 & tr2 & a & -> & ->%runs_trigger & Hr)%runs_bind. exists a.
  destruct a as [ns|e].
  - fold (adoptableb w ns) in Hr.
    assert (r = Ok tt ↔ Meta_DeletionTimestamp (metadata ns) = None ∧ adoptable w ns) as Hiff.
    { rewrite <-adoptableb_spec. case_bool_decide as Hd; [|destruct (adoptableb w ns)];
        run_inv; naive_solver. }
    assert (tr2 = []) as ->.
    { case_bool_decide; [|destruct (adoptableb w ns)]; by run_inv. }
    clear Hr. split; [done|]. unfold foreign. tauto.
  - destruct (IsNotFound e); run_inv; (split; [done|]); [by left|right].
    split; [done|]. eexists. split; [done|]. apply wraps_step, wraps_refl.
Qed.
End properties.

(** ** Refinement *)

(** The server keeps the labels it is sent, its own apart. *)
Lemma persisted_label {k} (sent kept : obj k) key v :
  persisted sent kept → key ≠ LabelMetadataName →
  gomap_view (Meta_Labels (metadata sent)) !! key = Some v → gomap_view (Meta_Labels (metadata kept)) !! key = Some v.
Proof.
  intros Hp Hne Hk. destruct (persisted_labels _ _ Hp) as [-> |[_ ->]]; [done|]. simpl. by rewrite lookup_insert_ne.
Qed.

Lemma claimed_persisted w version rid ns sent kept :
  claimed w version rid ns sent → persisted sent kept →
  LabelsForWorkspace (W_Name w) version ⊆ gomap_view (Meta_Labels (metadata kept)) ∧
  podSecurityLabels ⊆ gomap_view (Meta_Labels (metadata kept)).
Proof.
  intros [_ Hw Hs _ _ _] Hp. split; apply map_subseteq_spec; intros k v Hk.
  - eapply persisted_label; [done| |by apply Hw]. intros ->. rewrite LabelsForWorkspace_lookup in Hk.
    by repeat case_bool_decide; destruct_and?.
  - eapply persisted_label; [done| |by apply Hs]. intros ->. vm_compute in Hk. discriminate Hk.
Qed.

Section conflict.
Context {CL : CtrlLib} {HCL : CtrlLaws} {NL : NetLib}.
Context {W : Type} {CW : Cluster W} {LW : CachedLaws W}.
Implicit Types (w : Workspace) (σ : W).

Lemma ReconcileNamespace_reads w version k key :
  k ≠ KNamespace → emits (fun o => ¬ writes o k key) (ReconcileNamespace w version).
Proof.
  intros Hk. apply emits_bindR.
  - apply emits_bind; [apply emits_trigger; simpl; tauto|]. intros [|e]; [done|]. by destruct (IsNotFound e).
  - intros data. apply emits_bindR; [|done]. apply emits_wrap, emits_trigger. intros x [H _]. by symmetry in H.
Qed.

(** A conflict is reported only for a namespace that is foreign, as the cache
    shows it. *)
Lemma ReconcileNamespace_conflict w version σ e n σ' :
  current σ KNamespace (namespaceKey w) → exec (ReconcileNamespace w version) σ = Some (Err e, σ') →
  AsNamespaceConflictError e = Some n →
  ∃ before, view σ KNamespace (namespaceKey w) = Some before ∧ foreign w before.
Proof.
  intros Hcur Hx Hn. apply exec_bindR in Hx as [(e1 & [He _]%operatorConfigData_cached & [= ->])|(data & σ1 & Hd & Hx)].
  { by rewrite external_not_conflict in Hn. }
  assert (current σ1 KNamespace (namespaceKey w)) as Hcur1.
  { eapply exec_current, Hcur; [|exact Hd]. apply emits_bind; [apply emits_trigger; simpl; tauto|].
    intros [|e']; [done|]. by destruct (IsNotFound e'). }
  apply operatorConfigData_cached in Hd as [_ Hv]. rewrite <-(Hv KNamespace).
  apply exec_bindR in Hx as [(e1 & (r1 & [Hc _]%exec_write_cached & Hw)%exec_wrap & [= ->])|(op & σ2 & _ & Hx)];
    [|by exec_inv].
  unfold current in Hcur1. rewrite Hcur1 in Hc. apply cached_current in Hc.
  symmetry in Hw. apply wrapR_Err in Hw as (e2 & -> & ->).
  assert (∀ e3, external e3 → AsNamespaceConflictError (WrapError ("reconciling Namespace " +:+ Quote (W_Namespace w)) e3) = None)
    as Hext by (intros e3 He3; by apply (external_not_conflict e3)).
  inversion Hc as [? ? He| ? ? ? ? He | ? ? Hf| |]; subst; [by rewrite Hext in Hn..|].
  pose proof (namespaceMutate_correct w version (gomap_get data RancherProjectIDKey)
    (default (literal KNamespace (namespaceKey w)) (view σ1 KNamespace (namespaceKey w)))) as Hm.
  rewrite Hf in Hm. destruct Hm as [[Hfor _]|[_ Hs%SetControllerReference_external]]; [|by rewrite Hext in Hn].
  destruct (view σ1 KNamespace (namespaceKey w)) as [ns|]; [by exists ns|]. by destruct Hfor as [? _].
Qed.
End conflict.

Section refinement.
Context {CL : CtrlLib} {HCL : CtrlLaws} {NL : NetLib}.
Context {W : Type} {CW : Cluster W} {LW : ClusterLaws W}.
Implicit Types (w : Workspace) (σ : W).

(** What reconciling the namespace promises about the cluster. *)
Record namespace_contract w (version : string) σ (r : result unit) σ' : Prop := {
  (** it succeeds only with the namespace claimed for the workspace: as sent,
      and so stored, but for the label the server adds itself *)
  nc_claimed : r = Ok tt → ∃ sent ns, view σ' KNamespace (namespaceKey w) = Some ns ∧ controlled w ns ∧
    claimed w version (gomap_get (configured σ) RancherProjectIDKey)
      (default (literal KNamespace (namespaceKey w)) (view σ KNamespace (namespaceKey w))) sent ∧
    persisted sent ns;
  (** a foreign namespace is left exactly as it is, and the call fails *)
  nc_foreign before : view σ KNamespace (namespaceKey w) = Some before → foreign w before →
    view σ' KNamespace (namespaceKey w) = Some before ∧ r ≠ Ok tt;
  (** a conflict is reported only for a foreign namespace *)
  nc_conflict e n : r = Err e → AsNamespaceConflictError e = Some n →
    ∃ before, view σ KNamespace (namespaceKey w) = Some before ∧ foreign w before;
  (** nothing else in the cluster changes *)
  nc_frame k key : (k, key) ≠ (KNamespace, namespaceKey w) → view σ' k key = view σ k key;
}.

Lemma literal_not_foreign w k : ¬ foreign w (literal KNamespace k).
Proof. by intros [Hc _]. Qed.

Lemma foreign_before w σ : foreign w (default (literal KNamespace (namespaceKey w))
    (view σ KNamespace (namespaceKey w))) →
  ∃ before, view σ KNamespace (namespaceKey w) = Some before ∧ foreign w before.
Proof.
  destruct (view σ KNamespace _) as [ns|]; simpl; [eauto|]. by intros ?%literal_not_foreign.
Qed.

Lemma not_foreign_contract w version rid σ r σ' :
  create_or_update (namespaceKey w) (namespaceMutate w version rid)
    (view σ KNamespace (namespaceKey w)) r (view σ' KNamespace (namespaceKey w)) →
  match r with
  | Ok _ => ∃ sent ns, view σ' KNamespace (namespaceKey w) = Some ns ∧ controlled w ns ∧
      claimed w version rid (default (literal KNamespace (namespaceKey w))
        (view σ KNamespace (namespaceKey w))) sent ∧ persisted sent ns
  | Err e => ∀ n, AsNamespaceConflictError e = Some n →
      ∃ before, view σ KNamespace (namespaceKey w) = Some before ∧ foreign w before
  end.
Proof.
  intros Hc. destruct r as [op|e].
  - apply create_or_update_ok in Hc as (sent & kept & Hk & Hf & Hp).
    pose proof (namespaceMutate_correct w version rid) as Hm. rewrite Hk. exists sent, kept.
    specialize (Hm (default (literal KNamespace (namespaceKey w))
      (view σ KNamespace (namespaceKey w)))). rewrite Hf in Hm. destruct Hm as [_ Hm].
    split_and!; [done| |done..].
    rewrite namespaceMutate_eq in Hf. case_decide; [done|]. by eapply own_controlled.
  - intros n Hn. inversion Hc as [? ? He|? ? ? ? He|? ? Hf| |]; subst.
    + by rewrite external_not_conflict in Hn.
    + by rewrite external_not_conflict in Hn.
    + apply foreign_before. pose proof (namespaceMutate_correct w version rid
        (default (literal KNamespace (namespaceKey w)) (view σ KNamespace (namespaceKey w)))) as Hm.
      rewrite Hf in Hm. destruct Hm as [[? _]|[_ Hs%SetControllerReference_external]]; [done|].
      by rewrite external_not_conflict in Hn.
Qed.

Lemma exec_ReconcileNamespace w version σ r σ' :
  exec (ReconcileNamespace w version) σ = Some (r, σ') → namespace_contract w version σ r σ'.
Proof.
  unfold ReconcileNamespace. intros Hx.
  apply exec_bindR in Hx as [(e & Hx & ->)|(data & σ1 & Hd & Hx)].
  { apply exec_operatorConfigData in Hx as [He Hv].
    split; [done| | |by auto].
    - intros before Hb _. by rewrite Hv.
    - intros ? n [= <-] Hn. by rewrite external_not_conflict in Hn. }
  apply exec_operatorConfigData in Hd as [-> Hv].
  set (rid := gomap_get (configured σ) RancherProjectIDKey) in *.
  assert (∃ r1, exec (CreateOrUpdate KNamespace (namespaceKey w) (namespaceMutate w version rid)) σ1
            = Some (r1, σ') ∧
          match r1 with
          | Ok _ => r = Ok tt
          | Err e => r = Err (WrapError ("reconciling Namespace " +:+ Quote (W_Namespace w)) e)
          end) as (r1 & Hc & Hr).
  { exec_inv; eexists; (split; [done|]); done. }
  clear Hx. apply exec_create_or_update in Hc as [Hc Hfr]. rewrite Hv in Hc.
  pose proof (not_foreign_contract _ _ _ _ _ _ Hc) as Hn. split.
  - destruct r1; subst r; [done|done].
  - intros before Hb Hf. rewrite Hb in Hc. eapply create_or_update_refused in Hc as (Ha & e & -> & _).
    + split; [done|]. by subst r.
    + simpl. rewrite namespaceMutate_eq. by rewrite decide_True.
  - intros e n -> He. destruct r1 as [|e1]; [done|]. injection Hr as ->. by eapply Hn.
  - intros k key Hne. by rewrite Hfr, Hv.
Qed.

(** The namespace as every later step needs it. *)
Definition namespace_ready w (version : string) σ : Prop :=
  ∃ ns, view σ KNamespace (namespaceKey w) = Some ns ∧ controlled w ns ∧
    LabelsForWorkspace (W_Name w) version ⊆ gomap_view (Meta_Labels (metadata ns)) ∧
    podSecurityLabels ⊆ gomap_view (Meta_Labels (metadata ns)).

Lemma ReconcileNamespace_stage w version :
  stage (ReconcileNamespace w version) [(KNamespace, namespaceKey w)] (namespace_ready w version).
Proof.
  split.
  - intros σ [] σ' [Hc _ _ _]%exec_ReconcileNamespace. destruct (Hc eq_refl) as (sent & ns & Hv & Hown & Hcl & Hp).
    exists ns. split_and!; [done..| |]; by eapply claimed_persisted.
  - intros σ r σ' [_ _ _ Hf]%exec_ReconcileNamespace k key Hk. apply Hf. set_solver.
  - intros σ σ' Hv. unfold namespace_ready. by rewrite Hv by set_solver.
Qed.

(** C7. ReconcileNamespace refines its contract, on every lawful cluster and in
    every outcome: success means the namespace is there, owned, labelled for
    the workspace and for Pod Security, with everything else it carried kept
    (the server may add the label with its own name); a
    foreign namespace is never touched and never reported as success; a
    conflict error means there is a foreign namespace; no other object of the
    cluster changes. *)
Theorem ReconcileNamespace_refines w version σ r σ' :
  exec (ReconcileNamespace w version) σ = Some (r, σ') → namespace_contract w version σ r σ'.
Proof. apply exec_ReconcileNamespace. Qed.
(** C34. Admission and reconcile agree.  If the webhook found the namespace of a
    workspace available, then reconciling it over the same cluster, under any
    identity of that name, is never refused: the namespace step does not end
    in a NamespaceConflict, so an admitted workspace is not born stuck. *)
Theorem admitted_namespace_claimable w version σ σ1 res σ' :
  exec (ValidateNamespaceAvailable w) σ = Some (Ok tt, σ1) →
  exec (ReconcileNamespace w version) σ1 = Some (res, σ') →
  ∀ e, res = Err e → AsNamespaceConflictError e = None.
Proof.
  intros Hval [_ _ Hc _]%exec_ReconcileNamespace e ->.
  destruct (AsNamespaceConflictError e) as [n|] eqn:He; [|done]. exfalso.
  destruct (Hc e n eq_refl He) as (ns & Hns & Hfor). unfold ValidateNamespaceAvailable in Hval.
  apply exec_bind in Hval as (a & σ2 & [Ha Hv]%(exec_get KNamespace) & Hx). destruct a as [ns'|e'].
  - fold (adoptableb w ns') in Hx. case_bool_decide; [exec_inv|].
    destruct (adoptableb w ns') eqn:Had; exec_inv. apply adoptableb_spec in Had.
    rewrite Hv, Ha in Hns. injection Hns as <-. by destruct Hfor as (_ & _ & Hn).
  - destruct Ha as [_ Ha]. destruct (IsNotFound e') eqn:He'; exec_inv. by rewrite Hv, Ha in Hns.
Qed.
End refinement.

(** ** Witnesses *)

Definition plainNamespace (labels : gomap string) : obj KNamespace :=
  mkObject (mkObjectMeta "team" "" "ns-uid" 0 labels None [] (Some 5%Z) None) tt.

Definition claimedExample : obj KNamespace :=
  let w := exampleWorkspace "ws" "uid-1" "team" in
  with_meta (set_OwnerReferences [ownerRef (W_Name w) (W_UID w)])
    (stamp w "v1" "c:p" (literal KNamespace (mkKey "" "team"))).

Lemma claimedExample_eq :
  namespaceMutate (CL := fakeCtrlLib) (exampleWorkspace "ws" "uid-1" "team") "v1" "c:p"
    (literal KNamespace (mkKey "" "team")) = Ok claimedExample.
Proof. vm_compute. reflexivity. Qed.

(** The restored copy: labels kept, owners stripped, a new creation time. *)
Definition restoredExample : obj KNamespace :=
  plainNamespace (Meta_Labels (metadata claimedExample)).

Lemma restored_namespace_witness :
  (∃ ns3, namespaceMutate (CL := fakeCtrlLib) (exampleWorkspace "ws" "uid-2" "team") "v2" ""
            restoredExample = Ok ns3) ∧
  namespaceMutate (CL := fakeCtrlLib) (exampleWorkspace "other" "uid-3" "team") "v2" ""
    restoredExample = Err (NamespaceConflictError "team").
Proof.
  pose proof (fun w2 => restored_namespace (HCL := fakeCtrlLaws) _ _ _ _ _ w2 "v2" ""
    restoredExample claimedExample_eq eq_refl eq_refl ltac:(discriminate)) as Hr.
  split.
  - destruct (Hr (exampleWorkspace "ws" "uid-2" "team")) as (ns3 & Hns & _). by exists ns3.
  - exact (Hr (exampleWorkspace "other" "uid-3" "team")).
Defined.

Lemma ValidateNamespaceAvailable_correct_witness :
  let w := exampleWorkspace "ws" "uid-1" "team" in
  ¬ adoptable w (plainNamespace None).
Proof.
  intros w.
  destruct (ValidateNamespaceAvailable_correct (NL := fakeNetLib) w
    [Obs (ClientGet KNamespace (namespaceKey w)) (Ok (plainNamespace None))]
    (Err (ErrorString ("namespace " +:+ Quote (NetLib := fakeNetLib) "team" +:+
      " already exists: a workspace creates its own namespace, so choose a different spec.namespace or leave it empty to have one generated"))))
    as (a & Ha & Hspec).
  - eexists _, _. split; [reflexivity|]. vm_compute. split; reflexivity.
  - apply Get_inj in Ha as <-.
    intros Had. destruct Hspec as [[_ Hok] _]. discriminate (Hok (conj eq_refl Had)).
Defined.

(** A cluster whose namespace "team" belongs to somebody else. *)
Definition foreignCluster : memory :=
  mkMemory {[ (KNamespace, mkKey "" "team") := Any KNamespace (plainNamespace None) ]} 9
    (fun _ => inl "no Harbor").

Lemma ReconcileNamespace_refines_witness :
  let w := exampleWorkspace "ws" "uid-1" "team" in
  ∃ r σ', exec (ReconcileNamespace (CL := fakeCtrlLib) (NL := fakeNetLib) w "v1") foreignCluster
            = Some (r, σ') ∧
  r ≠ Ok tt ∧ view σ' KNamespace (mkKey "" "team") = Some (plainNamespace None).
Proof.
  intros w.
  assert (view foreignCluster KNamespace (namespaceKey w) = Some (plainNamespace None)) as Hb
    by (vm_compute; reflexivity).
  assert (foreign w (plainNamespace None)) as Hf
    by (apply (bool_decide_unpack _); vm_compute; exact I).
  destruct (exec (ReconcileNamespace (CL := fakeCtrlLib) (NL := fakeNetLib) w "v1") foreignCluster)
    as [[r σ']|] eqn:Hx; [|vm_compute in Hx; discriminate Hx].
  exists r, σ'. split; [reflexivity|].
  pose proof (nc_foreign _ _ _ _ _ (ReconcileNamespace_refines (HCL := fakeCtrlLaws)
    (LW := memory_laws) w "v1" foreignCluster r σ' Hx) _ Hb Hf) as [Hv Hr].
  split; [exact Hr | exact Hv].
Defined.
