(* ===== verification/Rbac.v ===== *)
(** internal/workspace/rbac.go and service_account.go: the role bindings of the
    members, and the deployer ServiceAccount with its binding. *)
From S2P Require Import Prelude Errors Prog GoStd Api Effects Cluster Sync Stage Fakes Labels.

(** [membersByRole], built by appending in member order. *)
Definition membersByRole (members : list WorkspaceMember) : gmap MemberRole (list WorkspaceMember) :=
  foldl (fun m member =>
    <[Member_Role member := default [] (m !! Member_Role member) ++ [member]]> m) ∅ members.

Definition roleBindingKey (w : Workspace) (role : MemberRole) : ObjectKey :=
  mkKey (W_Namespace w) (RoleBindingName +:+ "-" +:+ role).

Section rbac.
Context {CL : CtrlLib} {NL : NetLib}.

Definition roleBindingMutate (w : Workspace) (version : string) (role : MemberRole)
    (members : list WorkspaceMember) (binding : obj KRoleBinding) : result (obj KRoleBinding) :=
  let binding := with_meta (set_Labels (Some (LabelsForWorkspace (W_Name w) version))) binding in
  let subjects := (fun m => mkSubject rbacv1_UserKind rbacv1_GroupName (Member_Subject m) "") <$> members in
  let roleRef := mkRoleRef rbacv1_GroupName clusterRoleKind role in
  own w (with_payload (P := payload_of KRoleBinding) (mkRoleBindingBody subjects roleRef) binding).

Definition reconcileRoleBinding (w : Workspace) (version : string) (role : MemberRole)
    (members : list WorkspaceMember) : io (result unit) :=
  if bool_decide (length members = 0) then
    deleteIfPresent KRoleBinding (roleBindingKey w role)
      ("deleting RoleBinding for role " +:+ Quote role)
  else
    wrap ("reconciling RoleBinding for role " +:+ Quote role)
      (CreateOrUpdate KRoleBinding (roleBindingKey w role)
         (roleBindingMutate w version role members)) ;;?
    okR tt.

Definition ReconcileRoleBindings (w : Workspace) (version : string) : io (result unit) :=
  let membersByRole := membersByRole (W_Members w) in
  forR (fun role => reconcileRoleBinding w version role (default [] (membersByRole !! role)))
    AllMemberRoles.

Definition serviceAccountKey (w : Workspace) : ObjectKey := mkKey (W_Namespace w) ServiceAccountName.

Definition serviceAccountMutate (w : Workspace) (version : string) (sa : obj KServiceAccount)
    : result (obj KServiceAccount) :=
  own w (with_meta (set_Labels (Some (LabelsForWorkspace (W_Name w) version))) sa).

Definition deployerBindingMutate (w : Workspace) (version : string) (binding : obj KRoleBinding)
    : result (obj KRoleBinding) :=
  let binding := with_meta (set_Labels (Some (LabelsForWorkspace (W_Name w) version))) binding in
  let subjects := [mkSubject rbacv1_ServiceAccountKind "" ServiceAccountName (W_Namespace w)] in
  let roleRef := mkRoleRef rbacv1_GroupName clusterRoleKind MemberRoleAdmin in
  own w (with_payload (P := payload_of KRoleBinding) (mkRoleBindingBody subjects roleRef) binding).

Definition ReconcileServiceAccount (w : Workspace) (version : string) : io (result unit) :=
  wrap ("reconciling ServiceAccount " +:+ Quote ServiceAccountName)
    (CreateOrUpdate KServiceAccount (serviceAccountKey w) (serviceAccountMutate w version)) ;;?
  wrap ("reconciling RoleBinding " +:+ Quote ServiceAccountName)
    (CreateOrUpdate KRoleBinding (serviceAccountKey w) (deployerBindingMutate w version)) ;;?
  okR tt.
End rbac.

(** ** Facts *)

(** The members of a role, in the order of the spec. *)
Definition members_with (role : MemberRole) (members : list WorkspaceMember) : list WorkspaceMember :=
  filter (fun m => Member_Role m = role) members.

Lemma membersByRole_lookup members role :
  default [] (membersByRole members !! role) = members_with role members.
Proof.
  unfold membersByRole, members_with.
  enough (∀ m, default [] (foldl (fun m member =>
    <[Member_Role member := default [] (m !! Member_Role member) ++ [member]]> m) m members !! role)
    = default [] (m !! role) ++ filter (fun m => Member_Role m = role) members) as ->.
  { by rewrite lookup_empty. }
  induction members as [|x members IH]; intros m; simpl; [by rewrite app_nil_r|].
  rewrite IH, filter_cons. case_decide as Hr.
  - subst. rewrite lookup_insert_eq. simpl. by rewrite <-app_assoc.
  - by rewrite lookup_insert_ne.
Qed.

(** ** Properties *)

Section properties.
Context {CL : CtrlLib} {HCL : CtrlLaws} {NL : NetLib}.
Context {W : Type} {CW : Cluster W} {LW : ClusterLaws W}.
Implicit Types (w : Workspace) (σ : W).

(** The user subject the operator writes. *)
Definition userSubject (user : string) : Subject :=
  mkSubject rbacv1_UserKind rbacv1_GroupName user "".

(** The cluster grants [user] the ClusterRole [role] in the workspace's
    namespace through the operator's binding for that role. *)
Definition granted σ w (role : MemberRole) (user : string) : Prop :=
  ∃ b : obj KRoleBinding, view σ KRoleBinding (roleBindingKey w role) = Some b ∧
    RoleRef_ (payload b) = mkRoleRef rbacv1_GroupName clusterRoleKind role ∧
    userSubject user ∈ Subjects (payload b).

(** The binding of a role after a sync: absent without members, otherwise
    owned, labelled and listing exactly the members, in order. *)
Definition binding_ok w version (role : MemberRole) σ : Prop :=
  match members_with role (W_Members w) with
  | [] => view σ KRoleBinding (roleBindingKey w role) = None
  | members => ∃ b : obj KRoleBinding, view σ KRoleBinding (roleBindingKey w role) = Some b ∧
      payload b = mkRoleBindingBody (userSubject ∘ Member_Subject <$> members)
                    (mkRoleRef rbacv1_GroupName clusterRoleKind role) ∧
      Meta_Labels (metadata b) = Some (LabelsForWorkspace (W_Name w) version) ∧
      controlled w b
  end.

Lemma roleBindingMutate_written w version role members b b' :
  roleBindingMutate w version role members b = Ok b' →
  payload b' = mkRoleBindingBody (userSubject ∘ Member_Subject <$> members)
                 (mkRoleRef rbacv1_GroupName clusterRoleKind role) ∧
  Meta_Labels (metadata b') = Some (LabelsForWorkspace (W_Name w) version).
Proof.
  intros Hown. split.
  - by rewrite (own_payload _ _ _ Hown).
  - by rewrite (own_labels _ _ _ Hown).
Qed.

Lemma exec_reconcileRoleBinding w version role σ r σ' :
  exec (reconcileRoleBinding w version role
          (default [] (membersByRole (W_Members w) !! role))) σ = Some (r, σ') →
  (r = Ok tt → binding_ok w version role σ') ∧
  ∀ k key, (k, key) ≠ (KRoleBinding, roleBindingKey w role) → view σ' k key = view σ k key.
Proof.
  rewrite membersByRole_lookup. unfold reconcileRoleBinding, binding_ok. intros Hx.
  destruct (members_with role (W_Members w)) as [|m members].
  - by apply exec_deleteIfPresent in Hx.
  - apply exec_sync in Hx as [Hs Hf]. split; [|done].
    intros (sent & kept & Hk & Hm & Hp)%Hs. rewrite Hk. exists kept. split; [done|].
    pose proof (own_controlled (k := KRoleBinding) _ _ _ _ Hm Hp) as Hown.
    apply roleBindingMutate_written in Hm as (Hpl & Hl).
    rewrite (persisted_same_labels _ _ Hp) by done. by rewrite (persisted_payload _ _ Hp).
Qed.

Lemma roleBindingKey_inj w : Inj (=) (=) (roleBindingKey w).
Proof.
  intros r1 r2 Hk%(f_equal Key_Name). simpl in Hk.
  apply (inj (String.append RoleBindingName)) in Hk. by apply (inj (String.append "-")) in Hk.
Qed.

Definition bindings_footprint w : footprint :=
  (fun role => (KRoleBinding, roleBindingKey w role)) <$> AllMemberRoles.

(** Every role's binding is as specified. *)
Definition bindings_ok w version σ : Prop :=
  ∀ role, role ∈ AllMemberRoles → binding_ok w version role σ.

Lemma ReconcileRoleBindings_stage w version :
  stage (ReconcileRoleBindings w version) (bindings_footprint w) (bindings_ok w version).
Proof.
  assert (∀ role σ1 σ2,
    (∀ k key, (k, key) = (KRoleBinding, roleBindingKey w role) → view σ2 k key = view σ1 k key) →
    binding_ok w version role σ1 → binding_ok w version role σ2) as Hloc.
  { intros role σ1 σ2 Hv. unfold binding_ok. by rewrite (Hv KRoleBinding _ eq_refl). }
  assert (∀ σ r σ', exec (ReconcileRoleBindings w version) σ = Some (r, σ') →
    (r = Ok tt → bindings_ok w version σ') ∧ frame (bindings_footprint w) σ σ') as Hx.
  { intros σ r σ' Hx. eapply (exec_forR_local _ (fun role => (KRoleBinding, roleBindingKey w role))
      (binding_ok w version)) in Hx; [done| |done|].
    - intros role ? ? ?. apply exec_reconcileRoleBinding.
    - apply NoDup_fmap_2; [|by apply (bool_decide_unpack _); vm_compute].
      intros r1 r2 Hk%(f_equal snd). by apply roleBindingKey_inj in Hk. }
  split.
  - intros σ [] σ' [H _]%Hx. by apply H.
  - intros σ r σ' [_ H]%Hx. done.
  - intros σ σ' Hv H role Hr. eapply Hloc; [|by apply H]. intros k key [= -> ->]. apply Hv.
    by apply (list_elem_of_fmap_2 (fun role => (KRoleBinding, roleBindingKey w role))).
Qed.

(** A correct binding grants its role to exactly the members listed with it. *)
Lemma binding_ok_granted w version role σ user :
  binding_ok w version role σ →
  granted σ w role user ↔ ∃ m, m ∈ W_Members w ∧ Member_Role m = role ∧ Member_Subject m = user.
Proof.
  assert ((∃ m, m ∈ W_Members w ∧ Member_Role m = role ∧ Member_Subject m = user) ↔
          user ∈ Member_Subject <$> members_with role (W_Members w)) as ->.
  { unfold members_with. rewrite list_elem_of_fmap. setoid_rewrite list_elem_of_filter.
    naive_solver. }
  unfold binding_ok, granted. destruct (members_with role (W_Members w)) as [|m members].
  - intros ->. split; [by intros (? & ? & _) | by intros ?%elem_of_nil].
  - intros (b & -> & Hp & _). rewrite list_fmap_compose in Hp. split.
    + intros (? & [= <-] & _ & Hin). rewrite Hp in Hin.
      change (userSubject user ∈ userSubject <$> (Member_Subject <$> m :: members)) in Hin.
      apply list_elem_of_fmap in Hin as (u & Hu & Hin). by injection Hu as ->.
    + intros Hin. exists b. rewrite Hp. split_and!; [done..|].
      change (userSubject user ∈ userSubject <$> (Member_Subject <$> m :: members)).
      by apply list_elem_of_fmap_2.
Qed.

(** C17. Reconciling the role bindings refines the member list, whatever bindings
    existed before: on success each role's binding is as specified, so that for
    each role the users the cluster grants it are exactly the members listed
    with it (a role that lost its last member loses its binding, and nobody
    keeps a role they were removed from); success or not, no other object of
    the cluster changes. *)
Theorem ReconcileRoleBindings_refines w version σ r σ' :
  exec (ReconcileRoleBindings w version) σ = Some (r, σ') →
  (r = Ok tt → ∀ role, role ∈ AllMemberRoles →
     binding_ok w version role σ' ∧
     ∀ user, granted σ' w role user ↔
       ∃ m, m ∈ W_Members w ∧ Member_Role m = role ∧ Member_Subject m = user) ∧
  ∀ k key, (k = KRoleBinding → key ∉ roleBindingKey w <$> AllMemberRoles) →
    view σ' k key = view σ k key.
Proof.
  destruct (ReconcileRoleBindings_stage w version) as [Hp Hf _]. intros Hx. split.
  - intros -> role Hr. specialize (Hp _ _ _ Hx role Hr). split; [done|].
    intros user. by apply (binding_ok_granted _ version).
  - intros k key Hk. eapply Hf; [done|].
    intros (role & [= -> ->] & Hr)%list_elem_of_fmap. apply Hk; [done|]. by apply list_elem_of_fmap_2.
Qed.

(** The deployer identity after a sync: the ServiceAccount exists, owned, and a
    binding gives it, and only it, the admin ClusterRole in this namespace. *)
Record deployer_ok w version σ : Prop := {
  deployer_account : ∃ sa : obj KServiceAccount,
    view σ KServiceAccount (serviceAccountKey w) = Some sa ∧
    controlled w sa ∧
    Meta_Labels (metadata sa) = Some (LabelsForWorkspace (W_Name w) version);
  deployer_binding : ∃ b : obj KRoleBinding,
    view σ KRoleBinding (serviceAccountKey w) = Some b ∧
    payload b = mkRoleBindingBody
      [mkSubject rbacv1_ServiceAccountKind "" ServiceAccountName (W_Namespace w)]
      (mkRoleRef rbacv1_GroupName clusterRoleKind MemberRoleAdmin) ∧
    controlled w b;
}.

Definition deployer_footprint w : footprint :=
  [(KServiceAccount, serviceAccountKey w); (KRoleBinding, serviceAccountKey w)].

Lemma serviceAccount_stage w version :
  stage (wrap ("reconciling ServiceAccount " +:+ Quote ServiceAccountName)
    (CreateOrUpdate KServiceAccount (serviceAccountKey w) (serviceAccountMutate w version)))
    [(KServiceAccount, serviceAccountKey w)]
    (fun σ => ∃ sa : obj KServiceAccount, view σ KServiceAccount (serviceAccountKey w) = Some sa ∧
      controlled w sa ∧
      Meta_Labels (metadata sa) = Some (LabelsForWorkspace (W_Name w) version)).
Proof.
  split.
  - intros σ op σ' [Hs _]%exec_write. destruct (Hs eq_refl) as (sent & kept & Hk & Hm & Hp).
    exists kept. rewrite Hk, (persisted_same_labels _ _ Hp) by done. split_and!; [done|by eapply own_controlled|].
    by rewrite (own_labels _ _ _ Hm).
  - intros σ r σ' [_ Hf]%exec_write k key Hk. apply Hf. set_solver.
  - intros σ σ' Hv. by rewrite Hv by set_solver.
Qed.

Lemma deployerBinding_stage w version :
  stage (wrap ("reconciling RoleBinding " +:+ Quote ServiceAccountName)
    (CreateOrUpdate KRoleBinding (serviceAccountKey w) (deployerBindingMutate w version)) ;;? okR tt)
    [(KRoleBinding, serviceAccountKey w)]
    (fun σ => ∃ b : obj KRoleBinding, view σ KRoleBinding (serviceAccountKey w) = Some b ∧
      payload b = mkRoleBindingBody
        [mkSubject rbacv1_ServiceAccountKind "" ServiceAccountName (W_Namespace w)]
        (mkRoleRef rbacv1_GroupName clusterRoleKind MemberRoleAdmin) ∧
      controlled w b).
Proof.
  split.
  - intros σ [] σ' [Hs _]%exec_sync. destruct (Hs eq_refl) as (sent & kept & Hk & Hm & Hp).
    exists kept. rewrite Hk, (persisted_payload _ _ Hp) by done. split_and!; [done| |by eapply own_controlled].
    by rewrite (own_payload _ _ _ Hm).
  - intros σ r σ' [_ Hf]%exec_sync k key Hk. apply Hf. set_solver.
  - intros σ σ' Hv. by rewrite Hv by set_solver.
Qed.

Lemma ReconcileServiceAccount_stage w version :
  stage (ReconcileServiceAccount w version) (deployer_footprint w) (deployer_ok w version).
Proof.
  eapply stage_weaken.
  - apply stage_seq; [apply serviceAccount_stage|intros op; apply deployerBinding_stage|].
    intros x ->%list_elem_of_singleton [=]%list_elem_of_singleton.
  - done.
  - intros σ. split; [by intros []|by intros []].
Qed.

(** ReconcileServiceAccount, when it succeeds, leaves the deployer identity in
    place whatever was there before, and touches only the ServiceAccount and
    the RoleBinding of that name: the members' bindings are not among them. *)
Theorem ReconcileServiceAccount_refines w version σ r σ' :
  exec (ReconcileServiceAccount w version) σ = Some (r, σ') →
  (r = Ok tt → deployer_ok w version σ') ∧
  (∀ k key, key ≠ serviceAccountKey w → view σ' k key = view σ k key) ∧
  ∀ role, role ∈ AllMemberRoles → serviceAccountKey w ≠ roleBindingKey w role.
Proof.
  destruct (ReconcileServiceAccount_stage w version) as [Hp Hf _]. intros Hx. split_and!.
  - intros ->. by eapply Hp.
  - intros k key Hk. eapply Hf; [done|]. set_solver.
  - by intros role _ Hk%(f_equal Key_Name).
Qed.

(** The RBAC syncs settle: the objects they wrote cause no further update. *)
Lemma rbac_settles w version role members :
  settles (k := KRoleBinding) (roleBindingMutate w version role members) ∧
  settles (k := KServiceAccount) (serviceAccountMutate w version) ∧
  settles (k := KRoleBinding) (deployerBindingMutate w version).
Proof.
  split_and!.
  - by apply (overwrite_settles KRoleBinding w _ (fun _ => _)).
  - intros o sent kept Ho Hp.
    assert (∀ o : obj KServiceAccount, serviceAccountMutate w version o =
      own w (with_payload (payload o) (with_meta (set_Labels (Some
        (LabelsForWorkspace (W_Name w) version))) o))) as Heq by done.
    rewrite Heq in *. by eapply (overwrite_settles KServiceAccount w _ id).
  - by apply (overwrite_settles KRoleBinding w _ (fun _ => _)).
Qed.
End properties.

(** ** Confinement *)

Lemma ReconcileRoleBindings_inside {CL : CtrlLib} {NL : NetLib} w version :
  emits (inside w) (ReconcileRoleBindings w version).
Proof.
  apply emits_forR. intros role. unfold reconcileRoleBinding.
  case_bool_decide; eauto with progs.
Qed.

Lemma ReconcileServiceAccount_inside {CL : CtrlLib} {NL : NetLib} w version :
  emits (inside w) (ReconcileServiceAccount w version).
Proof. unfold ReconcileServiceAccount. eauto 10 with progs. Qed.

#[export] Hint Resolve ReconcileRoleBindings_inside ReconcileServiceAccount_inside : progs.
