(* ===== verification/Resources.v ===== *)
(** internal/workspace/resource_constraints.go and network_isolation.go: the
    quota, the limits and the network policy, each applied when the spec asks
    for it and deleted when it does not. *)
From S2P Require Import Prelude Errors Prog GoStd Api Effects Cluster Sync Stage Fakes Labels.

Definition quotaKey (w : Workspace) : ObjectKey := mkKey (W_Namespace w) ResourceQuotaName.
Definition limitsKey (w : Workspace) : ObjectKey := mkKey (W_Namespace w) LimitRangeName.
Definition policyKey (w : Workspace) : ObjectKey := mkKey (W_Namespace w) NetworkPolicyName.

(** The ingress rules: the namespace's own pods, then one rule per allowed
    namespace, selected by the name label Kubernetes puts on every namespace. *)
Definition metadataNameLabel := "kubernetes.io/metadata.name".

Definition ownNamespaceRule : NetworkPolicyIngressRule :=
  mkIngressRule [mkPeer (Some (mkLabelSelector ∅)) None].

Definition allowedNamespaceRule (namespace : string) : NetworkPolicyIngressRule :=
  mkIngressRule [mkPeer None (Some (mkLabelSelector {[ metadataNameLabel := namespace ]}))].

Definition ingressRules (allowed : list string) : list NetworkPolicyIngressRule :=
  foldl (fun rules namespace => rules ++ [allowedNamespaceRule namespace]) [ownNamespaceRule] allowed.

Section resources.
Context {CL : CtrlLib}.

Definition quotaMutate (w : Workspace) (version : string) (spec : ResourceQuotaSpec)
    (quota : obj KResourceQuota) : result (obj KResourceQuota) :=
  let quota := with_meta (set_Labels (Some (LabelsForWorkspace (W_Name w) version))) quota in
  own w (with_payload (P := payload_of KResourceQuota) spec quota).

Definition ReconcileResourceQuota (w : Workspace) (version : string) : io (result unit) :=
  match Spec_ResourceQuota (W_Spec w) with
  | None => deleteIfPresent KResourceQuota (quotaKey w) "deleting ResourceQuota"
  | Some spec =>
      wrap "reconciling ResourceQuota"
        (CreateOrUpdate KResourceQuota (quotaKey w) (quotaMutate w version spec)) ;;?
      okR tt
  end.

Definition limitsMutate (w : Workspace) (version : string) (spec : LimitRangeSpec)
    (limits : obj KLimitRange) : result (obj KLimitRange) :=
  let limits := with_meta (set_Labels (Some (LabelsForWorkspace (W_Name w) version))) limits in
  own w (with_payload (P := payload_of KLimitRange) spec limits).

Definition ReconcileLimitRange (w : Workspace) (version : string) : io (result unit) :=
  match Spec_LimitRange (W_Spec w) with
  | None => deleteIfPresent KLimitRange (limitsKey w) "deleting LimitRange"
  | Some spec =>
      wrap "reconciling LimitRange"
        (CreateOrUpdate KLimitRange (limitsKey w) (limitsMutate w version spec)) ;;?
      okR tt
  end.

Definition policyMutate (w : Workspace) (version : string) (policy : obj KNetworkPolicy)
    : result (obj KNetworkPolicy) :=
  let policy := with_meta (set_Labels (Some (LabelsForWorkspace (W_Name w) version))) policy in
  let rules := ingressRules (Isolation_AllowedNamespaces (Spec_NetworkIsolation (W_Spec w))) in
  let spec := mkNetworkPolicySpec (mkLabelSelector ∅) [PolicyTypeIngress] rules in
  own w (with_payload (P := payload_of KNetworkPolicy) spec policy).

Definition ReconcileNetworkIsolation (w : Workspace) (version : string) : io (result unit) :=
  if negb (Isolation_Enabled (Spec_NetworkIsolation (W_Spec w))) then
    deleteIfPresent KNetworkPolicy (policyKey w) "deleting NetworkPolicy"
  else
    wrap "reconciling NetworkPolicy"
      (CreateOrUpdate KNetworkPolicy (policyKey w) (policyMutate w version)) ;;?
    okR tt.
End resources.

(** ** What a NetworkPolicy means

    The documented semantics of networking.k8s.io/v1, for ingress: a policy
    selects the pods of its namespace its pod selector matches; a selected pod
    accepts a connection from a pod when some rule has a peer matching it; an
    unselected pod accepts anything.  A peer without a namespace selector
    matches pods of the policy's own namespace only, and a missing pod selector
    matches every pod of the namespaces selected. *)

Definition selects (s : LabelSelector) (labels : gmap string string) : Prop :=
  MatchLabels s ⊆ labels.

(** A pod: its namespace, that namespace's labels, and its own labels. *)
Record Pod := mkPod {
  Pod_Namespace : string;
  Pod_NamespaceLabels : gmap string string;
  Pod_Labels : gmap string string;
}.

(** Kubernetes labels every namespace with its name. *)
Definition well_labelled (p : Pod) : Prop :=
  Pod_NamespaceLabels p !! metadataNameLabel = Some (Pod_Namespace p).

Definition peer_matches (policyNamespace : string) (peer : NetworkPolicyPeer) (from : Pod) : Prop :=
  match Peer_NamespaceSelector peer with
  | None => Pod_Namespace from = policyNamespace ∧ Peer_PodSelector peer ≠ None
  | Some s => selects s (Pod_NamespaceLabels from)
  end ∧
  match Peer_PodSelector peer with
  | None => True
  | Some s => selects s (Pod_Labels from)
  end.

(** Ingress under a policy of namespace [ns]. *)
Definition ingress_allowed (ns : string) (spec : NetworkPolicySpec) (from to : Pod) : Prop :=
  Pod_Namespace to = ns → PolicyTypeIngress ∈ Policy_PolicyTypes spec →
  selects (Policy_PodSelector spec) (Pod_Labels to) →
  ∃ rule peer, rule ∈ Policy_Ingress spec ∧ peer ∈ Rule_From rule ∧ peer_matches ns peer from.

Lemma ingressRules_spec allowed :
  ingressRules allowed = ownNamespaceRule :: (allowedNamespaceRule <$> allowed).
Proof.
  unfold ingressRules.
  enough (∀ rules, foldl (fun rules ns => rules ++ [allowedNamespaceRule ns]) rules allowed
    = rules ++ (allowedNamespaceRule <$> allowed)) as -> by done.
  induction allowed as [|a l IH]; intros rules; simpl; [by rewrite app_nil_r|].
  by rewrite IH, <-app_assoc.
Qed.

Lemma own_rule_matches ns from :
  peer_matches ns (mkPeer (Some (mkLabelSelector ∅)) None) from ↔ Pod_Namespace from = ns.
Proof.
  unfold peer_matches, selects. simpl. split; [tauto|]. intros Hns.
  split; [by split|apply map_empty_subseteq].
Qed.

Lemma allowed_rule_matches ns allowed from :
  well_labelled from →
  peer_matches ns (mkPeer None (Some (mkLabelSelector {[ metadataNameLabel := allowed ]}))) from ↔
  Pod_Namespace from = allowed.
Proof.
  unfold peer_matches, selects, well_labelled. simpl. intros Hl.
  rewrite map_singleton_subseteq_l, Hl. split; [by intros [[=] _] | by intros ->].
Qed.

(** The rules the operator writes admit exactly the namespace itself and the
    allowed ones. *)
Lemma ingressRules_admit ns allowed from :
  well_labelled from →
  (∃ rule peer, rule ∈ ingressRules allowed ∧ peer ∈ Rule_From rule ∧ peer_matches ns peer from) ↔
  Pod_Namespace from = ns ∨ Pod_Namespace from ∈ allowed.
Proof.
  intros Hl. rewrite ingressRules_spec. split.
  - intros (rule & peer & [->|(a & -> & Ha)%list_elem_of_fmap]%elem_of_cons & Hp & Hm);
      apply list_elem_of_singleton in Hp as ->.
    + left. by apply own_rule_matches in Hm.
    + right. apply allowed_rule_matches in Hm; [by subst | done].
  - intros [Hns|Ha].
    + exists ownNamespaceRule. eexists. split_and!; [set_solver|by apply list_elem_of_singleton|].
      by apply own_rule_matches.
    + exists (allowedNamespaceRule (Pod_Namespace from)). eexists.
      split_and!; [|by apply list_elem_of_singleton|by apply allowed_rule_matches].
      apply elem_of_cons. right. by apply list_elem_of_fmap_2.
Qed.

(** ** Properties *)

Section properties.
Context {CL : CtrlLib} {HCL : CtrlLaws}.
Context {W : Type} {CW : Cluster W} {LW : ClusterLaws W}.
Implicit Types (w : Workspace) (σ : W).

(** A spec'd object after a sync: as specified when the spec asks for it, absent
    when it does not. *)
Definition matches_spec {k} (spec : option (payload_of k)) w version (o : option (obj k)) : Prop :=
  match spec with
  | None => o = None
  | Some p => ∃ x : obj k, o = Some x ∧ (k ≠ KLimitRange → payload x = p) ∧
      Meta_Labels (metadata x) = Some (LabelsForWorkspace (W_Name w) version) ∧
      controlled w x
  end.

(** Every sync of the form "apply the spec, or delete". *)
Lemma exec_apply_or_delete k key (spec : option (payload_of k)) w version message1 message2 σ r σ' :
  k ≠ KNamespace →
  exec (match spec with
        | None => deleteIfPresent k key message1
        | Some p => wrap message2 (CreateOrUpdate k key (fun o : obj k =>
            own w (with_payload p (with_meta (set_Labels (Some
              (LabelsForWorkspace (W_Name w) version))) o)))) ;;? okR tt
        end) σ = Some (r, σ') →
  (r = Ok tt → matches_spec spec w version (view σ' k key)) ∧
  ∀ k' key', (k', key') ≠ (k, key) → view σ' k' key' = view σ k' key'.
Proof.
  intros Hkind. destruct spec as [p|]; simpl; [|apply exec_deleteIfPresent].
  intros [Hs Hf]%exec_sync. split; [|done].
  intros (sent & kept & Hk & Hm & Hps)%Hs. exists kept. split; [done|].
  pose proof (own_controlled _ _ _ _ Hm Hps) as Hown.
  pose proof (persisted_same_labels _ _ Hps Hkind) as Hl. destruct Hps as [_ _ _ _ Hp].
  rewrite Hl. split_and!.
  - intros Hlim. rewrite Hp by done. by rewrite (own_payload _ _ _ Hm).
  - by rewrite (own_labels _ _ _ Hm).
  - done.
Qed.

Lemma apply_or_delete_stage k key (p : io (result unit)) (spec : option (payload_of k)) w version :
  (∀ σ r σ', exec p σ = Some (r, σ') →
    (r = Ok tt → matches_spec spec w version (view σ' k key)) ∧
    ∀ k' key', (k', key') ≠ (k, key) → view σ' k' key' = view σ k' key') →
  stage p [(k, key)] (fun σ => matches_spec spec w version (view σ k key)).
Proof.
  intros Hp. split.
  - intros σ [] σ' [H _]%Hp. by apply H.
  - intros σ r σ' [_ H]%Hp k' key' Hk. apply H. set_solver.
  - intros σ σ' Hv. by rewrite Hv by set_solver.
Qed.

Lemma ReconcileResourceQuota_stage w version :
  stage (ReconcileResourceQuota w version) [(KResourceQuota, quotaKey w)] (fun σ =>
    matches_spec (k := KResourceQuota) (Spec_ResourceQuota (W_Spec w)) w version
      (view σ KResourceQuota (quotaKey w))).
Proof. apply apply_or_delete_stage. intros σ r σ'. by apply (exec_apply_or_delete KResourceQuota). Qed.

Lemma ReconcileLimitRange_stage w version :
  stage (ReconcileLimitRange w version) [(KLimitRange, limitsKey w)] (fun σ =>
    matches_spec (k := KLimitRange) (Spec_LimitRange (W_Spec w)) w version
      (view σ KLimitRange (limitsKey w))).
Proof. apply apply_or_delete_stage. intros σ r σ'. by apply (exec_apply_or_delete KLimitRange). Qed.

(** Quota and limits, as the reconciler runs them one after the other: on
    success each is what the spec asks for (the quota verbatim; a LimitRange the
    server may complete with defaults), owned and labelled, or absent when the
    spec has none, in particular when it had one before; success or not, nothing
    else changes. *)
Theorem constraints_refine w version σ r σ' :
  exec (ReconcileResourceQuota w version ;;? ReconcileLimitRange w version) σ = Some (r, σ') →
  (r = Ok tt →
     matches_spec (k := KResourceQuota) (Spec_ResourceQuota (W_Spec w)) w version
       (view σ' KResourceQuota (quotaKey w)) ∧
     matches_spec (k := KLimitRange) (Spec_LimitRange (W_Spec w)) w version
       (view σ' KLimitRange (limitsKey w))) ∧
  ∀ k key, (k, key) ≠ (KResourceQuota, quotaKey w) → (k, key) ≠ (KLimitRange, limitsKey w) →
    view σ' k key = view σ k key.
Proof.
  destruct (stage_seq _ (fun _ => ReconcileLimitRange w version) _ _ _ _
    (ReconcileResourceQuota_stage w version) (fun _ => ReconcileLimitRange_stage w version)) as [Hp Hf _].
  { by intros x ->%list_elem_of_singleton [=]%list_elem_of_singleton. }
  intros Hx. split; [intros ->; by eapply Hp|]. intros k key H1 H2. eapply Hf; [done|]. set_solver.
Qed.

(** The policy the operator wants, if any. *)
Definition wantedPolicy w : option NetworkPolicySpec :=
  let net := Spec_NetworkIsolation (W_Spec w) in
  if Isolation_Enabled net then
    Some (mkNetworkPolicySpec (mkLabelSelector ∅) [PolicyTypeIngress]
            (ingressRules (Isolation_AllowedNamespaces net)))
  else None.

Lemma ReconcileNetworkIsolation_wanted w version :
  ReconcileNetworkIsolation w version =
    match wantedPolicy w with
    | None => deleteIfPresent KNetworkPolicy (policyKey w) "deleting NetworkPolicy"
    | Some _ => wrap "reconciling NetworkPolicy"
        (CreateOrUpdate KNetworkPolicy (policyKey w) (policyMutate w version)) ;;? okR tt
    end.
Proof. unfold ReconcileNetworkIsolation, wantedPolicy. by destruct (Isolation_Enabled _). Qed.

Lemma ReconcileNetworkIsolation_stage w version :
  stage (ReconcileNetworkIsolation w version) [(KNetworkPolicy, policyKey w)] (fun σ =>
    matches_spec (k := KNetworkPolicy) (wantedPolicy w) w version
      (view σ KNetworkPolicy (policyKey w))).
Proof.
  apply apply_or_delete_stage. intros σ r σ'. rewrite ReconcileNetworkIsolation_wanted. intros Hx.
  unfold wantedPolicy, policyMutate in *. destruct (Isolation_Enabled _).
  - by apply (exec_apply_or_delete KNetworkPolicy _ (Some _)) in Hx.
  - by apply (exec_apply_or_delete KNetworkPolicy _ None w version _ "") in Hx.
Qed.

(** C18. ReconcileNetworkIsolation enforces what it promises, under the documented
    semantics of network policies: with isolation enabled, on success a pod of
    the workspace's namespace is reachable from another pod exactly when that
    pod is in the same namespace or in an allowed one; with isolation disabled
    the policy is gone.  No other object changes. *)
Theorem ReconcileNetworkIsolation_refines w version σ r σ' :
  let net := Spec_NetworkIsolation (W_Spec w) in
  exec (ReconcileNetworkIsolation w version) σ = Some (r, σ') →
  (r = Ok tt →
   if Isolation_Enabled net then
     ∃ policy : obj KNetworkPolicy, view σ' KNetworkPolicy (policyKey w) = Some policy ∧
       IsOwned (Meta_OwnerReferences (metadata policy)) (W_UID w) = true ∧
       ∀ from to, well_labelled from → Pod_Namespace to = W_Namespace w →
         ingress_allowed (W_Namespace w) (payload policy) from to ↔
         Pod_Namespace from = W_Namespace w ∨ Pod_Namespace from ∈ Isolation_AllowedNamespaces net
   else view σ' KNetworkPolicy (policyKey w) = None) ∧
  ∀ k key, (k, key) ≠ (KNetworkPolicy, policyKey w) → view σ' k key = view σ k key.
Proof.
  intros net Hx. destruct (ReconcileNetworkIsolation_stage w version) as [Hs Hf _].
  split; [|intros k key Hk; eapply Hf; [done|]; set_solver].
  intros ->. specialize (Hs _ _ _ Hx). unfold wantedPolicy in Hs.
  fold net in Hs. destruct (Isolation_Enabled net); [|done].
  destruct Hs as (policy & Hv & Hp & _ & [_ Ho]). exists policy. split_and!; [done..|].
  intros from to Hl Hto. specialize (Hp ltac:(discriminate)). unfold ingress_allowed. rewrite Hp.
  simpl. rewrite (ingressRules_admit _ _ _ Hl). split.
  - intros Hi. apply Hi; [done| |apply map_empty_subseteq]. set_solver.
  - by intros Hi _ _ _.
Qed.

(** The quota and policy syncs settle. *)
Lemma quota_settles w version spec : settles (k := KResourceQuota) (quotaMutate w version spec).
Proof. by apply (overwrite_settles KResourceQuota w _ (fun _ => _)). Qed.

Lemma policy_settles w version : settles (k := KNetworkPolicy) (policyMutate w version).
Proof. by apply (overwrite_settles KNetworkPolicy w _ (fun _ => _)). Qed.
End properties.

Lemma ReconcileResourceQuota_inside {CL : CtrlLib} w version :
  emits (inside w) (ReconcileResourceQuota w version).
Proof. unfold ReconcileResourceQuota. case_match; eauto 10 with progs. Qed.

Lemma ReconcileLimitRange_inside {CL : CtrlLib} w version :
  emits (inside w) (ReconcileLimitRange w version).
Proof. unfold ReconcileLimitRange. case_match; eauto 10 with progs. Qed.

Lemma ReconcileNetworkIsolation_inside {CL : CtrlLib} w version :
  emits (inside w) (ReconcileNetworkIsolation w version).
Proof. unfold ReconcileNetworkIsolation. case_match; eauto 10 with progs. Qed.

#[export] Hint Resolve ReconcileResourceQuota_inside ReconcileLimitRange_inside
  ReconcileNetworkIsolation_inside : progs.
