(* ===== verification/Helm.v ===== *)
(** internal/workspace/helm_repository.go: the Flux OCI sources of a workspace,
    its private Harbor project and Harbor's public default project. *)
From S2P Require Import Prelude Errors Prog GoStd Api Effects Cluster Sync Stage Fakes Labels.

Definition labelValueTrue := "true".

(** The anonymous struct of the sources table. *)
Record HelmSource := mkHelmSource {
  Source_name : string;
  Source_projectName : string;
  Source_secretRef : option string;
  Source_internal : bool;
}.

Definition helmSources (w : Workspace) : list HelmSource :=
  [mkHelmSource HelmRepositoryName (W_Namespace w) (Some ImagePullSecretName) true;
   mkHelmSource HarborDefaultProjectName HarborDefaultProjectName None false].

Definition helmKey (w : Workspace) (name : string) : ObjectKey := mkKey (W_Namespace w) name.

(** [5 * time.Minute], in nanoseconds. *)
Definition helmInterval : Z := 5 * 60 * 1000000000.

Section helm.
Context {CL : CtrlLib} {NL : NetLib}.

(** Returns the URL and whether the scheme is insecure. *)
Definition buildHelmRepositoryURL (harborURL projectName : string) : result (string * bool) :=
  match url_Parse harborURL with
  | Err e => Err (WrapError ("parsing harbor URL " +:+ Quote harborURL) e)
  | Ok (scheme, host) =>
      Ok ("oci://" +:+ host +:+ "/" +:+ projectName, bool_decide (scheme = "http"))
  end.

Definition helmMutate (w : Workspace) (version : string) (source : HelmSource)
    (repoURL : string) (insecure : bool) (repo : obj KHelmRepository) : result (obj KHelmRepository) :=
  let labels := LabelsForWorkspace (W_Name w) version in
  let labels := <[LabelFromHarbor := labelValueTrue]> labels in
  let labels := if Source_internal source then <[LabelInternal := labelValueTrue]> labels else labels in
  let repo := with_meta (set_Labels (Some labels)) repo in
  let spec := mkHelmRepositorySpec (Source_secretRef source) HelmRepositoryTypeOCI repoURL
                helmInterval insecure in
  own w (with_payload (P := payload_of KHelmRepository) spec repo).

Definition reconcileHelmSource (w : Workspace) (version harborURL : string) (source : HelmSource)
    : io (result unit) :=
  match buildHelmRepositoryURL harborURL (Source_projectName source) with
  | Err e => errR (WrapError ("building HelmRepository " +:+ Quote (Source_name source) +:+ " URL") e)
  | Ok (repoURL, insecure) =>
      wrap ("reconciling HelmRepository " +:+ Quote (Source_name source))
        (CreateOrUpdate KHelmRepository (helmKey w (Source_name source))
           (helmMutate w version source repoURL insecure)) ;;?
      okR tt
  end.

Definition ReconcileHelmRepository (w : Workspace) (version harborURL : string) : io (result unit) :=
  forR (reconcileHelmSource w version harborURL) (helmSources w).
End helm.

(** ** Properties *)

Section properties.
Context {CL : CtrlLib} {HCL : CtrlLaws} {NL : NetLib}.
Context {W : Type} {CW : Cluster W} {LW : ClusterLaws W}.
Implicit Types (w : Workspace) (σ : W).

(** The repository of a source, given what [url.Parse] makes of the Harbor URL. *)
Definition source_ok w (version : string) (harborURL : string) (source : HelmSource) σ : Prop :=
  ∃ scheme host (repo : obj KHelmRepository),
    url_Parse harborURL = Ok (scheme, host) ∧
    view σ KHelmRepository (helmKey w (Source_name source)) = Some repo ∧
    payload repo = mkHelmRepositorySpec (Source_secretRef source) HelmRepositoryTypeOCI
      ("oci://" +:+ host +:+ "/" +:+ Source_projectName source) helmInterval
      (bool_decide (scheme = "http")) ∧
    gomap_get (Meta_Labels (metadata repo)) LabelFromHarbor = labelValueTrue ∧
    (gomap_get (Meta_Labels (metadata repo)) LabelInternal = labelValueTrue ↔
     Source_internal source = true) ∧
    controlled w repo.

Lemma helm_labels ws version internal :
  let labels := <[LabelFromHarbor := labelValueTrue]> (LabelsForWorkspace ws version) in
  let labels := if (internal : bool) then <[LabelInternal := labelValueTrue]> labels else labels in
  gomap_get (Some labels) LabelFromHarbor = labelValueTrue ∧
  (gomap_get (Some labels) LabelInternal = labelValueTrue ↔ internal = true).
Proof.
  simpl. unfold gomap_get. simpl. destruct internal; simpl.
  - rewrite lookup_insert_ne by done. by simplify_map_eq.
  - rewrite (lookup_insert_ne _ _ LabelInternal), lookup_insert_eq by done.
    rewrite LabelsForWorkspace_lookup. repeat case_bool_decide; destruct_and?; naive_solver.
Qed.

Lemma exec_reconcileHelmSource w version harborURL source σ r σ' :
  exec (reconcileHelmSource w version harborURL source) σ = Some (r, σ') →
  (r = Ok tt → source_ok w version harborURL source σ') ∧
  ∀ k key, (k, key) ≠ (KHelmRepository, helmKey w (Source_name source)) →
    view σ' k key = view σ k key.
Proof.
  unfold reconcileHelmSource, buildHelmRepositoryURL.
  destruct (url_Parse harborURL) as [[scheme host]|e] eqn:Hu; intros Hx; [|by exec_inv].
  apply exec_sync in Hx as [Hs Hf]. split; [|done].
  intros (sent & kept & Hk & Hm & Hps)%Hs. exists scheme, host, kept.
  pose proof (own_controlled (k := KHelmRepository) _ _ _ _ Hm Hps) as Hown.
  pose proof (persisted_same_labels _ _ Hps ltac:(done)) as Hl. destruct Hps as [_ _ _ _ Hp].
  pose proof (helm_labels (W_Name w) version (Source_internal source)) as Hlab.
  rewrite Hl, Hp, (own_payload _ _ _ Hm), (own_labels _ _ _ Hm) by done. simpl.
  split_and!; [done..| | |done]; apply Hlab.
Qed.

Definition helm_footprint w : footprint :=
  (fun s => (KHelmRepository, helmKey w (Source_name s))) <$> helmSources w.

Definition helm_ok w version harborURL σ : Prop :=
  ∀ source, source ∈ helmSources w → source_ok w version harborURL source σ.

Lemma ReconcileHelmRepository_stage w version harborURL :
  stage (ReconcileHelmRepository w version harborURL) (helm_footprint w) (helm_ok w version harborURL).
Proof.
  assert (∀ source σ1 σ2,
    (∀ k key, (k, key) = (KHelmRepository, helmKey w (Source_name source)) → view σ2 k key = view σ1 k key) →
    source_ok w version harborURL source σ1 → source_ok w version harborURL source σ2) as Hloc.
  { intros source σ1 σ2 Hv. unfold source_ok. by rewrite (Hv KHelmRepository _ eq_refl). }
  assert (∀ σ r σ', exec (ReconcileHelmRepository w version harborURL) σ = Some (r, σ') →
    (r = Ok tt → helm_ok w version harborURL σ') ∧ frame (helm_footprint w) σ σ') as Hx.
  { intros σ r σ' Hx. eapply (exec_forR_local _ (fun s => (KHelmRepository, helmKey w (Source_name s)))
      (source_ok w version harborURL)) in Hx; [done| |done|].
    - intros source ? ? ?. apply exec_reconcileHelmSource.
    - simpl. apply list.NoDup_cons. split; [|apply NoDup_singleton].
      intros Hin%list_elem_of_singleton%(f_equal (Key_Name ∘ snd)). discriminate Hin. }
  split.
  - intros σ [] σ' [H _]%Hx. by apply H.
  - intros σ r σ' [_ H]%Hx. done.
  - intros σ σ' Hv H source Hs. eapply Hloc; [|by apply H]. intros k key [= -> ->]. apply Hv.
    by apply (list_elem_of_fmap_2 (fun s => (KHelmRepository, helmKey w (Source_name s)))).
Qed.

(** ReconcileHelmRepository, when it succeeds, leaves both repositories as
    specified: OCI URLs under the parsed Harbor host (plain HTTP marked
    insecure), the pull secret referenced and the internal label set for the
    workspace's private project only.  Failing or not, it touches nothing but
    the two repositories of this namespace. *)
Theorem ReconcileHelmRepository_refines w version harborURL σ r σ' :
  exec (ReconcileHelmRepository w version harborURL) σ = Some (r, σ') →
  (r = Ok tt → ∀ source, source ∈ helmSources w → source_ok w version harborURL source σ') ∧
  ∀ k key, (k = KHelmRepository → key ∉ helmKey w <$> [HelmRepositoryName; HarborDefaultProjectName]) →
    view σ' k key = view σ k key.
Proof.
  destruct (ReconcileHelmRepository_stage w version harborURL) as [Hp Hf _]. intros Hx. split.
  - intros ->. by eapply Hp.
  - intros k key Hk. eapply Hf; [done|]. simpl. intros Hin.
    assert (k = KHelmRepository) as -> by set_solver. apply Hk; set_solver.
Qed.

(** The HelmRepository sync settles. *)
Lemma helm_settles w version source repoURL insecure :
  settles (k := KHelmRepository) (helmMutate w version source repoURL insecure).
Proof. by apply (overwrite_settles KHelmRepository w _ (fun _ => _)). Qed.
End properties.

Lemma ReconcileHelmRepository_inside {CL : CtrlLib} {NL : NetLib} w version harborURL :
  emits (inside w) (ReconcileHelmRepository w version harborURL).
Proof.
  apply emits_forR. intros source. unfold reconcileHelmSource.
  destruct (buildHelmRepositoryURL _ _) as [[url insecure]|e]; eauto 10 with progs.
Qed.

#[export] Hint Resolve ReconcileHelmRepository_inside : progs.
