(* ===== verification/Authorization.v ===== *)
(** internal/workspace/authorization.go: who may create, change or delete a
    Workspace, and the uniqueness of the namespace it claims. *)
From S2P Require Import Prelude Errors Prog GoStd Api Effects Labels.

Definition privilegedGroups : list string := ["system:masters"; "kubeadm:cluster-admins"].

Definition inPrivilegedGroup (userInfo : UserInfo) : bool :=
  existsb (fun g => bool_decide (g ∈ privilegedGroups)) (User_Groups userInfo).

Definition isWorkspaceAdmin (username : string) (workspace : Workspace) : bool :=
  existsb (fun m => bool_decide (Member_Subject m = username)
                    && bool_decide (Member_Role m = MemberRoleAdmin))
    (W_Members workspace).

(** The review asks for every verb on every resource of every group; the copy of
    the extra values is entry by entry. *)
Definition clusterWideReview (userInfo : UserInfo) : SubjectAccessReviewSpec :=
  let extra := (fun value => value) <$> User_Extra userInfo in
  mkSAR (User_Username userInfo) (User_Groups userInfo) (User_UID userInfo) extra "*" "*" "*".

Definition hasClusterWideAccess (userInfo : UserInfo) : io (result bool) :=
  trigger (ClientCreateReview (clusterWideReview userInfo)).

Definition AuthorizeCreation (userInfo : UserInfo) (ws : Workspace) : io (result unit) :=
  if inPrivilegedGroup userInfo then okR tt
  else if isWorkspaceAdmin (User_Username userInfo) ws then okR tt
  else
    ok ←? wrap "failed to check cluster-wide access" (hasClusterWideAccess userInfo);
    if (ok : bool) then okR tt
    else errR (ErrorString "workspace creator must be listed as a member with the 'admin' role").

Definition AuthorizeModification (userInfo : UserInfo) (workspace : Workspace) : io (result unit) :=
  if inPrivilegedGroup userInfo then okR tt
  else if isWorkspaceAdmin (User_Username userInfo) workspace then okR tt
  else
    ok ←? wrap "failed to check cluster-wide access" (hasClusterWideAccess userInfo);
    if (ok : bool) then okR tt
    else errR (ErrorString
      "only users with the 'admin' role defined in this workspace can modify or delete it").

(** [content.LabelValueMaxLength] of k8s.io/apimachinery: the length limit of a
    label value. *)
Definition LabelValueMaxLength : nat := 63.

Definition ValidateWorkspaceName (name : string) : result unit :=
  if bool_decide (LabelValueMaxLength < String.length name)
  then Err (ErrorString ("workspace metadata.name must be no more than " +:+
                         pretty LabelValueMaxLength +:+ " bytes"))
  else Ok tt.

Section uniqueness.
Context {NL : NetLib}.

(** The loop over [list.Items]. *)
Fixpoint claimedBy (items : list Workspace) (ws : Workspace) : result unit :=
  match items with
  | [] => Ok tt
  | existing :: items =>
      if bool_decide (W_Name existing ≠ W_Name ws) && bool_decide (W_Namespace existing = W_Namespace ws)
      then Err (ErrorString ("namespace " +:+ Quote (W_Namespace ws) +:+
                             " is already used by workspace " +:+ Quote (W_Name existing)))
      else claimedBy items ws
  end.

Definition ValidateNamespaceUniqueness (ws : Workspace) : io (result unit) :=
  items ←? wrap "failed to list workspaces for namespace uniqueness check" List_;
  Ret (claimedBy items ws).
End uniqueness.

(** ** What the checks mean *)

Definition privileged (u : UserInfo) : Prop :=
  ∃ g, g ∈ User_Groups u ∧ g ∈ privilegedGroups.

(** The user is listed with the admin role. *)
Definition admin_of (username : string) (ws : Workspace) : Prop :=
  ∃ m, m ∈ W_Members ws ∧ Member_Subject m = username ∧ Member_Role m = MemberRoleAdmin.

Lemma inPrivilegedGroup_spec u : inPrivilegedGroup u = true ↔ privileged u.
Proof.
  unfold inPrivilegedGroup, privileged. rewrite existsb_In.
  by setoid_rewrite bool_decide_eq_true.
Qed.

Lemma isWorkspaceAdmin_spec name ws : isWorkspaceAdmin name ws = true ↔ admin_of name ws.
Proof.
  unfold isWorkspaceAdmin, admin_of. rewrite existsb_In.
  setoid_rewrite andb_true_iff. by setoid_rewrite bool_decide_eq_true.
Qed.

#[export] Instance privileged_dec u : Decision (privileged u).
Proof.
  destruct (inPrivilegedGroup u) eqn:E; [left | right].
  - by apply inPrivilegedGroup_spec.
  - intros Hp%inPrivilegedGroup_spec. congruence.
Defined.

#[export] Instance admin_of_dec name ws : Decision (admin_of name ws).
Proof.
  destruct (isWorkspaceAdmin name ws) eqn:E; [left | right].
  - by apply isWorkspaceAdmin_spec.
  - intros Hp%isWorkspaceAdmin_spec. congruence.
Defined.

(** The rule both authorizations implement: local checks first, at no API
    cost, then one SubjectAccessReview whose answer decides. *)
Definition authorization_rule (u : UserInfo) (ws : Workspace) (tr : trace) (r : result unit)
    (refusal : string) : Prop :=
  (privileged u ∨ admin_of (User_Username u) ws) ∧ tr = [] ∧ r = Ok tt ∨
  ¬ (privileged u ∨ admin_of (User_Username u) ws) ∧
  ∃ answer : result bool,
    tr = [Obs (ClientCreateReview (clusterWideReview u)) answer] ∧
    r = match answer with
        | Err e => Err (WrapError "failed to check cluster-wide access" e)
        | Ok true => Ok tt
        | Ok false => Err (ErrorString refusal)
        end.

Ltac local_checks u ws :=
  let H1 := fresh "Hpriv" in let H2 := fresh "Hadm" in
  destruct (inPrivilegedGroup u) eqn:H1;
  [apply inPrivilegedGroup_spec in H1
  |destruct (isWorkspaceAdmin (User_Username u) ws) eqn:H2;
   [apply isWorkspaceAdmin_spec in H2|];
   try (rewrite <-not_true_iff_false, inPrivilegedGroup_spec in H1);
   try (rewrite <-not_true_iff_false, isWorkspaceAdmin_spec in H2)].

(** The cluster-wide question and its three answers. *)
Lemma review_runs u refusal tr r :
  runs (ok ←? wrap "failed to check cluster-wide access" (hasClusterWideAccess u);
        if (ok : bool) then okR tt else errR (ErrorString refusal)) tr r ↔
  ∃ answer : result bool,
    tr = [Obs (ClientCreateReview (clusterWideReview u)) answer] ∧
    r = match answer with
        | Err e => Err (WrapError "failed to check cluster-wide access" e)
        | Ok true => Ok tt
        | Ok false => Err (ErrorString refusal)
        end.
Proof.
  split.
  - unfold hasClusterWideAccess. intros Hr. run_inv.
    + by exists (Err e0).
    + destruct a; run_inv; [by exists (Ok true) | by exists (Ok false)].
  - intros ([[]|e] & -> & ->); eexists _, _; (split; [done|]); simpl; eauto.
Qed.

(** A check written in the shape of the two authorization functions has exactly
    the behaviours of the rule. *)
Lemma authorization_rule_complete u ws refusal tr r :
  runs (if inPrivilegedGroup u then okR tt
        else if isWorkspaceAdmin (User_Username u) ws then okR tt
        else ok ←? wrap "failed to check cluster-wide access" (hasClusterWideAccess u);
             if (ok : bool) then okR tt else errR (ErrorString refusal)) tr r ↔
  authorization_rule u ws tr r refusal.
Proof.
  unfold authorization_rule. local_checks u ws.
  - simpl. naive_solver.
  - simpl. naive_solver.
  - rewrite review_runs. naive_solver.
Qed.

(** The loop of the uniqueness check stops at the first other claimant. *)
Lemma claimedBy_spec `{NetLib} items ws :
  match claimedBy items ws with
  | Ok _ => ∀ o, o ∈ items → W_Namespace o = W_Namespace ws → W_Name o = W_Name ws
  | Err e => ∃ o, o ∈ items ∧ W_Name o ≠ W_Name ws ∧ W_Namespace o = W_Namespace ws ∧
             e = ErrorString ("namespace " +:+ Quote (W_Namespace ws) +:+
                              " is already used by workspace " +:+ Quote (W_Name o))
  end.
Proof.
  induction items as [|o items IH]; simpl; [set_solver|].
  case_bool_decide; simpl; [case_bool_decide|].
  - exists o. set_solver.
  - destruct (claimedBy items ws); set_solver.
  - destruct (claimedBy items ws); set_solver.
Qed.

(** ** Properties *)

(** AuthorizeCreation has exactly these behaviours: a member of a privileged
    group and a listed admin are admitted without any API call; anyone else is
    decided by one SubjectAccessReview for every verb on every resource, whose
    failure denies, whose refusal denies, and whose grant admits. *)
Theorem AuthorizeCreation_correct u ws tr r :
  runs (AuthorizeCreation u ws) tr r ↔
  authorization_rule u ws tr r
    "workspace creator must be listed as a member with the 'admin' role".
Proof. apply authorization_rule_complete. Qed.

(** ValidateNamespaceUniqueness lists the workspaces once and accepts exactly
    when no workspace of another name claims the same namespace; a refusal names
    such a claimant, and a failed list is a refusal. *)
Theorem ValidateNamespaceUniqueness_correct `{NetLib} ws tr r :
  runs (ValidateNamespaceUniqueness ws) tr r →
  ∃ answer, tr = [Obs ClientListWorkspaces answer] ∧
  match answer with
  | Err e =>
      r = Err (WrapError "failed to list workspaces for namespace uniqueness check" e)
  | Ok items =>
      let taken o := o ∈ items ∧ W_Name o ≠ W_Name ws ∧ W_Namespace o = W_Namespace ws in
      (r = Ok tt ↔ ∀ o, ¬ taken o) ∧
      (∀ e, r = Err e → ∃ o, taken o ∧
         e = ErrorString ("namespace " +:+ Quote (W_Namespace ws) +:+
                          " is already used by workspace " +:+ Quote (W_Name o)))
  end.
Proof.
  unfold ValidateNamespaceUniqueness, List_. intros Hr. run_inv.
  - by exists (Err e0).
  - exists (Ok a). split; [done|]. pose proof (claimedBy_spec a ws) as Hc.
    destruct (claimedBy a ws) as [[]|e]; split; naive_solver.
Qed.

(** A workspace name is accepted exactly when it fits a label value. *)
Theorem ValidateWorkspaceName_bound name :
  ValidateWorkspaceName name = Ok tt ↔ String.length name ≤ LabelValueMaxLength.
Proof. unfold ValidateWorkspaceName. case_bool_decide; split; intros; first [done|lia]. Qed.
