(* ===== verification/Harbor.v ===== *)
(** internal/harbor/client.go: the Harbor v2.0 REST client.

    [HarborClient] is the Go interface [Client]; [NewClient] builds the HTTP
    implementation of it.  A response body is closed by the function that
    received it, on every path ([deferClose]). *)
From S2P Require Import Prelude Errors Prog GoStd Api Effects Cluster Sync.

(** Harbor project role IDs. *)
Definition RoleProjectAdmin : Z := 1.
Definition RoleDeveloper : Z := 2.
Definition RoleGuest : Z := 3.

Definition robotsPath := "/api/v2.0/robots".

Record ProjectMember := mkProjectMember { PM_Username : string; PM_RoleID : Z }.

(** The interface [Client]. *)
Record HarborClient := mkHarborClient {
  EnsureProject : string → io (result unit);
  ReconcileProjectMembers : string → list ProjectMember → io (result (list string));
  EnsureRobot : string → string → io (result (option RobotCredentials));
  RefreshRobotSecret : string → string → io (result RobotCredentials);
}.

(** The struct [httpClient]. *)
Record httpClient := mkHttpClient {
  client_baseURL : string;
  client_username : string;
  client_password : string;
}.

(** HTTP status codes, by their net/http names. *)
Definition StatusOK : Z := 200.
Definition StatusCreated : Z := 201.
Definition StatusNotFound : Z := 404.
Definition StatusConflict : Z := 409.

(** [defer func() { _ = resp.Body.Close() }()], around the rest of a function. *)
Definition deferClose {A} (resp : Response) (body : io A) : io A :=
  a ← body; trigger (BodyClose resp);; mret a.

Definition unexpectedStatus (operation : string) (resp : Response) : error :=
  ErrorString (operation +:+ ": unexpected status " +:+ pretty (StatusCode resp) +:+ ": " +:+
               ReadLimited 512 (Body resp)).

Section client.
Context {NL : NetLib}.
Implicit Types (c : httpClient).

Definition do_ c (method path : string) (body : option string) : io (result Response) :=
  match NewRequest_error method (client_baseURL c +:+ path) with
  | Some e => errR e
  | None =>
      trigger (HttpDo (mkRequest method (client_baseURL c +:+ path)
        (client_username c, client_password c)
        (if body then Some "application/json" else None) body))
  end.

Definition doJSON c (method path : string) (body : json) : io (result Response) :=
  do_ c method path (Some (json_Marshal body)).

Definition projectExists c (projectName : string) : io (result bool) :=
  resp ←? do_ c "HEAD" ("/api/v2.0/projects?project_name=" +:+ projectName) None;
  deferClose resp (
    if bool_decide (StatusCode resp = StatusOK) then okR true
    else if bool_decide (StatusCode resp = StatusNotFound) then okR false
    else errR (unexpectedStatus "checking Harbor project" resp)).

Definition httpEnsureProject c (projectName : string) : io (result unit) :=
  exists_ ←? wrap "checking Harbor project existence" (projectExists c projectName);
  if (exists_ : bool) then okR tt
  else
    let body := JObject [("project_name", JString projectName); ("public", JBool false)] in
    resp ←? wrap "creating Harbor project" (doJSON c "POST" "/api/v2.0/projects" body);
    deferClose resp (
      if bool_decide (StatusCode resp = StatusCreated) || bool_decide (StatusCode resp = StatusConflict)
      then okR tt
      else errR (unexpectedStatus "creating Harbor project" resp)).

Definition addProjectMember c (basePath username : string) (roleID : Z) : io (result unit) :=
  let body := JObject [("role_id", JInt roleID);
                       ("member_user", JObject [("username", JString username)])] in
  resp ←? doJSON c "POST" basePath body;
  deferClose resp (
    if bool_decide (StatusCode resp = StatusCreated) || bool_decide (StatusCode resp = StatusConflict)
    then okR tt
    else if bool_decide (StatusCode resp = StatusNotFound) then errR ErrUserNotFound
    else errR (unexpectedStatus "adding project member" resp)).

Definition updateProjectMember c (basePath : string) (memberID roleID : Z) : io (result unit) :=
  let path := basePath +:+ "/" +:+ pretty memberID in
  let body := JObject [("role_id", JInt roleID)] in
  resp ←? doJSON c "PUT" path body;
  deferClose resp (
    if bool_decide (StatusCode resp ≠ StatusOK)
    then errR (unexpectedStatus "updating project member role" resp)
    else okR tt).

Definition deleteProjectMember c (basePath : string) (memberID : Z) : io (result unit) :=
  let path := basePath +:+ "/" +:+ pretty memberID in
  resp ←? do_ c "DELETE" path None;
  deferClose resp (
    if bool_decide (StatusCode resp ≠ StatusOK)
    then errR (unexpectedStatus "removing project member" resp)
    else okR tt).

(** The lookup table; a later entry of the same name replaces an earlier one. *)
Definition existingByName (existing : list existingMember) : gmap string existingMember :=
  foldl (fun m x => <[Existing_Username x := x]> m) ∅ existing.

(** The loop over [desired]: adds and re-roles, dropping each found name from
    the table and collecting the users Harbor does not have. *)
Fixpoint syncDesired c (basePath : string) (desired : list ProjectMember)
    (existing : gmap string existingMember) (missing : list string)
    : io (result (gmap string existingMember * list string)) :=
  match desired with
  | [] => okR (existing, missing)
  | d :: desired =>
      match existing !! PM_Username d with
      | Some cur =>
          (if bool_decide (Existing_RoleID cur ≠ PM_RoleID d) then
             wrap ("updating member " +:+ PM_Username d)
               (updateProjectMember c basePath (Existing_ID cur) (PM_RoleID d))
           else okR tt) ;;?
          syncDesired c basePath desired (delete (PM_Username d) existing) missing
      | None =>
          r ← addProjectMember c basePath (PM_Username d) (PM_RoleID d);
          match r with
          | Err e =>
              if IsErrUserNotFound e
              then syncDesired c basePath desired existing (missing ++ [PM_Username d])
              else errR (WrapError ("adding member " +:+ PM_Username d) e)
          | Ok _ => syncDesired c basePath desired existing missing
          end
      end
  end.

(** The loop over what is left of the table. *)
Definition removeStale c (basePath : string) (stale : list (string * existingMember))
    : io (result unit) :=
  forR (fun cur => wrap ("removing member " +:+ Existing_Username cur.2)
                     (deleteProjectMember c basePath (Existing_ID cur.2))) stale.

Definition membersPath (projectName : string) : string :=
  "/api/v2.0/projects/" +:+ projectName +:+ "/members".

Definition httpReconcileProjectMembers c (projectName : string) (desired : list ProjectMember)
    : io (result (list string)) :=
  let basePath := membersPath projectName in
  resp ←? wrap "listing project members" (do_ c "GET" basePath None);
  deferClose resp (
    if bool_decide (StatusCode resp ≠ StatusOK)
    then errR (unexpectedStatus "listing project members" resp)
    else
      match Decode_existingMembers (Body resp) with
      | Err e => errR (WrapError "decoding project members" e)
      | Ok existing =>
          '(rest, missing) ←? syncDesired c basePath desired (existingByName existing) [];
          stale ← range_map rest;
          removeStale c basePath stale ;;?
          okR missing
      end).

Definition getProjectID c (projectName : string) : io (result Z) :=
  resp ←? do_ c "GET" ("/api/v2.0/projects/" +:+ PathEscape projectName) None;
  deferClose resp (
    if bool_decide (StatusCode resp ≠ StatusOK)
    then errR (unexpectedStatus "getting Harbor project" resp)
    else match Decode_projectID (Body resp) with
         | Err e => errR (WrapError "decoding Harbor project response" e)
         | Ok id => okR id
         end).

(** The full name Harbor gives a project robot. *)
Definition robotFullName (projectName robotName : string) : string :=
  "robot$" +:+ projectName +:+ "+" +:+ robotName.

Definition robotQuery (projectID : Z) (projectName robotName : string) : string :=
  "Level=project,ProjectID=" +:+ pretty projectID +:+ ",name=~" +:+ projectName +:+ "+" +:+ robotName.

Definition findRobot c (projectName robotName : string) : io (result (option robotRef)) :=
  projectID ←? getProjectID c projectName;
  let q := robotQuery projectID projectName robotName in
  let path := robotsPath +:+ "?q=" +:+ QueryEscape (QueryEscape q) in
  resp ←? do_ c "GET" path None;
  deferClose resp (
    if bool_decide (StatusCode resp ≠ StatusOK)
    then errR (unexpectedStatus "listing Harbor robots" resp)
    else match Decode_robots (Body resp) with
         | Err e => errR (WrapError "decoding Harbor robots response" e)
         | Ok robots =>
             okR (List.find (fun r => bool_decide (Robot_Name r = robotFullName projectName robotName)) robots)
         end).

Definition createRobotBody (projectName robotName : string) : json :=
  JObject [("name", JString robotName); ("duration", JInt (-1)); ("level", JString "project");
    ("permissions", JArray [JObject [("kind", JString "project"); ("namespace", JString projectName);
      ("access", JArray
        [JObject [("resource", JString "repository"); ("action", JString "pull")];
         JObject [("resource", JString "repository"); ("action", JString "push")]])]])].

Definition createRobot c (projectName robotName : string) : io (result (option RobotCredentials)) :=
  resp ←? wrap "creating Harbor robot account"
            (doJSON c "POST" robotsPath (createRobotBody projectName robotName));
  deferClose resp (
    if bool_decide (StatusCode resp = StatusCreated) then
      match Decode_createdRobot (Body resp) with
      | Err e => errR (WrapError "decoding Harbor robot response" e)
      | Ok result =>
          if bool_decide (Creds_Secret result = "")
          then errR (ErrorString "creating Harbor robot account: Harbor returned an empty secret")
          else okR (Some result)
      end
    else if bool_decide (StatusCode resp = StatusConflict) then okR None
    else errR (unexpectedStatus "creating Harbor robot account" resp)).

Definition httpEnsureRobot c (projectName robotName : string) : io (result (option RobotCredentials)) :=
  existing ←? wrap "checking Harbor robot existence" (findRobot c projectName robotName);
  match existing with
  | Some _ => okR None
  | None => createRobot c projectName robotName
  end.

Definition deleteRobot c (robotID : Z) : io (result unit) :=
  let path := robotsPath +:+ "/" +:+ pretty robotID in
  resp ←? wrap "deleting Harbor robot account" (do_ c "DELETE" path None);
  deferClose resp (
    if bool_decide (StatusCode resp ≠ StatusOK) && bool_decide (StatusCode resp ≠ StatusNotFound)
    then errR (unexpectedStatus "deleting Harbor robot account" resp)
    else okR tt).

Definition httpRefreshRobotSecret c (projectName robotName : string) : io (result RobotCredentials) :=
  existing ←? wrap "finding Harbor robot to refresh" (findRobot c projectName robotName);
  match existing with
  | None => errR (ErrorString ("refreshing Harbor robot secret: robot " +:+ Quote robotName +:+
                               " does not exist in project " +:+ Quote projectName))
  | Some existing =>
      deleteRobot c (Robot_ID existing) ;;?
      creds ←? wrap "re-creating Harbor robot after delete" (createRobot c projectName robotName);
      match creds with
      | None => errR (ErrorString ("refreshing Harbor robot secret: robot " +:+ Quote robotName +:+
                        " in project " +:+ Quote projectName +:+ " was re-created concurrently"))
      | Some creds => okR creds
      end
  end.

Definition NewClient (baseURL username password : string) : HarborClient :=
  let c := mkHttpClient (TrimRight baseURL ["/"%char]) username password in
  mkHarborClient (httpEnsureProject c) (httpReconcileProjectMembers c) (httpEnsureRobot c)
    (httpRefreshRobotSecret c).
End client.

(** ** The client never touches the cluster *)

(** What the workspace syncs rely on of a Harbor client, real or fake: its
    operations write no object of the cluster. *)
Class QuietClient (hc : HarborClient) : Prop := {
  EnsureProject_quiet p : emits quiet (EnsureProject hc p);
  ReconcileProjectMembers_quiet p ms : emits quiet (ReconcileProjectMembers hc p ms);
  EnsureRobot_quiet p n : emits quiet (EnsureRobot hc p n);
  RefreshRobotSecret_quiet p n : emits quiet (RefreshRobotSecret hc p n);
}.

#[export] Hint Resolve EnsureProject_quiet ReconcileProjectMembers_quiet EnsureRobot_quiet
  RefreshRobotSecret_quiet : progs.

Section quiet.
Context {NL : NetLib}.
Implicit Types (c : httpClient).

Lemma deferClose_quiet {A} resp (p : io A) : emits quiet p → emits quiet (deferClose resp p).
Proof.
  intros Hp. apply emits_bind; [done|]. intros a. apply emits_bind; [|done].
  intros x. split; [by intros ?? []|done].
Qed.

Lemma do_quiet c method path body : emits quiet (do_ c method path body).
Proof.
  unfold do_. destruct (NewRequest_error _ _); [done|].
  apply emits_trigger. by intros ???[].
Qed.

Lemma range_map_quiet {V} (m : gmap string V) : emits quiet (range_map m).
Proof. intros x. split; [by intros ?? []|done]. Qed.

#[local] Hint Resolve deferClose_quiet do_quiet range_map_quiet : progs.
#[local] Hint Unfold doJSON : progs.
#[local] Hint Extern 2 (emits quiet (deferClose _ _)) => apply deferClose_quiet; repeat case_match : progs.

Lemma addProjectMember_quiet c path user role : emits quiet (addProjectMember c path user role).
Proof. unfold addProjectMember, doJSON. eauto with progs. Qed.
Lemma updateProjectMember_quiet c path id role : emits quiet (updateProjectMember c path id role).
Proof. unfold updateProjectMember, doJSON. eauto with progs. Qed.
Lemma deleteProjectMember_quiet c path id : emits quiet (deleteProjectMember c path id).
Proof. unfold deleteProjectMember. eauto with progs. Qed.
#[local] Hint Resolve addProjectMember_quiet updateProjectMember_quiet deleteProjectMember_quiet : progs.

Lemma syncDesired_quiet c path desired existing missing :
  emits quiet (syncDesired c path desired existing missing).
Proof.
  revert existing missing. induction desired as [|d desired IH]; intros existing missing; simpl; [done|].
  destruct (existing !! _) as [cur|].
  - apply emits_bindR; [case_bool_decide; eauto with progs|done].
  - apply emits_bind; [eauto with progs|]. intros [|e]; [done|]. by destruct (IsErrUserNotFound e).
Qed.

Lemma members_quiet c project desired : emits quiet (httpReconcileProjectMembers c project desired).
Proof.
  unfold httpReconcileProjectMembers. apply emits_bindR; [eauto with progs|]. intros resp.
  apply deferClose_quiet. repeat case_match; try done.
  apply emits_bindR; [apply syncDesired_quiet|]. intros [rest missing].
  apply emits_bind; [eauto with progs|]. intros stale.
  apply emits_bindR; [|done]. apply emits_forR. intros x. eauto with progs.
Qed.

Lemma findRobot_quiet c project robot : emits quiet (findRobot c project robot).
Proof.
  unfold findRobot. apply emits_bindR; [unfold getProjectID; eauto with progs|].
  intros id. eauto with progs.
Qed.
Lemma createRobot_quiet c project robot : emits quiet (createRobot c project robot).
Proof. unfold createRobot, doJSON. eauto with progs. Qed.
#[local] Hint Resolve findRobot_quiet createRobot_quiet : progs.

#[export] Instance NewClient_quiet url user password : QuietClient (NewClient url user password).
Proof.
  split; simpl.
  - intros p. unfold httpEnsureProject, projectExists, doJSON. apply emits_bindR; [eauto with progs|].
    intros []; eauto with progs.
  - apply members_quiet.
  - intros p n. unfold httpEnsureRobot. apply emits_bindR; [eauto with progs|].
    intros []; eauto with progs.
  - intros p n. unfold httpRefreshRobotSecret, deleteRobot. apply emits_bindR; [eauto with progs|].
    intros [existing|]; [|done]. apply emits_bindR; [eauto with progs|]. intros _.
    apply emits_bindR; [eauto with progs|]. by intros [].
Qed.
End quiet.
