(* ===== verification/HarborRobots.v ===== *)
(** Properties of the Harbor client of internal/harbor/client.go that hold on
    every run, whatever Harbor answers: no response body is left open, a robot's
    credentials are never handed out without a secret, and only the project's own
    robot is ever deleted. *)
From S2P Require Import Prelude Errors Prog GoStd Api Effects Fakes Harbor.

(** ** Response bodies *)

(** The response an event opened. *)
Definition opened1 (o : obs sysE) : option Response :=
  match o with
  | Obs e x =>
      match e in sysE X return X → option Response with
      | HttpDo _ => fun a => match a with Ok resp => Some resp | Err _ => None end
      | _ => fun _ => None
      end x
  end.

(** The response an event closed. *)
Definition closed1 (o : obs sysE) : option Response :=
  match o with
  | Obs e _ => match e with BodyClose resp => Some resp | _ => None end
  end.

Definition opened (tr : trace) : list Response := omap opened1 tr.
Definition closed (tr : trace) : list Response := omap closed1 tr.

Section bodies.
Context {NL : NetLib}.
Implicit Types (c : httpClient).

(** Every body opened is closed, exactly once. *)
Definition balanced {A} (p : io A) : Prop :=
  ∀ tr a, runs p tr a → opened tr ≡ₚ closed tr.

Lemma opened_app tr1 tr2 : opened (tr1 ++ tr2) = opened tr1 ++ opened tr2.
Proof. apply omap_app. Qed.
Lemma closed_app tr1 tr2 : closed (tr1 ++ tr2) = closed tr1 ++ closed tr2.
Proof. apply omap_app. Qed.

Lemma balanced_ret {A} (a : A) : balanced (Ret a).
Proof. by intros tr b [-> _]. Qed.

Lemma balanced_bind {A B} (p : io A) (f : A → io B) :
  balanced p → (∀ a, balanced (f a)) → balanced (p ≫= f).
Proof.
  intros Hp Hf tr b (tr1 & tr2 & a & -> & H1 & H2)%runs_bind. rewrite opened_app, closed_app.
  by rewrite (Hp _ _ H1), (Hf _ _ _ H2).
Qed.

Lemma balanced_bindR {A B} (p : io (result A)) (f : A → io (result B)) :
  balanced p → (∀ a, balanced (f a)) → balanced (bindR p f).
Proof. intros Hp Hf. apply balanced_bind; [done|]. intros [a|e]; [done|apply balanced_ret]. Qed.

Lemma balanced_wrap {A} s (p : io (result A)) : balanced p → balanced (wrap s p).
Proof. intros Hp. apply balanced_bind; [done|]. intros. apply balanced_ret. Qed.

Lemma balanced_forR {A} (f : A → io (result unit)) l :
  (∀ x, balanced (f x)) → balanced (forR f l).
Proof. intros Hf. induction l; [apply balanced_ret|]. by apply balanced_bindR. Qed.

Lemma balanced_range {V} (m : gmap string V) : balanced (range_map m).
Proof. by intros tr l (? & ? & o & -> & ->%runs_trigger & -> & _)%runs_bind. Qed.

(** The pattern of the client: one exchange, its body closed after the rest. *)
Lemma balanced_exchange {B} s c method path body (f : Response → io (result B)) :
  (∀ resp, balanced (f resp)) →
  balanced (resp ←? wrap s (do_ c method path body); deferClose resp (f resp)) ∧
  balanced (resp ←? do_ c method path body; deferClose resp (f resp)).
Proof.
  intros Hf.
  assert (∀ tr a, runs (do_ c method path body) tr a →
    opened tr = match a with Ok resp => [resp] | Err _ => [] end ∧ closed tr = []) as Hdo.
  { unfold do_. destruct (NewRequest_error _ _); [by intros tr a [-> ->]|].
    intros tr a ->%runs_trigger. by destruct a. }
  assert (∀ resp tr a, runs (deferClose resp (f resp)) tr a → resp :: opened tr ≡ₚ closed tr) as Hclose.
  { intros resp tr a (tr1 & ? & x & -> & Hx & (? & ? & [] & -> & ->%runs_trigger & -> & ->)%runs_bind)%runs_bind.
    rewrite opened_app, closed_app. simpl. rewrite (Hf _ _ _ Hx), app_nil_r.
    change (closed [Obs (BodyClose resp) ()]) with [resp]. by rewrite Permutation_app_comm. }
  split; intros tr r (tr1 & tr2 & x & -> & Hx & Hr)%runs_bindR_match.
  - apply runs_wrap in Hx as (x' & Hx & ->). apply Hdo in Hx as [Ho Hc].
    rewrite opened_app, closed_app, Ho, Hc. destruct x'; [by apply Hclose in Hr|by destruct Hr as [-> _]].
  - apply Hdo in Hx as [Ho Hc]. rewrite opened_app, closed_app, Ho, Hc.
    destruct x; [by apply Hclose in Hr|by destruct Hr as [-> _]].
Qed.

Lemma balanced_direct {B} c method path body (f : Response → io (result B)) :
  (∀ resp, balanced (f resp)) →
  balanced (resp ←? do_ c method path body; deferClose resp (f resp)).
Proof. intros Hf. by apply (balanced_exchange ""). Qed.

Lemma balanced_wrapped {B} s c method path body (f : Response → io (result B)) :
  (∀ resp, balanced (f resp)) →
  balanced (resp ←? wrap s (do_ c method path body); deferClose resp (f resp)).
Proof. intros Hf. by apply (balanced_exchange s). Qed.

Ltac balance :=
  repeat first
    [ apply balanced_direct; intros ? | apply balanced_wrapped; intros ? | apply balanced_bindR; [|intros ?] | apply balanced_wrap
    | apply balanced_ret | case_bool_decide | case_match ].

Lemma balanced_findRobot c project robot : balanced (findRobot c project robot).
Proof. unfold findRobot, getProjectID. balance. Qed.

Lemma balanced_createRobot c project robot : balanced (createRobot c project robot).
Proof. unfold createRobot, doJSON. balance. Qed.

Lemma balanced_syncDesired c path desired existing missing :
  balanced (syncDesired c path desired existing missing).
Proof.
  revert existing missing. induction desired as [|d desired IH]; intros existing missing; simpl;
    [apply balanced_ret|].
  destruct (existing !! _) as [cur|].
  - apply balanced_bindR; [|done]. unfold updateProjectMember, doJSON. balance.
  - apply balanced_bind; [unfold addProjectMember, doJSON; balance|]. intros [u|e]; [done|].
    destruct (IsErrUserNotFound e); [done|apply balanced_ret].
Qed.

(** Nothing leaks: on every run of every operation of the client, on the error
    paths and however the loops interleave with the listing's body, the bodies
    closed are exactly the bodies received. *)
Theorem client_closes_bodies url name secret :
  let hc := NewClient url name secret in
  (∀ p, balanced (EnsureProject hc p)) ∧
  (∀ p ms, balanced (ReconcileProjectMembers hc p ms)) ∧
  (∀ p n, balanced (EnsureRobot hc p n)) ∧
  (∀ p n, balanced (RefreshRobotSecret hc p n)).
Proof.
  simpl. split_and!.
  - intros p. unfold httpEnsureProject, projectExists, doJSON. balance.
  - intros p ms. unfold httpReconcileProjectMembers. balance.
    + apply balanced_syncDesired.
    + apply balanced_bind; [apply balanced_range|]. intros stale.
      apply balanced_bindR; [|intros; apply balanced_ret]. apply balanced_forR. intros x.
      unfold deleteProjectMember. balance.
  - intros p n. unfold httpEnsureRobot. apply balanced_bindR; [apply balanced_wrap, balanced_findRobot|].
    intros []; [apply balanced_ret|apply balanced_createRobot].
  - intros p n. unfold httpRefreshRobotSecret, deleteRobot.
    apply balanced_bindR; [apply balanced_wrap, balanced_findRobot|]. intros [x|]; [|apply balanced_ret].
    apply balanced_bindR; [balance|]. intros _.
    apply balanced_bindR; [apply balanced_wrap, balanced_createRobot|]. intros []; apply balanced_ret.
Qed.
End bodies.

(** ** Robots *)

Definition request1 (o : obs sysE) : option Request :=
  match o with Obs e _ => match e with HttpDo r => Some r | _ => None end end.

(** The requests of a run, in order, and their methods. *)
Definition requests (tr : trace) : list Request := omap request1 tr.
Definition methods (tr : trace) : list string := Req_Method <$> requests tr.

Section robots.
Context {NL : NetLib}.
Implicit Types (c : httpClient).

Definition requestOf c (method path : string) (body : option string) : Request :=
  mkRequest method (client_baseURL c +:+ path) (client_username c, client_password c)
    (if body then Some "application/json" else None) body.

(** A failed exchange: at most the one request, no response. *)
Definition no_response c method path body (tr : trace) : Prop :=
  tr = [] ∨ ∃ e, tr = [Obs (HttpDo (requestOf c method path body)) (Err e)].

Lemma exchange_runs {B} c method path body (f : Response → io (result B)) tr r :
  runs (resp ←? do_ c method path body; deferClose resp (f resp)) tr r →
  (∃ e, r = Err e ∧ no_response c method path body tr) ∨
  ∃ resp tr', tr = Obs (HttpDo (requestOf c method path body)) (Ok resp) :: tr' ++ [Obs (BodyClose resp) tt] ∧
    runs (f resp) tr' r.
Proof.
  intros (tr1 & tr2 & x & -> & Hx & Hr)%runs_bindR_match. unfold do_ in Hx.
  destruct (NewRequest_error _ _).
  - destruct Hx as [-> ->]. destruct Hr as [-> ->]. left. eexists. split; [done|by left].
  - apply runs_trigger in Hx as ->. destruct x as [resp|e].
    + apply runs_bind in Hr as (tr3 & ? & a & -> & Hf & (? & ? & [] & -> & ->%runs_trigger & -> & ->)%runs_bind).
      right. by exists resp, tr3.
    + destruct Hr as [-> ->]. left. eexists. split; [done|]. right. by exists e.
Qed.

(** The same with the transport's error wrapped. *)
Lemma exchange_wrapped_runs {B} s c method path body (f : Response → io (result B)) tr r :
  runs (resp ←? wrap s (do_ c method path body); deferClose resp (f resp)) tr r →
  (∃ e, r = Err e ∧ no_response c method path body tr) ∨
  ∃ resp tr', tr = Obs (HttpDo (requestOf c method path body)) (Ok resp) :: tr' ++ [Obs (BodyClose resp) tt] ∧
    runs (f resp) tr' r.
Proof.
  intros (tr1 & tr2 & x & -> & (x' & Hx & ->)%runs_wrap & Hr)%runs_bindR_match.
  destruct x' as [resp|e]; simpl in Hr.
  - apply exchange_runs. apply runs_bindR_match. by exists tr1, tr2, (Ok resp).
  - destruct Hr as [-> ->]. destruct (exchange_runs c method path body f (tr1 ++ []) (Err e)) as [(e' & _ & H)|H].
    + apply runs_bindR_match. by exists tr1, [], (Err e).
    + left. by eexists.
    + destruct H as (resp & tr' & Htr & _). left. eexists. split; [done|]. exfalso.
      rewrite app_nil_r in Htr. unfold do_ in Hx. destruct (NewRequest_error _ _); [by destruct Hx as [-> _]|].
      apply runs_trigger in Hx as ->. apply (f_equal tail) in Htr. by destruct tr'.
Qed.

Lemma no_response_requests c method path body tr :
  no_response c method path body tr →
  opened tr = [] ∧ (requests tr = [] ∨ requests tr = [requestOf c method path body]).
Proof. intros [->|[e ->]]; (split; [done|]); [by left|by right]. Qed.

Lemma requests_app tr1 tr2 : requests (tr1 ++ tr2) = requests tr1 ++ requests tr2.
Proof. apply omap_app. Qed.

(** A request and its answer, the body closed. *)
Definition exchange (q : Request) (resp : Response) : trace :=
  [Obs (HttpDo q) (Ok resp); Obs (BodyClose resp) tt].

(** The requests of the robot endpoints. *)
Definition projectRequest c (project : string) : Request :=
  requestOf c "GET" ("/api/v2.0/projects/" +:+ PathEscape project) None.

Definition listRobotsRequest c (id : Z) (project robot : string) : Request :=
  requestOf c "GET" (robotsPath +:+ "?q=" +:+ QueryEscape (QueryEscape (robotQuery id project robot))) None.

Definition deleteRobotRequest c (id : Z) : Request :=
  requestOf c "DELETE" (robotsPath +:+ "/" +:+ pretty id) None.

Definition createRobotRequest c (project robot : string) : Request :=
  requestOf c "POST" robotsPath (Some (json_Marshal (createRobotBody project robot))).

(** This very request was answered with the status. *)
Definition answered (tr : trace) (q : Request) (status : Z) : Prop :=
  ∃ resp, Obs (HttpDo q) (Ok resp) ∈ tr ∧ StatusCode resp = status.

Lemma answered_app tr1 tr2 q status :
  answered (tr1 ++ tr2) q status ↔ answered tr1 q status ∨ answered tr2 q status.
Proof. unfold answered. setoid_rewrite elem_of_app. naive_solver. Qed.

Lemma answered_exchange q resp : answered (exchange q resp) q (StatusCode resp).
Proof. exists resp. split; [by left|done]. Qed.

(** The answer shows the robot, or that there is none, under its full name. *)
Definition shows project robot (resp : Response) (found : option robotRef) : Prop :=
  StatusCode resp = StatusOK ∧ ∃ robots, Decode_robots (Body resp) = Ok robots ∧
    match found with
    | Some ref => ref ∈ robots ∧ Robot_Name ref = robotFullName project robot
    | None => ∀ ref, ref ∈ robots → Robot_Name ref ≠ robotFullName project robot
    end.

(** The look-up of a robot: the project's ID, then its robots of that name. *)
Definition looked_up c project robot (tr : trace) (found : option robotRef) : Prop :=
  ∃ lookup listing id,
    tr = exchange (projectRequest c project) lookup ++ exchange (listRobotsRequest c id project robot) listing ∧
    StatusCode lookup = StatusOK ∧ Decode_projectID (Body lookup) = Ok id ∧
    shows project robot listing found.

Lemma findRobot_runs c project robot tr r :
  runs (findRobot c project robot) tr r →
  match r with
  | Ok found => methods tr = ["GET"; "GET"] ∧ looked_up c project robot tr found
  | Err _ => methods tr `prefix_of` ["GET"; "GET"]
  end.
Proof.
  unfold findRobot. intros (tr1 & tr2 & x & -> & Hx & Hr)%runs_bindR_match.
  unfold methods. rewrite requests_app.
  apply exchange_runs in Hx as [(e & -> & [_ Hn]%no_response_requests)|(resp & tr' & -> & Hx)].
  { destruct Hr as [-> ->]. destruct Hn as [-> | ->]; [by exists ["GET"; "GET"]|by exists ["GET"]]. }
  assert (tr' = [] ∧ ∀ id, x = Ok id → StatusCode resp = StatusOK ∧ Decode_projectID (Body resp) = Ok id)
    as [-> Hid].
  { case_bool_decide as Hst; [by destruct Hx as [-> ->]|].
    destruct (Decode_projectID _); destruct Hx as [-> ->]; (split; [done|]); [by intros ? [= <-]|done]. }
  change (requests (Obs (HttpDo ?q) ?x :: [] ++ [Obs (BodyClose ?y) ()])) with [q].
  destruct x as [id|e]; [|destruct Hr as [-> ->]; by exists ["GET"]].
  destruct (Hid id eq_refl) as [Hst Hd].
  apply exchange_runs in Hr as [(e & -> & [_ Hn]%no_response_requests)|(resp2 & tr' & -> & Hr)].
  { destruct Hn as [-> | ->]; [by exists ["GET"]|by exists []]. }
  case_bool_decide as Hst2; [destruct Hr as [-> ->]; by exists []|].
  destruct (Decode_robots (Body resp2)) as [robots|e] eqn:Hd2; [|destruct Hr as [-> ->]; by exists []].
  destruct Hr as [-> ->]. split; [done|]. exists resp, resp2, id. split_and!; [done..|].
  split; [done|]. exists robots. split; [done|]. destruct (List.find _ robots) as [ref|] eqn:Hf.
  - apply find_some in Hf as [Hin Hn]. rewrite list_elem_of_In. by case_bool_decide.
  - intros ref Hin. rewrite list_elem_of_In in Hin. apply (find_none _ _ Hf) in Hin. by case_bool_decide.
Qed.

(** Creating a robot: what each answer to the request means. *)
Lemma createRobot_runs c project robot tr r :
  runs (createRobot c project robot) tr r →
  (requests tr = [] ∨ requests tr = [createRobotRequest c project robot]) ∧
  match r with
  | Ok creds => ∃ resp, tr = exchange (createRobotRequest c project robot) resp ∧
      match creds with
      | Some creds => StatusCode resp = StatusCreated ∧ Decode_createdRobot (Body resp) = Ok creds ∧
          Creds_Secret creds ≠ ""
      | None => StatusCode resp = StatusConflict
      end
  | Err _ => True
  end.
Proof.
  intros [(e & -> & [_ Hn]%no_response_requests)|(resp & tr' & -> & Hr)]%exchange_wrapped_runs; [done|].
  assert (tr' = [] ∧ match r with
    | Ok (Some creds) => StatusCode resp = StatusCreated ∧ Decode_createdRobot (Body resp) = Ok creds ∧
        Creds_Secret creds ≠ ""
    | Ok None => StatusCode resp = StatusConflict
    | Err _ => True
    end) as [-> Hres].
  { case_bool_decide; [|case_bool_decide; by destruct Hr as [-> ->]].
    destruct (Decode_createdRobot _) eqn:Hd; [case_bool_decide|]; by destruct Hr as [-> ->]. }
  split; [by right|]. destruct r as [creds|e]; [|done]. exists resp. split; [done|].
  by destruct creds.
Qed.

Lemma deleteRobot_runs c id tr r :
  runs (deleteRobot c id) tr r →
  match r with
  | Ok _ => ∃ resp, tr = exchange (deleteRobotRequest c id) resp ∧
      (StatusCode resp = StatusOK ∨ StatusCode resp = StatusNotFound)
  | Err _ => requests tr = [] ∨ requests tr = [deleteRobotRequest c id]
  end.
Proof.
  intros [(e & -> & [_ Hn]%no_response_requests)|(resp & tr' & -> & Hr)]%exchange_wrapped_runs; [done|].
  destruct (bool_decide (StatusCode resp ≠ StatusOK) && bool_decide (StatusCode resp ≠ StatusNotFound)) eqn:Hs;
    destruct Hr as [-> ->]; [by right|]. exists resp. split; [done|].
  apply andb_false_iff in Hs as [Hs|Hs]; apply bool_decide_eq_false, dec_stable in Hs; auto.
Qed.

Lemma methods_app tr1 tr2 : methods (tr1 ++ tr2) = methods tr1 ++ methods tr2.
Proof. unfold methods. by rewrite requests_app, fmap_app. Qed.

Lemma created_methods c project robot tr :
  requests tr = [] ∨ requests tr = [createRobotRequest c project robot] → methods tr `prefix_of` ["POST"].
Proof. unfold methods. intros [-> | ->]; [by exists ["POST"]|by exists []]. Qed.

(** EnsureRobot on every run: it lists before it creates, deletes nothing, and
    sends nothing else.  Credentials come only from a robot just created (the
    listing did not have it, Harbor answered 201 to the creation) and always
    carry a secret; no credentials means that the project's own robot was there,
    by its exact full name, or that somebody created it in between (409). *)
Theorem EnsureRobot_correct c project robot tr r :
  runs (httpEnsureRobot c project robot) tr r →
  methods tr `prefix_of` ["GET"; "GET"; "POST"] ∧
  match r with
  | Ok creds => ∃ tr1 found, looked_up c project robot tr1 found ∧
      match found with
      | Some _ => creds = None ∧ tr = tr1
      | None => ∃ resp, tr = tr1 ++ exchange (createRobotRequest c project robot) resp ∧
          match creds with
          | Some creds => StatusCode resp = StatusCreated ∧ Decode_createdRobot (Body resp) = Ok creds ∧
              Creds_Secret creds ≠ ""
          | None => StatusCode resp = StatusConflict
          end
      end
  | Err _ => True
  end.
Proof.
  unfold httpEnsureRobot. intros (tr1 & tr2 & x & -> & (x' & Hf%findRobot_runs & ->)%runs_wrap & Hr)%runs_bindR_match.
  rewrite methods_app. destruct x' as [[ref|]|e]; simpl in Hr.
  - destruct Hf as [-> Hl], Hr as [-> ->]. split; [by exists ["POST"]|]. exists tr1, (Some ref).
    by rewrite app_nil_r.
  - destruct Hf as [-> Hl]. apply createRobot_runs in Hr as [Hq%created_methods Hr].
    split; [by apply (prefix_app ["GET"; "GET"])|]. destruct r as [creds|e]; [|done].
    destruct Hr as (resp & -> & Hr). exists tr1, None. split; [done|]. by exists resp.
  - destruct Hr as [-> ->]. split; [|done]. rewrite app_nil_r. etrans; [exact Hf|]. by exists ["POST"].
Qed.

(** Looking for the robot sends neither a deletion nor a creation. *)
Lemma findRobot_reads c project robot tr r q :
  runs (findRobot c project robot) tr r → q ∈ requests tr → Req_Method q = "GET".
Proof.
  intros Hf%findRobot_runs Hq%(list_elem_of_fmap_2 Req_Method).
  assert (methods tr `prefix_of` ["GET"; "GET"]) as Hp by (destruct r; [by destruct Hf as [-> _]|done]).
  pose proof (elem_of_prefix _ _ _ Hq Hp) as Hin. set_solver.
Qed.

Lemma deleteRobot_requests c id tr r q :
  runs (deleteRobot c id) tr r → q ∈ requests tr → q = deleteRobotRequest c id.
Proof.
  intros Hd%deleteRobot_runs Hq. destruct r as [u|e]; [destruct Hd as (resp & -> & _); set_solver|].
  destruct Hd as [Hd|Hd]; rewrite Hd in Hq; set_solver.
Qed.

Lemma createRobot_requests c project robot tr r q :
  runs (createRobot c project robot) tr r → q ∈ requests tr → q = createRobotRequest c project robot.
Proof. intros [[Hd|Hd] _]%createRobot_runs Hq; rewrite Hd in Hq; set_solver. Qed.

(** What Refresh does once the robot is found. *)
Definition replaceRobot c project robot (ref : robotRef) : io (result RobotCredentials) :=
  deleteRobot c (Robot_ID ref) ;;?
  creds ←? wrap "re-creating Harbor robot after delete" (createRobot c project robot);
  match creds with
  | None => errR (ErrorString ("refreshing Harbor robot secret: robot " +:+ Quote robot +:+
                    " in project " +:+ Quote project +:+ " was re-created concurrently"))
  | Some creds => okR creds
  end.

(** The deletion is confirmed, by its own answer, before the creation is sent. *)
Lemma replaceRobot_runs c project robot ref tr r :
  runs (replaceRobot c project robot ref) tr r →
  methods tr `prefix_of` ["DELETE"; "POST"] ∧
  (∀ q, q ∈ requests tr → q = deleteRobotRequest c (Robot_ID ref) ∨ q = createRobotRequest c project robot) ∧
  (createRobotRequest c project robot ∈ requests tr →
     answered tr (deleteRobotRequest c (Robot_ID ref)) StatusOK ∨
     answered tr (deleteRobotRequest c (Robot_ID ref)) StatusNotFound) ∧
  match r with
  | Ok creds => ∃ deletion creation,
      tr = exchange (deleteRobotRequest c (Robot_ID ref)) deletion ++
           exchange (createRobotRequest c project robot) creation ∧
      (StatusCode deletion = StatusOK ∨ StatusCode deletion = StatusNotFound) ∧
      StatusCode creation = StatusCreated ∧ Decode_createdRobot (Body creation) = Ok creds ∧
      Creds_Secret creds ≠ ""
  | Err _ => True
  end.
Proof.
  intros (tr1 & tr2 & y & -> & Hd & Hr)%runs_bindR_match.
  pose proof (fun q => deleteRobot_requests _ _ _ _ q Hd) as Hdel. apply deleteRobot_runs in Hd.
  destruct y as [u|e]; simpl in Hr.
  2:{ destruct Hr as [-> ->]. rewrite app_nil_r. split_and!; [|by left; apply Hdel|by intros Hq%Hdel|done].
      unfold methods. destruct Hd as [-> | ->]; [by exists ["DELETE"; "POST"]|by exists ["POST"]]. }
  destruct Hd as (deletion & -> & Hst).
  apply runs_bindR_match in Hr as (tr3 & tr4 & z & -> & (z' & Hc & ->)%runs_wrap & Hr).
  pose proof (fun q => createRobot_requests _ _ _ _ _ q Hc) as Hcre. apply createRobot_runs in Hc as [Hq Hc].
  assert (tr4 = [] ∧ match z' with Ok (Some creds) => r = Ok creds | _ => is_Ok r = false end) as [-> Hres].
  { by destruct z' as [[creds|]|e]; simpl in Hr; destruct Hr as [-> ->]. }
  rewrite app_nil_r, requests_app, methods_app. split_and!.
  - apply created_methods in Hq. by apply (prefix_app ["DELETE"]).
  - intros q [Hin|Hin]%elem_of_app; [left; by apply Hdel|right; by apply Hcre].
  - intros _. setoid_rewrite answered_app.
    destruct Hst as [Hst|Hst]; [left|right]; left; rewrite <-Hst; apply answered_exchange.
  - destruct z' as [[creds|]|e]; [subst r|by destruct r..].
    destruct Hc as (creation & -> & H1 & H2 & H3). by exists deletion, creation.
Qed.

(** C23. RefreshRobotSecret on every run, whatever Harbor answers: the requests it
    sends are, in this order, a prefix of look up the project, list the robots,
    delete, create.  A deletion is of the robot the listing (itself answered
    200) showed under exactly this project's full robot name, and is sent at
    most once; the creation is sent only after the answer to that deletion,
    not some other answer, was 200, or 404: already gone.  Credentials are
    those of the creation's own 201 answer and carry a non-empty secret; a
    concurrent re-creation (409) is an error, never success without a secret. *)
Theorem RefreshRobotSecret_correct c project robot tr r :
  runs (httpRefreshRobotSecret c project robot) tr r →
  methods tr `prefix_of` ["GET"; "GET"; "DELETE"; "POST"] ∧
  (∀ q, q ∈ requests tr → Req_Method q ≠ "GET" →
     ∃ tr1 tr2 ref, tr = tr1 ++ tr2 ∧ looked_up c project robot tr1 (Some ref) ∧
       (q = deleteRobotRequest c (Robot_ID ref) ∨
        q = createRobotRequest c project robot ∧
          (answered tr2 (deleteRobotRequest c (Robot_ID ref)) StatusOK ∨
           answered tr2 (deleteRobotRequest c (Robot_ID ref)) StatusNotFound))) ∧
  match r with
  | Ok creds => ∃ tr1 ref deletion creation, looked_up c project robot tr1 (Some ref) ∧
      tr = tr1 ++ exchange (deleteRobotRequest c (Robot_ID ref)) deletion ++
           exchange (createRobotRequest c project robot) creation ∧
      (StatusCode deletion = StatusOK ∨ StatusCode deletion = StatusNotFound) ∧
      StatusCode creation = StatusCreated ∧ Decode_createdRobot (Body creation) = Ok creds ∧
      Creds_Secret creds ≠ ""
  | Err _ => True
  end.
Proof.
  unfold httpRefreshRobotSecret.
  intros (tr1 & tr2 & x & -> & (x' & Hf & ->)%runs_wrap & Hr)%runs_bindR_match.
  pose proof (fun q => findRobot_reads _ _ _ _ _ q Hf) as Hget. apply findRobot_runs in Hf.
  destruct x' as [[ref|]|e]; simpl in Hr.
  2,3: destruct Hr as [-> ->]; rewrite app_nil_r; split_and!; [|by intros q Hq%Hget|done].
  2: destruct Hf as [-> _]; by exists ["DELETE"; "POST"].
  2: etrans; [exact Hf|]; by exists ["DELETE"; "POST"].
  destruct Hf as [Hm Hl]. apply replaceRobot_runs in Hr as (Hp & Hq & Ha & Hok).
  rewrite methods_app, Hm, requests_app. split_and!.
  - by apply (prefix_app ["GET"; "GET"]).
  - intros q Hin Hng. apply elem_of_app in Hin as [Hin|Hin]; [by destruct Hng; apply Hget|].
    exists tr1, tr2, ref. split_and!; [done..|].
    destruct (Hq q Hin) as [->| ->]; [by left|right]. split; [done|by apply Ha].
  - destruct r as [creds|e]; [|done]. destruct Hok as (deletion & creation & -> & H).
    by exists tr1, ref, deletion, creation.
Qed.
End robots.
