(* ===== verification/HarborMembers.v ===== *)
(** The member synchronization of internal/harbor/client.go, against what a
    Harbor server promises.

    [HarborServer] is the interface: the members of one project (an ID and a role
    per user name) and the users Harbor knows, and how the four requests of
    ReconcileProjectMembers act on them, as Harbor's v2.0 API documents.  Harbor
    pages its listings: a GET without page parameters answers with one page, of
    [h_page_size] entries (10, unless the deployment says otherwise) or all of
    them if they are fewer.  The members are users, told apart by their names.
    The laws speak of the user names in [names], those the caller may ask for. *)
From S2P Require Import Prelude Errors Prog GoStd Api Effects Cluster Sync Harbor.

Section requests.
Implicit Types (c : httpClient).

Definition plainRequest c (method path : string) : Request :=
  mkRequest method (client_baseURL c +:+ path) (client_username c, client_password c) None None.
Definition jsonRequest c (method path : string) (body : json) : Request :=
  mkRequest method (client_baseURL c +:+ path) (client_username c, client_password c)
    (Some "application/json") (Some (json_Marshal body)).

Definition listRequest c (project : string) := plainRequest c "GET" (membersPath project).
Definition addRequest c (project user : string) (role : Z) := jsonRequest c "POST" (membersPath project)
  (JObject [("role_id", JInt role); ("member_user", JObject [("username", JString user)])]).
Definition updateRequest c (project : string) (id role : Z) :=
  jsonRequest c "PUT" (membersPath project +:+ "/" +:+ pretty id) (JObject [("role_id", JInt role)]).
Definition deleteRequest c (project : string) (id : Z) :=
  plainRequest c "DELETE" (membersPath project +:+ "/" +:+ pretty id).
End requests.

Definition valid_role (role : Z) : Prop := (RoleProjectAdmin ≤ role ≤ RoleGuest)%Z.

Class HarborServer (W : Type) `{Cluster W} := {
  h_members : W → gmap string (Z * Z);
  h_users : W → gset string;
  h_page_size : nat;
}.
#[global] Arguments h_page_size W {_ _}.

Section server.
Context {NL : NetLib} {W : Type} {CW : Cluster W} {HS : HarborServer W}.

Definition same_project (σ σ' : W) : Prop := h_members σ' = h_members σ ∧ h_users σ' = h_users σ.

(** What answering [POST members] with a status means. *)
Definition added (user : string) (role : Z) (status : Z) (σ σ' : W) : Prop :=
  h_users σ' = h_users σ ∧
  if bool_decide (status = StatusCreated) then
    user ∈ h_users σ ∧ h_members σ !! user = None ∧
    ∃ id, h_members σ' = <[user := (id, role)]> (h_members σ)
  else if bool_decide (status = StatusConflict) then
    is_Some (h_members σ !! user) ∧ h_members σ' = h_members σ
  else if bool_decide (status = StatusNotFound) then
    user ∉ h_users σ ∧ h_members σ' = h_members σ
  else True.

(** Calls that leave the project's members alone: everything but HTTP, reads,
    and the robot endpoints. *)
Definition harmless (c : httpClient) (o : obs sysE) : Prop :=
  match o with
  | Obs e _ =>
      match e with
      | HttpDo r => Req_Method r = "GET" ∨ Req_Method r = "HEAD" ∨
                    HasPrefix (Req_URL r) (client_baseURL c +:+ robotsPath) = true
      | _ => True
      end
  end.

Class HarborLaws (c : httpClient) (project : string) (names : list string) : Prop := {
  h_list σ resp σ' :
    serve _ (HttpDo (listRequest c project)) σ = Some (Ok resp, σ') →
    StatusCode resp = StatusOK → ∀ l, Decode_existingMembers (Body resp) = Ok l →
    NoDup (Existing_Username <$> l) ∧ length l = h_page_size W `min` size (h_members σ) ∧
    ∀ x, x ∈ l → h_members σ !! Existing_Username x = Some (Existing_ID x, Existing_RoleID x);
  h_add user role σ resp σ' :
    user ∈ names → valid_role role →
    serve _ (HttpDo (addRequest c project user role)) σ = Some (Ok resp, σ') →
    added user role (StatusCode resp) σ σ';
  h_update user id old role σ resp σ' :
    h_members σ !! user = Some (id, old) → valid_role role →
    serve _ (HttpDo (updateRequest c project id role)) σ = Some (Ok resp, σ') →
    StatusCode resp = StatusOK →
    h_members σ' = <[user := (id, role)]> (h_members σ) ∧ h_users σ' = h_users σ;
  h_delete user id old σ resp σ' :
    h_members σ !! user = Some (id, old) →
    serve _ (HttpDo (deleteRequest c project id)) σ = Some (Ok resp, σ') →
    StatusCode resp = StatusOK →
    h_members σ' = delete user (h_members σ) ∧ h_users σ' = h_users σ;
  (** members are users *)
  h_members_users σ user x : h_members σ !! user = Some x → user ∈ h_users σ;
  h_frame X (e : sysE X) σ x σ' :
    serve X e σ = Some (x, σ') → harmless c (Obs e x) → same_project σ σ';
}.
End server.

(** ** The four requests *)

Section operations.
Context {NL : NetLib} {HNL : NetLaws}.
Context {W : Type} {CW : Cluster W} {LW : CachedLaws W} {HS : HarborServer W}.
Context (c : httpClient) (project : string) (names : list string).
Context {HL : HarborLaws c project names}.
Implicit Types (σ : W).

#[local] Instance same_project_preorder : PreOrder same_project.
Proof. split; [done|]. unfold same_project. intros σ1 σ2 σ3. intuition congruence. Qed.

Lemma exec_deferClose {A} resp (p : io A) σ a σ' :
  exec (deferClose resp p) σ = Some (a, σ') →
  ∃ σ1, exec p σ = Some (a, σ1) ∧ same_project σ1 σ'.
Proof.
  intros (a1 & σ1 & Hp & (u & σ2 & Hc%exec_trigger & [-> ->]%exec_ret)%exec_bind)%exec_bind.
  exists σ1. split; [done|]. by eapply h_frame.
Qed.

(** A program of harmless calls leaves the members alone. *)
Lemma exec_harmless {A} (p : io A) σ a σ' :
  emits (harmless c) p → exec p σ = Some (a, σ') → same_project σ σ'.
Proof.
  apply (exec_rel same_project). intros X e σ0 x σ1. apply h_frame.
Qed.

Lemma exec_do_plain method path σ r σ' :
  exec (do_ c method path None) σ = Some (Ok r, σ') →
  serve _ (HttpDo (plainRequest c method path)) σ = Some (Ok r, σ').
Proof. unfold do_. destruct (NewRequest_error _ _); [intros Hx; exec_inv|apply exec_trigger]. Qed.

Lemma exec_doJSON method path body σ r σ' :
  exec (doJSON c method path body) σ = Some (Ok r, σ') →
  serve _ (HttpDo (jsonRequest c method path body)) σ = Some (Ok r, σ').
Proof. unfold doJSON, do_. destruct (NewRequest_error _ _); [intros Hx; exec_inv|apply exec_trigger]. Qed.

Lemma do_external method path body σ e σ' :
  exec (do_ c method path body) σ = Some (Err e, σ') → external e.
Proof.
  unfold do_. destruct (NewRequest_error _ _) eqn:Hn.
  - intros Hx. exec_inv. by eapply NewRequest_external.
  - intros Hx%exec_trigger. by eapply serve_http.
Qed.

Lemma external_user_found e : external e → IsErrUserNotFound e = false.
Proof. unfold external, IsErrUserNotFound. by destruct (root_cause e). Qed.

(** Adding a user succeeds with them a member (with the role they had, if they
    were one already); it reports an unknown user only if Harbor has none. *)
Definition add_outcome (user : string) (role : Z) σ (r : result unit) σ' : Prop :=
  match r with
  | Ok _ => h_users σ' = h_users σ ∧
      (user ∈ h_users σ ∧ h_members σ !! user = None ∧
         (∃ id, h_members σ' = <[user := (id, role)]> (h_members σ)) ∨
       is_Some (h_members σ !! user) ∧ h_members σ' = h_members σ)
  | Err e => IsErrUserNotFound e = true → user ∉ h_users σ ∧ same_project σ σ'
  end.

Lemma exec_addProjectMember user role σ r σ' :
  user ∈ names → valid_role role →
  exec (addProjectMember c (membersPath project) user role) σ = Some (r, σ') →
  add_outcome user role σ r σ'.
Proof.
  intros Hu Hrole. unfold addProjectMember.
  intros [(e & He%do_external & ->)|(resp & σ1 & Hs%exec_doJSON & (σ2 & Hx & [Hm2 Hu2])%exec_deferClose)]%exec_bindR.
  { simpl. by rewrite external_user_found. }
  apply h_add in Hs as [Hu1 Hs]; [|done..]. unfold add_outcome, same_project. rewrite Hm2, Hu2.
  repeat (case_bool_decide; simpl in Hx; try by (exec_inv; simpl; intuition eauto)).
Qed.

Lemma exec_updateProjectMember user id old role σ σ' :
  h_members σ !! user = Some (id, old) → valid_role role →
  exec (updateProjectMember c (membersPath project) id role) σ = Some (Ok tt, σ') →
  h_members σ' = <[user := (id, role)]> (h_members σ) ∧ h_users σ' = h_users σ.
Proof.
  intros Hm Hrole. unfold updateProjectMember.
  intros [(e & _ & [=])|(resp & σ1 & Hs%exec_doJSON & (σ2 & Hx & [Hm2 Hu2])%exec_deferClose)]%exec_bindR.
  case_bool_decide as Hst; exec_inv. eapply h_update in Hs as [Hm1 Hu1]; [|done..]. split; congruence.
Qed.

Lemma exec_deleteProjectMember user id old σ σ' :
  h_members σ !! user = Some (id, old) →
  exec (deleteProjectMember c (membersPath project) id) σ = Some (Ok tt, σ') →
  h_members σ' = delete user (h_members σ) ∧ h_users σ' = h_users σ.
Proof.
  intros Hm. unfold deleteProjectMember.
  intros [(e & _ & [=])|(resp & σ1 & Hs%exec_do_plain & (σ2 & Hx & [Hm2 Hu2])%exec_deferClose)]%exec_bindR.
  case_bool_decide as Hst; exec_inv. eapply h_delete in Hs as [Hm1 Hu1]; [|done..]. split; congruence.
Qed.

(** ** The loops *)

Definition role_of σ (user : string) : option Z := snd <$> h_members σ !! user.

(** The role asked for: the first entry of that name decides. *)
Definition wanted (desired : list ProjectMember) (user : string) : option Z :=
  PM_RoleID <$> List.find (fun d => bool_decide (PM_Username d = user)) desired.

Definition askable (desired : list ProjectMember) : Prop :=
  ∀ d, d ∈ desired → PM_Username d ∈ names ∧ valid_role (PM_RoleID d).

(** The lookup table holds current members under their names. *)
Definition table_ok (table : gmap string existingMember) σ : Prop :=
  ∀ u x, table !! u = Some x →
    Existing_Username x = u ∧ h_members σ !! u = Some (Existing_ID x, Existing_RoleID x).

(** The roles after the first loop. *)
Definition synced_role (desired : list ProjectMember) (table : gmap string existingMember) σ u : option Z :=
  match wanted desired u with
  | None => role_of σ u
  | Some role =>
      match table !! u, role_of σ u with
      | Some _, _ => Some role
      | None, Some current => Some current
      | None, None => if decide (u ∈ h_users σ) then Some role else None
      end
  end.

Record synced_desired (desired : list ProjectMember) (table : gmap string existingMember)
    (missing : list string) σ (rest : gmap string existingMember) (missing' : list string) σ' : Prop := {
  md_users : h_users σ' = h_users σ;
  md_missing : missing' = missing ++ filter (fun u => u ∉ h_users σ) (PM_Username <$> desired);
  md_rest u : rest !! u = if decide (u ∈ PM_Username <$> desired) then None else table !! u;
  md_untouched u : u ∉ PM_Username <$> desired → h_members σ' !! u = h_members σ !! u;
  md_roles u : role_of σ' u = synced_role desired table σ u;
}.

Lemma wanted_cons d desired u :
  wanted (d :: desired) u = if decide (PM_Username d = u) then Some (PM_RoleID d) else wanted desired u.
Proof. unfold wanted. simpl. case_bool_decide; case_decide; done. Qed.

(** One entry that is done with, and the rest of the list. *)
Lemma synced_step d desired table missing σ σ1 rest missing' σ' extra :
  h_users σ1 = h_users σ →
  (∀ u, u ≠ PM_Username d → h_members σ1 !! u = h_members σ !! u) →
  role_of σ1 (PM_Username d) = synced_role [d] table σ (PM_Username d) →
  extra = filter (fun u => u ∉ h_users σ) [PM_Username d] →
  synced_desired desired (delete (PM_Username d) table) (missing ++ extra) σ1 rest missing' σ' →
  synced_desired (d :: desired) table missing σ rest missing' σ'.
Proof.
  intros Hu Hm Hr -> [Hu' Hmi Hre Hun Hro]. rewrite Hu in *. split.
  - done.
  - by rewrite Hmi, <-app_assoc, <-list.filter_app.
  - intros u. rewrite Hre, fmap_cons. destruct (decide (u = PM_Username d)) as [->|Hne].
    + rewrite lookup_delete_eq. rewrite (decide_True (P := _ ∈ _ :: _)) by set_solver. by case_decide.
    + rewrite lookup_delete_ne by done. pose proof (elem_of_cons (PM_Username <$> desired) u (PM_Username d)).
      repeat case_decide; tauto.
  - intros u Hni. rewrite fmap_cons, not_elem_of_cons in Hni. destruct Hni as [Hne Hni].
    by rewrite Hun, Hm.
  - intros u. rewrite Hro. unfold synced_role at 1. rewrite Hu. unfold synced_role at 1.
    rewrite wanted_cons. destruct (decide (PM_Username d = u)) as [<-|Hne].
    + rewrite lookup_delete_eq. rewrite Hr. unfold synced_role. rewrite wanted_cons, decide_True by done.
      destruct (wanted desired _); destruct (table !! _); [done| |done|].
      * destruct (role_of σ _); [done|]. by case_decide.
      * by destruct (role_of σ _).
    + rewrite lookup_delete_ne by done. unfold role_of. by rewrite Hm.
Qed.

Lemma table_ok_delete table user σ σ1 :
  table_ok table σ → (∀ u, u ≠ user → h_members σ1 !! u = h_members σ !! u) →
  table_ok (delete user table) σ1.
Proof.
  intros Ht Hm u x [Hne Hx]%lookup_delete_Some. rewrite Hm by done. by apply Ht.
Qed.

Lemma known_user σ user : user ∈ h_users σ → filter (fun u => u ∉ h_users σ) [user] = [].
Proof. intros Hu. rewrite filter_cons_False, filter_nil; [done|tauto]. Qed.

Lemma exec_syncDesired desired table missing σ rest missing' σ' :
  askable desired → table_ok table σ →
  exec (syncDesired c (membersPath project) desired table missing) σ = Some (Ok (rest, missing'), σ') →
  synced_desired desired table missing σ rest missing' σ'.
Proof.
  revert table missing σ. induction desired as [|d desired IH]; intros table missing σ Hask Ht; simpl.
  { intros Hx. exec_inv. simplify_eq. split; try done. by rewrite app_nil_r. }
  assert (askable desired) as Hask' by (intros x Hx; apply Hask; set_solver).
  destruct (Hask d ltac:(set_solver)) as [Hname Hrole].
  destruct (table !! PM_Username d) as [cur|] eqn:Hcur.
  - destruct (Ht _ _ Hcur) as [_ Hm]. pose proof (h_members_users _ _ _ Hm) as Hu.
    intros [(e & _ & [=])|([] & σ1 & Hup & Hx)]%exec_bindR.
    assert (h_users σ1 = h_users σ ∧ h_members σ1 !! PM_Username d = Some (Existing_ID cur, PM_RoleID d) ∧
            ∀ u, u ≠ PM_Username d → h_members σ1 !! u = h_members σ !! u) as (Hu1 & Hd1 & Hm1).
    { case_bool_decide as Hr.
      - apply exec_wrap in Hup as (r & Hup & Hw). symmetry in Hw. apply wrapR_Ok in Hw as ->.
        eapply exec_updateProjectMember in Hup as [-> ->]; [|done..]. split_and!; [done| |].
        + by rewrite lookup_insert_eq.
        + intros u Hne. by rewrite lookup_insert_ne.
      - apply exec_ret in Hup as [_ ->]. split_and!; [done| |done]. rewrite Hm. by rewrite Hr. }
    eapply (synced_step d desired table missing σ σ1 rest missing' σ' []); [done..| |by rewrite known_user|].
    + unfold role_of, synced_role. rewrite wanted_cons, decide_True, Hcur, Hd1 by done. done.
    + rewrite app_nil_r. apply IH; [done|by eapply table_ok_delete|done].
  - intros (r & σ1 & Hadd%exec_addProjectMember & Hx)%exec_bind; [|done..].
    rewrite <-(delete_id table (PM_Username d)) in Hx by done. destruct r as [[]|e].
    + destruct Hadd as [Hu1 Hadd].
      assert (PM_Username d ∈ h_users σ) as Hu.
      { destruct Hadd as [(? & _)|([x Hx'] & _)]; [done|by eapply h_members_users]. }
      eapply (synced_step d desired table missing σ σ1 rest missing' σ' []); [done| | |by rewrite known_user|].
      * intros u Hne. destruct Hadd as [(_ & _ & id & ->)|(_ & ->)]; [by rewrite lookup_insert_ne|done].
      * unfold role_of, synced_role, role_of. rewrite wanted_cons, decide_True, Hcur by done.
        destruct Hadd as [(_ & Hnone & id & ->)|([x Hx'] & ->)].
        -- by rewrite lookup_insert_eq, Hnone, decide_True.
        -- by rewrite Hx'.
      * rewrite app_nil_r. apply IH; [done| |done]. eapply table_ok_delete; [done|].
        intros u Hne. destruct Hadd as [(_ & _ & id & ->)|(_ & ->)]; [by rewrite lookup_insert_ne|done].
    + destruct (IsErrUserNotFound e) eqn:He; [|by exec_inv].
      destruct (Hadd He) as [Hu [Hm1 Hu1]].
      eapply (synced_step d desired table missing σ σ1 rest missing' σ' [PM_Username d]).
      * done.
      * intros u _. by rewrite Hm1.
      * unfold role_of, synced_role, role_of. rewrite wanted_cons, decide_True, Hcur, Hm1 by done.
        destruct (h_members σ !! PM_Username d) as [x|] eqn:Hx'; [|by rewrite decide_False].
        by apply h_members_users in Hx'.
      * by rewrite filter_cons_True, filter_nil.
      * apply IH; [done| |done]. eapply table_ok_delete; [done|]. intros u _. by rewrite Hm1.
Qed.

Lemma exec_removeStale stale σ σ' :
  NoDup stale.*1 →
  (∀ u x, (u, x) ∈ stale → h_members σ !! u = Some (Existing_ID x, Existing_RoleID x)) →
  exec (removeStale c (membersPath project) stale) σ = Some (Ok tt, σ') →
  h_users σ' = h_users σ ∧
  ∀ u, h_members σ' !! u = if decide (u ∈ stale.*1) then None else h_members σ !! u.
Proof.
  unfold removeStale. revert σ. induction stale as [|[u x] stale IH]; intros σ; simpl.
  - intros _ _ Hx. by exec_inv.
  - intros [Hni Hnd]%list.NoDup_cons Hst
      [(e & _ & [=])|([] & σ1 & (r & Hdel & Hw)%exec_wrap & Hx)]%exec_bindR.
    symmetry in Hw. apply wrapR_Ok in Hw as ->.
    eapply (exec_deleteProjectMember u) in Hdel as [Hm1 Hu1]; [|by apply Hst; left].
    apply IH in Hx as [Hu' Hm']; [|done|].
    + split; [congruence|]. intros v. rewrite Hm', Hm1, lookup_delete.
      pose proof (elem_of_cons stale.*1 v u). repeat case_decide; naive_solver.
    + intros v y Hin. rewrite Hm1, lookup_delete_ne; [apply Hst; by right|].
      intros <-. apply Hni. apply list_elem_of_fmap. by exists (u, y).
Qed.

(** The lookup table of a listing with one entry per name. *)
Lemma existingByName_lookup l u x :
  NoDup (Existing_Username <$> l) →
  existingByName l !! u = Some x ↔ x ∈ l ∧ Existing_Username x = u.
Proof.
  unfold existingByName. intros Hnd.
  enough (∀ m : gmap string existingMember,
    foldl (fun m x => <[Existing_Username x := x]> m) m l !! u = Some x ↔
    (x ∈ l ∧ Existing_Username x = u) ∨ (u ∉ Existing_Username <$> l ∧ m !! u = Some x)) as ->.
  { rewrite lookup_empty. naive_solver. }
  induction l as [|y l IH]; intros m; simpl.
  { rewrite !elem_of_nil. naive_solver. }
  apply list.NoDup_cons in Hnd as [Hy Hnd]. rewrite (IH Hnd), elem_of_cons, not_elem_of_cons.
  destruct (decide (u = Existing_Username y)) as [->|Hne].
  - rewrite lookup_insert_eq. split; [naive_solver|].
    intros [[[->|Hx] He]|[[? _] _]]; [by right|by left|done].
  - rewrite lookup_insert_ne by done. naive_solver.
Qed.

(** What a listing shows: the users of one page. *)
Definition page_of (page : gset string) σ : Prop :=
  page ⊆ dom (h_members σ) ∧ size page = h_page_size W `min` size (h_members σ).

(** A page that could hold all members does. *)
Lemma page_of_complete page σ :
  page_of page σ → size (h_members σ) ≤ h_page_size W → page = dom (h_members σ).
Proof.
  intros [Hsub Hsz] Hle. apply set_eq, set_subseteq_size_equiv; [done|]. rewrite size_dom. lia.
Qed.

(** Listing: success means one page of the table was read. *)
Lemma exec_listing σ resp σ' l :
  exec (do_ c "GET" (membersPath project) None) σ = Some (Ok resp, σ') →
  StatusCode resp = StatusOK → Decode_existingMembers (Body resp) = Ok l →
  same_project σ σ' ∧ table_ok (existingByName l) σ ∧ page_of (dom (existingByName l)) σ.
Proof.
  intros Hls%exec_do_plain Hst Hd. destruct (h_list _ _ _ Hls Hst l Hd) as (Hnd & Hlen & Hall).
  split; [by apply h_frame in Hls; [|by left]|].
  assert (table_ok (existingByName l) σ) as Ht.
  { intros u x [Hx <-]%existingByName_lookup; [|done]. split; [done|]. by apply Hall. }
  split; [done|]. split.
  - intros u [x Hx]%elem_of_dom. apply elem_of_dom. apply Ht in Hx as [_ Hx]. by eexists.
  - rewrite <-Hlen, <-(length_fmap Existing_Username l), <-(size_list_to_set (C := gset string)) by done.
    f_equal. apply set_eq. intros u. rewrite elem_of_dom, elem_of_list_to_set, list_elem_of_fmap. split.
    + intros [x [Hx <-]%existingByName_lookup]; [|done]. by exists x.
    + intros (x & -> & Hx). exists x. by apply existingByName_lookup.
Qed.

(** The members a list asks for, as Harbor can have them: the users it knows,
    with the role of their first entry. *)
Definition project_roles (desired : list ProjectMember) σ (user : string) : option Z :=
  if decide (user ∈ h_users σ) then wanted desired user else None.

Lemma wanted_None desired u : u ∉ PM_Username <$> desired → wanted desired u = None.
Proof.
  intros Hu. unfold wanted. destruct (List.find _ _) as [d|] eqn:Hf; [|done]. exfalso. apply Hu.
  apply find_some in Hf as [Hin Hd]. apply list_elem_of_fmap. exists d.
  rewrite list_elem_of_In. by case_bool_decide.
Qed.

Lemma wanted_Some desired u : u ∈ PM_Username <$> desired → is_Some (wanted desired u).
Proof.
  intros (d & -> & Hd)%list_elem_of_fmap. unfold wanted.
  destruct (List.find _ _) as [d'|] eqn:Hf; [by eexists|].
  rewrite list_elem_of_In in Hd. apply (find_none _ _ Hf) in Hd. by case_bool_decide.
Qed.

(** What they come to when Harbor showed the members in [page]: of those the
    ones not asked for go, and the others get the role asked for; members it
    did not show keep theirs; who was no member becomes one, if known. *)
Definition page_roles (desired : list ProjectMember) (page : gset string) σ (user : string) : option Z :=
  match wanted desired user, role_of σ user with
  | None, current => if decide (user ∈ page) then None else current
  | Some role, Some current => if decide (user ∈ page) then Some role else Some current
  | Some role, None => if decide (user ∈ h_users σ) then Some role else None
  end.

(** On a page that holds all members that is exactly the list. *)
Lemma page_roles_complete desired page σ user :
  page = dom (h_members σ) → page_roles desired page σ user = project_roles desired σ user.
Proof.
  intros ->. unfold page_roles, project_roles, role_of.
  destruct (h_members σ !! user) as [x|] eqn:Hm; simpl.
  - assert (user ∈ dom (h_members σ)) by (apply elem_of_dom; by eexists).
    apply h_members_users in Hm. by destruct (wanted desired user); repeat case_decide.
  - assert (user ∉ dom (h_members σ)) by by apply not_elem_of_dom.
    destruct (wanted desired user); [done|]. by repeat case_decide.
Qed.

(** Both loops, from the table of the listing. *)
Lemma exec_sync_loops desired table σ missing σ' :
  askable desired → table_ok table σ →
  exec ('(rest, missing) ←? syncDesired c (membersPath project) desired table [];
        stale ← range_map rest;
        removeStale c (membersPath project) stale ;;?
        okR missing) σ = Some (Ok missing, σ') →
  h_users σ' = h_users σ ∧ (∀ u, role_of σ' u = page_roles desired (dom table) σ u) ∧
  missing = filter (fun u => u ∉ h_users σ) (PM_Username <$> desired).
Proof.
  intros Hask Ht
    [(e & _ & [=])|([rest ms] & σ1 & [Hu Hmi Hre Hun Hro]%exec_syncDesired & Hx)]%exec_bindR; [|done..].
  apply exec_bind in Hx as (stale & σ2 & (o & σ3 & Ho%exec_trigger & [-> ->]%exec_ret)%exec_bind & Hx).
  apply h_frame in Ho as [Hm3 Hu3]; [|done].
  apply exec_bindR in Hx as [(e & _ & [=])|([] & σ4 & Hrm & [[= ->] ->]%exec_ret)].
  assert (∀ u x, (u, x) ∈ in_order o rest ↔ rest !! u = Some x) as Hin.
  { intros u x. by rewrite in_order_perm, elem_of_map_to_list. }
  assert (∀ u, u ∈ (in_order o rest).*1 ↔ u ∉ PM_Username <$> desired ∧ u ∈ dom table) as Hst.
  { intros u. rewrite list_elem_of_fmap, elem_of_dom. split.
    - intros ([v x] & -> & Hx%Hin). simpl. rewrite Hre in Hx. by case_decide.
    - intros [Hni [x Hx]]. exists (u, x). split; [done|]. apply Hin. by rewrite Hre, decide_False. }
  apply exec_removeStale in Hrm as [Hu4 Hm4].
  - split_and!; [congruence| |by rewrite Hmi].
    intros u. unfold role_of at 1. rewrite Hm4, Hm3. unfold page_roles.
    destruct (decide (u ∈ PM_Username <$> desired)) as [Hd|Hd].
    + rewrite decide_False by (rewrite Hst; tauto). fold (role_of σ1 u). rewrite Hro. unfold synced_role.
      destruct (wanted_Some _ _ Hd) as [role ->].
      destruct (table !! u) as [x|] eqn:Htu.
      * destruct (Ht _ _ Htu) as [_ Hm]. unfold role_of. rewrite Hm. simpl.
        rewrite decide_True; [done|]. apply elem_of_dom. by eexists.
      * apply not_elem_of_dom in Htu. destruct (role_of σ u); [by rewrite decide_False|done].
    + rewrite wanted_None, Hun by done. unfold role_of. pose proof (Hst u). repeat case_decide; tauto.
  - rewrite in_order_perm. apply NoDup_fst_map_to_list.
  - intros u x Hx%Hin. rewrite Hm3. rewrite Hre in Hx. case_decide as Hd; [done|].
    rewrite Hun by done. by apply Ht.
Qed.

Lemma exec_ReconcileProjectMembers desired σ missing σ' :
  askable desired →
  exec (httpReconcileProjectMembers c project desired) σ = Some (Ok missing, σ') →
  h_users σ' = h_users σ ∧
  (∃ page, page_of page σ ∧ ∀ u, role_of σ' u = page_roles desired page σ u) ∧
  missing = filter (fun u => u ∉ h_users σ) (PM_Username <$> desired).
Proof.
  intros Hask. unfold httpReconcileProjectMembers.
  intros [(e & _ & [=])|(resp & σ1 & (r & Hl & Hw)%exec_wrap & (σ2 & Hx & [Hm2 Hu2])%exec_deferClose)]%exec_bindR.
  symmetry in Hw. apply wrapR_Ok in Hw as ->.
  case_bool_decide as Hst; [by exec_inv|]. destruct (Decode_existingMembers _) as [l|e] eqn:Hd; [|by exec_inv].
  eapply exec_listing in Hl as ([Hm1 Hu1] & Ht & Hc); [|done..].
  assert (table_ok (existingByName l) σ1) as Ht1 by (intros u x Hux; rewrite Hm1; by apply Ht).
  apply exec_sync_loops in Hx as (Hu & Hr & ->); [|done|done].
  rewrite Hu1 in *. split_and!; [congruence| |done]. eexists. split; [exact Hc|].
  intros u. specialize (Hr u). unfold page_roles, role_of in *. by rewrite Hm2, Hr, Hu1, Hm1.
Qed.

(** ** The robot endpoints are harmless *)

Lemma HasPrefix_app s t : HasPrefix (s +:+ t) s = true.
Proof.
  unfold HasPrefix. induction s as [|x s IH]; simpl; [by destruct t|].
  destruct (ascii_dec x x); [exact IH|done].
Qed.

Lemma deferClose_harmless {A} resp (p : io A) : emits (harmless c) p → emits (harmless c) (deferClose resp p).
Proof. intros Hp. apply emits_bind; [done|]. by intros a. Qed.

Lemma do_get_harmless path body : emits (harmless c) (do_ c "GET" path body).
Proof. unfold do_. destruct (NewRequest_error _ _); [done|]. intros x. split; [by left|done]. Qed.

Lemma do_robots_harmless method suffix body :
  emits (harmless c) (do_ c method (robotsPath +:+ suffix) body).
Proof.
  unfold do_. destruct (NewRequest_error _ _); [done|]. intros x. split; [|done]. right; right.
  simpl. rewrite (assoc_L String.append). apply HasPrefix_app.
Qed.

#[local] Hint Resolve deferClose_harmless do_get_harmless do_robots_harmless : progs.

Lemma findRobot_harmless p n : emits (harmless c) (findRobot c p n).
Proof.
  unfold findRobot. apply emits_bindR.
  - unfold getProjectID. apply emits_bindR; [auto with progs|]. intros resp.
    apply deferClose_harmless. by repeat case_match.
  - intros id. apply emits_bindR; [auto with progs|]. intros resp.
    apply deferClose_harmless. by repeat case_match.
Qed.

Lemma createRobot_harmless p n : emits (harmless c) (createRobot c p n).
Proof.
  unfold createRobot. apply emits_bindR.
  - apply emits_wrap. change robotsPath with (robotsPath +:+ ""). apply do_robots_harmless.
  - intros resp. apply deferClose_harmless. by repeat case_match.
Qed.

Lemma EnsureRobot_harmless p n : emits (harmless c) (httpEnsureRobot c p n).
Proof.
  unfold httpEnsureRobot. apply emits_bindR; [apply emits_wrap, findRobot_harmless|].
  intros []; [done|apply createRobot_harmless].
Qed.

Lemma RefreshRobotSecret_harmless p n : emits (harmless c) (httpRefreshRobotSecret c p n).
Proof.
  unfold httpRefreshRobotSecret. apply emits_bindR; [apply emits_wrap, findRobot_harmless|].
  intros [x|]; [|done]. apply emits_bindR.
  - unfold deleteRobot. apply emits_bindR; [auto with progs|]. intros resp.
    apply deferClose_harmless. by repeat case_match.
  - intros _. apply emits_bindR; [apply emits_wrap, createRobot_harmless|]. by intros [].
Qed.

(** C12. ReconcileProjectMembers against any server that behaves as documented,
    whose answer to the listing is one page of the members.  When it succeeds,
    every user of that page has exactly the role of their first entry, or is no
    member any more if not listed; whoever was no member is one now, with that
    role, if listed and known to Harbor; and members beyond the page keep what
    they had: a stale one is not removed, a wrong role not corrected.  The
    listed users Harbor does not know are returned, in the order listed, and
    nobody else is.  So, if the members fit in a page, the project ends up with
    exactly the list. *)
Theorem ReconcileProjectMembers_refines desired σ missing σ' :
  askable desired →
  exec (httpReconcileProjectMembers c project desired) σ = Some (Ok missing, σ') →
  h_users σ' = h_users σ ∧
  missing = filter (fun u => u ∉ h_users σ) (PM_Username <$> desired) ∧
  (∃ page, page_of page σ ∧ ∀ u, role_of σ' u = page_roles desired page σ u) ∧
  (size (h_members σ) ≤ h_page_size W → ∀ u, role_of σ' u = project_roles desired σ u).
Proof.
  intros Hask (Hu & (page & Hp & Hr) & Hm)%exec_ReconcileProjectMembers; [|done]. split_and!; [done..|by exists page|].
  intros Hle u. rewrite Hr. by apply page_roles_complete, page_of_complete.
Qed.
End operations.
