(* ===== verification/HarborFake.v ===== *)
(** An in-memory Harbor server behind the in-memory API server: it satisfies
    [HarborLaws], so the hypotheses on Harbor are consistent, and witnesses run
    against it. *)
From S2P Require Import Prelude Errors Prog GoStd Api Effects Cluster Backed Fakes Harbor HarborMembers.

(** ** A listing format *)

(** The server encodes its listing as a bit string, which the decoder given to
    the client undoes. *)
Fixpoint pos_bits (p : positive) : string :=
  match p with
  | xH => ""
  | xO p => String "0" (pos_bits p)
  | xI p => String "1" (pos_bits p)
  end.
Fixpoint bits_pos (s : string) : positive :=
  match s with
  | EmptyString => xH
  | String c s => if bool_decide (c = "0"%char) then xO (bits_pos s) else xI (bits_pos s)
  end.
Lemma bits_pos_bits p : bits_pos (pos_bits p) = p.
Proof. induction p as [p IH|p IH|]; simpl; [by rewrite IH..|done]. Qed.

#[export] Instance existingMember_countable : Countable existingMember.
Proof.
  refine (inj_countable' (fun m => (Existing_ID m, Existing_RoleID m, Existing_Username m))
            (fun t => mkExisting t.1.1 t.1.2 t.2) _). by intros [].
Defined.

Definition listing_body (l : list existingMember) : string := pos_bits (encode l).
Definition decode_listing (s : string) : result (list existingMember) :=
  match decode (bits_pos s) with
  | Some l => Ok l
  | None => Err (ErrorString "invalid JSON")
  end.
Lemma decode_listing_body l : decode_listing (listing_body l) = Ok l.
Proof. unfold decode_listing, listing_body. by rewrite bits_pos_bits, decode_encode. Qed.

Definition harborNetLib : NetLib := {|
  NewRequest_error := @NewRequest_error fakeNetLib;
  url_Parse := @url_Parse fakeNetLib;
  Quote := @Quote fakeNetLib;
  Decode_existingMembers := decode_listing;
  Decode_projectID := @Decode_projectID fakeNetLib;
  Decode_robots := @Decode_robots fakeNetLib;
  Decode_createdRobot := @Decode_createdRobot fakeNetLib;
|}.

Lemma harborNetLaws : @NetLaws harborNetLib.
Proof.
  split; try done. intros s e. simpl. unfold decode_listing. destruct (decode _); [done|]. by intros [= <-].
Qed.

(** ** The server *)

(** The project's roles by user, the users Harbor knows, and the rest. *)
Record harborWorld := mkHarborWorld {
  hw_roles : gmap string Z;
  hw_users : gset string;
  hw_mem : memory;
}.

Definition memberID (user : string) : Z := Zpos (encode user).

Definition hw_members (σ : harborWorld) : gmap string (Z * Z) :=
  map_imap (fun user role => if decide (user ∈ hw_users σ) then Some (memberID user, role) else None)
    (hw_roles σ).

Definition with_roles (roles : gmap string Z) (σ : harborWorld) : harborWorld :=
  mkHarborWorld roles (hw_users σ) (hw_mem σ).

Definition exampleProject := "team".
Definition exampleClient : httpClient := mkHttpClient "https://harbor" "robot$op" "pw".
Definition exampleNames : list string := ["alice"; "bob"; "carol"].
Definition exampleRoles : list Z := [1; 2; 3]%Z.

(** The members as a listing shows them; without page parameters, ten of them. *)
Definition member_entries (σ : harborWorld) : list existingMember :=
  (fun x => mkExisting x.2.1 x.2.2 x.1) <$> map_to_list (hw_members σ).

Definition defaultPageSize : nat := 10.

Definition status (code : Z) : result Response := Ok (mkResponse code "").

(** The requests the server understands, as they arrive. *)
Definition adds (r : Request) : option (string * Z) :=
  List.find (fun a => bool_decide (r = addRequest exampleClient exampleProject a.1 a.2))
    (user ← exampleNames; role ← exampleRoles; [(user, role)]).
Definition updates (σ : harborWorld) (r : Request) : option (string * Z) :=
  List.find (fun a => bool_decide (r = updateRequest exampleClient exampleProject (memberID a.1) a.2))
    (user ← (map_to_list (hw_members σ)).*1; role ← exampleRoles; [(user, role)]).
Definition deletes (σ : harborWorld) (r : Request) : option string :=
  List.find (fun user => bool_decide (r = deleteRequest exampleClient exampleProject (memberID user)))
    (map_to_list (hw_members σ)).*1.

Definition hw_http (r : Request) (σ : harborWorld) : result Response * harborWorld :=
  if bool_decide (r = listRequest exampleClient exampleProject) then
    (Ok (mkResponse StatusOK (listing_body (take defaultPageSize (member_entries σ)))), σ)
  else match adds r with
  | Some (user, role) =>
      if decide (is_Some (hw_members σ !! user)) then (status StatusConflict, σ)
      else if decide (user ∈ hw_users σ) then (status StatusCreated, with_roles (<[user := role]> (hw_roles σ)) σ)
      else (status StatusNotFound, σ)
  | None =>
      match updates σ r with
      | Some (user, role) => (status StatusOK, with_roles (<[user := role]> (hw_roles σ)) σ)
      | None =>
          match deletes σ r with
          | Some user => (status StatusOK, with_roles (delete user (hw_roles σ)) σ)
          | None =>
              (match mem_http (hw_mem σ) r with inl e => Err (ErrorString e) | inr resp => Ok resp end, σ)
          end
      end
  end.

#[export] Instance harborWorld_backed : Backed harborWorld := {|
  back := hw_mem;
  set_back m σ := mkHarborWorld (hw_roles σ) (hw_users σ) m;
  respond := hw_http;
|}.

#[export] Instance harborWorld_cluster : Cluster harborWorld := backed_cluster.

#[export] Instance harborWorld_server : HarborServer harborWorld :=
  {| h_members := hw_members; h_users := hw_users; h_page_size := defaultPageSize |}.

(** ** It is a lawful cluster *)

#[export] Instance harborWorld_backed_laws : BackedLaws harborWorld.
Proof.
  split; simpl.
  - done.
  - intros r σ. unfold hw_http. by repeat case_match.
  - intros r σ e. unfold hw_http, status. repeat case_match; simpl; intros Hr; try discriminate Hr.
    by injection Hr as <-.
Qed.

Lemma harborWorld_laws : ClusterLaws harborWorld.
Proof. apply backed_laws. Qed.

Lemma harborWorld_cached : CachedLaws harborWorld.
Proof. apply backed_cached_laws. Qed.

(** ** It is a lawful Harbor *)

Lemma hw_members_lookup σ user x :
  hw_members σ !! user = Some x ↔
  ∃ role, hw_roles σ !! user = Some role ∧ user ∈ hw_users σ ∧ x = (memberID user, role).
Proof.
  unfold hw_members. rewrite map_lookup_imap. destruct (hw_roles σ !! user) as [role|]; simpl.
  - case_decide; naive_solver.
  - naive_solver.
Qed.

Lemma hw_members_insert σ user role :
  user ∈ hw_users σ →
  hw_members (with_roles (<[user := role]> (hw_roles σ)) σ) = <[user := (memberID user, role)]> (hw_members σ).
Proof.
  intros Hu. apply map_eq. intros k. apply option_eq. intros x.
  rewrite hw_members_lookup. destruct (decide (k = user)) as [->|Hne].
  - simpl. rewrite !lookup_insert_eq. naive_solver.
  - rewrite lookup_insert_ne, hw_members_lookup by done. simpl. by rewrite lookup_insert_ne.
Qed.

Lemma hw_members_delete σ user :
  hw_members (with_roles (delete user (hw_roles σ)) σ) = delete user (hw_members σ).
Proof.
  apply map_eq. intros k. apply option_eq. intros x.
  rewrite hw_members_lookup. destruct (decide (k = user)) as [->|Hne].
  - simpl. rewrite !lookup_delete_eq. naive_solver.
  - rewrite lookup_delete_ne, hw_members_lookup by done. simpl. by rewrite lookup_delete_ne.
Qed.

Lemma find_Some {A} (f : A → bool) l x : List.find f l = Some x → x ∈ l ∧ f x = true.
Proof. intros [Hin Hf]%List.find_some. by apply list_elem_of_In in Hin. Qed.

Lemma adds_Some r user role :
  adds r = Some (user, role) → r = addRequest exampleClient exampleProject user role.
Proof. intros [_ Hr]%find_Some. by apply bool_decide_eq_true in Hr. Qed.

Lemma updates_Some σ r user role :
  updates σ r = Some (user, role) → r = updateRequest exampleClient exampleProject (memberID user) role.
Proof. intros [_ Hr]%find_Some. by apply bool_decide_eq_true in Hr. Qed.

Lemma deletes_Some σ r user :
  deletes σ r = Some user → r = deleteRequest exampleClient exampleProject (memberID user).
Proof. intros [_ Hr]%find_Some. by apply bool_decide_eq_true in Hr. Qed.

(** Requests the members of the project do not depend on. *)
Lemma hw_http_harmless r σ :
  Req_Method r = "GET" ∨ Req_Method r = "HEAD" ∨
    HasPrefix (Req_URL r) (client_baseURL exampleClient +:+ robotsPath) = true →
  (hw_http r σ).2 = σ.
Proof.
  intros Hr. unfold hw_http. case_bool_decide; [done|].
  destruct (adds r) as [[u role]|] eqn:Ha.
  { apply adds_Some in Ha as ->. by destruct Hr as [[=]|[[=]|[=]]]. }
  destruct (updates σ r) as [[u role]|] eqn:Hu.
  { apply updates_Some in Hu as ->. by destruct Hr as [[=]|[[=]|[=]]]. }
  destruct (deletes σ r) as [u|] eqn:Hd; [|done].
  apply deletes_Some in Hd as ->. by destruct Hr as [[=]|[[=]|[=]]].
Qed.

Lemma role_cases role : valid_role role → role ∈ exampleRoles.
Proof.
  unfold valid_role, RoleProjectAdmin, RoleGuest, exampleRoles. intros Hr.
  assert (role = 1 ∨ role = 2 ∨ role = 3)%Z as Hc by lia. set_solver.
Qed.

(** The server recognizes the requests the members of [exampleNames] ask for. *)
Lemma adds_addRequest user role :
  user ∈ exampleNames → valid_role role →
  adds (addRequest exampleClient exampleProject user role) = Some (user, role).
Proof.
  intros Hu Hr%role_cases. unfold exampleNames, exampleRoles in *.
  repeat (apply elem_of_cons in Hu as [->|Hu]; [repeat (apply elem_of_cons in Hr as [->|Hr];
    [vm_compute; reflexivity|]); by apply not_elem_of_nil in Hr|]).
  by apply not_elem_of_nil in Hu.
Qed.

Lemma find_unique {A} (f : A → bool) l x :
  x ∈ l → f x = true → (∀ y, y ∈ l → f y = true → y = x) → List.find f l = Some x.
Proof.
  intros Hin Hf Hu. destruct (List.find f l) as [y|] eqn:Hy.
  - apply find_Some in Hy as [? ?]. f_equal. by apply Hu.
  - apply list_elem_of_In in Hin. eapply List.find_none in Hy; [|done]. congruence.
Qed.

Lemma memberID_inj u v : memberID u = memberID v → u = v.
Proof. intros [= H]. by apply (inj encode) in H. Qed.

Lemma member_path_inj (base path : string) (id id' : Z) :
  base +:+ path +:+ "/" +:+ pretty id = base +:+ path +:+ "/" +:+ pretty id' → id = id'.
Proof. intros H. repeat apply (inj (String.append _)) in H. by apply (inj pretty) in H. Qed.

Lemma role_body_inj role role' :
  role ∈ exampleRoles → role' ∈ exampleRoles →
  json_Marshal (JObject [("role_id", JInt role)]) = json_Marshal (JObject [("role_id", JInt role')]) →
  role = role'.
Proof.
  unfold exampleRoles. intros Hr Hr'.
  repeat (apply elem_of_cons in Hr as [->|Hr]; [repeat (apply elem_of_cons in Hr' as [->|Hr'];
    [intros H; vm_compute in H; first [reflexivity|discriminate H]|]); by apply not_elem_of_nil in Hr'|]).
  by apply not_elem_of_nil in Hr.
Qed.

Lemma updateRequest_inj id id' role role' :
  role ∈ exampleRoles → role' ∈ exampleRoles →
  updateRequest exampleClient exampleProject id role = updateRequest exampleClient exampleProject id' role' →
  id = id' ∧ role = role'.
Proof.
  intros Hr Hr' H. split.
  - by apply (f_equal Req_URL), member_path_inj in H.
  - apply (f_equal Req_Body) in H. cbn [Req_Body updateRequest jsonRequest] in H.
    apply (inj Some) in H. by apply role_body_inj.
Qed.

Lemma deleteRequest_inj id id' :
  deleteRequest exampleClient exampleProject id = deleteRequest exampleClient exampleProject id' → id = id'.
Proof. intros H. by apply (f_equal Req_URL), member_path_inj in H. Qed.

Lemma member_names σ user x : hw_members σ !! user = Some x → user ∈ (map_to_list (hw_members σ)).*1.
Proof. intros H. apply list_elem_of_fmap. exists (user, x). by rewrite elem_of_map_to_list. Qed.

Lemma updates_updateRequest σ user id old role :
  hw_members σ !! user = Some (id, old) → valid_role role →
  updates σ (updateRequest exampleClient exampleProject id role) = Some (user, role).
Proof.
  intros Hm Hr%role_cases. pose proof Hm as (? & _ & _ & [= -> _])%hw_members_lookup.
  apply member_names in Hm. unfold updates. apply find_unique.
  - apply list_elem_of_bind. exists user. split; [|done]. apply list_elem_of_bind. exists role.
    split; [by apply list_elem_of_singleton|done].
  - by apply bool_decide_eq_true.
  - intros [u r] Hin Heq. apply bool_decide_eq_true in Heq. simpl in Heq.
    apply list_elem_of_bind in Hin as (u' & Hin & _). apply list_elem_of_bind in Hin as (r' & Hin & Hr').
    apply list_elem_of_singleton in Hin as [= -> ->].
    apply updateRequest_inj in Heq as [Hid ->]; [|done..]. by apply memberID_inj in Hid as ->.
Qed.

Lemma deletes_deleteRequest σ user id old :
  hw_members σ !! user = Some (id, old) →
  deletes σ (deleteRequest exampleClient exampleProject id) = Some user.
Proof.
  intros Hm. pose proof Hm as (? & _ & _ & [= -> _])%hw_members_lookup.
  apply member_names in Hm. unfold deletes. apply find_unique; [done|by apply bool_decide_eq_true|].
  intros u _ Heq. apply bool_decide_eq_true, deleteRequest_inj, memberID_inj in Heq. done.
Qed.

(** Requests of one method are not recognized as requests of another. *)
Lemma adds_method r : Req_Method r ≠ "POST" → adds r = None.
Proof. intros H. destruct (adds r) as [[u role]|] eqn:Ha; [|done]. by apply adds_Some in Ha as ->. Qed.

Lemma updates_method σ r : Req_Method r ≠ "PUT" → updates σ r = None.
Proof. intros H. destruct (updates σ r) as [[u role]|] eqn:Ha; [|done]. by apply updates_Some in Ha as ->. Qed.

Lemma not_listed r : Req_Method r ≠ "GET" → bool_decide (r = listRequest exampleClient exampleProject) = false.
Proof. intros H. apply bool_decide_eq_false. by intros ->. Qed.

Lemma hw_serve_http r σ x σ' : serve _ (HttpDo r) σ = Some (x, σ') → hw_http r σ = (x, σ').
Proof. exact (backed_serve_http (W := harborWorld) r σ x σ'). Qed.

Lemma harborWorld_harbor : HarborLaws (NL := harborNetLib) exampleClient exampleProject exampleNames.
Proof.
  split.
  - intros σ resp σ' Hs%hw_serve_http Hok l. unfold hw_http in Hs. rewrite bool_decide_eq_true_2 in Hs by done.
    injection Hs as <- <-. simpl. rewrite decode_listing_body. intros [= <-]. split_and!.
    + rewrite fmap_take. eapply sublist_NoDup; [|apply sublist_take].
      unfold member_entries. rewrite <-list_fmap_compose. apply NoDup_fst_map_to_list.
    + unfold member_entries. by rewrite length_take, length_fmap, length_map_to_list.
    + intros x (i & Hx%list_elem_of_lookup_2 & _)%elem_of_take. unfold member_entries in Hx. by apply list_elem_of_fmap in Hx as ([u [id role]] & -> & Hm%elem_of_map_to_list).
  - intros user role σ resp σ' Hu Hr Hs%hw_serve_http. unfold hw_http in Hs.
    rewrite not_listed, adds_addRequest in Hs by done. unfold status in Hs. simpl in Hs.
    repeat case_decide; injection Hs as <- <-; (split; [done|]); simpl.
    + done.
    + split_and!; [done|by apply eq_None_not_Some|]. exists (memberID user). by apply hw_members_insert.
    + done.
  - intros user id old role σ resp σ' Hm Hr Hs%hw_serve_http _. unfold hw_http in Hs.
    rewrite not_listed, adds_method, (updates_updateRequest σ user id old) in Hs by done.
    injection Hs as <- <-. split; [|done]. simpl.
    apply hw_members_lookup in Hm as (? & _ & ? & [= -> _]). by apply hw_members_insert.
  - intros user id old σ resp σ' Hm Hs%hw_serve_http _. unfold hw_http in Hs.
    rewrite not_listed, adds_method, updates_method, (deletes_deleteRequest σ user id old) in Hs by done.
    injection Hs as <- <-. split; [|done]. apply hw_members_delete.
  - intros σ user x (? & _ & ? & _)%hw_members_lookup. done.
  - intros X e σ x σ' Hs Hh. destruct e; try by (destruct (backed_serve_other (W := harborWorld) _ _ _ _ _ Hs eq_refl) as [m ->]; split).
    apply hw_serve_http in Hs. pose proof (hw_http_harmless _ σ Hh) as He. rewrite Hs in He. simpl in He. by subst.
Qed.
