(* ===== verification/HarborSync.v ===== *)
(** internal/workspace/harbor.go: the Harbor project of a workspace, its members,
    its robot account, and the image pull Secret built from the robot's
    credentials. *)
From S2P Require Import Prelude Errors Prog GoStd Api Effects Cluster Sync Stage Fakes Labels Harbor.
From S2P Require Import HarborMembers.

Definition harborRoleID (role : MemberRole) : Z :=
  if bool_decide (role = MemberRoleAdmin) then RoleProjectAdmin
  else if bool_decide (role = MemberRoleEdit) then RoleDeveloper
  else if bool_decide (role = MemberRoleView) then RoleGuest
  else RoleGuest.

(** The loop over the members: service accounts have no Harbor user. *)
Fixpoint harborMembers (members : list WorkspaceMember) : list ProjectMember :=
  match members with
  | [] => []
  | m :: members =>
      if Member_ServiceAccount m then harborMembers members
      else mkProjectMember (Member_Subject m) (harborRoleID (Member_Role m)) :: harborMembers members
  end.

Definition imagePullSecretKey (namespace : string) : ObjectKey := mkKey namespace ImagePullSecretName.

Definition imagePullSecretMissing (namespace : string) : io (result bool) :=
  r ← Get KSecret (imagePullSecretKey namespace);
  match r with
  | Err e => if IsNotFound e then okR true else errR (WrapError "checking image pull Secret" e)
  | Ok _ => okR false
  end.

(** The .dockerconfigjson document; the values are strings, so Marshal cannot fail. *)
Definition dockerConfig (registryURL username password : string) : json :=
  let auth := base64_EncodeToString (username +:+ ":" +:+ password) in
  JObject [("auths", JObject [(registryURL,
    JObject [("username", JString username); ("password", JString password); ("auth", JString auth)])])].

Definition buildDockerConfigJSON (registryURL username password : string) : result string :=
  Ok (json_Marshal (dockerConfig registryURL username password)).

Definition defaultServiceAccountName := "default".
Definition defaultServiceAccountKey (namespace : string) : ObjectKey :=
  mkKey namespace defaultServiceAccountName.

(** The loop returns early when the Secret is already listed. *)
Definition ensureImagePullSecretMutate (sa : obj KServiceAccount) : result (obj KServiceAccount) :=
  let refs := ImagePullSecrets (payload sa) in
  if existsb (fun ref => bool_decide (ref = ImagePullSecretName)) refs then Ok sa
  else Ok (with_payload (P := payload_of KServiceAccount)
             (mkServiceAccountBody (refs ++ [ImagePullSecretName])) sa).

Definition ensureImagePullSecret (namespace : string) : io (result unit) :=
  wrap "reconciling default ServiceAccount"
    (CreateOrUpdate KServiceAccount (defaultServiceAccountKey namespace) ensureImagePullSecretMutate) ;;?
  okR tt.

Section harbor.
Context {CL : CtrlLib}.

Definition pullSecretMutate (w : Workspace) (version dockerConfigJSON : string)
    (secret : obj KSecret) : result (obj KSecret) :=
  let secret := with_meta (set_Labels (Some (LabelsForWorkspace (W_Name w) version))) secret in
  own w (with_payload (P := payload_of KSecret)
    (mkSecretBody SecretTypeDockerConfigJson (Some {[ DockerConfigJsonKey := dockerConfigJSON ]})) secret).

Definition reconcileImagePullSecret (w : Workspace) (version harborURL : string)
    (creds : RobotCredentials) : io (result unit) :=
  match buildDockerConfigJSON harborURL (Creds_Name creds) (Creds_Secret creds) with
  | Err e => errR (WrapError "building docker config JSON" e)
  | Ok dockerConfigJSON =>
      wrap "reconciling image pull Secret"
        (CreateOrUpdate KSecret (imagePullSecretKey (W_Namespace w))
           (pullSecretMutate w version dockerConfigJSON)) ;;?
      okR tt
  end.

(** From the robot's credentials, or their absence, to the Secret. *)
Definition robotCredentials (w : Workspace) (hc : HarborClient) : io (result (option RobotCredentials)) :=
  let projectName := W_Namespace w in
  let robotName := W_Namespace w in
  creds ←? wrap "ensuring Harbor robot account" (EnsureRobot hc projectName robotName);
  match creds with
  | Some creds => okR (Some creds)
  | None =>
      missing ←? imagePullSecretMissing (W_Namespace w);
      if (missing : bool) then
        creds ←? wrap "refreshing Harbor robot secret" (RefreshRobotSecret hc projectName robotName);
        okR (Some creds)
      else okR None
  end.

Definition ReconcileHarbor (w : Workspace) (version : string) (hc : HarborClient) (harborURL : string)
    : io (result (list string)) :=
  let projectName := W_Namespace w in
  wrap "ensuring Harbor project" (EnsureProject hc projectName) ;;?
  missingMembers ←? wrap "reconciling Harbor project members"
                      (ReconcileProjectMembers hc projectName (harborMembers (W_Members w)));
  creds ←? robotCredentials w hc;
  (match creds with
   | Some creds => reconcileImagePullSecret w version harborURL creds
   | None => okR tt
   end) ;;?
  ensureImagePullSecret (W_Namespace w) ;;?
  okR missingMembers.
End harbor.

(** ** Facts *)

Lemma harborMembers_eq members :
  harborMembers members =
    (fun m => mkProjectMember (Member_Subject m) (harborRoleID (Member_Role m))) <$>
      filter (fun m => Member_ServiceAccount m = false) members.
Proof.
  induction members as [|m members IH]; simpl; [done|].
  rewrite filter_cons, IH. destruct (Member_ServiceAccount m); by case_decide.
Qed.

(** Every Harbor role is one of the three, so within its range. *)
Lemma harborRoleID_range role : (RoleProjectAdmin ≤ harborRoleID role ≤ RoleGuest)%Z.
Proof. unfold harborRoleID. by repeat case_bool_decide. Qed.

Lemma ensureImagePullSecretMutate_lists sa sa' :
  ensureImagePullSecretMutate sa = Ok sa' →
  ImagePullSecretName ∈ ImagePullSecrets (payload sa') ∧ metadata sa' = metadata sa ∧
  ∃ added, ImagePullSecrets (payload sa') = ImagePullSecrets (payload sa) ++ added.
Proof.
  unfold ensureImagePullSecretMutate. destruct (existsb _ _) eqn:He; intros [= <-]; simpl.
  - apply existsb_In in He as (x & Hx & ->%bool_decide_eq_true). split_and!; [done..|].
    exists []. by rewrite app_nil_r.
  - split_and!; [|done|by eexists]. set_solver.
Qed.

Lemma pullSecretMutate_written {CL : CtrlLib} {HCL : CtrlLaws} w version json s s' :
  pullSecretMutate w version json s = Ok s' →
  payload s' = mkSecretBody SecretTypeDockerConfigJson (Some {[ DockerConfigJsonKey := json ]}) ∧
  Meta_Labels (metadata s') = Some (LabelsForWorkspace (W_Name w) version) ∧
  IsOwned (Meta_OwnerReferences (metadata s')) (W_UID w) = true.
Proof.
  intros Hown. split_and!.
  - by rewrite (own_payload _ _ _ Hown).
  - by rewrite (own_labels _ _ _ Hown).
  - by eapply own_owned.
Qed.

(** ** Refinement *)

Section cached.
Context {CL : CtrlLib} {HCL : CtrlLaws} {NL : NetLib}.
Context {W : Type} {CW : Cluster W} {LW : CachedLaws W}.
Implicit Types (w : Workspace) (σ : W).

(** What the cache shows of the pull Secret decides. *)
Lemma imagePullSecretMissing_cached ns σ r σ' :
  exec (imagePullSecretMissing ns) σ = Some (r, σ') →
  match r with
  | Ok missing => is_Some (cache σ KSecret (imagePullSecretKey ns)) ↔ missing = false
  | Err _ => True
  end ∧ ∀ k key, view σ' k key = view σ k key.
Proof.
  intros (a & σ1 & [Ha Hv]%(exec_get_cached KSecret) & Hx)%exec_bind. destruct a as [s|e]; simpl in *.
  - exec_inv. rewrite Ha. split; [|done]. by split.
  - destruct (IsNotFound e); exec_inv; (split; [|done]); [|done].
    destruct Ha as [_ Ha]. rewrite (Ha eq_refl). by split; [intros []|].
Qed.

Lemma imagePullSecretMissing_quiet ns : emits quiet (imagePullSecretMissing ns).
Proof.
  apply emits_bind; [apply emits_trigger; by intros ??? []|]. intros [|e]; [done|]. by destruct (IsNotFound e).
Qed.

Lemma robotCredentials_quiet w hc `{!QuietClient hc} : emits quiet (robotCredentials w hc).
Proof.
  apply emits_bindR; [by apply emits_wrap, EnsureRobot_quiet|intros [creds|]; [done|]].
  apply emits_bindR; [apply imagePullSecretMissing_quiet|intros []; [|done]].
  apply emits_bindR; [|done]. by apply emits_wrap, RefreshRobotSecret_quiet.
Qed.
End cached.

Section refinement.
Context {CL : CtrlLib} {HCL : CtrlLaws} {NL : NetLib}.
Context {W : Type} {CW : Cluster W} {LW : ClusterLaws W}.
Implicit Types (w : Workspace) (σ : W).

(** Pulls are configured: a pull Secret exists, whatever it holds, and the
    default ServiceAccount lists it.  Whether its credentials are those of the
    robot is [pull_current] (HarborPull.v). *)
Record pull_configured w σ : Prop := {
  pull_secret : ∃ s : obj KSecret, view σ KSecret (imagePullSecretKey (W_Namespace w)) = Some s;
  pull_account : ∃ sa : obj KServiceAccount,
    view σ KServiceAccount (defaultServiceAccountKey (W_Namespace w)) = Some sa ∧
    ImagePullSecretName ∈ ImagePullSecrets (payload sa);
}.

Lemma exec_imagePullSecretMissing ns σ r σ' :
  exec (imagePullSecretMissing ns) σ = Some (r, σ') →
  match r with
  | Ok missing => is_Some (view σ KSecret (imagePullSecretKey ns)) ↔ missing = false
  | Err _ => True
  end ∧ ∀ k key, view σ' k key = view σ k key.
Proof. intros [Hr Hv]%imagePullSecretMissing_cached. split; [|done]. by rewrite (caught_up σ KSecret) in Hr. Qed.

Lemma exec_robotCredentials w hc `{!QuietClient hc} σ r σ' :
  exec (robotCredentials w hc) σ = Some (r, σ') →
  (r = Ok None → is_Some (view σ KSecret (imagePullSecretKey (W_Namespace w)))) ∧
  ∀ k key, view σ' k key = view σ k key.
Proof.
  unfold robotCredentials. intros Hx. apply exec_bindR in Hx as [(e & (r1 & Hq & _)%exec_wrap & ->)|(c & σ1 & (r1 & Hq & _)%exec_wrap & Hx)].
  { quietly Hq (EnsureRobot_quiet (hc := hc) (W_Namespace w) (W_Namespace w)). by split. }
  quietly Hq (EnsureRobot_quiet (hc := hc) (W_Namespace w) (W_Namespace w)). destruct c as [creds|].
  { exec_inv. by split. }
  apply exec_bindR in Hx as [(e & [_ Hm]%exec_imagePullSecretMissing & ->)|(m & σ2 & [Hs Hm]%exec_imagePullSecretMissing & Hx)].
  { split; [done|]. intros. by rewrite Hm, Hq. }
  destruct m.
  - apply exec_bindR in Hx as [(e & (r2 & Hr & _)%exec_wrap & ->)|(c & σ3 & (r2 & Hr & _)%exec_wrap & Hx)];
      quietly Hr (RefreshRobotSecret_quiet (hc := hc) (W_Namespace w) (W_Namespace w)); exec_inv;
      (split; [done|]); intros; by rewrite Hr, Hm, Hq.
  - exec_inv. split; [|intros; by rewrite Hm, Hq]. intros _. rewrite <-Hq. by apply Hs.
Qed.

Lemma exec_reconcileImagePullSecret w version url creds σ r σ' :
  exec (reconcileImagePullSecret w version url creds) σ = Some (r, σ') →
  (r = Ok tt → ∃ s, view σ' KSecret (imagePullSecretKey (W_Namespace w)) = Some s ∧ controlled w s) ∧
  ∀ k key, (k, key) ≠ (KSecret, imagePullSecretKey (W_Namespace w)) → view σ' k key = view σ k key.
Proof.
  intros [Hs Hf]%exec_sync. split; [|done]. intros (sent & kept & Hk & Hm & Hp)%Hs. exists kept.
  split; [done|]. by apply (own_controlled (k := KSecret) _ _ _ _ Hm).
Qed.

Lemma exec_ensureImagePullSecret ns σ r σ' :
  exec (ensureImagePullSecret ns) σ = Some (r, σ') →
  (r = Ok tt → ∃ sa : obj KServiceAccount,
     view σ' KServiceAccount (defaultServiceAccountKey ns) = Some sa ∧
     ImagePullSecretName ∈ ImagePullSecrets (payload sa)) ∧
  ∀ k key, (k, key) ≠ (KServiceAccount, defaultServiceAccountKey ns) → view σ' k key = view σ k key.
Proof.
  intros [Hs Hf]%exec_sync. split; [|done].
  intros (sent & kept & Hk & (Hl & _)%ensureImagePullSecretMutate_lists & [_ _ _ _ Hp])%Hs.
  exists kept. by rewrite Hp.
Qed.

(** A sync leaves the pull secret as it was, or under the workspace's control. *)
Definition pull_owned w σ σ' : Prop :=
  view σ' KSecret (imagePullSecretKey (W_Namespace w)) = view σ KSecret (imagePullSecretKey (W_Namespace w)) ∨
  ∃ s, view σ' KSecret (imagePullSecretKey (W_Namespace w)) = Some s ∧ controlled w s.

Definition harbor_frame w (k : Kind) (key : ObjectKey) : Prop :=
  (k, key) ≠ (KSecret, imagePullSecretKey (W_Namespace w)) ∧
  (k, key) ≠ (KServiceAccount, defaultServiceAccountKey (W_Namespace w)).

Lemma exec_ReconcileHarbor w version hc url `{!QuietClient hc} σ r σ' :
  exec (ReconcileHarbor w version hc url) σ = Some (r, σ') →
  (is_Ok r = true → pull_configured w σ' ∧ pull_owned w σ σ') ∧
  ∀ k key, harbor_frame w k key → view σ' k key = view σ k key.
Proof.
  unfold ReconcileHarbor. intros Hx.
  apply exec_bindR in Hx as [(e & (? & Hq & _)%exec_wrap & ->)|([] & σ1 & (? & Hq & _)%exec_wrap & Hx)];
    quietly Hq (EnsureProject_quiet (hc := hc) (W_Namespace w)); [by split|].
  apply exec_bindR in Hx as [(e & (? & Hq2 & _)%exec_wrap & ->)|(ms & σ2 & (? & Hq2 & _)%exec_wrap & Hx)];
    quietly Hq2 (ReconcileProjectMembers_quiet (hc := hc) (W_Namespace w) (harborMembers (W_Members w)));
    [split; [done|]; intros; by rewrite Hq2|].
  apply exec_bindR in Hx as [(e & [_ Hq3]%exec_robotCredentials & ->)|(creds & σ3 & [Hc Hq3]%exec_robotCredentials & Hx)];
    try done; [split; [done|]; intros; by rewrite Hq3, Hq2|].
  assert (∀ k key, view σ3 k key = view σ k key) as Hσ by (intros; by rewrite Hq3, Hq2).
  apply exec_bindR in Hx as [(e & Hs & ->)|([] & σ4 & Hs & Hx)].
  { split; [done|]. intros k key [Hk _]. destruct creds; [|by exec_inv].
    apply exec_reconcileImagePullSecret in Hs as [_ Hf]. by rewrite Hf, Hσ. }
  assert (is_Some (view σ4 KSecret (imagePullSecretKey (W_Namespace w))) ∧ pull_owned w σ σ4 ∧
          ∀ k key, (k, key) ≠ (KSecret, imagePullSecretKey (W_Namespace w)) →
            view σ4 k key = view σ k key) as (Hsec & Hown & Hf4).
  { destruct creds.
    - apply exec_reconcileImagePullSecret in Hs as [Hs Hf]. destruct (Hs eq_refl) as (s & Hk & Ho).
      split_and!; [by exists s|right; by exists s|]. intros. by rewrite Hf, Hσ.
    - apply exec_ret in Hs as [_ ->]. split_and!; [|left; apply Hσ|done]. rewrite Hq3. by apply Hc. }
  apply exec_bindR in Hx as [(e & [_ Hf]%exec_ensureImagePullSecret & ->)|([] & σ5 & [Ha Hf]%exec_ensureImagePullSecret & Hx)].
  { split; [done|]. intros k key [Hk1 Hk2]. by rewrite Hf, Hf4. }
  exec_inv. split; [|intros k key [Hk1 Hk2]; by rewrite Hf, Hf4].
  intros _. unfold pull_owned. rewrite Hf by done. split; [|exact Hown]. split; [|by apply Ha].
  rewrite Hf by done. by destruct Hsec; eexists.
Qed.

Definition harbor_footprint w : footprint :=
  [(KSecret, imagePullSecretKey (W_Namespace w));
   (KServiceAccount, defaultServiceAccountKey (W_Namespace w))].

Lemma ReconcileHarbor_stage w version hc url `{!QuietClient hc} :
  stage (ReconcileHarbor w version hc url) (harbor_footprint w) (pull_configured w).
Proof.
  split.
  - intros σ ms σ' [H _]%exec_ReconcileHarbor; [by apply H|done].
  - intros σ r σ' [_ H]%exec_ReconcileHarbor k key Hk; [|done]. apply H. split; set_solver.
  - intros σ σ' Hv [[s Hs] (sa & Hsa & Hin)]. split.
    + exists s. by rewrite Hv by set_solver.
    + exists sa. by rewrite Hv by set_solver.
Qed.
End refinement.

Lemma ReconcileHarbor_inside {CL : CtrlLib} w version hc url `{!QuietClient hc} :
  emits (inside w) (ReconcileHarbor w version hc url).
Proof.
  unfold ReconcileHarbor.
  apply emits_bindR; [by apply emits_wrap, emits_quiet_inside, EnsureProject_quiet|intros _].
  apply emits_bindR; [by apply emits_wrap, emits_quiet_inside, ReconcileProjectMembers_quiet|intros ms].
  apply emits_bindR; [|intros creds; apply emits_bindR; [|intros _; apply emits_bindR; [|done]]].
  - apply emits_bindR; [by apply emits_wrap, emits_quiet_inside, EnsureRobot_quiet|intros [creds|]; [done|]].
    apply emits_bindR.
    + apply emits_bind; [auto with progs|]. intros [|e]; [done|]. by destruct (IsNotFound e).
    + intros []; [|done]. apply emits_bindR; [|done].
      by apply emits_wrap, emits_quiet_inside, RefreshRobotSecret_quiet.
  - destruct creds; [|done]. apply emits_bindR; [|done]. by apply emits_wrap, emits_inside_sync.
  - apply emits_bindR; [|done]. by apply emits_wrap, emits_inside_sync.
Qed.

#[export] Hint Resolve ReconcileHarbor_inside : progs.

(** ** Properties *)

Section properties.
Context {CL : CtrlLib} {HCL : CtrlLaws} {NL : NetLib}.
Context {W : Type} {CW : Cluster W} {LW : ClusterLaws W}.
Implicit Types (w : Workspace) (σ : W).

(** ReconcileHarbor, whatever client it is given and whatever Harbor answers,
    ends in success only with pulls configured: an image pull Secret exists and
    the default ServiceAccount lists it.  Success or not, nothing else in the
    cluster changes. *)
Theorem ReconcileHarbor_refines w version hc url σ r σ' :
  QuietClient hc → exec (ReconcileHarbor w version hc url) σ = Some (r, σ') →
  (is_Ok r = true → pull_configured w σ') ∧
  ∀ k key, harbor_frame w k key → view σ' k key = view σ k key.
Proof. intros Hq [H Hf]%exec_ReconcileHarbor; [|done]. split; [by apply H|done]. Qed.

(** The second half of the credentials step, from the one Get it makes. *)
Lemma rotation_runs w hc tr r :
  let ns := W_Namespace w in
  runs (missing ←? imagePullSecretMissing ns;
        if (missing : bool) then
          creds ←? wrap "refreshing Harbor robot secret" (RefreshRobotSecret hc ns ns);
          okR (Some creds)
        else okR None) tr r ↔
  ∃ answer tr2, tr = Obs (ClientGet KSecret (imagePullSecretKey ns)) answer :: tr2 ∧
    match answer with
    | Ok _ => tr2 = [] ∧ r = Ok None
    | Err e =>
        if IsNotFound e
        then ∃ refreshed, runs (RefreshRobotSecret hc ns ns) tr2 refreshed ∧
               r = match refreshed with
                   | Ok creds => Ok (Some creds)
                   | Err e => Err (WrapError "refreshing Harbor robot secret" e)
                   end
        else tr2 = [] ∧ r = Err (WrapError "checking image pull Secret" e)
    end.
Proof.
  intros ns. unfold imagePullSecretMissing, Get. rewrite runs_bindR_match. split.
  - intros (? & tr2 & m & -> & (? & ? & a & -> & ->%runs_trigger & Hm)%runs_bind & H).
    destruct a as [s|e]; [|destruct (IsNotFound e) eqn:He]; destruct Hm as [-> ->];
      eexists _, tr2; (split; [done|]); simpl; rewrite ?He; try done.
    by apply runs_wrap_okR in H.
  - intros (a & tr2 & -> & H).
    eexists [_], tr2, (match a with Ok _ => Ok false | Err e =>
      if IsNotFound e then Ok true else Err (WrapError "checking image pull Secret" e) end).
    split; [done|]. split.
    + apply runs_bind. eexists [_], [], a. rewrite runs_trigger. split_and!; [done..|].
      destruct a as [s|e]; [done|]. by destruct (IsNotFound e).
    + destruct a as [s|e]; [done|]. destruct (IsNotFound e); [|done]. by apply runs_wrap_okR.
Qed.

(** When the live robot secret is rotated.  On every run of the credentials
    step: EnsureRobot goes first; if it hands out credentials or fails, the
    cluster is not even read; if the robot was already there, one Get of the
    pull Secret decides, and RefreshRobotSecret (which invalidates the secret
    in use) is called exactly when that Get said NotFound.  A present Secret,
    and a failing read, never rotate. *)
Theorem robot_rotation_only_when_missing w hc tr r :
  let ns := W_Namespace w in
  runs (robotCredentials w hc) tr r ↔
  ∃ tr1 ensured, runs (EnsureRobot hc ns ns) tr1 ensured ∧
  match ensured with
  | Err e => tr = tr1 ∧ r = Err (WrapError "ensuring Harbor robot account" e)
  | Ok (Some creds) => tr = tr1 ∧ r = Ok (Some creds)
  | Ok None => ∃ answer tr2,
      tr = tr1 ++ Obs (ClientGet KSecret (imagePullSecretKey ns)) answer :: tr2 ∧
      match answer with
      | Ok _ => tr2 = [] ∧ r = Ok None
      | Err e =>
          if IsNotFound e
          then ∃ refreshed, runs (RefreshRobotSecret hc ns ns) tr2 refreshed ∧
                 r = match refreshed with
                     | Ok creds => Ok (Some creds)
                     | Err e => Err (WrapError "refreshing Harbor robot secret" e)
                     end
          else tr2 = [] ∧ r = Err (WrapError "checking image pull Secret" e)
      end
  end.
Proof.
  intros ns. unfold robotCredentials. fold ns. rewrite runs_bindR_match. split.
  - intros (tr1 & tr2 & c & -> & (c1 & Hc & ->)%runs_wrap & H). exists tr1, c1. split; [done|].
    destruct c1 as [[creds|]|e]; simpl in H; [..|by destruct H as [-> ->]; rewrite app_nil_r].
    + by destruct H as [-> ->]; rewrite app_nil_r.
    + by apply rotation_runs in H as (a & tr3 & -> & H); exists a, tr3.
  - intros (tr1 & c1 & Hc & H). destruct c1 as [[creds|]|e].
    + destruct H as [-> ->]. exists tr1, [], (Ok (Some creds)). rewrite app_nil_r.
      split_and!; [done| |done..]. apply runs_wrap. by exists (Ok (Some creds)).
    + destruct H as (a & tr2 & -> & H). eexists tr1, _, (Ok None). split; [done|]. split.
      { apply runs_wrap. by exists (Ok None). }
      apply rotation_runs. by exists a, tr2.
    + destruct H as [-> ->]. eexists tr1, [], (Err _). rewrite app_nil_r. split_and!; [done| |done..].
      apply runs_wrap. by exists (Err e).
Qed.

(** Both syncs settle.  The default ServiceAccount, which the operator does not
    own, keeps its metadata and every pull secret it lists; the operator's is
    appended once, never twice. *)
Lemma pull_settles w version json :
  settles (k := KSecret) (pullSecretMutate w version json) ∧
  settles (k := KServiceAccount) ensureImagePullSecretMutate ∧
  ∀ sa, ∃ sa', ensureImagePullSecretMutate sa = Ok sa' ∧ metadata sa' = metadata sa ∧
    ImagePullSecrets (payload sa') =
      if decide (ImagePullSecretName ∈ ImagePullSecrets (payload sa))
      then ImagePullSecrets (payload sa)
      else ImagePullSecrets (payload sa) ++ [ImagePullSecretName].
Proof.
  assert (∀ sa : obj KServiceAccount, ensureImagePullSecretMutate sa =
    if decide (ImagePullSecretName ∈ ImagePullSecrets (payload sa)) then Ok sa
    else Ok (with_payload (P := payload_of KServiceAccount)
           (mkServiceAccountBody (ImagePullSecrets (payload sa) ++ [ImagePullSecretName])) sa)) as Heq.
  { intros sa. unfold ensureImagePullSecretMutate.
    assert (existsb (fun ref => bool_decide (ref = ImagePullSecretName)) (ImagePullSecrets (payload sa)) =
            bool_decide (ImagePullSecretName ∈ ImagePullSecrets (payload sa))) as ->.
    { apply eq_true_iff_eq. rewrite existsb_In, bool_decide_eq_true.
      setoid_rewrite bool_decide_eq_true. split; [by intros (? & ? & ->)|eauto]. }
    by destruct (decide (ImagePullSecretName ∈ _)) as [Hin|Hin];
      [rewrite bool_decide_eq_true_2|rewrite bool_decide_eq_false_2]. }
  split_and!.
  - by apply (overwrite_settles KSecret w _ (fun _ => _)).
  - intros o sent kept Hs [_ _ _ _ Hp]. specialize (Hp ltac:(discriminate)).
    rewrite Heq in *. rewrite decide_True; [done|]. rewrite Hp.
    case_decide; injection Hs as <-; simpl; set_solver.
  - intros sa. rewrite Heq. case_decide; by eexists.
Qed.
End properties.

(** ** The members of the Harbor project *)

Section members.
Context {CL : CtrlLib} {HCL : CtrlLaws} {NL : NetLib} {HNL : NetLaws}.
Context {W : Type} {CW : Cluster W} {LW : CachedLaws W} {HS : HarborServer W}.
Implicit Types (w : Workspace) (σ : W).

(** The first member entry of a user that is not a service account. *)
Definition harbor_entry w (user : string) : option WorkspaceMember :=
  List.find (fun m => bool_decide (Member_Subject m = user))
    (filter (fun m => Member_ServiceAccount m = false) (W_Members w)).

Definition harbor_role w (user : string) : option Z := harborRoleID ∘ Member_Role <$> harbor_entry w user.

Lemma wanted_harbor w user : wanted (harborMembers (W_Members w)) user = harbor_role w user.
Proof.
  rewrite harborMembers_eq. unfold wanted, harbor_role, harbor_entry.
  induction (filter _ _) as [|m ms IH]; simpl; [done|]. by case_bool_decide.
Qed.

Lemma askable_members w names :
  (∀ m, m ∈ W_Members w → Member_ServiceAccount m = false → Member_Subject m ∈ names) →
  askable names (harborMembers (W_Members w)).
Proof.
  intros Hn d Hd. rewrite harborMembers_eq in Hd.
  apply list_elem_of_fmap in Hd as (m & -> & [Hsa Hm]%list_elem_of_filter). simpl.
  split; [by apply Hn|apply harborRoleID_range].
Qed.

Lemma harbor_tail_harmless c w version creds url :
  emits (harmless c) (
    (match creds with
     | Some creds => reconcileImagePullSecret w version url creds
     | None => okR tt
     end) ;;? ensureImagePullSecret (W_Namespace w)).
Proof.
  apply emits_bindR.
  - destruct creds; [|done]. apply emits_bindR; [by apply emits_wrap, emits_trigger|done].
  - intros _. apply emits_bindR; [by apply emits_wrap, emits_trigger|done].
Qed.

Lemma robotCredentials_harmless w url name secret :
  emits (harmless (mkHttpClient (TrimRight url ["/"%char]) name secret))
    (robotCredentials w (NewClient url name secret)).
Proof.
  unfold robotCredentials. apply emits_bindR; [apply emits_wrap, EnsureRobot_harmless|].
  intros [creds|]; [done|]. apply emits_bindR.
  - apply emits_bind; [by apply emits_trigger|]. intros [|e]; [done|]. by destruct (IsNotFound e).
  - intros []; [|done]. apply emits_bindR; [apply emits_wrap, RefreshRobotSecret_harmless|done].
Qed.

(** What ReconcileHarbor makes of the project's members, from those before. *)
Lemma exec_ReconcileHarbor_members w version url name secret harborURL names σ missing σ' :
  HarborLaws (mkHttpClient (TrimRight url ["/"%char]) name secret) (W_Namespace w) names →
  askable names (harborMembers (W_Members w)) →
  exec (ReconcileHarbor w version (NewClient url name secret) harborURL) σ = Some (Ok missing, σ') →
  ∃ σ1, exec (EnsureProject (NewClient url name secret) (W_Namespace w)) σ = Some (Ok tt, σ1) ∧
  h_users σ' = h_users σ1 ∧
  (∃ page, page_of page σ1 ∧ ∀ user, role_of σ' user = page_roles (harborMembers (W_Members w)) page σ1 user) ∧
  missing = filter (fun u => u ∉ h_users σ1) (PM_Username <$> harborMembers (W_Members w)).
Proof.
  intros HL Hn. unfold ReconcileHarbor.
  intros [(e & _ & [=])|([] & σ1 & (r0 & Hp & Hw)%exec_wrap & Hx)]%exec_bindR.
  symmetry in Hw. apply wrapR_Ok in Hw as ->. exists σ1. split; [exact Hp|]. clear Hp.
  apply exec_bindR in Hx as [(e & _ & [=])|(ms & σ2 & (r & Hms & Hw)%exec_wrap & Hx)].
  symmetry in Hw. apply wrapR_Ok in Hw as ->.
  eapply exec_ReconcileProjectMembers in Hms as (Hu & (page & Hpage & Hr) & ->); [|done..].
  apply exec_bindR in Hx as [(e & _ & [=])|(creds & σ3 & Hc & Hx)].
  apply (exec_harmless _ (W_Namespace w) names) in Hc as [Hm3 Hu3]; [|apply robotCredentials_harmless].
  assert (same_project σ3 σ' ∧ missing = filter (fun u => u ∉ h_users σ1)
    (PM_Username <$> harborMembers (W_Members w))) as [[Hm4 Hu4] ->].
  { apply exec_bindR in Hx as [(e & _ & [=])|([] & σ4 & H4 & Hx)].
    apply exec_bindR in Hx as [(e & _ & [=])|([] & σ5 & H5 & [[= ->] ->]%exec_ret)]. split; [|done].
    eapply (exec_harmless _ (W_Namespace w) names); [apply (harbor_tail_harmless _ w version creds harborURL)|].
    unfold exec in *. rewrite interp_bindR, H4. exact H5. }
  split_and!; [congruence| |done]. exists page. split; [exact Hpage|].
  intros user. rewrite <-Hr. unfold role_of. by rewrite Hm4, Hm3.
Qed.

Lemma harbor_entry_some w user :
  user ∈ PM_Username <$> harborMembers (W_Members w) ↔ is_Some (harbor_entry w user).
Proof.
  unfold harbor_entry. rewrite harborMembers_eq, <-list_fmap_compose, list_elem_of_fmap. split.
  - intros (m & -> & Hm). simpl. destruct (List.find _ _) eqn:Hf; [by eexists|].
    rewrite list_elem_of_In in Hm. apply (find_none _ _ Hf) in Hm. by case_bool_decide.
  - intros [m Hf]. apply find_some in Hf as [Hm Hs]. exists m. rewrite list_elem_of_In.
    by case_bool_decide.
Qed.

(** C19. Members on the Harbor side.  With the real HTTP client, on a server that
    behaves as documented and answers the listing of the members with one page
    of it, a successful ReconcileHarbor, once the project is ensured, gives every
    user that is listed in the spec, is no service account and is known to Harbor
    the Harbor role of their (first) workspace role, if they were no member of
    the project or in the page; whoever else was in the page is no member any
    more; members beyond the page keep their role, listed or not.  If the members fit in a
    page, they end up exactly as the spec asks.  The listed users Harbor does
    not know are returned, for the controller to retry.  Rotating the robot and
    writing the Secret afterwards do not disturb this. *)
Theorem ReconcileHarbor_members w version url name secret harborURL names σ missing σ' :
  HarborLaws (mkHttpClient (TrimRight url ["/"%char]) name secret) (W_Namespace w) names →
  (∀ m, m ∈ W_Members w → Member_ServiceAccount m = false → Member_Subject m ∈ names) →
  exec (ReconcileHarbor w version (NewClient url name secret) harborURL) σ = Some (Ok missing, σ') →
  ∃ σ1, exec (EnsureProject (NewClient url name secret) (W_Namespace w)) σ = Some (Ok tt, σ1) ∧
  (∃ page, page_of page σ1 ∧ ∀ user,
     (user ∈ page → role_of σ' user = harbor_role w user) ∧
     (h_members σ1 !! user = None →
        role_of σ' user = if decide (user ∈ h_users σ') then harbor_role w user else None) ∧
     (user ∉ page → is_Some (h_members σ1 !! user) → role_of σ' user = role_of σ1 user)) ∧
  (size (h_members σ1) ≤ h_page_size W → ∀ user,
     role_of σ' user = if decide (user ∈ h_users σ') then harbor_role w user else None) ∧
  (∀ user, user ∈ missing ↔ user ∉ h_users σ' ∧ is_Some (harbor_entry w user)).
Proof.
  intros HL Hn%askable_members (σ1 & Hp & Hu & (page & Hpage & Hr) & ->)%(exec_ReconcileHarbor_members _ _ _ _ _ _ names);
    [|done..].
  exists σ1. split; [exact Hp|]. clear Hp. rewrite Hu. split_and!.
  - exists page. split; [done|]. intros user. rewrite Hr. unfold page_roles. rewrite wanted_harbor. split_and!.
    + intros Hin. destruct Hpage as [Hsub _]. pose proof (Hsub _ Hin) as [x Hm]%elem_of_dom.
      unfold role_of. rewrite Hm. simpl. destruct (harbor_role w user); by rewrite decide_True.
    + unfold role_of. intros Hm. rewrite Hm. simpl. destruct (harbor_role w user); by repeat case_decide.
    + intros Hni [x Hm]. unfold role_of. rewrite Hm. simpl.
      destruct (harbor_role w user); by rewrite decide_False.
  - intros Hle user. rewrite Hr, <-wanted_harbor. by eapply page_roles_complete, page_of_complete.
  - intros user. rewrite list_elem_of_filter. by rewrite harbor_entry_some.
Qed.
End members.
