(* ===== verification/HarborPull.v ===== *)
(** The credentials the tenants pull with (internal/workspace/harbor.go and the
    robot half of internal/harbor/client.go).

    Harbor reveals the secret of a robot account once, when it creates it.
    [RobotHost] is a state with the robot of one project; [RobotClient] is what
    ReconcileHarbor needs of a Harbor client to keep the image pull Secret equal
    to that robot's credentials; the HTTP client provides it on every server
    that obeys [RobotLaws], the documented behaviour of the robot endpoints.

    The manager's client reads from a cache (cmd/main.go), so this file assumes
    [CachedLaws] only, and says of each fact which object the cache must have
    caught up with. *)
From S2P Require Import Prelude Errors Prog GoStd Api Effects Cluster Sync Stage Fakes Labels Harbor.
From S2P Require Import HarborMembers HarborSync.

(** The robot of the project: its ID and its current credentials. *)
Class RobotHost (W : Type) `{Cluster W} := {
  h_robot : W → option (Z * RobotCredentials);
}.

(** Everything but HTTP. *)
Definition not_http (o : obs sysE) : Prop :=
  match o with Obs e _ => match e with HttpDo _ => False | _ => True end end.

(** Calls that are not Harbor's leave its robots alone. *)
Class RobotHostLaws (W : Type) `{RobotHost W} : Prop := {
  h_robot_calls X (e : sysE X) σ x σ' :
    serve X e σ = Some (x, σ') → not_http (Obs e x) → h_robot σ' = h_robot σ;
}.

(** What a client promises about the robot of its project. *)
Class RobotClient {W : Type} `{RobotHost W} (hc : HarborClient) (project : string) : Prop := {
  EnsureProject_robot (σ : W) r σ' :
    exec (EnsureProject hc project) σ = Some (r, σ') → h_robot σ' = h_robot σ;
  ReconcileProjectMembers_robot ms (σ : W) r σ' :
    exec (ReconcileProjectMembers hc project ms) σ = Some (r, σ') → h_robot σ' = h_robot σ;
  (** a robot that exists is left alone; credentials are those of a new one *)
  EnsureRobot_robot (σ : W) r σ' :
    exec (EnsureRobot hc project project) σ = Some (r, σ') →
    match h_robot σ with
    | Some robot => h_robot σ' = Some robot ∧ (is_Ok r = true → r = Ok None)
    | None => ∀ creds, r = Ok creds → ∃ id creds', creds = Some creds' ∧ h_robot σ' = Some (id, creds')
    end;
  RefreshRobotSecret_robot (σ : W) creds σ' :
    exec (RefreshRobotSecret hc project project) σ = Some (Ok creds, σ') →
    ∃ id, h_robot σ' = Some (id, creds);
}.

Section host.
Context {W : Type} {CW : Cluster W} {LW : CachedLaws W} {RH : RobotHost W} {RL : RobotHostLaws W}.
Implicit Types (σ : W).

Lemma exec_not_http {A} (p : io A) σ a σ' :
  emits not_http p → exec p σ = Some (a, σ') → h_robot σ' = h_robot σ.
Proof. apply exec_keeps. intros X e σ0 x σ1. apply h_robot_calls. Qed.

Lemma not_http_sync k key f message :
  emits not_http (wrap message (CreateOrUpdate k key f) ;;? okR tt).
Proof. apply emits_bindR; [|done]. by apply emits_wrap, emits_trigger. Qed.

Lemma quiet_spares {A} k key (p : io A) : emits quiet p → emits (fun o => ¬ writes o k key) p.
Proof. apply emits_impl. intros o Ho. apply Ho. Qed.

Lemma not_http_missing ns : emits not_http (imagePullSecretMissing ns).
Proof. apply emits_bind; [by apply emits_trigger|]. intros [|e]; [done|]. by destruct (IsNotFound e). Qed.
End host.

(** ** The pull secret follows the robot *)

Section pull.
Context {CL : CtrlLib} {HCL : CtrlLaws}.
Context {W : Type} {CW : Cluster W} {LW : CachedLaws W} {RH : RobotHost W} {RL : RobotHostLaws W}.
Implicit Types (w : Workspace) (σ : W).

Definition pullKey w : ObjectKey := imagePullSecretKey (W_Namespace w).

(** The Secret that logs in to [url] with the credentials. *)
Definition pullSecret (url : string) (creds : RobotCredentials) : SecretBody :=
  mkSecretBody SecretTypeDockerConfigJson (Some {[ DockerConfigJsonKey :=
    json_Marshal (dockerConfig url (Creds_Name creds) (Creds_Secret creds)) ]}).

(** The pull secret holds the current credentials of the robot. *)
Definition pull_current w url σ : Prop :=
  ∃ (s : obj KSecret) id creds, view σ KSecret (pullKey w) = Some s ∧ h_robot σ = Some (id, creds) ∧
    payload s = pullSecret url creds.

(** It does, or there is none. *)
Definition pull_consistent w url σ : Prop :=
  view σ KSecret (pullKey w) = None ∨ pull_current w url σ.

Lemma pull_current_ext w url σ σ' :
  view σ' KSecret (pullKey w) = view σ KSecret (pullKey w) → h_robot σ' = h_robot σ →
  pull_current w url σ → pull_current w url σ'.
Proof. unfold pull_current. by intros -> ->. Qed.

Lemma pull_consistent_ext w url σ σ' :
  view σ' KSecret (pullKey w) = view σ KSecret (pullKey w) → h_robot σ' = h_robot σ →
  pull_consistent w url σ → pull_consistent w url σ'.
Proof. unfold pull_consistent, pull_current. by intros -> ->. Qed.

(** The cache shows the pull Secret as it is. *)
Definition pull_cached w σ : Prop := current σ KSecret (pullKey w).

Lemma pull_cached_quiet {A} w (p : io A) σ a σ' :
  emits quiet p → exec p σ = Some (a, σ') → pull_cached w σ → pull_cached w σ'.
Proof. intros Hq Hx. eapply exec_current; [by apply quiet_spares|exact Hx]. Qed.

(** Obtaining credentials: new ones only when there was no Secret or no robot. *)
Lemma robotCredentials_robot w hc `{!QuietClient hc, !RobotClient (W := W) hc (W_Namespace w)} σ r σ' :
  pull_cached w σ → exec (robotCredentials w hc) σ = Some (r, σ') →
  match r with
  | Ok (Some creds) => (∃ id, h_robot σ' = Some (id, creds)) ∧
      (view σ KSecret (pullKey w) = None ∨ h_robot σ = None)
  | Ok None => is_Some (view σ KSecret (pullKey w)) ∧ is_Some (h_robot σ) ∧ h_robot σ' = h_robot σ
  | Err _ => view σ KSecret (pullKey w) = None ∨ h_robot σ = None ∨ h_robot σ' = h_robot σ
  end.
Proof.
  unfold robotCredentials. intros Hcur Hx.
  apply exec_bindR in Hx as [(e & (r1 & Hx & Hw)%exec_wrap & ->)|(c & σ1 & (r1 & Hx & Hw)%exec_wrap & Hr)];
    pose proof (EnsureRobot_robot _ _ _ Hx) as Hrobot;
    pose proof (pull_cached_quiet w _ _ _ _ (EnsureRobot_quiet (hc := hc) (W_Namespace w) (W_Namespace w)) Hx Hcur) as Hcur1;
    quietly Hx (EnsureRobot_quiet (hc := hc) (W_Namespace w) (W_Namespace w)).
  { destruct (h_robot σ); [right; right; by destruct Hrobot|by right; left]. }
  symmetry in Hw. apply wrapR_Ok in Hw as ->. destruct c as [creds|].
  { exec_inv. destruct (h_robot σ) as [robot|]; [destruct Hrobot as [_ Hn]; by discriminate Hn|].
    destruct (Hrobot _ eq_refl) as (id & ? & [= <-] & Hr). split; [by exists id|by right]. }
  destruct (h_robot σ) as [robot|] eqn:Hh; [|by destruct (Hrobot _ eq_refl) as (? & ? & [=] & _)].
  destruct Hrobot as [H1 _].
  apply exec_bindR in Hr as [(e & Hm & ->)|(m & σ2 & Hm & Hr)];
    pose proof (exec_not_http _ _ _ _ (not_http_missing _) Hm) as Hh2;
    apply imagePullSecretMissing_cached in Hm as [Hs Hv];
    unfold pull_cached, current, pullKey in Hcur1; rewrite ?Hcur1 in Hs.
  { right. right. congruence. }
  rewrite Hx in Hs. fold (pullKey w) in Hs. destruct m.
  - assert (view σ KSecret (pullKey w) = None) as Hnone.
    { apply eq_None_not_Some. intros H. by apply Hs in H. }
    apply exec_bindR in Hr as [(e & _ & ->)|(c & σ3 & (r2 & Hr & Hw)%exec_wrap & Hx2)]; [by left|].
    symmetry in Hw. apply wrapR_Ok in Hw as ->. exec_inv. split; [|by left].
    by eapply RefreshRobotSecret_robot.
  - exec_inv. split_and!; [by apply Hs|by eexists|congruence].
Qed.

(** Writing the Secret for a robot, over none. *)
Lemma reconcileImagePullSecret_robot w version url id creds σ r σ' :
  pull_cached w σ → exec (reconcileImagePullSecret w version url creds) σ = Some (r, σ') →
  h_robot σ = Some (id, creds) →
  (is_Ok r = true → pull_current w url σ') ∧
  (view σ KSecret (pullKey w) = None → pull_consistent w url σ').
Proof.
  intros Hcur Hx Hh. pose proof (exec_not_http _ _ _ _ (not_http_sync _ _ _ _) Hx) as Hh'. rewrite Hh in Hh'.
  assert (∀ kept, (∃ o sent, pullSecretMutate w version (json_Marshal (dockerConfig url (Creds_Name creds)
    (Creds_Secret creds))) o = Ok sent ∧ persisted sent kept) → view σ' KSecret (pullKey w) = Some kept →
    pull_current w url σ') as Hwritten.
  { intros kept (o & sent & Hm & [_ _ _ _ Hp]) Hk. exists kept, id, creds. split_and!; [done..|].
    rewrite Hp by done. by rewrite (own_payload _ _ _ Hm). }
  unfold pull_cached, current, pullKey in Hcur.
  apply exec_bindR in Hx as [(e & (r1 & [Hc _]%exec_write_cached & Hw)%exec_wrap & ->)
    |(op & σ1 & (r1 & [Hc _]%exec_write_cached & Hw)%exec_wrap & Hx)];
    rewrite Hcur in Hc; apply cached_current in Hc; fold (pullKey w) in Hc.
  - split; [done|]. intros Hnone.
    destruct r1 as [|e']; [discriminate Hw|].
    inversion Hc as [? ? ? Hb|? ? ? ? ? Hm Hp Hb Ha|? ? Hm Hb| |]; subst.
    + left. congruence.
    + right. eapply Hwritten; [by eexists _, _|done].
    + left. congruence.
  - exec_inv. split; [|intros _; right]; [intros _|];
      (apply create_or_update_ok in Hc as (sent & kept & Hk & Hm & Hp); eapply Hwritten; [by eexists _, _|done]).
Qed.

(** The part of ReconcileHarbor after the robot. *)
Definition writePull w version url (creds : option RobotCredentials) : io (result unit) :=
  (match creds with
   | Some creds => reconcileImagePullSecret w version url creds
   | None => okR tt
   end) ;;?
  ensureImagePullSecret (W_Namespace w).

Lemma exec_writePull w version url creds σ r σ' :
  pull_cached w σ → exec (writePull w version url creds) σ = Some (r, σ') →
  h_robot σ' = h_robot σ ∧
  match creds with
  | None => view σ' KSecret (pullKey w) = view σ KSecret (pullKey w)
  | Some creds => ∀ id, h_robot σ = Some (id, creds) →
      (is_Ok r = true → pull_current w url σ') ∧
      (view σ KSecret (pullKey w) = None → pull_consistent w url σ')
  end.
Proof.
  intros Hcur Hx. split.
  { eapply exec_not_http; [|exact Hx]. apply emits_bindR; [|intros _; apply not_http_sync].
    destruct creds; [apply not_http_sync|done]. }
  apply exec_bindR in Hx as [(e & Hs & ->)|([] & σ1 & Hs & Hx)].
  - destruct creds as [creds|]; [|by exec_inv]. intros id Hh.
    by apply (reconcileImagePullSecret_robot _ _ _ id) in Hs.
  - pose proof (exec_not_http _ _ _ _ (not_http_sync _ _ _ _) Hx) as Hh1.
    assert (view σ' KSecret (pullKey w) = view σ1 KSecret (pullKey w)) as Hv.
    { eapply exec_frame; [|exact Hx]. apply emits_bindR; [|done]. apply emits_wrap, emits_trigger. by intros x []. }
    destruct creds as [creds|]; [|apply exec_ret in Hs as [_ ->]; done]. intros id Hh.
    destruct (reconcileImagePullSecret_robot _ _ _ id _ _ _ _ Hcur Hs Hh) as [Hc Hi]. split; intros H.
    + eapply pull_current_ext; [done..|by apply Hc].
    + eapply pull_consistent_ext; [done..|by apply Hi].
Qed.

(** How ReconcileHarbor gets to the robot. *)
Lemma exec_ReconcileHarbor_robot w version hc url `{!QuietClient hc, !RobotClient (W := W) hc (W_Namespace w)} σ r σ' :
  exec (ReconcileHarbor w version hc url) σ = Some (r, σ') →
  (is_Ok r = false ∧ (∀ k key, view σ' k key = view σ k key) ∧ h_robot σ' = h_robot σ) ∨
  ∃ σ1 r1 σ2, (∀ k key, view σ1 k key = view σ k key) ∧ h_robot σ1 = h_robot σ ∧
    (pull_cached w σ → pull_cached w σ1) ∧
    exec (robotCredentials w hc) σ1 = Some (r1, σ2) ∧
    match r1 with
    | Err e => r = Err e ∧ σ' = σ2
    | Ok creds => ∃ rw, exec (writePull w version url creds) σ2 = Some (rw, σ') ∧ is_Ok r = is_Ok rw
    end.
Proof.
  unfold ReconcileHarbor. intros Hx.
  apply exec_bindR in Hx as [(e & (? & Hx & _)%exec_wrap & ->)|([] & σ1 & (? & H1 & _)%exec_wrap & Hx)].
  { left. pose proof (EnsureProject_robot _ _ _ Hx).
    quietly Hx (EnsureProject_quiet (hc := hc) (W_Namespace w)). by split_and!. }
  pose proof (EnsureProject_robot _ _ _ H1) as Hr1.
  pose proof (pull_cached_quiet w _ _ _ _ (EnsureProject_quiet (hc := hc) (W_Namespace w)) H1) as Hc1. quietly H1 (EnsureProject_quiet (hc := hc) (W_Namespace w)).
  apply exec_bindR in Hx as [(e & (? & Hx & _)%exec_wrap & ->)|(ms & σ2 & (? & H2 & _)%exec_wrap & Hx)].
  { left. pose proof (ReconcileProjectMembers_robot _ _ _ _ Hx) as Hr2.
    quietly Hx (ReconcileProjectMembers_quiet (hc := hc) (W_Namespace w) (harborMembers (W_Members w))).
    split_and!; [done|intros; by rewrite Hx, H1|congruence]. }
  pose proof (ReconcileProjectMembers_robot _ _ _ _ H2) as Hr2.
  pose proof (pull_cached_quiet w _ _ _ _
    (ReconcileProjectMembers_quiet (hc := hc) (W_Namespace w) (harborMembers (W_Members w))) H2) as Hc2.
  quietly H2 (ReconcileProjectMembers_quiet (hc := hc) (W_Namespace w) (harborMembers (W_Members w))).
  right. exists σ2. apply exec_bindR in Hx as [(e & Hx & ->)|(creds & σ3 & Hx & Hr)].
  { exists (Err e), σ'. split_and!; [intros; by rewrite H2, H1|congruence|auto|done|done|done]. }
  exists (Ok creds), σ3. split_and!; [intros; by rewrite H2, H1|congruence|auto|done|].
  apply exec_bindR in Hr as [(e & Hs & ->)|([] & σ4 & Hs & Hr)].
  { exists (Err e). split; [|done]. unfold writePull, exec in *. by rewrite interp_bindR, Hs. }
  apply exec_bindR in Hr as [(e & He & ->)|([] & σ5 & He & Hr)].
  - exists (Err e). split; [|done]. unfold writePull, exec in *. by rewrite interp_bindR, Hs.
  - exec_inv. exists (Ok tt). split; [|done]. unfold writePull, exec in *. by rewrite interp_bindR, Hs.
Qed.

(** As long as the pull Secret is absent or holds the robot's credentials, every
    ReconcileHarbor whose cache has caught up with it keeps it so, and leaves it
    current when it succeeds. *)
Lemma ReconcileHarbor_pull_secret w version hc url σ r σ' :
  QuietClient hc → RobotClient (W := W) hc (W_Namespace w) → pull_cached w σ → pull_consistent w url σ →
  exec (ReconcileHarbor w version hc url) σ = Some (r, σ') →
  pull_consistent w url σ' ∧ (is_Ok r = true → pull_current w url σ').
Proof.
  intros Hq Hc Hcur Hcons Hx.
  apply exec_ReconcileHarbor_robot in Hx as [(Hv & Hv' & Hr)|(σ1 & r1 & σ2 & Hv1 & Hr1 & Hcur1%(.$ Hcur) & Hcr & Hx)]; [| |done..].
  { split; [|by rewrite Hv]. eapply pull_consistent_ext; [apply Hv'|exact Hr|exact Hcons]. }
  assert (pull_consistent w url σ1) as Hc1
    by (eapply pull_consistent_ext; [apply Hv1|exact Hr1|exact Hcons]).
  assert (view σ1 KSecret (pullKey w) = None ∨ is_Some (h_robot σ1)) as Hlive.
  { destruct Hc1 as [?|(s & id & creds & _ & -> & _)]; [by left|right; by eexists]. }
  pose proof (robotCredentials_robot w hc _ _ _ Hcur1 Hcr) as Hrobot.
  pose proof (pull_cached_quiet w _ _ _ _ (robotCredentials_quiet w hc) Hcr Hcur1) as Hcur2.
  pose proof (exec_quiet _ _ _ _ (robotCredentials_quiet w hc) Hcr) as Hv2.
  destruct r1 as [[creds|]|e].
  - destruct Hx as (rw & [_ Hw]%exec_writePull & ->); [|done]. destruct Hrobot as [[id Hid] Hnone].
    destruct (Hw id Hid) as [Hok Hany]. split; [|done]. apply Hany. rewrite Hv2.
    destruct Hlive as [?|[? Hs]]; [done|]. by destruct Hnone as [?|Hn]; [|rewrite Hn in Hs].
  - destruct Hx as (rw & [Hh Hw]%exec_writePull & _); [|done]. destruct Hrobot as ([s Hs] & _ & Hh2).
    assert (pull_current w url σ1) as Hheld by (destruct Hc1 as [Hn|?]; [by rewrite Hn in Hs|done]).
    assert (pull_current w url σ') as Hheld' by (eapply pull_current_ext; [..|exact Hheld]; congruence).
    split; [by right|done].
  - destruct Hx as [-> ->]. split; [|done]. destruct Hrobot as [Hn|[Hn|Hn]].
    + left. by rewrite Hv2.
    + destruct Hlive as [Hs|[? Hs]]; [left; by rewrite Hv2|by rewrite Hn in Hs].
    + eapply pull_consistent_ext; [by rewrite Hv2|exact Hn|done].
Qed.
End pull.

(** ** Property *)

Section properties.
Context {CL : CtrlLib} {HCL : CtrlLaws}.
Context {W : Type} {CW : Cluster W} {LW : CachedLaws W} {RH : RobotHost W} {RL : RobotHostLaws W}.
Implicit Types (w : Workspace) (σ : W).

(** C21. A Secret that is there, and that the reconciler's cache shows, is never
    rewritten while the robot is: no ReconcileHarbor, however it ends, changes
    either, whatever the Secret holds.  So, once the cache has caught up with
    it, credentials that work are not invalidated; and by the same token a
    Secret that lost touch with its robot (the robot was re-created and the
    write that should have followed failed, or the registry URL changed) is not
    repaired.  The condition on the cache is needed: while it lags behind the
    creation of the Secret, the robot is rotated (Lagging.v). *)
Theorem pull_secret_kept w version hc url σ secret robot r σ' :
  QuietClient hc → RobotClient (W := W) hc (W_Namespace w) → pull_cached w σ →
  view σ KSecret (pullKey w) = Some secret → h_robot σ = Some robot →
  exec (ReconcileHarbor w version hc url) σ = Some (r, σ') →
  view σ' KSecret (pullKey w) = Some secret ∧ h_robot σ' = Some robot.
Proof.
  intros Hq Hc Hcur Hs Hh Hx.
  apply exec_ReconcileHarbor_robot in Hx as [(_ & Hv & ->)|(σ1 & r1 & σ2 & Hv1 & Hr1 & Hcur1%(.$ Hcur) & Hcr & Hx)];
    [by rewrite Hv| |done..].
  pose proof (robotCredentials_robot w hc _ _ _ Hcur1 Hcr) as Hrobot.
  pose proof (pull_cached_quiet w _ _ _ _ (robotCredentials_quiet w hc) Hcr Hcur1) as Hcur2.
  pose proof (exec_quiet _ _ _ _ (robotCredentials_quiet w hc) Hcr) as Hv2.
  rewrite Hv1, Hs, Hr1, Hh in Hrobot. destruct r1 as [[creds|]|e].
  - by destruct Hrobot as [_ [?|?]].
  - destruct Hx as (rw & [Hh' Hw]%exec_writePull & _); [|done]. destruct Hrobot as (_ & _ & Hh2).
    by rewrite Hw, Hh', Hv2, Hh2, Hv1.
  - destruct Hx as [-> ->]. destruct Hrobot as [?|[?|Hh2]]; [done..|]. by rewrite Hv2, Hv1.
Qed.
End properties.
