(* ===== verification/RobotHttp.v ===== *)
(** The HTTP client of internal/harbor/client.go is a [RobotClient].

    [RobotLaws] states what Harbor's v2.0 API documents of the project lookup
    and of the robot endpoints, for the robot of one project towards one client
    acting alone: what a listing shows under its full name is the robot (the
    listing is paged, so it need not show it), creating it answers 201 with its
    credentials if there is none and is refused otherwise, and deleting it by ID
    removes it. *)
From S2P Require Import Prelude Errors Prog GoStd Api Effects Cluster Sync Fakes Labels Harbor.
From S2P Require Import HarborMembers HarborSync HarborPull.

Section requests.
Implicit Types (c : httpClient).

Definition projectPath (project : string) : string := "/api/v2.0/projects/" +:+ PathEscape project.
Definition robotListPath (id : Z) (project robot : string) : string :=
  robotsPath +:+ "?q=" +:+ QueryEscape (QueryEscape (robotQuery id project robot)).
Definition robotPath (id : Z) : string := robotsPath +:+ "/" +:+ pretty id.

(** Calls that leave the robots alone: everything but HTTP, reads, and the
    endpoints of projects. *)
Definition robotless c (o : obs sysE) : Prop :=
  match o with
  | Obs e _ =>
      match e with
      | HttpDo r => Req_Method r = "GET" ∨ Req_Method r = "HEAD" ∨
                    HasPrefix (Req_URL r) (client_baseURL c +:+ robotsPath) = false
      | _ => True
      end
  end.
End requests.

Section server.
Context {NL : NetLib} {W : Type} {CW : Cluster W} {RH : RobotHost W}.

Class RobotLaws (c : httpClient) (project : string) (projectID : Z) : Prop := {
  hr_project σ resp σ' id :
    serve _ (HttpDo (plainRequest c "GET" (projectPath project))) σ = Some (Ok resp, σ') →
    StatusCode resp = StatusOK → Decode_projectID (Body resp) = Ok id → id = projectID;
  hr_list σ resp σ' l :
    serve _ (HttpDo (plainRequest c "GET" (robotListPath projectID project project))) σ = Some (Ok resp, σ') →
    StatusCode resp = StatusOK → Decode_robots (Body resp) = Ok l →
    ∀ ref, ref ∈ l → Robot_Name ref = robotFullName project project →
      ∃ creds, h_robot σ = Some (Robot_ID ref, creds);
  hr_create σ resp σ' creds :
    serve _ (HttpDo (jsonRequest c "POST" robotsPath (createRobotBody project project))) σ = Some (Ok resp, σ') →
    h_robot σ = None →
    StatusCode resp ≠ StatusConflict ∧
    (StatusCode resp = StatusCreated → Decode_createdRobot (Body resp) = Ok creds →
     ∃ id, h_robot σ' = Some (id, creds));
  hr_exists σ x σ' robot :
    serve _ (HttpDo (jsonRequest c "POST" robotsPath (createRobotBody project project))) σ = Some (x, σ') →
    h_robot σ = Some robot →
    h_robot σ' = Some robot ∧ ∀ resp, x = Ok resp → StatusCode resp ≠ StatusCreated;
  hr_delete σ id creds resp σ' :
    h_robot σ = Some (id, creds) →
    serve _ (HttpDo (plainRequest c "DELETE" (robotPath id))) σ = Some (Ok resp, σ') →
    StatusCode resp = StatusOK ∨ StatusCode resp = StatusNotFound → h_robot σ' = None;
  hr_frame X (e : sysE X) σ x σ' :
    serve X e σ = Some (x, σ') → robotless c (Obs e x) → h_robot σ' = h_robot σ;
}.
End server.

Section implementation.
Context {NL : NetLib} {W : Type} {CW : Cluster W} {LW : CachedLaws W} {RH : RobotHost W}.
Context (c : httpClient) (project : string) (projectID : Z) {HL : RobotLaws c project projectID}.
Implicit Types (σ : W).

Lemma exec_robotless {A} (p : io A) σ a σ' :
  emits (robotless c) p → exec p σ = Some (a, σ') → h_robot σ' = h_robot σ.
Proof. apply exec_keeps. intros X e σ0 x σ1. apply hr_frame. Qed.

(** The shape of a call: one exchange, its body closed. *)
Lemma exec_exchange {A} method path body (f : Response → io (result A)) σ r σ' :
  (∀ resp, ∃ a, f resp = Ret a) →
  exec (resp ←? do_ c method path body; deferClose resp (f resp)) σ = Some (r, σ') →
  (∃ e, r = Err e ∧ (exec (do_ c method path body) σ = Some (Err e, σ'))) ∨
  ∃ resp σ1, exec (do_ c method path body) σ = Some (Ok resp, σ1) ∧ f resp = Ret r ∧ h_robot σ' = h_robot σ1.
Proof.
  intros Hf [(e & Hx & ->)|(resp & σ1 & Hx & Hr)]%exec_bindR; [left; eauto|right].
  exists resp, σ1. split; [done|]. destruct (Hf resp) as [a Ha]. rewrite Ha in *.
  apply exec_bind in Hr as (a' & σ2 & [-> ->]%exec_ret & Hr).
  apply exec_bind in Hr as ([] & σ2 & Hc%exec_trigger & [-> ->]%exec_ret).
  split; [done|]. by eapply hr_frame.
Qed.

(** ** The project's endpoints *)

Lemma prefix_app_same base p s : String.prefix (base +:+ p) (base +:+ s) = String.prefix p s.
Proof. induction base as [|a base IH]; simpl; [done|]. destruct (ascii_dec a a); [exact IH|done]. Qed.

Lemma do_read_robotless method path body :
  method = "GET" ∨ method = "HEAD" → emits (robotless c) (do_ c method path body).
Proof.
  intros Hm. unfold do_. destruct (NewRequest_error _ _); [done|]. intros x. split; [|done].
  destruct Hm as [-> | ->]; [by left|by right; left].
Qed.

Lemma do_project_robotless method path body :
  emits (robotless c) (do_ c method ("/api/v2.0/projects" +:+ path) body).
Proof.
  unfold do_. destruct (NewRequest_error _ _); [done|]. intros x. split; [|done]. right. right.
  unfold HasPrefix. cbn [Req_URL]. by rewrite prefix_app_same.
Qed.

Lemma deferClose_robotless {A} resp (p : io A) : emits (robotless c) p → emits (robotless c) (deferClose resp p).
Proof. intros Hp. apply emits_bind; [done|]. intros a. apply emits_bind; [|done]. by apply emits_trigger. Qed.

#[local] Hint Resolve do_read_robotless do_project_robotless deferClose_robotless : progs.

Lemma member_robotless method suffix body :
  emits (robotless c) (do_ c method (membersPath project +:+ suffix) body).
Proof.
  assert (membersPath project +:+ suffix = "/api/v2.0/projects" +:+ ("/" +:+ project +:+ "/members" +:+ suffix)) as ->;
    [|apply do_project_robotless].
  unfold membersPath. change ("/api/v2.0/projects/") with ("/api/v2.0/projects" +:+ "/").
  by rewrite <-!(assoc_L String.append).
Qed.

Lemma EnsureProject_robotless : emits (robotless c) (httpEnsureProject c project).
Proof.
  unfold httpEnsureProject, projectExists, doJSON. apply emits_bindR.
  - apply emits_wrap, emits_bindR; [apply do_read_robotless; by right|]. intros resp.
    apply deferClose_robotless. by repeat case_bool_decide.
  - intros []; [done|]. apply emits_bindR; [apply emits_wrap; apply (do_project_robotless "POST" "")|].
    intros resp. apply deferClose_robotless. by repeat case_bool_decide.
Qed.

Lemma syncDesired_robotless desired existing missing :
  emits (robotless c) (syncDesired c (membersPath project) desired existing missing).
Proof.
  revert existing missing. induction desired as [|d desired IH]; intros existing missing; simpl; [done|].
  destruct (existing !! _) as [cur|].
  - apply emits_bindR; [|done]. case_bool_decide; [|done]. apply emits_wrap. unfold updateProjectMember, doJSON.
    apply emits_bindR; [apply member_robotless|]. intros resp. apply deferClose_robotless. by case_bool_decide.
  - apply emits_bind; [|intros [|e]; [done|by destruct (IsErrUserNotFound e)]].
    unfold addProjectMember, doJSON. apply emits_bindR.
    + exact (do_project_robotless "POST" ("/" +:+ project +:+ "/members") _).
    + intros resp. apply deferClose_robotless. by repeat case_bool_decide.
Qed.

Lemma members_robotless desired : emits (robotless c) (httpReconcileProjectMembers c project desired).
Proof.
  unfold httpReconcileProjectMembers. apply emits_bindR; [apply emits_wrap, do_read_robotless; by left|].
  intros resp. apply deferClose_robotless. case_bool_decide; [done|].
  destruct (Decode_existingMembers _) as [existing|e]; [|done].
  apply emits_bindR; [apply syncDesired_robotless|]. intros [rest missing].
  apply emits_bind; [by apply emits_bind; [apply emits_trigger|]|]. intros stale.
  apply emits_bindR; [|done]. apply emits_forR. intros x. apply emits_wrap. unfold deleteProjectMember.
  apply emits_bindR; [apply member_robotless|]. intros resp'. apply deferClose_robotless. by case_bool_decide.
Qed.

(** ** The robot's endpoints *)

Lemma exec_findRobot σ r σ' :
  exec (findRobot c project project) σ = Some (r, σ') →
  h_robot σ' = h_robot σ ∧
  match r with
  | Ok (Some ref) => ∃ creds, h_robot σ = Some (Robot_ID ref, creds)
  | _ => True
  end.
Proof.
  intros Hx. split.
  { eapply exec_robotless; [|exact Hx]. unfold findRobot, getProjectID. apply emits_bindR.
    - apply emits_bindR; [apply do_read_robotless; by left|]. intros resp.
      apply deferClose_robotless. by repeat case_match.
    - intros id. apply emits_bindR; [apply do_read_robotless; by left|]. intros resp.
      apply deferClose_robotless. by repeat case_match. }
  apply exec_bindR in Hx as [(e & _ & ->)|(id & σ1 & Hp & Hx)]; [done|].
  apply exec_exchange in Hp as [(e & [=] & _)|(resp & σp & Hp%exec_do_plain & Hid & Hh1)];
    [|intros resp; repeat case_match; by eexists].
  assert (id = projectID ∧ h_robot σp = h_robot σ) as [-> Hhp].
  { split; [|eapply hr_frame; [exact Hp|by left]]. case_bool_decide as Hst; [discriminate Hid|].
    destruct (Decode_projectID (Body resp)) as [id'|] eqn:Hd; [|discriminate Hid].
    injection Hid as <-. by eapply hr_project. }
  apply exec_exchange in Hx as [(e & -> & _)|(resp2 & σ2 & Hl%exec_do_plain & Hr & _)];
    [done| |intros resp'; repeat case_match; by eexists].
  case_bool_decide as Hst; [by injection Hr as <-|].
  destruct (Decode_robots (Body resp2)) as [l|] eqn:Hd; [|by injection Hr as <-]. injection Hr as <-.
  pose proof (hr_list _ _ _ _ Hl Hst Hd) as Hids. rewrite Hh1, Hhp in Hids.
  destruct (List.find _ l) as [ref|] eqn:Hf; [|done].
  apply List.find_some in Hf as [Hin%list_elem_of_In Hn%bool_decide_eq_true]. by apply Hids.
Qed.

(** Creating it where there is one: it stays, and nothing is handed out. *)
Lemma exec_createRobot_exists σ r σ' robot :
  exec (createRobot c project project) σ = Some (r, σ') → h_robot σ = Some robot →
  h_robot σ' = Some robot ∧ (is_Ok r = true → r = Ok None).
Proof.
  intros Hx Hh. apply exec_bindR in Hx as [(e & (r1 & Hx & Hw)%exec_wrap & ->)|(resp & σ1 & (r1 & Hx & Hw)%exec_wrap & Hr)].
  - split; [|done]. unfold doJSON, do_ in Hx. destruct (NewRequest_error _ _); [by exec_inv|].
    apply exec_trigger in Hx. by eapply hr_exists.
  - symmetry in Hw. apply wrapR_Ok in Hw as ->. apply exec_doJSON in Hx.
    destruct (hr_exists _ _ _ _ Hx Hh) as [Hh1 Hst]. specialize (Hst resp eq_refl).
    apply exec_bind in Hr as (a & σ2 & Hf & (u & σ3 & Hc%exec_trigger & [<- ->]%exec_ret)%exec_bind).
    apply hr_frame in Hc; [|done]. rewrite bool_decide_eq_false_2 in Hf by done.
    case_bool_decide; exec_inv; by rewrite Hc.
Qed.

(** Creating the robot where there is none. *)
Lemma exec_createRobot σ creds σ' :
  exec (createRobot c project project) σ = Some (Ok creds, σ') → h_robot σ = None →
  ∃ id creds', creds = Some creds' ∧ h_robot σ' = Some (id, creds').
Proof.
  intros Hx Hnone. apply exec_bindR in Hx as [(e & _ & [=])|(resp & σ1 & (r1 & Hx & Hw)%exec_wrap & Hr)].
  symmetry in Hw. apply wrapR_Ok in Hw as ->. apply exec_doJSON in Hx.
  apply exec_bind in Hr as (a & σ2 & Hf & (u & σ3 & Hc%exec_trigger & [<- ->]%exec_ret)%exec_bind).
  apply hr_frame in Hc; [|done]. case_bool_decide as Hst.
  - destruct (Decode_createdRobot (Body resp)) as [result|] eqn:Hd; [|by exec_inv].
    case_bool_decide; exec_inv. destruct (proj2 (hr_create _ _ _ result Hx Hnone) Hst Hd) as [id Hid].
    exists id, result. split; [done|]. by rewrite Hc.
  - case_bool_decide as Hcf; exec_inv. by destruct (hr_create _ _ _ (mkRobotCredentials "" "") Hx Hnone).
Qed.

Lemma exec_deleteRobot σ id creds σ' :
  h_robot σ = Some (id, creds) → exec (deleteRobot c id) σ = Some (Ok tt, σ') → h_robot σ' = None.
Proof.
  intros Hh Hx. apply exec_bindR in Hx as [(e & _ & [=])|(resp & σ1 & (r1 & Hx & Hw)%exec_wrap & Hr)].
  symmetry in Hw. apply wrapR_Ok in Hw as ->. apply exec_do_plain in Hx.
  apply exec_bind in Hr as (a & σ2 & Hf & (u & σ3 & Hc%exec_trigger & [<- ->]%exec_ret)%exec_bind).
  apply hr_frame in Hc; [|done]. rewrite Hc.
  destruct (bool_decide (StatusCode resp ≠ StatusOK)) eqn:H1; simpl in Hf;
    [destruct (bool_decide (StatusCode resp ≠ StatusNotFound)) eqn:H2; simpl in Hf|]; exec_inv;
    eapply hr_delete; try done.
  - right. by apply bool_decide_eq_false, dec_stable in H2.
  - left. by apply bool_decide_eq_false, dec_stable in H1.
Qed.
End implementation.

(** The client the reconciler makes keeps the promises. *)
#[export] Instance NewClient_robot {NL : NetLib} {W : Type} {CW : Cluster W} {LW : CachedLaws W} {RH : RobotHost W}
  url name secret project projectID :
  RobotLaws (mkHttpClient (TrimRight url ["/"%char]) name secret) project projectID →
  RobotClient (W := W) (NewClient url name secret) project.
Proof.
  intros HL. pose proof (exec_findRobot _ project projectID) as Hfind.
  pose proof (exec_createRobot _ project projectID) as Hcreate.
  pose proof (exec_createRobot_exists _ project projectID) as Hexists.
  pose proof (exec_deleteRobot _ project projectID) as Hdelete. split; simpl.
  - intros σ r σ'. apply (exec_robotless _ project projectID), EnsureProject_robotless.
  - intros ms σ r σ'. apply (exec_robotless _ project projectID), members_robotless.
  - intros σ r σ' [(e & (r1 & [Hh _]%Hfind & _)%exec_wrap & ->)
      |(found & σ1 & (r1 & [Hh Hf]%Hfind & Hw)%exec_wrap & Hx)]%exec_bindR.
    + by destruct (h_robot σ).
    + symmetry in Hw. apply wrapR_Ok in Hw as ->. destruct found as [ref|].
      * destruct Hf as (creds & Hs). rewrite Hs in *. by exec_inv.
      * rewrite <-Hh. destruct (h_robot σ1) as [robot|] eqn:Hs; [by eapply Hexists|].
        intros creds ->. by eapply Hcreate.
  - intros σ creds σ' [(e & _ & [=])|(found & σ1 & (r1 & [Hh Hf]%Hfind & Hw)%exec_wrap & Hx)]%exec_bindR.
    symmetry in Hw. apply wrapR_Ok in Hw as ->. destruct found as [ref|]; [|by exec_inv].
    destruct Hf as (old & Hs).
    apply exec_bindR in Hx as [(e & _ & [=])|([] & σ2 & Hd & Hx)].
    eapply Hdelete in Hd; [|by rewrite Hh].
    apply exec_bindR in Hx as [(e & _ & [=])|(result & σ3 & (r3 & Hx & Hw)%exec_wrap & Hr)].
    symmetry in Hw. apply wrapR_Ok in Hw as ->.
    eapply Hcreate in Hx as (id & creds' & -> & Hn); [|done]. exec_inv. by exists id.
Qed.
