(* ===== verification/RobotFake.v ===== *)
(** An in-memory Harbor with the robot of one project: it satisfies
    [RobotLaws], so the hypotheses on robots are consistent, and witnesses run
    against it. *)
From S2P Require Import Prelude Errors Prog GoStd Api Effects Cluster Backed Fakes Labels Harbor.
From S2P Require Import HarborMembers HarborFake HarborSync HarborPull RobotHttp.

(** It accepts every other request, and has no members.  The server's documents:
    the listing of an existing robot is any non-empty
    body, and a creation answers with the secret. *)
Definition exampleRobotID : Z := 5.
Definition exampleProjectID : Z := 7.

Definition robotWorldLib : NetLib := {|
  NewRequest_error := @NewRequest_error fakeNetLib;
  url_Parse := @url_Parse fakeNetLib;
  Quote := @Quote fakeNetLib;
  Decode_existingMembers := @Decode_existingMembers fakeNetLib;
  Decode_projectID _ := Ok exampleProjectID;
  Decode_robots body :=
    Ok (if bool_decide (body = "") then []
        else [mkRobotRef exampleRobotID (robotFullName exampleProject exampleProject)]);
  Decode_createdRobot body := Ok (mkRobotCredentials (robotFullName exampleProject exampleProject) body);
|}.

(** The robot's credentials, the secrets given so far, and the API server. *)
Record robotWorld := mkRobotWorld {
  rw_robot : option RobotCredentials;
  rw_count : nat;
  rw_mem : memory;
}.

Definition secretOf (n : nat) : string := "secret-" +:+ pretty n.

Definition rw_list : Request :=
  plainRequest exampleClient "GET" (robotListPath exampleProjectID exampleProject exampleProject).
Definition rw_create : Request :=
  jsonRequest exampleClient "POST" robotsPath (createRobotBody exampleProject exampleProject).
Definition rw_delete : Request := plainRequest exampleClient "DELETE" (robotPath exampleRobotID).

Definition rw_http (r : Request) (σ : robotWorld) : result Response * robotWorld :=
  if bool_decide (r = rw_list) then
    (Ok (mkResponse StatusOK (if rw_robot σ then "1" else "")), σ)
  else if bool_decide (r = rw_create) then
    match rw_robot σ with
    | Some _ => (status StatusConflict, σ)
    | None =>
        let creds := mkRobotCredentials (robotFullName exampleProject exampleProject) (secretOf (rw_count σ)) in
        (Ok (mkResponse StatusCreated (secretOf (rw_count σ))),
         mkRobotWorld (Some creds) (S (rw_count σ)) (rw_mem σ))
    end
  else if bool_decide (r = rw_delete) then
    (status (if rw_robot σ then StatusOK else StatusNotFound), mkRobotWorld None (rw_count σ) (rw_mem σ))
  else (status (if bool_decide (Req_Method r = "POST") then StatusCreated else StatusOK), σ).

#[export] Instance robotWorld_backed : Backed robotWorld := {|
  back := rw_mem;
  set_back m σ := mkRobotWorld (rw_robot σ) (rw_count σ) m;
  respond := rw_http;
|}.

#[export] Instance robotWorld_cluster : Cluster robotWorld := backed_cluster.

#[export] Instance robotWorld_backed_laws : BackedLaws robotWorld.
Proof.
  split; simpl.
  - done.
  - intros r σ. unfold rw_http. by repeat case_match.
  - intros r σ e. unfold rw_http, status. repeat case_match; simpl; intros Hr; discriminate Hr.
Qed.

Lemma robotWorld_laws : ClusterLaws robotWorld.
Proof. apply backed_laws. Qed.

Lemma robotWorld_cached : CachedLaws robotWorld.
Proof. apply backed_cached_laws. Qed.

#[export] Instance robotWorld_host : RobotHost robotWorld :=
  {| h_robot σ := (fun creds => (exampleRobotID, creds)) <$> rw_robot σ |}.

#[export] Instance robotWorld_host_laws : RobotHostLaws robotWorld.
Proof.
  split. intros X e σ x σ' Hs He.
  destruct (backed_serve_other (W := robotWorld) _ _ _ _ _ Hs) as [m ->]; [|done]. by destruct e.
Qed.

Lemma rw_serve_http r σ x σ' : serve _ (HttpDo r) σ = Some (x, σ') → rw_http r σ = (x, σ').
Proof. exact (backed_serve_http (W := robotWorld) r σ x σ'). Qed.

(** Requests the robot does not depend on. *)
Lemma rw_http_robotless r σ :
  Req_Method r = "GET" ∨ Req_Method r = "HEAD" ∨
    HasPrefix (Req_URL r) (client_baseURL exampleClient +:+ robotsPath) = false →
  (rw_http r σ).2 = σ.
Proof.
  intros Hr. unfold rw_http. case_bool_decide; [done|].
  case_bool_decide; [subst; by destruct Hr as [[=]|[[=]|[=]]]|].
  case_bool_decide; [subst; by destruct Hr as [[=]|[[=]|[=]]]|done].
Qed.

Lemma robotWorld_robots :
  RobotLaws (NL := robotWorldLib) (W := robotWorld) exampleClient exampleProject exampleProjectID.
Proof.
  split; simpl.
  - by intros σ resp σ' id _ _ [= <-].
  - intros σ resp σ' l Hs%rw_serve_http _ [= <-]. unfold rw_http in Hs. rewrite bool_decide_eq_true_2 in Hs by done.
    injection Hs as <- <-. simpl. destruct (rw_robot σ) as [creds|]; simpl.
    + intros ref ->%list_elem_of_singleton _. by exists creds.
    + by intros ref ?%elem_of_nil.
  - intros σ resp σ' creds Hs%rw_serve_http Hn. unfold rw_http in Hs.
    rewrite bool_decide_eq_false_2, bool_decide_eq_true_2 in Hs by done.
    destruct (rw_robot σ); [discriminate Hn|]. injection Hs as <- <-. split; [done|].
    intros _ [= <-]. by eexists.
  - intros σ x σ' robot Hs%rw_serve_http Hh. unfold rw_http in Hs.
    rewrite bool_decide_eq_false_2, bool_decide_eq_true_2 in Hs by done. simpl in Hh.
    destruct (rw_robot σ) as [creds|] eqn:Hr; [|discriminate Hh]. injection Hs as <- <-. split; [|by intros ? [= <-]].
    simpl. by rewrite Hr.
  - intros σ id creds resp σ' Hh Hs%rw_serve_http _. simpl in Hh.
    apply fmap_Some in Hh as (? & Hr & [= -> ->]). unfold rw_http in Hs.
    rewrite bool_decide_eq_false_2, bool_decide_eq_false_2, bool_decide_eq_true_2 in Hs by done.
    by injection Hs as <- <-.
  - intros X e σ x σ' Hs Hh. destruct (is_http e) eqn:He.
    + destruct e; try discriminate He. apply rw_serve_http in Hs.
      pose proof (rw_http_robotless _ σ Hh) as Hr. rewrite Hs in Hr. simpl in Hr. by subst.
    + by destruct (backed_serve_other (W := robotWorld) _ _ _ _ _ Hs He) as [m ->].
Qed.
