(* ===== verification/Lagging.v ===== *)
(** What happens while the reconciler's cache lags.

    The client of cmd/main.go reads from a cache.  [lagging] makes of any cluster
    one whose client has not yet seen the creation of some objects: a read of
    them says NotFound, a create of them AlreadyExists.  It obeys [CachedLaws],
    so what HarborPull.v and Pulls.v prove of a cache that has caught up cannot
    be had without that condition. *)
From S2P Require Import Prelude Errors Prog GoStd Api Effects Cluster Sync Stage Fakes Labels Harbor.
From S2P Require Import HarborMembers HarborSync HarborPull RobotHttp.

(** The objects whose creation the cache has not seen. *)
Record lagging (W : Type) := mkLagging {
  behind : gset (Kind * ObjectKey);
  real : W;
}.
Arguments mkLagging {W} _ _.
Arguments behind {W} _.
Arguments real {W} _.

Definition alreadyExists : error := StatusError (StatusReasonOther "AlreadyExists") "already exists".

Section lagging.
Context {W : Type} {CW : Cluster W}.
Implicit Types (L : lagging W).

Definition lift {X} (e : sysE X) L : option (X * lagging W) :=
  match serve X e (real L) with
  | Some (x, σ) => Some (x, mkLagging (behind L) σ)
  | None => None
  end.

Definition hidden L (k : Kind) (key : ObjectKey) : bool := bool_decide ((k, key) ∈ behind L).

(** CreateOrUpdate over an object the cache does not show: the literal goes
    through the mutate function, and creating it fails. *)
Definition lagging_serve : handler sysE (lagging W) := fun X e L =>
  match e in sysE X return option (X * lagging W) with
  | ClientGet k key => if hidden L k key then Some (Err notFound, L) else lift (ClientGet k key) L
  | CreateOrUpdateE k key f =>
      if hidden L k key && bool_decide (is_Some (view (real L) k key)) then
        Some (match f (literal k key) with Ok _ => Err alreadyExists | Err e => Err e end, L)
      else lift (CreateOrUpdateE k key f) L
  | e => lift e L
  end.

#[export] Instance lagging_cluster : Cluster (lagging W) := {|
  serve := lagging_serve;
  view L := view (real L);
  cache L k key := if hidden L k key then None else cache (real L) k key;
|}.

Context {LW : ClusterLaws W}.

Lemma lift_Some {X} (e : sysE X) L x L' :
  lift e L = Some (x, L') → behind L' = behind L ∧ serve X e (real L) = Some (x, real L').
Proof. unfold lift. destruct (serve X e (real L)) as [[y σ]|]; [|done]. by intros [= <- <-]. Qed.

(** Every call keeps the cache where it is, and is the cluster's own or leaves
    the cluster alone. *)
Lemma lagging_call X (e : sysE X) L x L' :
  serve X e L = Some (x, L') →
  behind L' = behind L ∧ (real L' = real L ∨ serve X e (real L) = Some (x, real L')).
Proof.
  intros Hs. destruct e; simpl in Hs; try by (apply lift_Some in Hs as [? ?]; split; [done|right]).
  - destruct (hidden L k key); [|by apply lift_Some in Hs as [? ?]; split; [done|right]].
    injection Hs as <- <-. by split; [done|left].
  - destruct (_ && _); [|by apply lift_Some in Hs as [? ?]; split; [done|right]].
    injection Hs as <- <-. by split; [done|left].
Qed.

Lemma hidden_behind L L' k key : behind L' = behind L → hidden L' k key = hidden L k key.
Proof. unfold hidden. by intros ->. Qed.

Lemma lagging_write k key (f : obj k → result (obj k)) L r L' :
  serve _ (CreateOrUpdateE k key f) L = Some (r, L') →
  cached_create_or_update key f (cache L k key) (view L k key) r (view L' k key).
Proof.
  simpl. destruct (hidden L k key) eqn:Hh; simpl.
  - case_bool_decide as Hv.
    + intros [= <- <-]. destruct (f (literal k key)) as [o|e] eqn:Hf; [by apply ccou_failed|by apply ccou_refused].
    + unfold lift. destruct (serve _ _ _) as [[y σ]|] eqn:Hs; [|done]. intros [= <- <-].
      apply serve_create_or_update in Hs. apply eq_None_not_Some in Hv. rewrite Hv in *. by apply ccou_current.
  - unfold lift. destruct (serve _ _ _) as [[y σ]|] eqn:Hs; [|done]. intros [= <- <-].
    apply serve_create_or_update in Hs. rewrite (caught_up (real L) k key). by apply ccou_current.
Qed.

Lemma lagging_laws : CachedLaws (lagging W).
Proof.
  split.
  - intros k key L r L'. simpl. destruct (hidden L k key); [by intros [= <- <-]|].
    unfold lift. destruct (serve _ _ _) as [[y σ]|] eqn:Hs; [|done]. intros [= <- <-]. by apply cached_get in Hs.
  - intros k key f L r L'. apply lagging_write.
  - intros p L r L' [_ Hs]%(lift_Some (ClientUpdateWorkspace p)). by apply serve_update in Hs.
  - intros k key L r L' [_ Hs]%(lift_Some (ClientDelete k key)). by apply serve_delete in Hs.
  - intros base p L r L' [_ Hs]%(lift_Some (ClientStatusPatch base p)). by apply serve_status_patch in Hs.
  - intros req L e L' [_ Hs]%(lift_Some (HttpDo req)). by eapply serve_http.
  - intros X e L x L' k key [_ [Hr|Hs]]%lagging_call Hw; simpl; [by rewrite Hr|]. by eapply serve_frame.
  - intros L k key o. apply (view_created (W := W)).
  - intros X e L x L' k key [Hb Hs]%lagging_call Hw Hc.
    assert (view (real L') k key = view (real L) k key) as Hv.
    { destruct Hs as [->|Hs]; [done|]. by eapply serve_frame. }
    unfold current in *. simpl in *. rewrite Hv, (hidden_behind _ _ _ _ Hb). destruct (hidden L k key); [done|].
    rewrite <-Hv. apply caught_up.
Qed.

(** The cache never catches up in between. *)
Lemma exec_behind {A} (p : io A) L a L' : exec p L = Some (a, L') → behind L' = behind L.
Proof.
  apply (exec_keeps behind (fun _ => True)).
  - intros X e L0 x L1 Hs _. by apply lagging_call in Hs as [? _].
  - induction p as [b|X e c IH]; simpl; [done|]. intros x. by split.
Qed.

(** ** The robot *)

Context {RH : RobotHost W} {RL : RobotHostLaws W}.

#[export] Instance lagging_host : RobotHost (lagging W) := {| h_robot L := h_robot (real L) |}.

#[export] Instance lagging_host_laws : RobotHostLaws (lagging W).
Proof.
  split. intros X e L x L' [_ [Hr|Hs]]%lagging_call Hn; simpl; [by rewrite Hr|]. by eapply h_robot_calls.
Qed.

Lemma lagging_robots {NL : NetLib} c project projectID :
  RobotLaws (W := W) c project projectID → RobotLaws (W := lagging W) c project projectID.
Proof.
  intros [H1 H2 H3 H4 H5 H6]. split.
  - intros L resp L' id [_ Hs]%(lift_Some (HttpDo _)). by eapply H1.
  - intros L resp L' l [_ Hs]%(lift_Some (HttpDo _)). by eapply H2.
  - intros L resp L' creds [_ Hs]%(lift_Some (HttpDo _)). by eapply H3.
  - intros L x L' robot [_ Hs]%(lift_Some (HttpDo _)). by eapply H4.
  - intros L id creds resp L' Hh [_ Hs]%(lift_Some (HttpDo _)) Hst. exact (H5 _ _ _ _ _ Hh Hs Hst).
  - intros X e L x L' [_ [Hr|Hs]]%lagging_call Hn; simpl; [by rewrite Hr|]. by eapply H6.
Qed.

(** ** ReconcileHarbor *)

Context {CL : CtrlLib} {HCL : CtrlLaws} {NL : NetLib}.
Implicit Types (w : Workspace).

#[local] Existing Instance lagging_laws.

(** Credentials are obtained anew, and are those of the robot there is then. *)
Lemma robotCredentials_lagging w hc `{!QuietClient hc, !RobotClient (W := lagging W) hc (W_Namespace w)} L c L' :
  hidden L KSecret (pullKey w) = true → exec (robotCredentials w hc) L = Some (Ok c, L') →
  ∃ id new, c = Some new ∧ h_robot L' = Some (id, new).
Proof.
  intros Hh Hx. unfold robotCredentials in Hx.
  apply exec_bindR in Hx as [(e & _ & [=])|(c1 & L1 & (r1 & Hx & Hw)%exec_wrap & Hr)].
  pose proof (exec_behind _ _ _ _ Hx) as Hb. symmetry in Hw. apply wrapR_Ok in Hw as ->.
  destruct c1 as [creds|].
  { apply EnsureRobot_robot in Hx. exec_inv. destruct (h_robot L); [by destruct Hx as [_ [=]%(.$ eq_refl)]|].
    destruct (Hx _ eq_refl) as (id & new & [= <-] & Hid). by exists id, creds. }
  apply exec_bindR in Hr as [(e & _ & [=])|(m & L2 & [Hs _]%imagePullSecretMissing_cached & Hr)].
  simpl in Hs. fold (pullKey w) in Hs. rewrite (hidden_behind L L1 _ _ Hb), Hh in Hs.
  destruct m; [|by destruct (proj2 Hs eq_refl)].
  apply exec_bindR in Hr as [(e & _ & [=])|(new & L3 & (r2 & Hr & Hw)%exec_wrap & Hx2)].
  symmetry in Hw. apply wrapR_Ok in Hw as ->. exec_inv.
  destruct (RefreshRobotSecret_robot _ _ _ Hr) as [id Hid]. by exists id, new.
Qed.

(** Creating the Secret fails, and leaves it. *)
Lemma writePull_lagging w version url creds L r L' :
  hidden L KSecret (pullKey w) = true → is_Some (view L KSecret (pullKey w)) →
  exec (writePull w version url (Some creds)) L = Some (r, L') → is_Ok r = false ∧ L' = L.
Proof.
  intros Hh Hv Hx. assert (∀ x L1, exec (reconcileImagePullSecret w version url creds) L = Some (x, L1) →
    is_Ok x = false ∧ L1 = L) as Hfail.
  { intros x L1 Hr. apply exec_bindR in Hr as [(e & (r1 & Hc%exec_trigger & _)%exec_wrap & ->)
      |(op & L2 & (r1 & Hc%exec_trigger & Hw)%exec_wrap & _)]; simpl in Hc; fold (pullKey w) in Hc;
      rewrite Hh, bool_decide_eq_true_2 in Hc by done; injection Hc as <- ->; [done|].
    symmetry in Hw. apply wrapR_Ok in Hw. by destruct (pullSecretMutate _ _ _ _). }
  apply exec_bindR in Hx as [(e & Hx & ->)|([] & L1 & Hx & _)]; apply Hfail in Hx as [Hr ->]; [done|discriminate Hr].
Qed.

(** ** Property *)

(** C22. Pull credentials while the cache lags.  As long as the reconciler's cache
    has not seen the creation of the pull Secret, every ReconcileHarbor fails
    and leaves the Secret as it is.  But the credentials step, which takes the
    Secret for missing, is not harmless: if it is reached and succeeds, the robot
    was given new credentials, and the Secret does not get them.  (The witness
    runs it: the Secret was current, is stale afterwards, and stays so when the
    cache has caught up and ReconcileHarbor reports success again.) *)
Theorem lagging_cache_strands_secret w version hc url L secret r L' :
  QuietClient hc → RobotClient (W := lagging W) hc (W_Namespace w) →
  (KSecret, pullKey w) ∈ behind L → view L KSecret (pullKey w) = Some secret →
  exec (ReconcileHarbor w version hc url) L = Some (r, L') →
  is_Ok r = false ∧ view L' KSecret (pullKey w) = Some secret ∧
  (h_robot L' = h_robot L ∨
   ∃ L1 obtained, h_robot L1 = h_robot L ∧ exec (robotCredentials w hc) L1 = Some (obtained, L') ∧
     ∀ creds, obtained = Ok creds → ∃ id new, creds = Some new ∧ h_robot L' = Some (id, new)).
Proof.
  intros Hq Hc Hb Hv Hx. pose proof (exec_behind _ _ _ _ Hx) as Hb'.
  apply exec_ReconcileHarbor_robot in Hx as [(Hr & Hv' & Hh)|(L1 & r1 & L2 & Hv1 & Hh1 & _ & Hcr & Hx)]; [| |done..].
  { rewrite Hv'. by split_and!; [| |left]. }
  pose proof (exec_behind _ _ _ _ Hcr) as Hb2.
  assert (view L2 KSecret (pullKey w) = Some secret) as Hv2.
  { rewrite <-Hv, <-Hv1. apply (exec_quiet _ _ _ _ (robotCredentials_quiet w hc) Hcr). }
  assert (behind L' = behind L2) as Hb3.
  { destruct r1; [destruct Hx as (rw & Hx & _); by eapply exec_behind|by destruct Hx as [_ ->]]. }
  assert (∀ L0, behind L0 = behind L → hidden L0 KSecret (pullKey w) = true) as Hhid.
  { intros L0 Heq. unfold hidden. rewrite Heq. by apply bool_decide_eq_true_2. }
  destruct r1 as [c|e].
  - destruct Hx as (rw & Hx & Hok).
    destruct (robotCredentials_lagging w hc L1 c L2 (Hhid L1 ltac:(congruence)) Hcr) as (id & new & -> & Hid).
    apply writePull_lagging in Hx as [Hrw ->]; [|apply Hhid; congruence|by eexists].
    split_and!; [congruence|done|right]. exists L1, (Ok (Some new)). split_and!; [done..|].
    intros c [= <-]. by exists id, new.
  - destruct Hx as [-> ->]. split_and!; [done..|right]. by exists L1, (Err e).
Qed.
End lagging.
