(* ===== verification/Encoding.v ===== *)
(** Round trips of the encodings the program relies on others to undo: the
    base64 of the registry credentials, and the doubly escaped robot query. *)
From S2P Require Import Prelude Errors Prog GoStd Api Effects Harbor Labels HarborSync.

(** Division by constants is part of linear arithmetic in this file. *)
#[local] Ltac Zify.zify_post_hook ::= Z.to_euclidean_division_equations.

(** ** base64 *)

(** The value of a digit of the standard alphabet. *)
Definition base64_value (c : ascii) : option N :=
  let n := byte c in
  if in_range "A" c "Z" then Some (n - 65)%N
  else if in_range "a" c "z" then Some (n - 71)%N
  else if in_range "0" c "9" then Some (n + 4)%N
  else if bool_decide (c = "+"%char) then Some 62%N
  else if bool_decide (c = "/"%char) then Some 63%N
  else None.

(** A decoder of RFC 4648, with padding. *)
Fixpoint base64_Decode (s : string) : option string :=
  match s with
  | EmptyString => Some EmptyString
  | String a (String b (String c (String d s))) =>
      x ← base64_value a; y ← base64_value b;
      if bool_decide (c = "="%char) then
        if bool_decide (d = "="%char) && bool_decide (s = "") then
          Some (String (ascii_of_N ((x * 262144 + y * 4096) / 65536)) "")
        else None
      else
        z ← base64_value c;
        let v := (x * 262144 + y * 4096 + z * 64)%N in
        if bool_decide (d = "="%char) then
          if bool_decide (s = "") then
            Some (String (ascii_of_N (v / 65536)) (String (ascii_of_N (v / 256 mod 256)) ""))
          else None
        else
          t ← base64_value d;
          rest ← base64_Decode s;
          let v := (v + t)%N in
          Some (String (ascii_of_N (v / 65536)) (String (ascii_of_N (v / 256 mod 256))
            (String (ascii_of_N (v mod 256)) rest)))
  | _ => None
  end.

Lemma base64_digit_value n :
  (n < 64)%N → base64_value (base64_digit n) = Some n ∧ base64_digit n ≠ "="%char.
Proof.
  intros Hn.
  assert (forallb (fun n => bool_decide (base64_value (base64_digit n) = Some n) &&
                            negb (bool_decide (base64_digit n = "="%char))) (N.of_nat <$> seq 0 64) = true) as Hall
    by (vm_compute; reflexivity).
  rewrite forallb_In in Hall. specialize (Hall n).
  rewrite andb_true_iff, negb_true_iff, bool_decide_eq_true, bool_decide_eq_false in Hall.
  apply Hall. apply list_elem_of_fmap. exists (N.to_nat n). rewrite N2Nat.id. split; [done|].
  apply elem_of_seq. lia.
Qed.

Lemma byte_bound c : (byte c < 256)%N.
Proof. apply N_ascii_bounded. Qed.

Lemma ascii_byte c : ascii_of_N (byte c) = c.
Proof. apply ascii_N_embedding. Qed.

(** A digit read back, as the decoder sees it. *)
Lemma digit_step {B} n (f : N → option B) :
  (n < 64)%N → (x ← base64_value (base64_digit n); f x) = f n.
Proof. intros Hn. by destruct (base64_digit_value n Hn) as [-> _]. Qed.

Lemma digit_not_pad n {B} (x y : B) :
  (n < 64)%N → (if bool_decide (base64_digit n = "="%char) then x else y) = y.
Proof. intros Hn. rewrite bool_decide_eq_false_2; [done|]. by apply base64_digit_value. Qed.

(** Induction three bytes at a time. *)
Lemma string_ind3 (P : string → Prop) :
  P "" → (∀ a, P (String a "")) → (∀ a b, P (String a (String b ""))) →
  (∀ a b c s, P s → P (String a (String b (String c s)))) → ∀ s, P s.
Proof.
  intros H0 H1 H2 H3. fix IH 1. intros [|a [|b [|c s]]]; [done|apply H1|apply H2|apply H3, IH].
Qed.

Lemma base64_roundtrip s : base64_Decode (base64_EncodeToString s) = Some s.
Proof.
  induction s as [|a|a b|a b c s IH] using string_ind3; [done|..]; cbn [base64_EncodeToString base64_Decode];
    pose proof (byte_bound a) as Ha; try pose proof (byte_bound b) as Hb; try pose proof (byte_bound c) as Hc.
  - rewrite !digit_step by lia. cbn. do 2 f_equal.
    etrans; [|apply (ascii_byte a)]. f_equal. lia.
  - rewrite !digit_step by lia. rewrite digit_not_pad by lia. cbn. repeat f_equal.
    + etrans; [|apply (ascii_byte a)]. f_equal. lia.
    + etrans; [|apply (ascii_byte b)]. f_equal. lia.
  - rewrite !digit_step by lia. rewrite !digit_not_pad, ?digit_step by lia. rewrite IH. cbn. repeat f_equal.
    + etrans; [|apply (ascii_byte a)]. f_equal. lia.
    + etrans; [|apply (ascii_byte b)]. f_equal. lia.
    + etrans; [|apply (ascii_byte c)]. f_equal. lia.
Qed.

(** ** Query escaping *)

Definition hexval (c : ascii) : option N :=
  let n := byte c in
  if in_range "0" c "9" then Some (n - 48)%N
  else if in_range "A" c "F" then Some (n - 55)%N
  else if in_range "a" c "f" then Some (n - 87)%N
  else None.

(** [url.QueryUnescape]: what the receiving end applies, once per decoding. *)
Fixpoint QueryUnescape (s : string) : option string :=
  match s with
  | EmptyString => Some EmptyString
  | String c s =>
      if bool_decide (c = "%"%char) then
        match s with
        | String h (String l s) =>
            x ← hexval h; y ← hexval l; rest ← QueryUnescape s;
            Some (String (ascii_of_N (16 * x + y)) rest)
        | _ => None
        end
      else rest ← QueryUnescape s;
           Some (String (if bool_decide (c = "+"%char) then " "%char else c) rest)
  end.

Lemma QueryUnescape_cons c s :
  QueryUnescape (escape (String c s) encodeQueryComponent) =
    rest ← QueryUnescape (escape s encodeQueryComponent); Some (String c rest).
Proof. destruct c as [[] [] [] [] [] [] [] []]; reflexivity. Qed.

Lemma QueryUnescape_Escape s : QueryUnescape (QueryEscape s) = Some s.
Proof.
  unfold QueryEscape. induction s as [|c s IH]; [done|]. by rewrite QueryUnescape_cons, IH.
Qed.

(** Every byte of an escaped query is safe in a query value: no separator, no
    space, no fragment mark. *)
Definition query_safe (c : ascii) : bool :=
  unreserved c || bool_decide (c = "%"%char) || bool_decide (c = "+"%char).

Lemma query_safe_cons c s :
  forallb query_safe (String.list_ascii_of_string (escape (String c s) encodeQueryComponent)) =
    forallb query_safe (String.list_ascii_of_string (escape s encodeQueryComponent)).
Proof. destruct c as [[] [] [] [] [] [] [] []]; reflexivity. Qed.

Lemma QueryEscape_safe s : forallb query_safe (String.list_ascii_of_string (QueryEscape s)) = true.
Proof. unfold QueryEscape. induction s as [|c s IH]; [done|]. by rewrite query_safe_cons. Qed.

(** ** Properties *)

(** The receiving end splits the decoded credentials at the first colon. *)
Fixpoint split_colon (s : string) : option (string * string) :=
  match s with
  | EmptyString => None
  | String c s =>
      if bool_decide (c = ":"%char) then Some ("", s)
      else '(user, password) ← split_colon s; Some (String c user, password)
  end.

Lemma split_colon_app user password :
  ":"%char ∉ String.list_ascii_of_string user →
  split_colon (user +:+ ":" +:+ password) = Some (user, password).
Proof.
  induction user as [|c user IH]; intros Hc; [done|]. simpl in Hc. apply not_elem_of_cons in Hc as [Hne Hc].
  change (String c user +:+ ":" +:+ password) with (String c (user +:+ ":" +:+ password)). cbn [split_colon].
  rewrite bool_decide_eq_false_2 by congruence. by rewrite (IH Hc).
Qed.

(** The auth field of the one registry in the document. *)
Definition registry_auth (j : json) : option (string * string) :=
  match j with
  | JObject [("auths", JObject [(registry, JObject fields)])] =>
      match List.find (fun f => bool_decide (f.1 = "auth")) fields with
      | Some (_, JString auth) => Some (registry, auth)
      | _ => None
      end
  | _ => None
  end.

(** C40. The registry credentials survive the trip: whoever decodes the auth field of
    the docker config (base64, then split at the first colon) gets back exactly
    the robot's name and secret, as long as the name has no colon (Harbor's
    robot names have none). *)
Theorem dockerConfig_roundtrip registryURL username password :
  ":"%char ∉ String.list_ascii_of_string username →
  buildDockerConfigJSON registryURL username password =
    Ok (json_Marshal (dockerConfig registryURL username password)) ∧
  ('(registry, auth) ← registry_auth (dockerConfig registryURL username password);
   decoded ← base64_Decode auth;
   credentials ← split_colon decoded;
   Some (registry, credentials)) = Some (registryURL, (username, password)).
Proof.
  intros Hc. split; [done|].
  assert (registry_auth (dockerConfig registryURL username password) =
          Some (registryURL, base64_EncodeToString (username +:+ ":" +:+ password))) as -> by reflexivity.
  cbn [mbind option_bind]. rewrite base64_roundtrip. cbn [mbind option_bind]. by rewrite split_colon_app.
Qed.

(** The robot query reaches Harbor intact: the value sent is made of bytes that
    are safe in a query string, whatever the project and robot are called, and
    decoding it twice (once by the HTTP layer, once by Harbor's query parser)
    gives back the query. *)
Theorem robotQuery_roundtrip projectID project robot :
  let sent := QueryEscape (QueryEscape (robotQuery projectID project robot)) in
  forallb query_safe (String.list_ascii_of_string sent) = true ∧
  (once ← QueryUnescape sent; QueryUnescape once) = Some (robotQuery projectID project robot).
Proof.
  intros sent. split; [apply QueryEscape_safe|]. unfold sent. rewrite QueryUnescape_Escape.
  cbn [mbind option_bind]. apply QueryUnescape_Escape.
Qed.
