(* ===== verification/Webhook.v ===== *)
(** internal/webhook/v1alpha1/workspace_webhook.go: the mutating and the
    validating admission webhook of a Workspace.

    The defaulter changes the object it is given; here it returns the changed
    object.  The admission request a hook finds in its context is an argument
    ([admission.RequestFromContext]), and the warnings it returns are always nil
    and left out. *)
From S2P Require Import Prelude Errors Prog GoStd Api Effects Cluster Fakes Labels Config Namespace.
From S2P Require Import Authorization.

(** ** The defaulter *)

Definition namespaceNameAttempts : nat := 5.

(** [string(rune('a' + b[0]%26))]. *)
Definition lowercaseLetter (b : ascii) : string := String (ascii_of_N (97 + byte b mod 26)) "".

Definition generateNamespaceName : io string :=
  r ← trigger RandByte;
  match r with
  | Err e => panic ("crypto/rand is unavailable: " +:+ Error e)
  | Ok b =>
      s ← trigger (UtilRandString 5);
      mret (lowercaseLetter b +:+ s)
  end.

(** [labels[workspace.LabelWorkspaceNamespace] = ws.Spec.Namespace]. *)
Definition defaultNamespaceLabel (ws : Workspace) : Workspace :=
  let labels := gomap_make (W_Labels ws) in
  set_W_Labels (Some (<[LabelWorkspaceNamespace := W_Namespace ws]> labels)) ws.

Definition userLabel (m : WorkspaceMember) : string := UserLabelPrefix +:+ Member_Subject m.

(** The set of label keys wanted for the members. *)
Definition desiredLabels (members : list WorkspaceMember) : gmap string unit :=
  foldl (fun desired m => <[userLabel m := tt]> desired) ∅ members.

(** The body of the first loop: drop a member label nobody wants. *)
Definition dropStale (desired : gmap string unit) (labels : gmap string string) (k : string)
    : gmap string string :=
  if HasPrefix k UserLabelPrefix then
    match desired !! k with None => delete k labels | Some _ => labels end
  else labels.

(** Both loops range over a map.  The first deletes from the map it ranges over,
    and only the key it is at, so it visits the entries it started with. *)
Definition defaultMemberLabels (ws : Workspace) : io Workspace :=
  let labels := gomap_make (W_Labels ws) in
  let desired := desiredLabels (W_Members ws) in
  entries ← range_map labels;
  let labels := foldl (dropStale desired) labels (fst <$> entries) in
  wanted ← range_map desired;
  let labels := foldl (fun labels k => <[k := "true"]> labels) labels (fst <$> wanted) in
  mret (set_W_Labels (Some labels) ws).

Section defaulter.
Context {NL : NetLib}.

(** The search loop, with the attempts that are left. *)
Fixpoint tryNames (attempts : nat) : io (result string) :=
  match attempts with
  | O => errR (ErrorString ("could not generate an unused namespace name in " +:+
                            pretty namespaceNameAttempts +:+ " attempts"))
  | S attempts =>
      name ← generateNamespaceName;
      r ← Get KNamespace (mkKey "" name);
      match r with
      | Ok _ => tryNames attempts
      | Err e =>
          if IsNotFound e then okR name
          else errR (WrapError ("checking generated namespace name " +:+ Quote name) e)
      end
  end.

Definition generateAvailableNamespaceName : io (result string) := tryNames namespaceNameAttempts.

Definition Default (ws : Workspace) : io (result Workspace) :=
  ws ←? (if bool_decide (W_Namespace ws = "") then
           name ←? generateAvailableNamespaceName;
           okR (set_W_Namespace name ws)
         else okR ws);
  ws ← defaultMemberLabels ws;
  okR (defaultNamespaceLabel ws).

(** ** The validator *)

Definition ValidateCreate (req : result UserInfo) (ws : Workspace) : io (result unit) :=
  userInfo ←? Ret (wrapR "unable to retrieve admission request from context" req);
  Ret (ValidateWorkspaceName (W_Name ws)) ;;?
  ValidateNamespaceUniqueness ws ;;?
  ValidateNamespaceAvailable ws ;;?
  AuthorizeCreation userInfo ws.

Definition ValidateUpdate (req : result UserInfo) (oldWorkspace newWorkspace : Workspace)
    : io (result unit) :=
  userInfo ←? Ret (wrapR "unable to retrieve admission request from context" req);
  AuthorizeModification userInfo oldWorkspace.

Definition ValidateDelete (req : result UserInfo) (ws : Workspace) : io (result unit) :=
  userInfo ←? Ret (wrapR "unable to retrieve admission request from context" req);
  AuthorizeModification userInfo ws.
End defaulter.

(** ** Facts *)

Definition member_label (ws : Workspace) (k : string) : Prop :=
  ∃ m, m ∈ W_Members ws ∧ k = userLabel m.

Lemma member_label_In ws k : member_label ws k ↔ k ∈ userLabel <$> W_Members ws.
Proof. unfold member_label. rewrite list_elem_of_fmap. naive_solver. Qed.

#[export] Instance member_label_dec ws k : Decision (member_label ws k).
Proof.
  destruct (decide (k ∈ userLabel <$> W_Members ws)) as [H|H]; [left | right];
    by rewrite member_label_In.
Defined.

Lemma desiredLabels_lookup ms k : is_Some (desiredLabels ms !! k) ↔ k ∈ userLabel <$> ms.
Proof.
  unfold desiredLabels.
  enough (∀ d, is_Some (foldl (fun desired m => <[userLabel m := tt]> desired) d ms !! k) ↔
               is_Some (d !! k) ∨ k ∈ userLabel <$> ms) as ->.
  { rewrite lookup_empty. split; [intros [[? [=]]|]|]; auto. }
  induction ms as [|m ms IH]; intros d; simpl; [set_solver|].
  rewrite IH. destruct (decide (k = userLabel m)) as [->|Hne].
  - rewrite lookup_insert_eq. set_solver.
  - rewrite lookup_insert_ne by done. set_solver.
Qed.

Lemma userLabel_prefix m : HasPrefix (userLabel m) UserLabelPrefix = true.
Proof.
  unfold HasPrefix, userLabel. induction UserLabelPrefix as [|c s IH]; simpl; [by destruct (Member_Subject m)|].
  destruct (ascii_dec c c); [|done]. exact IH.
Qed.

Lemma dropStale_lookup desired labels x k :
  dropStale desired labels x !! k =
    if decide (k = x ∧ HasPrefix k UserLabelPrefix = true ∧ desired !! k = None) then None
    else labels !! k.
Proof.
  unfold dropStale. destruct (decide (k = x)) as [->|Hne].
  - destruct (HasPrefix x UserLabelPrefix), (desired !! x) eqn:Hd; case_decide as Hc;
      try destruct Hc as (_ & ? & ?); simplify_map_eq; tauto.
  - rewrite decide_False by tauto. repeat case_match; by rewrite ?lookup_delete_ne.
Qed.

Lemma foldl_dropStale desired keys labels k :
  foldl (dropStale desired) labels keys !! k =
    if decide (k ∈ keys ∧ HasPrefix k UserLabelPrefix = true ∧ desired !! k = None) then None
    else labels !! k.
Proof.
  revert labels. induction keys as [|x keys IH]; intros labels; simpl.
  - done.
  - rewrite IH, dropStale_lookup. pose proof (elem_of_cons keys k x).
    repeat case_decide; tauto.
Qed.

Lemma foldl_insert_true keys (labels : gmap string string) k :
  foldl (fun labels k => <[k := "true"]> labels) labels keys !! k =
    if decide (k ∈ keys) then Some "true" else labels !! k.
Proof.
  revert labels. induction keys as [|x keys IH]; intros labels; simpl.
  - done.
  - rewrite IH, lookup_insert. pose proof (elem_of_cons keys k x).
    repeat case_decide; naive_solver.
Qed.

(** The keys a range visits are the keys of the map, in whatever order. *)
Lemma in_order_keys {V} rank (m : gmap string V) k :
  k ∈ (in_order rank m).*1 ↔ is_Some (m !! k).
Proof.
  rewrite in_order_perm, list_elem_of_fmap. split.
  - intros ([k' v] & -> & Hin%elem_of_map_to_list). by exists v.
  - intros [v Hv]. exists (k, v). split; [done|]. by apply elem_of_map_to_list.
Qed.

(** The labels after defaulting the members, key by key. *)
Definition mirrored (ws : Workspace) (k : string) : option string :=
  if decide (member_label ws k) then Some "true"
  else if HasPrefix k UserLabelPrefix then None
  else gomap_view (W_Labels ws) !! k.

Lemma mirrored_ext ws ws' k :
  W_Members ws' = W_Members ws → W_Labels ws' = W_Labels ws → mirrored ws' k = mirrored ws k.
Proof.
  intros Hm Hl. unfold mirrored. rewrite Hl. apply decide_ext. unfold member_label. by rewrite Hm.
Qed.

Lemma gomap_make_view {V} (m : gomap V) : gomap_make m = gomap_view m.
Proof. by destruct m. Qed.

Lemma defaultMemberLabels_runs ws tr ws' :
  runs (defaultMemberLabels ws) tr ws' →
  (∃ o1 o2, tr = [Obs MapOrder o1; Obs MapOrder o2]) ∧
  ∃ labels, ws' = set_W_Labels (Some labels) ws ∧ ∀ k, labels !! k = mirrored ws k.
Proof.
  unfold defaultMemberLabels, range_map. intros Hr.
  apply runs_bind in Hr as (? & ? & e1 & -> & (? & ? & o1 & -> & ->%runs_trigger & -> & ->)%runs_bind & Hr).
  apply runs_bind in Hr as (? & ? & e2 & -> & (? & ? & o2 & -> & ->%runs_trigger & -> & ->)%runs_bind & -> & ->).
  split; [by eexists _, _|]. eexists. split; [done|]. intros k.
  rewrite foldl_insert_true, foldl_dropStale. unfold mirrored.
  rewrite gomap_make_view.
  assert (∀ {V} (m : gmap string V) o, k ∈ fst <$> in_order o m ↔ is_Some (m !! k)) as Hk.
  { intros. apply in_order_keys. }
  destruct (decide (member_label ws k)) as [Hm|Hm].
  - rewrite decide_True; [done|]. by rewrite Hk, desiredLabels_lookup, <-member_label_In.
  - rewrite member_label_In, <-desiredLabels_lookup in Hm.
    rewrite decide_False by (by rewrite Hk).
    rewrite <-eq_None_not_Some in Hm. rewrite Hm.
    destruct (HasPrefix k UserLabelPrefix); case_decide as Hd; rewrite ?Hk in Hd; try naive_solver.
    apply eq_None_not_Some. naive_solver.
Qed.

(** ** Generated names *)

(** The alphabet of [utilrand.String] (no vowels, no 0, 1 or 3). *)
Definition alphanums : list ascii := String.list_ascii_of_string "bcdfghjklmnpqrstvwxz2456789".

(** What [utilrand.String] documents: that many characters of its alphabet. *)
Definition lawful_rand (o : obs sysE) : Prop :=
  match o with
  | Obs e x =>
      match e in sysE X return X → Prop with
      | UtilRandString n => fun s =>
          String.length s = n ∧ Forall (fun c => c ∈ alphanums) (String.list_ascii_of_string s)
      | _ => fun _ => True
      end x
  end.

(** A DNS-1123 label that starts with a letter. *)
Definition dns_char (c : ascii) : bool := in_range "a" c "z" || in_range "0" c "9".
Definition dns_name (s : string) : bool :=
  match s with
  | EmptyString => false
  | String c s => in_range "a" c "z" && forallb dns_char (String.list_ascii_of_string s)
  end.

Lemma lowercaseLetter_range b : ∃ c, lowercaseLetter b = String c "" ∧ in_range "a" c "z" = true.
Proof.
  eexists. split; [done|]. unfold in_range, byte.
  rewrite N_ascii_embedding.
  - apply andb_true_iff. rewrite !N.leb_le. pose proof (N.mod_lt (N_of_ascii b) 26 ltac:(done)).
    assert (N_of_ascii "a" = 97%N) as -> by reflexivity.
    assert (N_of_ascii "z" = 122%N) as -> by reflexivity.
    generalize dependent (N_of_ascii b `mod` 26)%N. lia.
  - pose proof (N.mod_lt (N_of_ascii b) 26 ltac:(done)).
    generalize dependent (N_of_ascii b `mod` 26)%N. lia.
Qed.

Lemma alphanums_dns c : c ∈ alphanums → dns_char c = true.
Proof.
  intros Hc. assert (forallb dns_char alphanums = true) as Hall by (vm_compute; reflexivity).
  rewrite forallb_In in Hall. by apply Hall.
Qed.

Lemma runs_panic {A} message tr (a : A) : ¬ runs (panic message) tr a.
Proof. unfold panic. simpl. by intros ([] & _). Qed.

Lemma generateNamespaceName_runs tr name :
  runs generateNamespaceName tr name →
  ∃ b s, tr = [Obs RandByte (Ok b); Obs (UtilRandString 5) s] ∧ name = lowercaseLetter b +:+ s.
Proof.
  unfold generateNamespaceName.
  intros (tr1 & tr2 & r & -> & ->%runs_trigger & Hr)%runs_bind.
  destruct r as [b|e]; [|by apply runs_panic in Hr].
  apply runs_bind in Hr as (? & ? & s & -> & ->%runs_trigger & -> & ->). by exists b, s.
Qed.

Lemma generated_dns b s :
  lawful_rand (Obs (UtilRandString 5) s) →
  String.length (lowercaseLetter b +:+ s) = 6 ∧ dns_name (lowercaseLetter b +:+ s) = true.
Proof.
  intros [Hl Hs]. destruct (lowercaseLetter_range b) as (c & -> & Hc). simpl.
  change ("" +:+ s) with s. rewrite Hl, Hc. split; [done|]. apply forallb_In. intros x Hx. apply alphanums_dns.
  rewrite list.Forall_forall in Hs. by apply Hs.
Qed.

(** The Get of a namespace answered as [tr] records. *)
Definition namespace_answer (name : string) (a : result (obj KNamespace)) (tr : trace) : Prop :=
  Obs (ClientGet KNamespace (mkKey "" name)) a ∈ tr.

Section names.
Context {NL : NetLib}.

Lemma tryNames_runs attempts tr r :
  runs (tryNames attempts) tr r →
  length tr ≤ 3 * attempts ∧
  match r with
  | Ok name => ∃ b s e, name = lowercaseLetter b +:+ s ∧ IsNotFound e = true ∧
      Obs (UtilRandString 5) s ∈ tr ∧ list.last tr = Some (Obs (ClientGet KNamespace (mkKey "" name)) (Err e))
  | Err e =>
      (∃ name e0, namespace_answer name (Err e0) tr ∧ IsNotFound e0 = false ∧ wraps e0 e) ∨
      length tr = 3 * attempts ∧
      ∀ name a, namespace_answer name a tr → is_Ok a = true
  end.
Proof.
  revert tr. induction attempts as [|attempts IH]; intros tr; cbn [tryNames].
  { intros [-> ->]. split; [done|]. right. split; [done|].
    intros name a Hin. by apply elem_of_nil in Hin. }
  intros (tr1 & tr2 & name & -> & (b & s & -> & ->)%generateNamespaceName_runs & Hr)%runs_bind.
  unfold Get in Hr. apply runs_bind in Hr as (? & tr3 & a & -> & ->%runs_trigger & Hr).
  set (name := lowercaseLetter b +:+ s) in *. simpl app. destruct a as [ns|e].
  - apply IH in Hr as [Hlen Hr]. split; [simpl; lia|]. destruct r as [n|e].
    + destruct Hr as (b' & s' & e & Hn & He & Hin & Hlast). exists b', s', e.
      split_and!; [done..|by do 3 right|]. destruct tr3; [done|]. by rewrite <-Hlast.
    + destruct Hr as [(n & e0 & Hin & H)|[Hl Hall]].
      * left. exists n, e0. split; [by do 3 right|done].
      * right. split; [simpl; lia|]. intros n a Hin.
        apply elem_of_cons in Hin as [Hin|Hin]; [apply (f_equal (got KNamespace)) in Hin; done|].
        apply elem_of_cons in Hin as [Hin|Hin]; [apply (f_equal (got KNamespace)) in Hin; done|].
        apply elem_of_cons in Hin as [Hin|Hin]; [|by eapply Hall].
        apply (f_equal (got KNamespace)) in Hin. rewrite !got_Get in Hin. by injection Hin as ->.
  - destruct (IsNotFound e) eqn:He; destruct Hr as [-> ->]; (split; [simpl; lia|]).
    + exists b, s, e. split_and!; [done..| |done]. apply elem_of_cons. right. apply elem_of_cons. by left.
    + left. exists name, e. split_and!; [by do 2 right; left|done|]. apply wraps_step, wraps_refl.
Qed.

Lemma tryNames_nonempty attempts tr name : runs (tryNames attempts) tr (Ok name) → name ≠ "".
Proof. intros [_ (b & s & e & -> & _)]%tryNames_runs. done. Qed.
End names.

(** ** Properties of the defaulter *)

Section defaulting.
Context {NL : NetLib}.

(** The labels a defaulted workspace ends up with, key by key. *)
Definition defaulted (ws : Workspace) (ns k : string) : option string :=
  if decide (k = LabelWorkspaceNamespace) then Some ns else mirrored ws k.

(** A defaulted workspace, whatever order the map ranges took. *)
Definition is_defaulted (ws : Workspace) (ns : string) (ws' : Workspace) : Prop :=
  ∃ labels, ws' = set_W_Labels (Some labels) (set_W_Namespace ns ws) ∧
    ∀ k, labels !! k = defaulted ws ns k.

Lemma set_W_Namespace_id ws : set_W_Namespace (W_Namespace ws) ws = ws.
Proof. by destruct ws as [? [[] ?]]. Qed.

Lemma mirror_runs ws tr r :
  runs (ws ← defaultMemberLabels ws; okR (defaultNamespaceLabel ws)) tr r →
  (∃ o1 o2, tr = [Obs MapOrder o1; Obs MapOrder o2]) ∧
  ∃ ws', r = Ok ws' ∧ is_defaulted ws (W_Namespace ws) ws'.
Proof.
  intros (? & ? & a & -> & (Htr & labels & -> & Hk)%defaultMemberLabels_runs & -> & ->)%runs_bind.
  rewrite app_nil_r. split; [done|]. eexists. split; [done|].
  exists (<[LabelWorkspaceNamespace := W_Namespace ws]> labels). split.
  - rewrite set_W_Namespace_id. by destruct ws as [[] []].
  - intros k. unfold defaulted. rewrite lookup_insert, Hk. repeat case_decide; naive_solver.
Qed.

Lemma Default_ok ws tr ws' :
  runs (Default ws) tr (Ok ws') →
  ∃ ns, is_defaulted ws ns ws' ∧
    (W_Namespace ws ≠ "" → ns = W_Namespace ws ∧ length tr = 2) ∧
    (W_Namespace ws = "" → ns ≠ "" ∧ ∃ e, namespace_answer ns (Err e) tr ∧ IsNotFound e = true).
Proof.
  unfold Default.
  intros [(e & _ & [=])|(tr1 & tr2 & ws1 & -> & Hr & (Htr & ? & [= <-] & Hd)%mirror_runs)]%runs_bindR.
  case_bool_decide as Hns.
  - apply runs_bindR in Hr as [(e' & _ & Hr)|(tr3 & ? & name & -> & Hr & -> & [= ->])]; [done|].
    exists name. split; [|split; [done|]].
    { destruct Hd as (labels & -> & Hk). exists labels. split; [by destruct ws as [? [[] ?]]|].
      intros k. rewrite Hk. unfold defaulted. by rewrite (mirrored_ext ws). }
    intros _. split; [by eapply tryNames_nonempty|].
    apply tryNames_runs in Hr as [_ (b & s & e & _ & He & _ & Hlast)]. exists e. split; [|done].
    apply last_Some in Hlast as [l ->]. unfold namespace_answer. set_solver.
  - destruct Hr as [-> [= ->]]. exists (W_Namespace ws). split; [done|]. split; [|done].
    intros _. split; [done|]. by destruct Htr as (? & ? & ->).
Qed.

(** C24. The mutating webhook.  A given spec.namespace is kept and no read is made;
    an empty one is replaced by a generated name that the last Get, of exactly
    that name, found free.  In both cases the result differs from the input in
    the namespace and the labels only: every member has its
    "user.otterscale.io/" label, no other label of that prefix remains, the
    namespace label names the namespace, and every other label is kept,
    whatever the iteration order of the maps.  It fails only on a failed lookup
    other than NotFound, or when all five generated names were taken. *)
Theorem Default_correct ws tr r :
  runs (Default ws) tr r →
  match r with
  | Ok ws' => ∃ ns, is_defaulted ws ns ws' ∧
      (W_Namespace ws ≠ "" → ns = W_Namespace ws ∧ length tr = 2) ∧
      (W_Namespace ws = "" → ns ≠ "" ∧
        ∃ e, namespace_answer ns (Err e) tr ∧ IsNotFound e = true)
  | Err e => W_Namespace ws = "" ∧
      ((∃ name e0, namespace_answer name (Err e0) tr ∧ IsNotFound e0 = false ∧ wraps e0 e) ∨
       length tr = 3 * namespaceNameAttempts ∧
       ∀ name a, namespace_answer name a tr → is_Ok a = true)
  end.
Proof.
  destruct r as [ws'|e]; [apply Default_ok|].
  unfold Default. intros [(e' & Hr & [= ->])|(tr1 & tr2 & ws1 & _ & _ & (_ & ws' & [=] & _)%mirror_runs)]%runs_bindR.
  case_bool_decide as Hns; [|by destruct Hr]. split; [done|].
  apply runs_bindR in Hr as [(e0 & Hr & [= ->])|(? & ? & ? & _ & _ & _ & Hr)]; [|done].
  by apply tryNames_runs in Hr as [_ Hr].
Qed.

(** Defaulting settles: the webhook runs on create and on every update, and
    run on its own output it reads nothing and changes nothing. *)
Theorem Default_idempotent ws tr ws' tr' r :
  runs (Default ws) tr (Ok ws') → runs (Default ws') tr' r → r = Ok ws' ∧ length tr' = 2.
Proof.
  unfold Default at 1.
  intros [(? & _ & [=])|(tr1 & tr2 & ws1 & -> & Hr & (_ & ? & [= <-] & labels & -> & Hk)%mirror_runs)]%runs_bindR.
  assert (W_Namespace ws1 ≠ "") as Hne.
  { case_bool_decide; [|by destruct Hr as [_ [= ->]]].
    apply runs_bindR in Hr as [(? & _ & [=])|(? & ? & name & _ & Hr & _ & [= ->])].
    by eapply tryNames_nonempty. }
  clear Hr. rewrite set_W_Namespace_id in *. unfold Default.
  rewrite bool_decide_eq_false_2 by done.
  intros [(? & [_ [=]] & _)|(? & ? & ws2 & -> & [-> [= ->]] &
    ((? & ? & ->) & ws3 & -> & labels' & -> & Hk')%mirror_runs)]%runs_bindR.
  split; [|done]. f_equal.
  change (W_Namespace (set_W_Labels (Some labels) ws1)) with (W_Namespace ws1) in *.
  assert (labels' = labels) as ->; [|by destruct ws1 as [? [[] ?]]].
  apply map_eq. intros k. rewrite Hk', Hk. unfold defaulted, mirrored.
  case_decide; [done|]. cbn. rewrite Hk. unfold defaulted, mirrored.
  rewrite (decide_False (P := k = _)) by done. unfold member_label. cbn.
  repeat case_decide; try done. by case_match.
Qed.

(** The labels a workspace should carry, in one expression. *)
Definition referenceLabels (ws : Workspace) : gmap string string :=
  <[LabelWorkspaceNamespace := W_Namespace ws]>
    (list_to_map ((fun m => (userLabel m, "true")) <$> W_Members ws) ∪
     filter (fun kv => HasPrefix kv.1 UserLabelPrefix = false) (gomap_view (W_Labels ws))).

Lemma member_labels_lookup ws k :
  (list_to_map ((fun m => (userLabel m, "true")) <$> W_Members ws) : gmap string string) !! k =
    if decide (member_label ws k) then Some "true" else None.
Proof.
  destruct (decide (member_label ws k)) as [Hk|Hk]; rewrite member_label_In in Hk; revert Hk;
    induction (W_Members ws) as [|m ms IH]; simpl; intros Hk; try set_solver; rewrite lookup_insert;
    case_decide; set_solver.
Qed.

Lemma referenceLabels_lookup ws k : referenceLabels ws !! k = defaulted ws (W_Namespace ws) k.
Proof.
  unfold referenceLabels, defaulted, mirrored. rewrite lookup_insert. case_decide as Hk; [by rewrite Hk, decide_True|].
  rewrite (decide_False (P := k = _)) by congruence. rewrite lookup_union, member_labels_lookup, map_lookup_filter.
  case_decide; [by destruct (gomap_view _ !! k) as [v|]; simpl; [case_guard|]|].
  destruct (gomap_view _ !! k) as [v|]; simpl; [case_guard as Hp|by destruct (HasPrefix _ _)]; simpl in *.
  - by rewrite Hp.
  - by destruct (HasPrefix k UserLabelPrefix).
Qed.

Lemma Default_named ws tr r :
  W_Namespace ws ≠ "" → runs (Default ws) tr r →
  (∃ o1 o2, tr = [Obs MapOrder o1; Obs MapOrder o2]) ∧ r = Ok (set_W_Labels (Some (referenceLabels ws)) ws).
Proof.
  intros Hne. unfold Default. rewrite bool_decide_eq_false_2 by done.
  intros [(? & [_ [=]] & _)|(? & tr2 & ws1 & -> & [-> [= ->]] & (Htr & ws' & -> & labels & -> & Hk)%mirror_runs)]%runs_bindR.
  split; [done|]. rewrite set_W_Namespace_id. do 3 f_equal.
  apply map_eq. intros k. by rewrite Hk, referenceLabels_lookup.
Qed.

Lemma Default_named_run ws o1 o2 :
  W_Namespace ws ≠ "" → ∃ r, runs (Default ws) [Obs MapOrder o1; Obs MapOrder o2] r.
Proof.
  intros Hne. eexists. unfold Default. rewrite bool_decide_eq_false_2 by done. apply runs_bindR. right.
  eexists [], _, ws. split_and!; [done..|]. do 2 (eexists _, _; split; [done|]). done.
Qed.

(** C25. The two loops of the defaulter compute one expression.  For a workspace that
    names its namespace, Default succeeds with the reference labels (the
    namespace label, one label per member, and the given labels without the
    prefix reserved for members) whatever the order the map ranges take, and
    those two ranges are its only effects. *)
Theorem Default_reference ws tr r :
  W_Namespace ws ≠ "" →
  runs (Default ws) tr r ↔
  (∃ o1 o2, tr = [Obs MapOrder o1; Obs MapOrder o2]) ∧ r = Ok (set_W_Labels (Some (referenceLabels ws)) ws).
Proof.
  intros Hne. split; [by apply Default_named|]. intros [(o1 & o2 & ->) ->].
  destruct (Default_named_run ws o1 o2 Hne) as [r Hr]. by destruct (Default_named _ _ _ Hne Hr) as [_ <-].
Qed.

(** A generated namespace name is always a valid one: under the documented
    behaviour of the random string, six characters, a DNS-1123 label starting
    with a letter; at most five lookups are made to find it. *)
Theorem generated_name_valid tr name :
  runs generateAvailableNamespaceName tr (Ok name) → Forall lawful_rand tr →
  String.length name = 6 ∧ dns_name name = true ∧ length tr ≤ 3 * namespaceNameAttempts.
Proof.
  intros [Hlen (b & s & e & -> & _ & Hin & _)]%tryNames_runs Hlaw.
  rewrite list.Forall_forall in Hlaw. destruct (generated_dns b s (Hlaw _ Hin)). done.
Qed.
End defaulting.

(** ** Properties of the validator *)

Section validating.
Context {NL : NetLib}.

(** The namespace can be claimed, on the answer the Get received. *)
Definition claimable (ws : Workspace) (a : result (obj KNamespace)) : Prop :=
  match a with
  | Err e => IsNotFound e = true
  | Ok ns => Meta_DeletionTimestamp (metadata ns) = None ∧ adoptable ws ns
  end.

Lemma available_runs ws tr :
  runs (ValidateNamespaceAvailable ws) tr (Ok tt) ↔
  ∃ a, tr = [Obs (ClientGet KNamespace (namespaceKey ws)) a] ∧ claimable ws a.
Proof.
  unfold ValidateNamespaceAvailable, Get. rewrite runs_bind. split.
  - intros (? & ? & a & -> & ->%runs_trigger & Hr). exists a. destruct a as [ns|e]; simpl.
    + fold (adoptableb ws ns) in Hr. case_bool_decide; [by destruct Hr|].
      destruct (adoptableb ws ns) eqn:Ha; [|by destruct Hr]. destruct Hr as [-> _].
      split; [done|]. split; [done|by apply adoptableb_spec].
    + destruct (IsNotFound e); [|by destruct Hr]. by destruct Hr as [-> _].
  - intros (a & -> & Ha). eexists [_], [], a. split; [done|]. split; [by apply runs_trigger|].
    destruct a as [ns|e]; simpl in Ha.
    + destruct Ha as [Hd Ha%adoptableb_spec]. rewrite bool_decide_eq_false_2 by tauto.
      fold (adoptableb ws ns). by rewrite Ha.
    + by rewrite Ha.
Qed.

Lemma uniqueness_runs ws tr :
  runs (ValidateNamespaceUniqueness ws) tr (Ok tt) ↔
  ∃ items, tr = [Obs ClientListWorkspaces (Ok items)] ∧
    ∀ o, o ∈ items → W_Namespace o = W_Namespace ws → W_Name o = W_Name ws.
Proof.
  unfold ValidateNamespaceUniqueness, List_. rewrite runs_bindR. split.
  - intros [(e & _ & [=])|(? & ? & items & -> & (r & ->%runs_trigger & Hr)%runs_wrap & -> & Hc)].
    symmetry in Hr. apply wrapR_Ok in Hr as ->. exists items. split; [done|].
    pose proof (claimedBy_spec items ws) as Hs. by rewrite <-Hc in Hs.
  - intros (items & -> & Hi). right. eexists [_], [], items. split; [done|]. split.
    + apply runs_wrap. exists (Ok items). by rewrite runs_trigger.
    + split; [done|]. pose proof (claimedBy_spec items ws) as Hs.
      destruct (claimedBy items ws) as [[]|e]; [done|]. naive_solver.
Qed.

(** What an admitted creation went through, whoever asked. *)
Lemma ValidateCreate_admitted req ws tr :
  runs (ValidateCreate req ws) tr (Ok tt) →
  String.length (W_Name ws) ≤ LabelValueMaxLength ∧
  ∃ items, Obs ClientListWorkspaces (Ok items) ∈ tr ∧
    ∀ o, o ∈ items → W_Namespace o = W_Namespace ws → W_Name o = W_Name ws.
Proof.
  unfold ValidateCreate. intros [(? & _ & [=])|(? & ? & u & -> & _ & Hr)]%runs_bindR.
  apply runs_bindR in Hr as [(? & _ & [=])|(? & ? & [] & -> & [_ Hn] & Hr)].
  apply runs_bindR in Hr as [(? & _ & [=])|(? & ? & [] & -> & (items & -> & Hi)%uniqueness_runs & _)].
  unfold ValidateWorkspaceName in Hn. case_bool_decide; [done|]. split; [lia|]. exists items. set_solver.
Qed.

(** The run of an admitted creation. *)
Lemma ValidateCreate_admits u ws items a tr :
  String.length (W_Name ws) ≤ LabelValueMaxLength →
  (∀ o, o ∈ items → W_Namespace o = W_Namespace ws → W_Name o = W_Name ws) → claimable ws a →
  authorization_rule u ws tr (Ok tt) "workspace creator must be listed as a member with the 'admin' role" →
  runs (ValidateCreate (Ok u) ws)
    (Obs ClientListWorkspaces (Ok items) :: Obs (ClientGet KNamespace (namespaceKey ws)) a :: tr) (Ok tt).
Proof.
  intros Hl Hi Ha Hr%authorization_rule_complete. unfold ValidateCreate. cbn [wrapR].
  apply runs_bindR. right. eexists [], _, u. split_and!; [done..|].
  apply runs_bindR. right. eexists [], _, tt. split; [done|]. split.
  { split; [done|]. unfold ValidateWorkspaceName. by rewrite bool_decide_eq_false_2 by lia. }
  apply runs_bindR. right. eexists [_], _, tt. split; [done|]. split; [apply uniqueness_runs; eauto|].
  apply runs_bindR. right. eexists [_], _, tt. split; [done|]. split; [apply available_runs; eauto|done].
Qed.

(** C14. What it takes to create a workspace.  ValidateCreate admits exactly when,
    on the answers it received: the name fits a label value; the live list
    holds no workspace of another name claiming the namespace; the namespace is
    absent, or a restored one this workspace will adopt (never a terminating or
    a foreign one); and the caller is authorized.  The reads happen in that
    order and nothing is written. *)
Theorem ValidateCreate_correct u ws tr :
  runs (ValidateCreate (Ok u) ws) tr (Ok tt) ↔
  ∃ items a tr', tr = Obs ClientListWorkspaces (Ok items) ::
                      Obs (ClientGet KNamespace (namespaceKey ws)) a :: tr' ∧
    String.length (W_Name ws) ≤ LabelValueMaxLength ∧
    (∀ o, o ∈ items → W_Namespace o = W_Namespace ws → W_Name o = W_Name ws) ∧
    claimable ws a ∧
    authorization_rule u ws tr' (Ok tt)
      "workspace creator must be listed as a member with the 'admin' role".
Proof.
  unfold ValidateCreate. cbn [wrapR]. split.
  - intros [(? & [_ [=]] & _)|(? & ? & a & -> & [-> [= ->]] & Hr)]%runs_bindR.
    apply runs_bindR in Hr as [(? & _ & [=])|(? & ? & [] & -> & [-> Hn] & Hr)].
    apply runs_bindR in Hr as [(? & _ & [=])|(? & ? & [] & -> & (items & -> & Hi)%uniqueness_runs & Hr)].
    apply runs_bindR in Hr as [(? & _ & [=])|(? & tr' & [] & -> & (b & -> & Hb)%available_runs & Hr)].
    apply authorization_rule_complete in Hr. exists items, b, tr'. split_and!; [done| |done..].
    unfold ValidateWorkspaceName in Hn. case_bool_decide; [done|lia].
  - intros (items & a & tr' & -> & Hl & Hi & Ha & Hr). by apply ValidateCreate_admits.
Qed.

Lemma modification_runs u old new tr r :
  runs (ValidateUpdate (Ok u) old new) tr r ↔
  authorization_rule u old tr r
    "only users with the 'admin' role defined in this workspace can modify or delete it".
Proof. apply authorization_rule_complete. Qed.
(** C13. No self-escalation, and no admission without the admins' consent: an
    update is decided by the object as it was, so the new object (in
    particular, listing oneself as admin in it) has no influence; a caller who
    is neither privileged nor an admin of the old object is refused unless one
    SubjectAccessReview grants cluster-wide access.  Deletes are decided by the
    same rule, and a request without an admission context is refused with no
    call at all. *)
Theorem ValidateUpdate_old_decides req old new tr r :
  (runs (ValidateUpdate req old new) tr r ↔
   match req with
   | Err e => tr = [] ∧ r = Err (WrapError "unable to retrieve admission request from context" e)
   | Ok u => authorization_rule u old tr r
       "only users with the 'admin' role defined in this workspace can modify or delete it"
   end) ∧
  (runs (ValidateDelete req old) tr r ↔ runs (ValidateUpdate req old new) tr r).
Proof. split; [|done]. destruct req; [apply modification_runs | done]. Qed.

(** Whoever is admitted as a listed admin keeps control of the workspace: they
    can update and delete the created object without any API call, whatever
    the defaulter did to it. *)
Theorem creator_can_modify u ws tr tr2 ws' r :
  admin_of (User_Username u) ws → runs (Default ws) tr (Ok ws') →
  runs (ValidateUpdate (Ok u) ws' ws') tr2 r → tr2 = [] ∧ r = Ok tt.
Proof.
  intros Ha Hd Hr%modification_runs.
  assert (admin_of (User_Username u) ws') as Ha'.
  { unfold Default in Hd. apply runs_bindR in Hd as [(? & _ & [=])|(? & ? & ws1 & _ & H1 &
      (_ & ? & [= <-] & ? & -> & _)%mirror_runs)].
    assert (W_Members ws1 = W_Members ws) as Hm.
    { case_bool_decide; [|by destruct H1 as [_ [= ->]]].
      by apply runs_bindR in H1 as [(? & _ & [=])|(? & ? & ? & _ & _ & _ & [= ->])]. }
    unfold admin_of in *. cbn. by rewrite Hm. }
  destruct Hr as [(_ & -> & ->)|[Hn _]]; [done|]. destruct Hn. by right.
Qed.
End validating.
