(* ===== verification/Controller.v ===== *)
(** internal/controller/workspace_controller.go: the reconcile flow of a
    Workspace (fetch, backfill the namespace label, sync the resources, write the
    status), the classification of its errors, and the status computation.

    A reconcile ends with the pair (ctrl.Result, error) of the Go method.  The
    workspace a method changes through its pointer is returned by the model where
    the caller reads it afterwards. *)
From S2P Require Import Prelude Errors Prog GoStd Api Effects Cluster Sync Stage Fakes Labels Config.
From S2P Require Import Namespace Rbac Resources Helm Harbor HarborSync.

(** [ctrl.Result]; durations are in nanoseconds, 0 is "do not requeue". *)
Record Result := mkResult { RequeueAfter : Z }.
Definition noRequeue : Result := mkResult 0.
#[export] Instance Result_eq_dec : EqDecision Result.
Proof. solve_decision. Defined.

Definition time_Second : Z := 1000000000.
Definition time_Minute : Z := 60 * time_Second.

Definition missingHarborMembersRequeue : Z := 5 * time_Minute.

Record WorkspaceReconciler := mkReconciler {
  Version : string;
  NewHarborClient : option (string → string → string → HarborClient);
}.

(** [meta.SetStatusCondition], which may read the clock. *)
Definition setStatusCondition {CL : CtrlLib} (cs : list Condition) (c : Condition)
    : io (list Condition) :=
  now ← trigger TimeNow; mret (SetStatusCondition now cs c).

Definition cond_le : relation Condition := fun a b => String.leb (Cond_Type a) (Cond_Type b) = true.
#[export] Instance cond_le_dec a b : Decision (cond_le a b).
Proof. unfold cond_le. apply _. Defined.

(** [slices.SortFunc] by type; a condition list has one entry per type (it is a
    list map in the API), so stability does not matter. *)
Definition sortConditions (cs : list Condition) : list Condition := merge_sort cond_le cs.

Definition with_Conditions (cs : list Condition) (generation : Z) (st : WorkspaceStatus)
    : WorkspaceStatus :=
  mkStatus generation (Status_NamespaceRef st) (Status_ResourceQuotaRef st) (Status_LimitRangeRef st)
    (Status_RoleBindingRefs st) (Status_NetworkPolicyRef st) (Status_ImagePullSecretRef st)
    (Status_HelmRepositoryRef st) cs.

(** The condition updateStatus reports. *)
Definition readyCondition (w : Workspace) (missingHarborMembers : list string) : Condition :=
  if bool_decide (0 < length missingHarborMembers) then
    mkCondition ConditionTypeReady ConditionFalse (W_Generation w) 0 "HarborMembersPending"
      ("Waiting for Harbor users to be provisioned: " +:+ Join missingHarborMembers ", ")
  else
    mkCondition ConditionTypeReady ConditionTrue (W_Generation w) 0 "Reconciled"
      "Workspace resources are successfully reconciled".

(** [rolesInUse]. *)
Definition rolesInUse (members : list WorkspaceMember) : gmap MemberRole bool :=
  foldl (fun roles m => <[Member_Role m := true]> roles) ∅ members.

(** The loop over the roles, in their fixed order. *)
Definition roleBindingRefs (w : Workspace) : list ResourceReference :=
  let roles := rolesInUse (W_Members w) in
  foldl (fun refs role =>
    if default false (roles !! role)
    then refs ++ [mkRef (RoleBindingName +:+ "-" +:+ role) (W_Namespace w)]
    else refs) [] AllMemberRoles.

(** [newStatus] once the observed references and the conditions are known. *)
Definition computedStatus (w : Workspace) (secretRef helmRef : option ResourceReference)
    (conditions : list Condition) : WorkspaceStatus :=
  let ns := W_Namespace w in
  mkStatus (W_Generation w)
    (Some (mkRef ns ""))
    (if Spec_ResourceQuota (W_Spec w) then Some (mkRef ResourceQuotaName ns) else None)
    (if Spec_LimitRange (W_Spec w) then Some (mkRef LimitRangeName ns) else None)
    (roleBindingRefs w)
    (if Isolation_Enabled (Spec_NetworkIsolation (W_Spec w)) then Some (mkRef NetworkPolicyName ns) else None)
    secretRef helmRef conditions.

Definition observedRef (k : Kind) (name namespace : string) : io (result (option ResourceReference)) :=
  r ← Get k (mkKey namespace name);
  match r with
  | Err e =>
      if IsNotFound e then okR None
      else errR (WrapError ("observing " +:+ namespace +:+ "/" +:+ name) e)
  | Ok _ => okR (Some (mkRef name namespace))
  end.

(** [r.eventf]: the message goes through a "%s" placeholder, so the note is the
    message itself. *)
Definition eventf (w : Workspace) (eventType reason message : string) : io unit :=
  trigger (EventfE w eventType reason "Reconcile" message).

Section reconciler.
Context {CL : CtrlLib} {NL : NetLib}.
Implicit Types (r : WorkspaceReconciler) (w : Workspace).

Definition harborClient r (creds : HarborCredentials) : HarborClient :=
  default NewClient (NewHarborClient r) (Harbor_URL creds) (Harbor_RobotName creds)
    (Harbor_RobotSecret creds).

Definition reconcileResources r w : io (result (list string)) :=
  ReconcileNamespace w (Version r) ;;?
  creds ←? OperatorHarborCredentials;
  missingHarborMembers ←?
    ReconcileHarbor w (Version r) (harborClient r creds) (Harbor_URL creds);
  ReconcileHelmRepository w (Version r) (Harbor_URL creds) ;;?
  ReconcileRoleBindings w (Version r) ;;?
  ReconcileServiceAccount w (Version r) ;;?
  ReconcileResourceQuota w (Version r) ;;?
  ReconcileLimitRange w (Version r) ;;?
  ReconcileNetworkIsolation w (Version r) ;;?
  okR missingHarborMembers.

(** Returns the patch error, and the workspace with its new status. *)
Definition setReadyConditionFalse w (reason message : string) : io (result unit * Workspace) :=
  conditions ← setStatusCondition (Status_Conditions (W_Status w))
    (mkCondition ConditionTypeReady ConditionFalse (W_Generation w) 0 reason message);
  let w' := set_W_Status (with_Conditions conditions (W_Generation w) (W_Status w)) w in
  patched ← trigger (ClientStatusPatch w w');
  mret (patched, w').

Definition handleReconcileError w (err : error) : io (Result * option error) :=
  match AsNamespaceConflictError err with
  | Some _ =>
      '(patchErr, w) ← setReadyConditionFalse w "NamespaceConflict" (Error err);
      eventf w EventTypeWarning "NamespaceConflict" (Error err);;
      match patchErr with
      | Err _ => mret (mkResult (30 * time_Second), None)
      | Ok _ => mret (noRequeue, None)
      end
  | None =>
      if IsConflict err then mret (noRequeue, Some err)
      else
        '(_, w) ← setReadyConditionFalse w "ReconcileError" (Error err);
        eventf w EventTypeWarning "ReconcileError" (Error err);;
        mret (noRequeue, Some err)
  end.

Definition updateStatus w (missingHarborMembers : list string) : io (result unit) :=
  secretRef ←? observedRef KSecret ImagePullSecretName (W_Namespace w);
  helmRef ←? observedRef KHelmRepository HelmRepositoryName (W_Namespace w);
  conditions ← setStatusCondition (Status_Conditions (W_Status w)) (readyCondition w missingHarborMembers);
  let newStatus := computedStatus w secretRef helmRef (sortConditions conditions) in
  if bool_decide (W_Status w = newStatus) then okR tt
  else
    let w' := set_W_Status newStatus w in
    wrap "patching Workspace status" (trigger (ClientStatusPatch w w')) ;;?
    trigger (EventfE w' EventTypeNormal "Reconciled" "Reconcile"
      ("Workspace resources reconciled for namespace " +:+ W_Namespace w));;
    okR tt.

Definition Reconcile r (req : ObjectKey) : io (Result * option error) :=
  got ← Get KWorkspace req;
  match got with
  | Err e => mret (noRequeue, if IsNotFound e then None else Some e)
  | Ok w =>
      if bool_decide (gomap_get (W_Labels w) LabelWorkspaceNamespace ≠ W_Namespace w) then
        let labels := <[LabelWorkspaceNamespace := W_Namespace w]> (gomap_make (W_Labels w)) in
        updated ← Update (set_W_Labels (Some labels) w);
        match updated with
        | Err e => mret (noRequeue, Some (WrapError "backfilling namespace label" e))
        | Ok _ => mret (noRequeue, None)
        end
      else
        synced ← reconcileResources r w;
        match synced with
        | Err e => handleReconcileError w e
        | Ok missingHarborMembers =>
            status ← updateStatus w missingHarborMembers;
            match status with
            | Err e => mret (noRequeue, Some e)
            | Ok _ =>
                if bool_decide (0 < length missingHarborMembers)
                then mret (mkResult missingHarborMembersRequeue, None)
                else mret (noRequeue, None)
            end
        end
  end.
End reconciler.

(** ** The resource sync *)

Section sync.
Context {CL : CtrlLib} {HCL : CtrlLaws} {NL : NetLib}.
Context {W : Type} {CW : Cluster W} {LW : ClusterLaws W}.
Implicit Types (r : WorkspaceReconciler) (w : Workspace) (σ : W).

(** The client constructor the tests substitute makes quiet clients too. *)
Definition quiet_reconciler r : Prop :=
  ∀ f, NewHarborClient r = Some f → ∀ url name secret, QuietClient (f url name secret).

Lemma harborClient_quiet r creds : quiet_reconciler r → QuietClient (harborClient r creds).
Proof.
  intros Hq. unfold harborClient. destruct (NewHarborClient r) as [f|] eqn:Hf; simpl; [|apply _].
  by apply Hq.
Qed.

(** Everything a reconciled workspace has in the cluster. *)
Record tenant_ready r w (harborURL : string) σ : Prop := {
  ready_namespace : namespace_ready w (Version r) σ;
  ready_pull : pull_configured w σ;
  ready_helm : helm_ok w (Version r) harborURL σ;
  ready_bindings : bindings_ok w (Version r) σ;
  ready_deployer : deployer_ok w (Version r) σ;
  ready_quota : matches_spec (k := KResourceQuota) (Spec_ResourceQuota (W_Spec w)) w (Version r)
                  (view σ KResourceQuota (quotaKey w));
  ready_limits : matches_spec (k := KLimitRange) (Spec_LimitRange (W_Spec w)) w (Version r)
                   (view σ KLimitRange (limitsKey w));
  ready_policy : matches_spec (k := KNetworkPolicy) (wantedPolicy w) w (Version r)
                   (view σ KNetworkPolicy (policyKey w));
}.

(** The part after the namespace and the credentials. *)
Definition inner_footprint w : footprint :=
  harbor_footprint w ++ helm_footprint w ++ bindings_footprint w ++ deployer_footprint w ++
  [(KResourceQuota, quotaKey w)] ++ [(KLimitRange, limitsKey w)] ++ [(KNetworkPolicy, policyKey w)] ++ [].

Definition inner_sync r w (creds : HarborCredentials) : io (result (list string)) :=
  missingHarborMembers ←?
    ReconcileHarbor w (Version r) (harborClient r creds) (Harbor_URL creds);
  ReconcileHelmRepository w (Version r) (Harbor_URL creds) ;;?
  ReconcileRoleBindings w (Version r) ;;?
  ReconcileServiceAccount w (Version r) ;;?
  ReconcileResourceQuota w (Version r) ;;?
  ReconcileLimitRange w (Version r) ;;?
  ReconcileNetworkIsolation w (Version r) ;;?
  okR missingHarborMembers.
End sync.

(** Footprints with different kinds or names are disjoint. *)
Ltac disjoint_footprints :=
  unfold disjoint_footprints, inner_footprint, harbor_footprint, helm_footprint, bindings_footprint,
    deployer_footprint, helmSources, AllMemberRoles; intros x; simpl;
  rewrite ?elem_of_app, ?elem_of_cons, ?elem_of_nil;
  intros Hin Hin2;
  repeat match goal with
  | H : _ ∨ _ |- _ => destruct H
  | H : _ ∈ [] |- _ => apply elem_of_nil in H
  | H : False |- _ => destruct H
  | H : x = _ |- _ => apply (f_equal (fun x => (kind_index x.1, Key_Name x.2))) in H
  end;
  match goal with
  | H1 : (_, _) = _, H2 : (_, _) = _ |- _ => rewrite H1 in H2; vm_compute in H2; discriminate H2
  end.

Section sync_stage.
Context {CL : CtrlLib} {HCL : CtrlLaws} {NL : NetLib}.
Context {W : Type} {CW : Cluster W} {LW : ClusterLaws W}.
Implicit Types (r : WorkspaceReconciler) (w : Workspace) (σ : W).

Lemma inner_sync_stage r w creds :
  quiet_reconciler r →
  stage (inner_sync r w creds) (inner_footprint w) (fun σ =>
    pull_configured w σ ∧ helm_ok w (Version r) (Harbor_URL creds) σ ∧ bindings_ok w (Version r) σ ∧
    deployer_ok w (Version r) σ ∧
    matches_spec (k := KResourceQuota) (Spec_ResourceQuota (W_Spec w)) w (Version r)
                  (view σ KResourceQuota (quotaKey w)) ∧
    matches_spec (k := KLimitRange) (Spec_LimitRange (W_Spec w)) w (Version r)
                   (view σ KLimitRange (limitsKey w)) ∧
    matches_spec (k := KNetworkPolicy) (wantedPolicy w) w (Version r)
                   (view σ KNetworkPolicy (policyKey w)) ∧ True).
Proof.
  intros Hq. pose proof (harborClient_quiet r creds Hq). unfold inner_sync, inner_footprint.
  apply stage_seq; [by apply ReconcileHarbor_stage|intros missing|disjoint_footprints].
  apply stage_seq; [apply ReconcileHelmRepository_stage|intros _|disjoint_footprints].
  apply stage_seq; [apply ReconcileRoleBindings_stage|intros _|disjoint_footprints].
  apply stage_seq; [apply ReconcileServiceAccount_stage|intros _|disjoint_footprints].
  apply stage_seq; [apply ReconcileResourceQuota_stage|intros _|disjoint_footprints].
  apply stage_seq; [apply ReconcileLimitRange_stage|intros _|disjoint_footprints].
  apply stage_seq; [apply ReconcileNetworkIsolation_stage|intros _|disjoint_footprints].
  apply stage_ret.
Qed.

Lemma reconcileResources_inner r w :
  reconcileResources r w =
    (ReconcileNamespace w (Version r) ;;? creds ←? OperatorHarborCredentials; inner_sync r w creds).
Proof. done. Qed.

Definition tenant_footprint w : footprint := (KNamespace, namespaceKey w) :: inner_footprint w.

Lemma exec_reconcileResources r w σ res σ' :
  quiet_reconciler r → exec (reconcileResources r w) σ = Some (res, σ') →
  (is_Ok res = true → ∃ secret, view σ KSecret operatorSecretKey = Some secret ∧
     tenant_ready r w (Harbor_URL (credentialsOf secret)) σ') ∧
  frame (tenant_footprint w) σ σ' ∧
  (∀ before, view σ KNamespace (namespaceKey w) = Some before → foreign w before →
     (∀ k key, view σ' k key = view σ k key) ∧ is_Ok res = false).
Proof.
  intros Hq. rewrite reconcileResources_inner. intros Hx.
  destruct (ReconcileNamespace_stage w (Version r)) as [Hp Hf Hl].
  apply exec_bindR in Hx as [(e & Hx & ->)|([] & σ1 & Hns & Hx)].
  { split_and!; [done| |].
    - eapply frame_mono; [|by eapply Hf]. unfold tenant_footprint. set_solver.
    - intros before Hb Hfor. split; [|done].
      apply exec_ReconcileNamespace in Hx as [_ Hforeign _ Hframe].
      intros k key. destruct (decide ((k, key) = (KNamespace, namespaceKey w))) as [[= -> ->]|Hne].
      + rewrite Hb. by apply Hforeign.
      + by apply Hframe. }
  assert (∀ before, view σ KNamespace (namespaceKey w) = Some before → ¬ foreign w before) as Hnf.
  { intros before Hb Hfor. apply exec_ReconcileNamespace in Hns as [_ Hforeign _ _].
    by destruct (Hforeign _ Hb Hfor). }
  pose proof (Hf _ _ _ Hns) as Hf1. apply Hp in Hns.
  apply exec_bindR in Hx as [(e & [_ Hv]%exec_OperatorHarborCredentials & ->)
    |(creds & σ2 & [(s & Hs & ->) Hv]%exec_OperatorHarborCredentials & Hx)].
  { split_and!; [done| |by intros ? ? ?%Hnf].
    intros k key Hk. rewrite Hv. apply Hf1. unfold tenant_footprint in Hk. set_solver. }
  destruct (inner_sync_stage r w (credentialsOf s) Hq) as [Hpi Hfi _].
  assert (frame (tenant_footprint w) σ σ') as Hframe.
  { intros k key Hk. unfold tenant_footprint in Hk.
    rewrite (Hfi _ _ _ Hx), Hv, Hf1; [done|set_solver..]. }
  split_and!; [|done|by intros ? ? ?%Hnf].
  destruct res as [ms|]; [|done]. intros _. exists s. split.
  { rewrite <-Hs. symmetry. apply Hf1. by intros [=]%list_elem_of_singleton. }
  apply Hpi in Hx as Hready. destruct Hready as (?&?&?&?&?&?&?&_). split; try done.
  eapply local_frame; [exact Hl|by eapply Hfi|disjoint_footprints|].
  eapply Hl; [|exact Hns]. intros; apply Hv.
Qed.
End sync_stage.

(** ** Confinement *)

Section confinement.
Context {CL : CtrlLib} {NL : NetLib}.
Implicit Types (r : WorkspaceReconciler) (w : Workspace).

Lemma inside_confined w o : inside w o → confined w o.
Proof. intros Hi k key Hw. right. right. by destruct (Hi _ _ Hw) as (_ & _ & ?). Qed.

Lemma emits_inside_confined {A} w (p : io A) : emits (inside w) p → emits (confined w) p.
Proof. apply emits_impl. intros o. apply inside_confined. Qed.

Lemma quiet_confined w o : quiet o → confined w o.
Proof. intros Hq. by apply inside_confined, inside_quiet. Qed.

Lemma ReconcileNamespace_confined w version : emits (confined w) (ReconcileNamespace w version).
Proof.
  unfold ReconcileNamespace, operatorConfigData. apply emits_bindR.
  - apply emits_bind; [apply emits_trigger; intros x; apply quiet_confined; by intros ?? []|].
    intros [|e]; [done|]. by destruct (IsNotFound e).
  - intros config. apply emits_bindR; [|done]. apply emits_wrap, emits_trigger.
    intros x k key [<- <-]. by right; left.
Qed.

Lemma OperatorHarborCredentials_quiet : emits quiet OperatorHarborCredentials.
Proof.
  unfold OperatorHarborCredentials. apply emits_bindR.
  - apply emits_wrap, emits_trigger. by intros ??? [].
  - intros s. by case_bool_decide.
Qed.

Lemma inner_sync_confined r w creds : quiet_reconciler r → emits (confined w) (inner_sync r w creds).
Proof.
  intros Hq. pose proof (harborClient_quiet r creds Hq). apply emits_inside_confined.
  unfold inner_sync. eauto 10 with progs.
Qed.

Lemma reconcileResources_confined r w : quiet_reconciler r → emits (confined w) (reconcileResources r w).
Proof.
  intros Hq. rewrite reconcileResources_inner. apply emits_bindR; [apply ReconcileNamespace_confined|].
  intros _. apply emits_bindR; [|intros creds; by apply inner_sync_confined].
  eapply emits_impl; [|apply OperatorHarborCredentials_quiet]. intros o. apply quiet_confined.
Qed.

Lemma status_confined w w' x : W_Name w' = W_Name w → confined w (Obs (ClientStatusPatch w w') x).
Proof. intros Hn k key [-> ->]. left. by rewrite Hn. Qed.

Lemma setReadyConditionFalse_confined w reason message :
  emits (confined w) (setReadyConditionFalse w reason message).
Proof.
  unfold setReadyConditionFalse, setStatusCondition. apply emits_bind.
  - apply emits_bind; [|done]. apply emits_trigger. intros x. apply quiet_confined. by intros ?? [].
  - intros cs. apply emits_bind; [|done]. apply emits_trigger. intros x. by apply status_confined.
Qed.

Lemma eventf_confined w w' t reason message : emits (confined w) (eventf w' t reason message).
Proof. apply emits_trigger. intros x. apply quiet_confined. by intros ?? []. Qed.

Lemma handleReconcileError_confined w e : emits (confined w) (handleReconcileError w e).
Proof.
  unfold handleReconcileError.
  destruct (AsNamespaceConflictError e); [|destruct (IsConflict e); [done|]];
    (apply emits_bind; [apply setReadyConditionFalse_confined|]); intros [p w'];
    (apply emits_bind; [apply eventf_confined|]); intros []; by destruct p.
Qed.

Lemma observedRef_quiet k name ns : emits quiet (observedRef k name ns).
Proof.
  apply emits_bind; [apply emits_trigger; by intros ??? []|]. intros [|e]; [done|]. by destruct (IsNotFound e).
Qed.

Lemma updateStatus_confined w missing : emits (confined w) (updateStatus w missing).
Proof.
  assert (∀ k name ns, emits (confined w) (observedRef k name ns)) as Ho.
  { intros. eapply emits_impl; [|apply observedRef_quiet]. intros o. apply quiet_confined. }
  unfold updateStatus, setStatusCondition. apply emits_bindR; [done|]. intros s.
  apply emits_bindR; [done|]. intros h. apply emits_bind.
  { apply emits_bind; [|done]. apply emits_trigger. intros x. apply quiet_confined. by intros ?? []. }
  intros cs. case_bool_decide; [done|]. apply emits_bindR.
  - apply emits_wrap, emits_trigger. intros x. by apply status_confined.
  - intros _. apply emits_bind; [|done]. apply emits_trigger. intros x. apply quiet_confined. by intros ?? [].
Qed.
End confinement.
