(* ===== verification/Conflicts.v ===== *)
(** A NamespaceConflict is a permanent error: the controller reports it and does
    not retry.  This file shows that the classification is sound: of all the
    steps of a reconcile only the namespace step fails with one, and only over a
    foreign namespace. *)
From S2P Require Import Prelude Errors Prog GoStd Api Effects Cluster Sync Stage Labels Config Namespace.
From S2P Require Import Rbac Resources Helm Harbor HarborSync Controller.

Section conflicts.
Context {CL : CtrlLib} {HCL : CtrlLaws} {NL : NetLib} {HNL : NetLaws}.
Context {W : Type} {CW : Cluster W} {LW : CachedLaws W}.
Implicit Types (r : WorkspaceReconciler) (w : Workspace) (σ : W) (c : httpClient).

(** ** The Harbor client *)

Class ConflictFree (hc : HarborClient) : Prop := {
  EnsureProject_nc p : no_conflict (EnsureProject hc p);
  ReconcileProjectMembers_nc p ms : no_conflict (ReconcileProjectMembers hc p ms);
  EnsureRobot_nc p n : no_conflict (EnsureRobot hc p n);
  RefreshRobotSecret_nc p n : no_conflict (RefreshRobotSecret hc p n);
}.

Lemma nc_deferClose {A} resp (p : io (result A)) : no_conflict p → no_conflict (deferClose resp p).
Proof.
  intros Hp σ e σ' (a & σ1 & Hx & Hk)%exec_bind. exec_inv. by eapply Hp.
Qed.

Lemma nc_do c method path body : no_conflict (do_ c method path body).
Proof.
  unfold do_. destruct (NewRequest_error _ _) as [e|] eqn:He; [|apply nc_http].
  apply nc_errR, external_not_conflict. by eapply NewRequest_external.
Qed.

(** A decoding failure, wrapped. *)
Lemma nc_decoded {A B} s (x : result A) (f : A → io (result B)) :
  (∀ e, x = Err e → external e) → (∀ a, no_conflict (f a)) →
  no_conflict (match x with Err e => errR (WrapError s e) | Ok a => f a end).
Proof.
  intros Hx Hf. destruct x as [a|e]; [done|]. apply nc_errR, (external_not_conflict e). by apply Hx.
Qed.

(** Walk over a function of the client. *)
Ltac nc_walk :=
  repeat first
    [ apply nc_bindR; [|intros ?] | apply nc_wrap | apply nc_deferClose | apply nc_do
    | apply nc_okR | apply nc_errR; reflexivity | case_bool_decide | case_match ].

Lemma nc_findRobot c project robot : no_conflict (findRobot c project robot).
Proof.
  unfold findRobot, getProjectID. apply nc_bindR.
  - apply nc_bindR; [apply nc_do|]. intros resp. apply nc_deferClose. case_bool_decide; [by apply nc_errR|].
    apply nc_decoded; [apply Decode_projectID_external|]. intros id. apply nc_okR.
  - intros id. apply nc_bindR; [apply nc_do|]. intros resp. apply nc_deferClose.
    case_bool_decide; [by apply nc_errR|].
    apply nc_decoded; [apply Decode_robots_external|]. intros rs. apply nc_okR.
Qed.

Lemma nc_createRobot c project robot : no_conflict (createRobot c project robot).
Proof.
  unfold createRobot, doJSON. apply nc_bindR; [apply nc_wrap, nc_do|]. intros resp.
  apply nc_deferClose. case_bool_decide; [|case_bool_decide; [apply nc_okR|by apply nc_errR]].
  apply nc_decoded; [apply Decode_createdRobot_external|]. intros x. nc_walk.
Qed.

Lemma nc_syncDesired c path desired existing missing :
  no_conflict (syncDesired c path desired existing missing).
Proof.
  revert existing missing. induction desired as [|d desired IH]; intros existing missing; simpl;
    [apply nc_okR|].
  destruct (existing !! _) as [cur|].
  - apply nc_bindR; [|done]. case_bool_decide; [|apply nc_okR].
    unfold updateProjectMember, doJSON. nc_walk.
  - assert (no_conflict (addProjectMember c path (PM_Username d) (PM_RoleID d))) as Hadd.
    { unfold addProjectMember, doJSON. nc_walk. }
    intros σ e σ' (res & σ1 & Ha & Hx)%exec_bind. destruct res as [u|e']; [by eapply IH|].
    destruct (IsErrUserNotFound e'); [by eapply IH|]. exec_inv. by eapply Hadd in Ha.
Qed.

#[export] Instance NewClient_conflict_free url user password :
  ConflictFree (NewClient url user password).
Proof.
  split; simpl.
  - intros p. unfold httpEnsureProject, projectExists, doJSON. nc_walk.
  - intros p ms. unfold httpReconcileProjectMembers. apply nc_bindR; [nc_walk|]. intros resp.
    apply nc_deferClose. case_bool_decide; [by apply nc_errR|].
    apply nc_decoded; [apply Decode_existingMembers_external|]. intros existing.
    apply nc_bindR; [apply nc_syncDesired|]. intros [rest missing]. apply nc_bind. intros stale.
    apply nc_bindR; [|intros; apply nc_okR]. apply nc_forR. intros x.
    unfold deleteProjectMember. nc_walk.
  - intros p n. unfold httpEnsureRobot. apply nc_bindR; [apply nc_wrap, nc_findRobot|].
    intros [x|]; [apply nc_okR|apply nc_createRobot].
  - intros p n. unfold httpRefreshRobotSecret, deleteRobot.
    apply nc_bindR; [apply nc_wrap, nc_findRobot|]. intros [x|]; [|by apply nc_errR].
    apply nc_bindR; [nc_walk|]. intros _.
    apply nc_bindR; [apply nc_wrap, nc_createRobot|]. intros [creds|]; nc_walk.
Qed.

(** ** The syncs *)

Definition conflict_free_reconciler r : Prop :=
  ∀ f, NewHarborClient r = Some f → ∀ url name secret, ConflictFree (f url name secret).

Lemma harborClient_conflict_free r creds : conflict_free_reconciler r → ConflictFree (harborClient r creds).
Proof.
  intros Hq. unfold harborClient. destruct (NewHarborClient r) as [f|] eqn:Hf; simpl; [|apply _].
  by apply Hq.
Qed.

Lemma nc_robotCredentials w hc `{!ConflictFree hc} : no_conflict (robotCredentials w hc).
Proof.
  unfold robotCredentials. apply nc_bindR; [apply nc_wrap, EnsureRobot_nc|]. intros [creds|]; [apply nc_okR|].
  apply nc_bindR.
  - unfold imagePullSecretMissing. intros σ e σ' (a & σ1 & [Ha _]%(exec_get_cached KSecret) & Hx)%exec_bind.
    destruct a as [s|e']; [by exec_inv|]. destruct (IsNotFound e'); exec_inv.
    apply (external_not_conflict e'), Ha.
  - intros []; [|apply nc_okR]. apply nc_bindR; [apply nc_wrap, RefreshRobotSecret_nc|].
    intros; apply nc_okR.
Qed.

Lemma nc_ReconcileHarbor w version hc url `{!ConflictFree hc} :
  no_conflict (ReconcileHarbor w version hc url).
Proof.
  unfold ReconcileHarbor. apply nc_bindR; [apply nc_wrap, EnsureProject_nc|intros _].
  apply nc_bindR; [apply nc_wrap, ReconcileProjectMembers_nc|intros ms].
  apply nc_bindR; [by apply nc_robotCredentials|intros creds].
  apply nc_bindR; [|intros _; apply nc_bindR; [|intros _; apply nc_okR]].
  - destruct creds; [|apply nc_okR]. unfold reconcileImagePullSecret, buildDockerConfigJSON.
    apply nc_bindR; [|intros; apply nc_okR]. eauto with progs.
  - unfold ensureImagePullSecret. apply nc_bindR; [|intros; apply nc_okR].
    apply nc_wrap, nc_create_or_update. intros o e. unfold ensureImagePullSecretMutate. by case_match.
Qed.

Lemma nc_ReconcileHelmRepository w version url : no_conflict (ReconcileHelmRepository w version url).
Proof.
  apply nc_forR. intros s. unfold reconcileHelmSource, buildHelmRepositoryURL.
  destruct (url_Parse url) as [[scheme host]|e] eqn:Hu; [eauto with progs|].
  apply nc_errR, (external_not_conflict e). by eapply url_Parse_external.
Qed.

Lemma nc_inner_sync r w creds : conflict_free_reconciler r → no_conflict (inner_sync r w creds).
Proof.
  intros Hr. pose proof (harborClient_conflict_free r creds Hr). unfold inner_sync.
  apply nc_bindR; [by apply nc_ReconcileHarbor|intros ms].
  apply nc_bindR; [apply nc_ReconcileHelmRepository|intros _].
  apply nc_bindR; [|intros _].
  { apply nc_forR. intros role. unfold reconcileRoleBinding. case_bool_decide; eauto with progs. }
  apply nc_bindR; [|intros _].
  { unfold ReconcileServiceAccount. eauto 10 with progs. }
  apply nc_bindR; [|intros _].
  { unfold ReconcileResourceQuota. case_match; eauto with progs. }
  apply nc_bindR; [|intros _].
  { unfold ReconcileLimitRange. case_match; eauto with progs. }
  apply nc_bindR; [|intros _; apply nc_okR].
  unfold ReconcileNetworkIsolation. case_match; eauto with progs.
Qed.

(** A conflict of the resource sync is the namespace step's. *)
Lemma conflict_foreign r w σ e σ' n :
  conflict_free_reconciler r → current σ KNamespace (namespaceKey w) →
  exec (reconcileResources r w) σ = Some (Err e, σ') → AsNamespaceConflictError e = Some n →
  ∃ ns, view σ KNamespace (namespaceKey w) = Some ns ∧ foreign w ns.
Proof.
  intros Hr Hcur. rewrite reconcileResources_inner.
  intros [(e' & Hx & [= ->])|([] & σ1 & _ & Hx)]%exec_bindR He; [by eapply ReconcileNamespace_conflict|].
  exfalso. apply exec_bindR in Hx as [(e' & [Hex _]%OperatorHarborCredentials_cached & [= ->])
    |(creds & σ2 & _ & Hx%nc_inner_sync)]; [|congruence|done].
  by rewrite external_not_conflict in He.
Qed.
End conflicts.
