(* ===== verification/Status.v ===== *)
(** The status of a Workspace: what updateStatus of
    internal/controller/workspace_controller.go computes, when it writes it, and
    that it settles. *)
From S2P Require Import Prelude Errors Prog GoStd Api Effects Cluster Fakes Labels Rbac Resources.
From S2P Require Import Controller.

(** ** Conditions *)

#[export] Instance cond_le_total : Total cond_le.
Proof. intros a b. apply String.leb_total. Qed.

#[export] Instance cond_le_trans : Transitive cond_le.
Proof.
  intros a b c Hab Hbc. unfold cond_le in *.
  apply Is_true_true. transitivity (Cond_Type b); by apply Is_true_true.
Qed.

Lemma cond_le_antisym cs a b :
  NoDup (Cond_Type <$> cs) → a ∈ cs → b ∈ cs → cond_le a b → cond_le b a → a = b.
Proof.
  intros Hnd Ha Hb H1 H2. pose proof (String.leb_antisym _ _ H1 H2) as Ht.
  apply list_elem_of_lookup in Ha as [i Hi]. apply list_elem_of_lookup in Hb as [j Hj].
  assert (i = j) as ->; [|congruence].
  eapply NoDup_lookup; [done|rewrite list_lookup_fmap, Hi; done|].
  rewrite list_lookup_fmap, Hj. simpl. by rewrite Ht.
Qed.

Lemma sortConditions_perm cs : sortConditions cs ≡ₚ cs.
Proof. apply merge_sort_Permutation. Qed.

Lemma sortConditions_sorted cs : StronglySorted cond_le (sortConditions cs).
Proof. apply StronglySorted_merge_sort; apply _. Qed.

(** Sorting a list sorted already, with one condition per type, changes nothing. *)
Lemma sortConditions_idem cs :
  NoDup (Cond_Type <$> cs) → sortConditions (sortConditions cs) = sortConditions cs.
Proof.
  intros Hnd. apply StronglySorted_unique_strong with (R := cond_le).
  - intros a b Ha Hb. rewrite !sortConditions_perm in Ha. rewrite sortConditions_perm in Hb.
    by apply (cond_le_antisym cs).
  - apply sortConditions_sorted.
  - apply sortConditions_sorted.
  - apply sortConditions_perm.
Qed.

Lemma FindStatusCondition_Some cs t c :
  NoDup (Cond_Type <$> cs) → FindStatusCondition cs t = Some c ↔ c ∈ cs ∧ Cond_Type c = t.
Proof.
  intros Hnd. unfold FindStatusCondition. split.
  - intros H. apply find_some in H as [Hin Ht]. rewrite list_elem_of_In. by case_bool_decide.
  - intros [Hin Ht]. induction cs as [|x cs IH]; simpl in *; [by apply elem_of_nil in Hin|].
    apply list.NoDup_cons in Hnd as [Hx Hnd]. apply elem_of_cons in Hin as [->|Hin].
    + by rewrite bool_decide_eq_true_2.
    + rewrite bool_decide_eq_false_2; [by apply IH|]. intros Hxt. apply Hx.
      apply list_elem_of_fmap. by exists c; rewrite Hxt, Ht.
Qed.

Lemma FindStatusCondition_sort cs t :
  NoDup (Cond_Type <$> cs) → FindStatusCondition (sortConditions cs) t = FindStatusCondition cs t.
Proof.
  intros Hnd. apply option_eq. intros c.
  rewrite !FindStatusCondition_Some by (by rewrite ?sortConditions_perm).
  by rewrite sortConditions_perm.
Qed.

(** ** References *)

Lemma rolesInUse_spec members role :
  default false (rolesInUse members !! role) = bool_decide (role ∈ Member_Role <$> members).
Proof.
  unfold rolesInUse.
  enough (∀ m : gmap MemberRole bool, default false (foldl (fun roles x => <[Member_Role x := true]> roles) m members !! role)
    = default false (m !! role) || bool_decide (role ∈ Member_Role <$> members)) as ->.
  { by rewrite lookup_empty. }
  induction members as [|x members IH]; intros m; simpl.
  - by rewrite orb_false_r.
  - rewrite IH, lookup_insert. destruct (decide (Member_Role x = role)) as [Hr|Hr].
    + subst. simpl. symmetry. rewrite bool_decide_eq_true_2 by set_solver. apply orb_true_r.
    + f_equal. apply bool_decide_ext. rewrite elem_of_cons. naive_solver.
Qed.

Definition roleBindingRef (w : Workspace) (role : MemberRole) : ResourceReference :=
  mkRef (RoleBindingName +:+ "-" +:+ role) (W_Namespace w).

Lemma roleBindingRefs_eq w :
  roleBindingRefs w =
    roleBindingRef w <$> filter (fun role => role ∈ Member_Role <$> W_Members w) AllMemberRoles.
Proof.
  unfold roleBindingRefs, AllMemberRoles. simpl. rewrite !rolesInUse_spec, !filter_cons, filter_nil.
  by repeat (case_bool_decide; case_decide; try done).
Qed.

(** ** Runs of updateStatus *)

Section runs.
Context {CL : CtrlLib} {NL : NetLib}.
Implicit Types (w : Workspace).

Lemma observedRef_runs k name ns tr r :
  runs (observedRef k name ns) tr r →
  ∃ a, tr = [Obs (ClientGet k (mkKey ns name)) a] ∧
    r = match a with
        | Ok _ => Ok (Some (mkRef name ns))
        | Err e => if IsNotFound e then Ok None
                   else Err (WrapError ("observing " +:+ ns +:+ "/" +:+ name) e)
        end.
Proof.
  unfold observedRef, Get. intros (? & ? & a & -> & ->%runs_trigger & Hr)%runs_bind. exists a.
  destruct a as [o|e]; [|destruct (IsNotFound e)]; by destruct Hr as [-> ->].
Qed.

(** The status for what was observed. *)
Definition statusOf w (missing : list string) (secret helm : bool) (now : Z) : WorkspaceStatus :=
  computedStatus w
    (if secret then Some (mkRef ImagePullSecretName (W_Namespace w)) else None)
    (if helm then Some (mkRef HelmRepositoryName (W_Namespace w)) else None)
    (sortConditions (SetStatusCondition now (Status_Conditions (W_Status w)) (readyCondition w missing))).

Definition reconciledEvent w : obs sysE :=
  Obs (EventfE w EventTypeNormal "Reconciled" "Reconcile"
         ("Workspace resources reconciled for namespace " +:+ W_Namespace w)) tt.

Definition secretGet w (a : result (obj KSecret)) : obs sysE :=
  Obs (ClientGet KSecret (mkKey (W_Namespace w) ImagePullSecretName)) a.
Definition helmGet w (a : result (obj KHelmRepository)) : obs sysE :=
  Obs (ClientGet KHelmRepository (mkKey (W_Namespace w) HelmRepositoryName)) a.

(** The write, when there is one. *)
Definition status_write w st (rest : trace) (r : result unit) : Prop :=
  W_Status w = st ∧ rest = [] ∧ r = Ok tt ∨
  W_Status w ≠ st ∧ ∃ patched,
    rest = Obs (ClientStatusPatch w (set_W_Status st w)) patched ::
           (if is_Ok patched then [reconciledEvent (set_W_Status st w)] else []) ∧
    r = wrapR "patching Workspace status" patched.

Lemma updateStatus_runs w missing tr r :
  runs (updateStatus w missing) tr r →
  (∃ e, is_Ok r = false ∧ r = Err e ∧ IsNotFound e = false ∧ length tr ≤ 2 ∧
    Forall (fun o => (∃ a, o = secretGet w a) ∨ ∃ a, o = helmGet w a) tr) ∨
  ∃ a1 a2 now rest, tr = secretGet w a1 :: helmGet w a2 :: Obs TimeNow now :: rest ∧
    status_write w (statusOf w missing (is_Ok a1) (is_Ok a2) now) rest r.
Proof.
  unfold updateStatus. intros (? & ? & r1 & -> & (a1 & -> & ->)%observedRef_runs & Hr)%runs_bindR_match.
  assert (is_Ok a1 = true ∨ (∃ e, a1 = Err e)) as Ha1 by (destruct a1; eauto).
  destruct a1 as [s|e]; [|destruct (IsNotFound e) eqn:He].
  3:{ destruct Hr as [-> ->]. left. eexists. split_and!; [done|done|exact He|simpl; lia|apply list.Forall_singleton; eauto]. }
  all: apply runs_bindR_match in Hr as (? & ? & r2 & -> & (a2 & -> & ->)%observedRef_runs & Hr);
    destruct a2 as [h|e2]; [|destruct (IsNotFound e2) eqn:He2].
  3,6: destruct Hr as [-> ->]; left; eexists; 
    (split_and!; [done|done|exact He2|simpl; lia|]);
    constructor; [by eauto|apply list.Forall_singleton; by eauto].
  all: right; eexists _, _; apply runs_bind in Hr as (? & ? & cs & -> & Hcs & Hr);
    apply runs_bind in Hcs as (? & ? & now & -> & ->%runs_trigger & -> & ->);
    exists now; eexists; (split; [simpl; reflexivity|]); unfold status_write, statusOf; simpl;
    (case_bool_decide as Hst; [left; by destruct Hr as [-> ->]|right; split; [done|]]);
    apply runs_bindR_match in Hr as (? & ? & p & -> & (p' & ->%runs_trigger & ->)%runs_wrap & Hr);
    exists p'; destruct p' as [[]|ep]; simpl in Hr;
    [destruct Hr as ([] & ? & -> & -> & ->)|destruct Hr as [-> ->]]; done.
Qed.
End runs.

(** ** What a status says *)

Section meaning.
Context {CL : CtrlLib} {HCL : CtrlLaws} {NL : NetLib}.
Implicit Types (w : Workspace).

Record status_describes w (missing : list string) (secret helm : bool) (st : WorkspaceStatus) : Prop := {
  sd_generation : Status_ObservedGeneration st = W_Generation w;
  sd_namespace : Status_NamespaceRef st = Some (mkRef (W_Namespace w) "");
  (** one reference per role in use, from the most to the least privileged *)
  sd_bindings : Status_RoleBindingRefs st =
    roleBindingRef w <$> filter (fun role => role ∈ Member_Role <$> W_Members w) AllMemberRoles;
  sd_quota : is_Some (Status_ResourceQuotaRef st) ↔ is_Some (Spec_ResourceQuota (W_Spec w));
  sd_limits : is_Some (Status_LimitRangeRef st) ↔ is_Some (Spec_LimitRange (W_Spec w));
  sd_policy : is_Some (Status_NetworkPolicyRef st) ↔
              Isolation_Enabled (Spec_NetworkIsolation (W_Spec w)) = true;
  (** the two observed objects are referenced exactly when they are there *)
  sd_secret : is_Some (Status_ImagePullSecretRef st) ↔ secret = true;
  sd_helm : is_Some (Status_HelmRepositoryRef st) ↔ helm = true;
  (** Ready is reported for this generation, True exactly when nobody is
      missing, and names the missing otherwise *)
  sd_ready : ∃ c, FindStatusCondition (Status_Conditions st) ConditionTypeReady = Some c ∧
    Cond_ObservedGeneration c = W_Generation w ∧
    (missing = [] → Cond_Status c = ConditionTrue) ∧
    (missing ≠ [] → Cond_Status c = ConditionFalse ∧ Cond_Reason c = "HarborMembersPending" ∧
       Cond_Message c = "Waiting for Harbor users to be provisioned: " +:+ Join missing ", ");
  (** conditions of other controllers are kept *)
  sd_others t : t ≠ ConditionTypeReady →
    FindStatusCondition (Status_Conditions st) t = FindStatusCondition (Status_Conditions (W_Status w)) t;
  sd_sorted : StronglySorted cond_le (Status_Conditions st);
  sd_types : NoDup (Cond_Type <$> Status_Conditions st);
}.

Lemma readyCondition_type w missing : Cond_Type (readyCondition w missing) = ConditionTypeReady.
Proof. unfold readyCondition. by case_bool_decide. Qed.

Lemma statusOf_describes w missing secret helm now :
  NoDup (Cond_Type <$> Status_Conditions (W_Status w)) →
  status_describes w missing secret helm (statusOf w missing secret helm now).
Proof.
  intros Hnd. pose proof (SetStatusCondition_types now _ (readyCondition w missing) Hnd) as Hnd'.
  split; simpl; try done.
  - apply roleBindingRefs_eq.
  - destruct (Spec_ResourceQuota _); simpl; by split; intros [].
  - destruct (Spec_LimitRange _); simpl; by split; intros [].
  - destruct (Isolation_Enabled _); simpl; split; (done || by intros []).
  - destruct secret; split; (done || by intros []).
  - destruct helm; split; (done || by intros []).
  - rewrite FindStatusCondition_sort by done.
    destruct (SetStatusCondition_find now (Status_Conditions (W_Status w)) (readyCondition w missing))
      as (c & Hc & Ht & Hs & Hg & Hr & Hm).
    rewrite readyCondition_type in Hc. exists c. rewrite Hs, Hg, Hr, Hm. unfold readyCondition.
    destruct missing as [|m ms]; simpl; done.
  - intros t Ht. rewrite FindStatusCondition_sort by done.
    apply SetStatusCondition_other. by rewrite readyCondition_type.
  - apply sortConditions_sorted.
  - by rewrite sortConditions_perm.
Qed.

(** Writing the status of the same observations again yields the same status,
    whatever the time. *)
Lemma statusOf_settled w missing secret helm now now' :
  NoDup (Cond_Type <$> Status_Conditions (W_Status w)) →
  let w' := set_W_Status (statusOf w missing secret helm now) w in
  statusOf w' missing secret helm now' = W_Status w'.
Proof.
  intros Hnd w'. pose proof (SetStatusCondition_types now _ (readyCondition w missing) Hnd) as Hnd'.
  change (computedStatus w (if secret then Some (mkRef ImagePullSecretName (W_Namespace w)) else None)
    (if helm then Some (mkRef HelmRepositoryName (W_Namespace w)) else None)
    (sortConditions (SetStatusCondition now'
      (sortConditions (SetStatusCondition now (Status_Conditions (W_Status w)) (readyCondition w missing)))
      (readyCondition w missing))) = statusOf w missing secret helm now).
  unfold statusOf. f_equal.
  destruct (SetStatusCondition_find now (Status_Conditions (W_Status w)) (readyCondition w missing))
    as (c & Hc & Hs).
  rewrite (SetStatusCondition_same now' _ _ c); [by apply sortConditions_idem| | |done].
  - unfold readyCondition. by case_bool_decide.
  - by rewrite FindStatusCondition_sort.
Qed.

(** C26. updateStatus observes the pull Secret and the HelmRepository, in that
    order, and either fails on a read that is not NotFound, having written
    nothing (a transient failure never clears a reference), or arrives at a
    status that describes the workspace: references for exactly what the spec
    asks for and what is there, and Ready.  It patches and emits the event
    exactly when that status differs from the recorded one; a failing patch is
    reported, wrapped, without an event. *)
Theorem updateStatus_correct w missing tr r :
  NoDup (Cond_Type <$> Status_Conditions (W_Status w)) → runs (updateStatus w missing) tr r →
  (∃ e, r = Err e ∧ IsNotFound e = false ∧
     Forall (fun o => (∃ a, o = secretGet w a) ∨ ∃ a, o = helmGet w a) tr) ∨
  ∃ a1 a2 now rest st, tr = secretGet w a1 :: helmGet w a2 :: Obs TimeNow now :: rest ∧
    status_describes w missing (is_Ok a1) (is_Ok a2) st ∧ status_write w st rest r.
Proof.
  intros Hnd [(e & _ & -> & He & _ & Hall)|(a1 & a2 & now & rest & -> & Hw)]%updateStatus_runs;
    [by left; exists e|right].
  exists a1, a2, now, rest. eexists. split_and!; [done|by apply statusOf_describes|done].
Qed.

(** The status an event writes. *)
Definition patched_status (o : obs sysE) : option WorkspaceStatus :=
  match o with
  | Obs e _ => match e with ClientStatusPatch _ w => Some (W_Status w) | _ => None end
  end.

(** C30. No flapping: once the status has been written, running updateStatus again
    on the written workspace, with the same members missing and the same two
    objects present, at any later time, patches nothing and emits nothing. *)
Theorem updateStatus_settles w missing a1 a2 now rest st b1 b2 tr :
  NoDup (Cond_Type <$> Status_Conditions (W_Status w)) →
  runs (updateStatus w missing) (secretGet w a1 :: helmGet w a2 :: Obs TimeNow now :: rest) (Ok tt) →
  (∃ patched, Obs (ClientStatusPatch w (set_W_Status st w)) patched ∈ rest) →
  is_Ok b1 = is_Ok a1 → is_Ok b2 = is_Ok a2 →
  let w' := set_W_Status st w in
  runs (updateStatus w' missing) (secretGet w' b1 :: helmGet w' b2 :: tr) (Ok tt) →
  ∃ now', tr = [Obs TimeNow now'].
Proof.
  intros Hnd Hfirst (p & Hp) Hb1 Hb2 w' Hsecond.
  assert (∃ now0, st = statusOf w missing (is_Ok a1) (is_Ok a2) now0) as [now0 ->].
  { apply updateStatus_runs in Hfirst as [(e & _ & [=] & _)|(c1 & c2 & now0 & rest' & Heq & Hw)].
    assert (rest = rest') as <- by exact (f_equal (fun l => tail (tail (tail l))) Heq).
    pose proof (Get_inj _ _ _ _ _ _ Heq) as <-.
    pose proof (Get_inj _ _ _ _ _ _ (f_equal tail Heq)) as <-. exists now0.
    destruct Hw as [(_ & -> & _)|(_ & p' & -> & _)]; [by apply elem_of_nil in Hp|].
    apply elem_of_cons in Hp as [Hp%(f_equal patched_status)|Hp].
    - simpl in Hp. by injection Hp.
    - destruct (is_Ok p'); [|by apply elem_of_nil in Hp].
      by apply list_elem_of_singleton, (f_equal patched_status) in Hp. }
  apply updateStatus_runs in Hsecond as [(e & _ & [=] & _)|(c1 & c2 & now' & rest' & Heq & Hw)].
  assert (tr = Obs TimeNow now' :: rest') as -> by exact (f_equal (fun l => tail (tail l)) Heq).
  pose proof (Get_inj _ _ _ _ _ _ Heq) as <-.
  pose proof (Get_inj _ _ _ _ _ _ (f_equal tail Heq)) as <-. exists now'.
  rewrite Hb1, Hb2 in Hw. unfold w' in Hw. rewrite (statusOf_settled w missing _ _ now0 now' Hnd) in Hw.
  by destruct Hw as [(_ & -> & _)|[Hne _]].
Qed.
End meaning.
