(* ===== verification/StatusHeap.v ===== *)
(** The status writes of internal/controller/workspace_controller.go over the
    heap of Heap.v, as the code makes them: field by field through pointers, with
    slices appended to, sorted and changed in place.

    Controller.v computes a new status as a plain value and hands the old and the
    new Workspace to the patch.  The theorems here show that this is what the
    code's writes through [w] and [newStatus] come to: the deep copies keep the
    status that is compared, and the workspace the patch is taken against, as they
    were before the writes. *)
From S2P Require Import Prelude Errors GoStd Heap Updates Api DeepCopy Effects Labels Config Namespace Rbac.
From S2P Require Import Resources Helm Harbor HarborSync Controller Status.

(** The heap operation of [meta.SetStatusCondition], given the time, and the
    spare room that [append] leaves in a new array for so many elements. *)
Class ConditionsLib `{GoLib} := {
  meta_SetStatusCondition : Z → option (slice Condition) → Condition → heapM cell (option (slice Condition));
  spare : nat → nat;
}.

(** It is [SetStatusCondition] of the list, and writes no cell but the list's. *)
Class ConditionsLaws `{ConditionsLib} {CL : CtrlLib} : Prop :=
  meta_SetStatusCondition_spec now s c h cs L :
    rep h s cs L → reaches (meta_SetStatusCondition now s c) h (fun s' h' =>
      ∃ L', rep h' s' (SetStatusCondition now cs c) L' ∧ writes h h' L ∧ L' ## dom h ∖ L).

(** ** The code *)

(** The fields of a status that hold a reference. *)
Inductive refField := FNamespace | FResourceQuota | FLimitRange | FNetworkPolicy | FImagePullSecret | FHelmRepository.
#[export] Instance refField_eq_dec : EqDecision refField.
Proof. solve_decision. Defined.

(** The value of field [g] after an assignment of [new] to field [f]. *)
Definition assigned {A} (f g : refField) (new old : A) : A := if decide (f = g) then new else old.

Section code.
Context {GL : GoLib} {GC : GoCopies} {CN : ConditionsLib}.

Definition set_go_ref (f : refField) (r : option (ptr ResourceReference)) (x : GoWorkspaceStatus) : GoWorkspaceStatus :=
  mkGoStatus (go_ObservedGeneration x)
    (assigned f FNamespace r (go_NamespaceRef x)) (assigned f FResourceQuota r (go_ResourceQuotaRef x))
    (assigned f FLimitRange r (go_LimitRangeRef x)) (go_RoleBindingRefs x)
    (assigned f FNetworkPolicy r (go_NetworkPolicyRef x)) (assigned f FImagePullSecret r (go_ImagePullSecretRef x))
    (assigned f FHelmRepository r (go_HelmRepositoryRef x)) (go_Conditions x).
Definition set_go_Generation (g : Z) (x : GoWorkspaceStatus) : GoWorkspaceStatus :=
  mkGoStatus g (go_NamespaceRef x) (go_ResourceQuotaRef x) (go_LimitRangeRef x) (go_RoleBindingRefs x)
    (go_NetworkPolicyRef x) (go_ImagePullSecretRef x) (go_HelmRepositoryRef x) (go_Conditions x).
Definition set_go_RoleBindingRefs (b : option (slice ResourceReference)) (x : GoWorkspaceStatus) : GoWorkspaceStatus :=
  mkGoStatus (go_ObservedGeneration x) (go_NamespaceRef x) (go_ResourceQuotaRef x) (go_LimitRangeRef x) b
    (go_NetworkPolicyRef x) (go_ImagePullSecretRef x) (go_HelmRepositoryRef x) (go_Conditions x).
Definition set_go_Conditions (cs : option (slice Condition)) (x : GoWorkspaceStatus) : GoWorkspaceStatus :=
  mkGoStatus (go_ObservedGeneration x) (go_NamespaceRef x) (go_ResourceQuotaRef x) (go_LimitRangeRef x)
    (go_RoleBindingRefs x) (go_NetworkPolicyRef x) (go_ImagePullSecretRef x) (go_HelmRepositoryRef x) cs.
Definition set_go_Status (st : GoWorkspaceStatus) (w : GoWorkspace) : GoWorkspace :=
  mkGoWorkspace (go_TypeMeta w) (go_ObjectMeta w) (go_Spec w) st.

(** [p.F = &ResourceReference{...}], or [p.F = nil]. *)
Definition assign (p : ptr GoWorkspaceStatus) (f : refField) (r : option ResourceReference) : heapM cell unit :=
  match r with
  | None => modify p (set_go_ref f None)
  | Some r => q ← new_ r; modify p (set_go_ref f (Some q))
  end.

(** [meta.SetStatusCondition(&p.Conditions, c)], and [slices.SortFunc(p.Conditions, ...)]. *)
Definition setConditions (p : ptr GoWorkspaceStatus) (now : Z) (c : Condition) : heapM cell unit :=
  st ← load p;
  conditions ← meta_SetStatusCondition now (go_Conditions st) c;
  modify p (set_go_Conditions conditions).
Definition sortConditionsOf (p : ptr GoWorkspaceStatus) : heapM cell unit :=
  st ← load p; sort_ cond_le (go_Conditions st).

(** The loop over the roles. *)
Fixpoint appendRoleBindingRefs (newStatus : ptr GoWorkspaceStatus) (rolesInUse : gmap MemberRole bool)
    (namespace : string) (roles : list MemberRole) : heapM cell unit :=
  match roles with
  | [] => mret tt
  | role :: roles =>
      (if default false (rolesInUse !! role) then
         st ← load newStatus;
         refs ← append_ (spare (S (default 0 (len <$> go_RoleBindingRefs st)))) (go_RoleBindingRefs st)
                  (mkRef (RoleBindingName +:+ "-" +:+ role) namespace);
         modify newStatus (set_go_RoleBindingRefs refs)
       else mret tt);;
      appendRoleBindingRefs newStatus rolesInUse namespace roles
  end.

(** updateStatus up to its comparison, for the references that observedRef
    returned, the Ready condition and the time. *)
Definition stageStatus (w : ptr GoWorkspace) (secretRef helmRef : option ResourceReference)
    (readyCondition : Condition) (now : Z) : heapM cell (ptr GoWorkspaceStatus) :=
  x ← load w;
  let spec := go_Spec x in
  let namespace := go_Namespace spec in
  newStatus ← copy_new WorkspaceStatus_DeepCopyInto (go_Status x);
  modify newStatus (set_go_Generation (go_Generation (go_ObjectMeta x)));;
  assign newStatus FNamespace (Some (mkRef namespace ""));;
  rolesInUse ← fold_range (fun roles m => <[go_Role m := true]> roles) (go_Members spec) ∅;
  modify newStatus (set_go_RoleBindingRefs None);;
  appendRoleBindingRefs newStatus rolesInUse namespace AllMemberRoles;;
  assign newStatus FResourceQuota
    (if go_ResourceQuota spec then Some (mkRef ResourceQuotaName namespace) else None);;
  assign newStatus FLimitRange
    (if go_LimitRange spec then Some (mkRef LimitRangeName namespace) else None);;
  assign newStatus FImagePullSecret secretRef;;
  assign newStatus FHelmRepository helmRef;;
  assign newStatus FNetworkPolicy
    (if go_Enabled (go_NetworkIsolation spec) then Some (mkRef NetworkPolicyName namespace) else None);;
  setConditions newStatus now readyCondition;;
  sortConditionsOf newStatus;;
  mret newStatus.

(** updateStatus from its comparison to the patch: the base of the patch. *)
Definition commitStatus (w : ptr GoWorkspace) (newStatus : ptr GoWorkspaceStatus) : heapM cell (ptr GoWorkspace) :=
  x ← load w;
  base ← copy_new Workspace_DeepCopyInto x;
  st ← load newStatus;
  modify w (set_go_Status st);;
  mret base.

(** [meta.SetStatusCondition(&w.Status.Conditions, c)] *)
Definition setWorkspaceConditions (w : ptr GoWorkspace) (now : Z) (c : Condition) : heapM cell unit :=
  x ← load w;
  conditions ← meta_SetStatusCondition now (go_Conditions (go_Status x)) c;
  modify w (fun x => set_go_Status (set_go_Conditions conditions (go_Status x)) x).

(** setReadyConditionFalse up to the patch: the base of the patch. *)
Definition stageNotReady (w : ptr GoWorkspace) (condition : Condition) (now : Z) : heapM cell (ptr GoWorkspace) :=
  x ← load w;
  base ← copy_new Workspace_DeepCopyInto x;
  setWorkspaceConditions w now condition;;
  modify w (fun x => set_go_Status (set_go_Generation (go_Generation (go_ObjectMeta x)) (go_Status x)) x);;
  mret base.
End code.

(** ** The same assignments on plain values *)

Definition set_ref (f : refField) (r : option ResourceReference) (v : WorkspaceStatus) : WorkspaceStatus :=
  mkStatus (Status_ObservedGeneration v)
    (assigned f FNamespace r (Status_NamespaceRef v)) (assigned f FResourceQuota r (Status_ResourceQuotaRef v))
    (assigned f FLimitRange r (Status_LimitRangeRef v)) (Status_RoleBindingRefs v)
    (assigned f FNetworkPolicy r (Status_NetworkPolicyRef v)) (assigned f FImagePullSecret r (Status_ImagePullSecretRef v))
    (assigned f FHelmRepository r (Status_HelmRepositoryRef v)) (Status_Conditions v).
Definition set_Generation (g : Z) (v : WorkspaceStatus) : WorkspaceStatus :=
  with_Conditions (Status_Conditions v) g v.
Definition set_Conditions (cs : list Condition) (v : WorkspaceStatus) : WorkspaceStatus :=
  with_Conditions cs (Status_ObservedGeneration v) v.
Definition set_RoleBindingRefs (b : list ResourceReference) (v : WorkspaceStatus) : WorkspaceStatus :=
  mkStatus (Status_ObservedGeneration v) (Status_NamespaceRef v) (Status_ResourceQuotaRef v) (Status_LimitRangeRef v)
    b (Status_NetworkPolicyRef v) (Status_ImagePullSecretRef v) (Status_HelmRepositoryRef v) (Status_Conditions v).

Section proofs.
Context {GL : GoLib} {GC : GoCopies} {GCL : GoCopiesLaws} {CN : ConditionsLib} {CL : CtrlLib} {CNL : ConditionsLaws}.
Implicit Types (h : gmap loc (@cell GL)) (v : WorkspaceStatus) (p : ptr GoWorkspaceStatus) (L : gset loc).

(** ** Assignments of single fields *)

Lemma rep_set_ref h x v L f q r M :
  rep h x v L → rep h q r M → ∃ L', rep h (set_go_ref f q x) (set_ref f r v) L' ∧ L' ⊆ L ∪ M.
Proof.
  intros (Hg & L1 & L2 & L3 & L4 & L5 & L6 & L7 & L8 & H1 & H2 & H3 & H4 & H5 & H6 & H7 & H8 & ->) Hq.
  destruct f; eexists; (split; [split; [exact Hg|]; do 8 eexists; split_and!; [eassumption..|reflexivity]|set_solver]).
Qed.

Lemma assign_updates p f r v : updates p v (assign p f r) (set_ref f r v).
Proof.
  destruct r as [r|]; simpl.
  2:{ apply updates_modify. intros h x L Hr.
      destruct (rep_set_ref h x v L f None None ∅ Hr) as (L' & Hr' & HL'); [done|]. exists L'. split; [done|set_solver]. }
  intros h L Hh. apply reaches_bind. eapply reaches_mono; [apply reaches_new|]. intros q h1 (Hs & Hq & Hl).
  destruct (holds_dom _ _ _ _ Hh) as [Hp Hd].
  assert (holds h1 p v L) as Hh1 by (eapply holds_writes; [done|by apply (subseteq_writes _ _ ∅)|set_solver]).
  assert (addr p ≠ addr q) as Hpq by congruence.
  assert (rep h1 (Some q) (Some r) {[addr q]}) as Hq'.
  { exists r, ∅. split_and!; [done|done|set_solver]. }
  eapply reaches_mono; [apply (reaches_modify _ _ _ (set_ref f (Some r) v) _ _ (fun L' => L' ⊆ L ∪ {[addr q]}) Hh1)|].
  - intros x Hx. destruct (rep_set_ref _ _ _ _ f _ _ _ Hx Hq') as (L' & Hx' & HL'). exists L'.
    split_and!; [done| |done]. destruct Hh as (_ & _ & _ & Hn). set_solver.
  - intros _ h2 (L' & Hh2 & HL' & Hw). exists L'. split_and!; [done| |set_solver].
    eapply writes_trans; [by apply subseteq_writes|done|set_solver].
Qed.

Lemma set_Generation_updates p g v : updates p v (modify p (set_go_Generation g)) (set_Generation g v).
Proof. apply updates_modify. intros h x L [_ Hr]. exists L. split; [by split|done]. Qed.

Lemma clear_RoleBindingRefs_updates p v :
  updates p v (modify p (set_go_RoleBindingRefs None)) (set_RoleBindingRefs [] v).
Proof.
  apply updates_modify.
  intros h x L (Hg & L1 & L2 & L3 & L4 & L5 & L6 & L7 & L8 & H1 & H2 & H3 & H4 & H5 & H6 & H7 & H8 & ->).
  eexists. split; [split; [exact Hg|]; do 8 eexists; split_and!; first [eassumption|by split|reflexivity]|set_solver].
Qed.

(** ** Where the slices of a status lie *)

(** The cells a value reaches are all of one type. *)
Lemma rep_reference_cells h (q : option (ptr ResourceReference)) r L l :
  rep h q r L → l ∈ L → ∃ x, h !! l = Some (CReference x).
Proof.
  destruct q as [q|], r as [r|]; simpl; try done; [|set_solver]. intros (x & L0 & Hq & [-> ->] & ->) Hl.
  assert (l = addr q) as -> by set_solver. by exists r.
Qed.

Lemma rep_references_cells h (s : option (slice ResourceReference)) rs L l :
  rep h s rs L → l ∈ L → ∃ xs, h !! l = Some (CReferences xs).
Proof.
  destruct s as [s|]; [|intros [_ ->]; set_solver]. intros (all & Ha & _ & _ & ->)%rep_flat_slice Hl.
  assert (l = arr s) as -> by set_solver. by exists all.
Qed.

Lemma rep_conditions_cells h (s : option (slice Condition)) cs L l :
  rep h s cs L → l ∈ L → ∃ xs, h !! l = Some (CConditions xs).
Proof.
  destruct s as [s|]; [|intros [_ ->]; set_solver]. intros (all & Ha & _ & _ & ->)%rep_flat_slice Hl.
  assert (l = arr s) as -> by set_solver. by exists all.
Qed.

(** No cell of one type is among cells of another. *)
Ltac other_cells :=
  repeat match goal with Hl : _ ∈ _ ∪ _ |- _ => apply elem_of_union in Hl as [Hl|Hl] end;
  match goal with Hr : rep _ _ _ ?L, Hl : _ ∈ ?L |- _ =>
    first [eapply rep_reference_cells in Hr as [? ?]; [|exact Hl]
          |eapply rep_references_cells in Hr as [? ?]; [|exact Hl]
          |eapply rep_conditions_cells in Hr as [? ?]; [|exact Hl]]; congruence
  end.
(** The rest of a struct is as it was. *)
Ltac parts_agree Hag :=
  split_and!; try done;
  lazymatch goal with
  | |- rep _ _ _ _ =>
      eapply rep_agree; [eassumption|]; intros ? ?; apply Hag; rewrite !elem_of_union; tauto
  | |- _ => apply set_eq; intros ?; rewrite !elem_of_union; tauto
  end.

Lemma separate_RoleBindingRefs :
  separate go_RoleBindingRefs Status_RoleBindingRefs set_go_RoleBindingRefs set_RoleBindingRefs.
Proof.
  intros h x v L (Hg & L1 & L2 & L3 & L4 & L5 & L6 & L7 & L8 & H1 & H2 & H3 & H4 & H5 & H6 & H7 & H8 & ->).
  exists (L1 ∪ L2 ∪ L3 ∪ L5 ∪ L6 ∪ L7 ∪ L8), L4. split_and!; [set_solver| |done|].
  - intros l Hl [xs Hx]%(rep_references_cells _ _ _ _ _ H4). clear H4. other_cells.
  - intros h' y w L' Hy Hag. split; [done|]. exists L1, L2, L3, L', L5, L6, L7, L8. parts_agree Hag.
Qed.

(** A spec holds no slice of conditions. *)
Definition no_conditions h L : Prop := ∀ l cs, l ∈ L → h !! l ≠ Some (CConditions cs).

Lemma no_conditions_union h L L' : no_conditions h L → no_conditions h L' → no_conditions h (L ∪ L').
Proof. intros H1 H2 l cs [Hl|Hl]%elem_of_union; [by apply H1|by apply H2]. Qed.

Lemma no_conditions_cell h l c : h !! l = Some c → (∀ cs, c ≠ CConditions cs) → no_conditions h {[l]}.
Proof. intros Hl Hc l' cs ->%elem_of_singleton. rewrite Hl. intros [= ->]. by apply (Hc cs). Qed.

Section no_conditions.
Context {G V : Type} `{RepLaws cell G V}.
Context (Hpart : ∀ h (x : G) (v : V) L, rep h x v L → no_conditions h L).

Lemma ptr_no_conditions `{!Stored cell G} h (q : option (ptr G)) (v : option V) L :
  (∀ (x : G) cs, pack x ≠ CConditions cs) → rep h q v L → no_conditions h L.
Proof.
  intros Hpack Hq. destruct q as [q|], v as [v|]; simpl in Hq; try done; [|subst; intros l cs Hl; set_solver].
  destruct Hq as (x & L0 & Hx & Hr & ->). apply no_conditions_union; [by eapply no_conditions_cell|by eapply Hpart].
Qed.

Lemma reps_no_conditions h (xs : list G) (vs : list V) L : reps h xs vs L → no_conditions h L.
Proof.
  revert vs L. induction xs as [|x xs IH]; intros [|v vs] L; simpl; try done; [intros -> l cs Hl; set_solver|].
  intros (L1 & L2 & Hx & Hxs & ->). apply no_conditions_union; [by eapply Hpart|by eapply IH].
Qed.

Lemma slice_no_conditions `{!Stored cell (list G)} h (s : option (slice G)) (vs : list V) L :
  (∀ (xs : list G) cs, pack xs ≠ CConditions cs) → rep h s vs L → no_conditions h L.
Proof.
  intros Hpack. destruct s as [s|]; simpl; [|intros [_ ->] l cs Hl; set_solver].
  intros (all & L0 & Hx & _ & Hr & ->).
  apply no_conditions_union; [by eapply no_conditions_cell|by eapply reps_no_conditions].
Qed.
End no_conditions.

Lemma flat_no_conditions {V} h (x v : V) L : @rep _ _ _ rep_flat h x v L → no_conditions h L.
Proof. intros [_ ->] l cs Hl. set_solver. Qed.

Lemma Member_no_conditions h (x : GoWorkspaceMember) (v : WorkspaceMember) L : rep h x v L → no_conditions h L.
Proof. intros (_ & _ & _ & Hn). eapply (ptr_no_conditions (G := string)); [|done|exact Hn]. intros. by eapply flat_no_conditions. Qed.

Lemma Spec_no_conditions h (x : GoWorkspaceSpec) (v : WorkspaceSpec) L : rep h x v L → no_conditions h L.
Proof.
  intros (_ & L1 & L2 & L3 & L4 & H1 & H2 & H3 & [_ H4] & ->). repeat apply no_conditions_union.
  - eapply (slice_no_conditions (G := GoWorkspaceMember)); [exact Member_no_conditions|done|exact H1].
  - eapply (ptr_no_conditions (G := GoResourceQuotaSpec)); [|done|exact H2]. intros h' y w L' Hr l cs. by eapply ResourceQuotaSpec_no_conditions.
  - eapply (ptr_no_conditions (G := GoLimitRangeSpec)); [|done|exact H3]. intros h' y w L' Hr l cs. by eapply LimitRangeSpec_no_conditions.
  - eapply (slice_no_conditions (G := string)); [|done|exact H4]. intros. by eapply flat_no_conditions.
Qed.

Lemma separate_Conditions : separate go_Conditions Status_Conditions set_go_Conditions set_Conditions.
Proof.
  intros h x v L (Hg & L1 & L2 & L3 & L4 & L5 & L6 & L7 & L8 & H1 & H2 & H3 & H4 & H5 & H6 & H7 & H8 & ->).
  exists (L1 ∪ L2 ∪ L3 ∪ L4 ∪ L5 ∪ L6 ∪ L7), L8. split_and!; [set_solver| |done|].
  - intros l Hl [xs Hx]%(rep_conditions_cells _ _ _ _ _ H8). clear H8. other_cells.
  - intros h' y w L' Hy Hag. split; [done|]. exists L1, L2, L3, L4, L5, L6, L7, L'. parts_agree Hag.
Qed.

Lemma separate_Workspace_Conditions :
  separate (fun x => go_Conditions (go_Status x)) (fun v : TypeMeta * Workspace => Status_Conditions (W_Status v.2))
    (fun cs x => set_go_Status (set_go_Conditions cs (go_Status x)) x)
    (fun cs (v : TypeMeta * Workspace) => (v.1, set_W_Status (set_Conditions cs (W_Status v.2)) v.2)).
Proof.
  intros h x v L (Ht & L1 & L2 & L3 & H1 & H2 & H3 & ->).
  destruct (separate_Conditions _ _ _ _ H3) as (Lo & Lc & -> & Hdisj & Hc & Hput).
  exists (L1 ∪ L2 ∪ Lo), Lc. split_and!; [set_solver| |done|].
  - intros l Hl Hl'. destruct (rep_conditions_cells _ _ _ _ _ Hc Hl') as [xs Hx].
    apply elem_of_union in Hl as [[Hl|Hl]%elem_of_union|Hl].
    + exact (ObjectMeta_no_conditions _ _ _ _ _ _ H1 Hl Hx).
    + exact (Spec_no_conditions _ _ _ _ H2 _ _ Hl Hx).
    + exact (Hdisj l Hl Hl').
  - intros h' y w L' Hy Hag. split; [done|]. exists L1, L2, (Lo ∪ L').
    assert (∀ l, l ∈ Lo → h' !! l = h !! l) as Hag' by (intros l Hl; apply Hag; set_solver).
    pose proof (Hput h' y w L' Hy Hag'). clear H3. parts_agree Hag.
Qed.

(** ** Assignments of slices *)

Lemma setConditions_updates p v now c :
  updates p v (setConditions p now c) (set_Conditions (SetStatusCondition now (Status_Conditions v) c) v).
Proof.
  apply (separate_updates _ _ _ _ _ _ _ (fun s => meta_SetStatusCondition now s c) separate_Conditions).
  intros h s L Hs. by apply meta_SetStatusCondition_spec.
Qed.

Lemma sortConditions_updates p v :
  updates p v (sortConditionsOf p) (set_Conditions (sortConditions (Status_Conditions v)) v).
Proof.
  apply (separate_in_place _ _ _ _ _ _ _ _ separate_Conditions); [by intros []|].
  intros h s L Hs. by apply sort_spec.
Qed.

Lemma setWorkspaceConditions_updates (w : ptr GoWorkspace) (v : TypeMeta * Workspace) now c :
  updates w v (setWorkspaceConditions w now c)
    (v.1, set_W_Status (set_Conditions (SetStatusCondition now (Status_Conditions (W_Status v.2)) c) (W_Status v.2)) v.2).
Proof.
  apply (separate_updates _ _ _ _ _ _ _ (fun s => meta_SetStatusCondition now s c) separate_Workspace_Conditions).
  intros h s L Hs. by apply meta_SetStatusCondition_spec.
Qed.

Lemma appendRoleBindingRefs_updates p v roles ns rs :
  updates p v (appendRoleBindingRefs p roles ns rs)
    (set_RoleBindingRefs (foldl (fun refs (role : MemberRole) => if default false (roles !! role)
       then refs ++ [mkRef (RoleBindingName +:+ "-" +:+ role) ns] else refs) (Status_RoleBindingRefs v) rs) v).
Proof.
  revert v. induction rs as [|role rs IH]; intros v; simpl; [destruct v; apply updates_ret|].
  destruct (default false (roles !! role)); [|eapply updates_bind; [apply updates_ret|intros _; apply IH]].
  set (ref := mkRef (RoleBindingName +:+ "-" +:+ role) ns).
  apply (updates_bind _ _ (set_RoleBindingRefs (Status_RoleBindingRefs v ++ [ref]) v)).
  - apply (separate_updates _ _ _ _ _ _ _ (fun s => append_ (spare (S (default 0 (len <$> s)))) s ref) separate_RoleBindingRefs).
    intros h s L Hs. by apply append_spec.
  - intros _. exact (IH (set_RoleBindingRefs (Status_RoleBindingRefs v ++ [ref]) v)).
Qed.
(** ** The whole writes *)

Ltac own_next H :=
  apply reaches_bind; eapply reaches_mono;
    [eapply (private_step (G := GoWorkspaceStatus)); [eassumption|apply H]|]; cbn beta; intros ? ? ?.

(** [newStatus] after updateStatus's assignments. *)
Lemma stageStatus_own h (w : ptr GoWorkspace) tm W L secretRef helmRef ready now :
  holds h w (tm, W) L →
  reaches (stageStatus w secretRef helmRef ready now) h (fun newStatus h' => private h h' newStatus
    (computedStatus W secretRef helmRef
       (sortConditions (SetStatusCondition now (Status_Conditions (W_Status W)) ready)))).
Proof.
  intros Hw. apply reaches_bind. eapply reaches_load; [done|]. intros x Hx (_ & L1 & L2 & L3 & Hm & Hs & Hst & ->).
  destruct Hs as (Hns & M1 & M2 & M3 & M4 & Hmem & Hq & Hl & [Hen _] & _). simpl in Hns, Hmem, Hq, Hl, Hen.
  apply reaches_bind. eapply reaches_mono; [eapply private_copy; [exact WorkspaceStatus_copies|exact Hst]|].
  cbn beta. intros newStatus h1 H1. own_next set_Generation_updates. own_next assign_updates.
  match goal with H : private h ?h' _ _ |- _ => pose proof (rep_mono h h' _ _ _ (proj1 H) Hmem) as Hmem' end.
  apply reaches_bind. eexists _, _. split.
  { eapply (fold_range_spec _ (fun roles m => <[Member_Role m := true]> roles)); [exact Hmem'|].
    by intros acc y u M (-> & _). }
  own_next clear_RoleBindingRefs_updates. own_next appendRoleBindingRefs_updates.
  do 5 own_next assign_updates. own_next setConditions_updates. own_next sortConditions_updates.
  apply reaches_ret. match goal with H : private h ?h' _ ?V |- private h ?h' _ ?V' => replace V' with V; [exact H|] end.
  by rewrite Hns, Hen, (go_Generation_rep _ _ _ _ Hm), (rep_ptr_if _ _ _ _ _ _ Hq), (rep_ptr_if _ _ _ _ _ _ Hl).
Qed.
(** A copy of the workspace, made before it is changed. *)
Lemma base_copy h (w : ptr GoWorkspace) u L x :
  holds h w u L → rep h x u L →
  reaches (copy_new Workspace_DeepCopyInto x) h (fun base h' => private h h' base u ∧ holds h' w u L).
Proof.
  intros Hw Hx. eapply reaches_mono; [eapply private_copy; [exact Workspace_copies|exact Hx]|].
  intros base h' Hb. split; [done|].
  eapply holds_writes; [exact Hw|apply (subseteq_writes _ _ ∅), Hb|set_solver].
Qed.

(** A change of [w] leaves alone what is private since an earlier heap. *)
Lemma private_kept {G V} `{!Stored cell G} `{RepLaws cell G V} h h1 h2 (w : ptr GoWorkspace) (u : TypeMeta * Workspace)
    (b : ptr G) (v : V) L :
  holds h w u L → private h h1 b v → writes h1 h2 ({[addr w]} ∪ L) → ∃ M, holds h2 b v M.
Proof.
  intros Hw (_ & M & Hb & Hd) Hwr. pose proof (holds_rep _ _ _ _ Hw) as Hdw%rep_dom. exists M.
  eapply holds_writes; [done..|set_solver].
Qed.

Lemma commitStatus_spec h (w : ptr GoWorkspace) tm W L newStatus st L' :
  holds h w (tm, W) L → holds h newStatus st L' → ({[addr newStatus]} ∪ L') ## ({[addr w]} ∪ L) →
  reaches (commitStatus w newStatus) h (fun base h' =>
    (∃ M, holds h' base (tm, W) M) ∧ ∃ M, holds h' w (tm, set_W_Status st W) M).
Proof.
  intros Hw Hst Hdisj. apply reaches_bind. eapply reaches_load; [exact Hw|]. intros x Hx Hr. apply reaches_bind.
  eapply reaches_mono; [by apply base_copy|]. intros base h1 [Hb Hw1].
  assert (holds h1 newStatus st L') as Hst1.
  { eapply holds_writes; [exact Hst|apply (subseteq_writes _ _ ∅), Hb|set_solver]. }
  apply reaches_bind. eapply reaches_load; [exact Hst1|]. intros y Hy Hry. apply reaches_bind.
  eapply reaches_mono; [apply (reaches_modify _ _ _ (tm, set_W_Status st W) _ _ (fun _ => True) Hw1)|].
  - assert (addr w ∉ L) as Hwl by by destruct Hw as (? & _ & _ & ?).
    assert (addr w ∉ L') as Hwl' by (intros Hl; apply (Hdisj (addr w)); set_solver).
    intros z (Hz & L1 & L2 & L3 & H1 & H2 & H3 & ->). exists (L1 ∪ L2 ∪ L'). split_and!; [|set_solver|done].
    split; [done|]. by exists L1, L2, L'.
  - intros _ h2 (M & Hw2 & _ & Hwr). apply reaches_ret. split; [|by exists M].
    eapply private_kept; [exact Hw|exact Hb|eapply writes_weaken; [exact Hwr|set_solver]].
Qed.

(** C27. updateStatus's writes through [newStatus] and [w] come to the plain values of
    Controller.v: whatever the workspace shares inside its slices, [newStatus]
    ends up standing for [computedStatus] while [w] still stands for the
    workspace with its old status, so the comparison is between the old status
    and the new one; and the patch is then taken from the old workspace, kept by
    [base], to [w] with its status replaced. *)
Theorem updateStatus_staged h (w : ptr GoWorkspace) tm W L secretRef helmRef ready now :
  holds h w (tm, W) L →
  let st := computedStatus W secretRef helmRef
    (sortConditions (SetStatusCondition now (Status_Conditions (W_Status W)) ready)) in
  ∃ newStatus h1 base h2 L1 L2 L3,
    stageStatus w secretRef helmRef ready now h = Some (newStatus, h1) ∧
    h ⊆ h1 ∧ holds h1 w (tm, W) L ∧ holds h1 newStatus st L1 ∧
    commitStatus w newStatus h1 = Some (base, h2) ∧
    holds h2 base (tm, W) L2 ∧ holds h2 w (tm, set_W_Status st W) L3.
Proof.
  intros Hw st. destruct (stageStatus_own h w tm W L secretRef helmRef ready now Hw)
    as (newStatus & h1 & Hstage & Hs & L1 & Hst & Hd).
  assert (holds h1 w (tm, W) L) as Hw1.
  { eapply holds_writes; [exact Hw|by apply (subseteq_writes _ _ ∅)|set_solver]. }
  pose proof (holds_dom _ _ _ _ Hw).
  destruct (commitStatus_spec h1 w tm W L newStatus st L1) as (base & h2 & Hc & [L2 Hb] & [L3 Hw2]); [done..|set_solver|].
  exists newStatus, h1, base, h2, L1, L2, L3. by split_and!.
Qed.

(** C28. setReadyConditionFalse changes the conditions of [w] in place; the patch's
    base, copied before, still stands for the workspace as it was read. *)
Theorem setReadyConditionFalse_staged h (w : ptr GoWorkspace) tm W L condition now :
  holds h w (tm, W) L →
  ∃ base h' L1 L2, stageNotReady w condition now h = Some (base, h') ∧
    holds h' base (tm, W) L1 ∧
    holds h' w (tm, set_W_Status (with_Conditions (SetStatusCondition now (Status_Conditions (W_Status W)) condition)
                                   (W_Generation W) (W_Status W)) W) L2.
Proof.
  intros Hw.
  enough (reaches (stageNotReady w condition now) h (fun base h' => (∃ M, holds h' base (tm, W) M) ∧
    ∃ M, holds h' w (tm, set_W_Status (with_Conditions (SetStatusCondition now (Status_Conditions (W_Status W)) condition)
                       (W_Generation W) (W_Status W)) W) M)) as (base & h' & Hc & [L1 Hb] & [L2 Hw2]).
  { by exists base, h', L1, L2. }
  apply reaches_bind. eapply reaches_load; [exact Hw|]. intros x Hx Hr. apply reaches_bind.
  eapply reaches_mono; [by apply base_copy|]. intros base h1 [Hb Hw1].
  assert (updates w (tm, W) (setWorkspaceConditions w now condition;;
    modify w (fun x => set_go_Status (set_go_Generation (go_Generation (go_ObjectMeta x)) (go_Status x)) x))
    (tm, set_W_Status (with_Conditions (SetStatusCondition now (Status_Conditions (W_Status W)) condition)
                         (W_Generation W) (W_Status W)) W)) as Hup.
  { eapply updates_bind; [apply setWorkspaceConditions_updates|]. intros _. apply updates_modify.
    intros h2 y M (Ht & L1 & L2 & L3 & H1 & H2 & [_ H3] & ->). exists (L1 ∪ L2 ∪ L3). split; [|done].
    split; [done|]. exists L1, L2, L3. split_and!; [done..| |done].
    split; [|exact H3]. exact (go_Generation_rep _ _ _ _ H1). }
  destruct (Hup _ _ Hw1) as ([] & h2 & Hrun & L' & Hw2 & Hwr & _).
  exists base, h2. split; [|split; [exact (private_kept _ _ _ _ _ _ _ _ Hw Hb Hwr)|by exists L']].
  unfold mbind, heapM_bind in Hrun |- *. destruct (setWorkspaceConditions w now condition h1) as [[u h1']|]; [|done].
  by rewrite Hrun.
Qed.
End proofs.
