(* ===== verification/Reconcile.v ===== *)
(** Properties of a whole reconcile (internal/controller/workspace_controller.go):
    what it leaves in the cluster, what it may write, how it classifies errors,
    and how it fits the admission webhook. *)
From S2P Require Import Prelude Errors Prog GoStd Api Effects Cluster Sync Stage Fakes Labels Config.
From S2P Require Import Namespace Rbac Resources Helm Authorization Harbor HarborSync Webhook Controller.
From S2P Require Import Conflicts Status.

(** ** Runs of a reconcile *)

Section runs.
Context {CL : CtrlLib} {NL : NetLib}.
Implicit Types (r : WorkspaceReconciler) (w : Workspace).

(** The namespace label is missing or wrong. *)
Definition needs_backfill w : Prop :=
  gomap_get (W_Labels w) LabelWorkspaceNamespace ≠ W_Namespace w.

#[export] Instance needs_backfill_dec w : Decision (needs_backfill w).
Proof. unfold needs_backfill. apply _. Defined.

(** The workspace with the label put right. *)
Definition backfilled w : Workspace :=
  set_W_Labels (Some (<[LabelWorkspaceNamespace := W_Namespace w]> (gomap_view (W_Labels w)))) w.

Lemma backfilled_eq w :
  set_W_Labels (Some (<[LabelWorkspaceNamespace := W_Namespace w]> (gomap_make (W_Labels w)))) w = backfilled w.
Proof. unfold backfilled. by rewrite gomap_make_view. Qed.

Definition reconciled_result (missing : list string) : Result :=
  mkResult (if bool_decide (0 < length missing) then missingHarborMembersRequeue else 0).

(** How a reconcile of a fetched workspace goes on. *)
Definition reconcile_tail r w (tr : trace) (res : Result * option error) : Prop :=
  if decide (needs_backfill w) then
    ∃ updated, tr = [Obs (ClientUpdateWorkspace (backfilled w)) updated] ∧
      res = (noRequeue, match updated with
                        | Ok _ => None
                        | Err e => Some (WrapError "backfilling namespace label" e)
                        end)
  else
    ∃ tr1 tr2 synced, tr = tr1 ++ tr2 ∧ runs (reconcileResources r w) tr1 synced ∧
      match synced with
      | Err e => runs (handleReconcileError w e) tr2 res
      | Ok missing => ∃ status, runs (updateStatus w missing) tr2 status ∧
          res = match status with
                | Err e => (noRequeue, Some e)
                | Ok _ => (reconciled_result missing, None)
                end
      end.

Lemma Reconcile_runs r key tr res :
  runs (Reconcile r key) tr res →
  ∃ got tr', tr = Obs (ClientGet KWorkspace key) got :: tr' ∧
    match got with
    | Err e => tr' = [] ∧ res = (noRequeue, if IsNotFound e then None else Some e)
    | Ok w => reconcile_tail r w tr' res
    end.
Proof.
  unfold Reconcile, Get. intros (? & tr' & got & -> & ->%runs_trigger & Hr)%runs_bind.
  exists got, tr'. split; [done|]. destruct got as [w|e]; [|by destruct Hr as [-> ->]].
  unfold reconcile_tail. case_bool_decide as Hb; [rewrite decide_True by done|rewrite decide_False by (intros Hn; by apply Hn)].
  - rewrite backfilled_eq in Hr. apply runs_bind in Hr as (? & ? & u & -> & ->%runs_trigger & Hr).
    exists u. destruct u; by destruct Hr as [-> ->].
  - apply runs_bind in Hr as (tr1 & tr2 & synced & -> & Hs & Hr). exists tr1, tr2, synced.
    split_and!; [done..|]. destruct synced as [ms|e]; [|done].
    apply runs_bind in Hr as (tr3 & ? & status & -> & Hst & Hr). exists status.
    unfold reconciled_result. destruct status; [case_bool_decide|]; destruct Hr as [-> ->]; by rewrite app_nil_r.
Qed.

(** The run of a reconcile whose Get found the workspace. *)
Lemma Reconcile_tail_of r key w tr res :
  runs (Reconcile r key) (Obs (ClientGet KWorkspace key) (Ok w) :: tr) res → reconcile_tail r w tr res.
Proof.
  intros (got & tr' & Heq & Hr)%Reconcile_runs. pose proof (Get_inj KWorkspace _ _ _ _ _ Heq) as <-.
  apply (f_equal tail) in Heq. simpl in Heq. by subst tr'.
Qed.

(** The trace of a report: Ready=False patched, then a Warning event. *)
Definition report w (reason message : string) (now : Z) (patched : result unit) : trace :=
  let w' := set_W_Status (with_Conditions
    (SetStatusCondition now (Status_Conditions (W_Status w))
       (mkCondition ConditionTypeReady ConditionFalse (W_Generation w) 0 reason message))
    (W_Generation w) (W_Status w)) w in
  [Obs TimeNow now; Obs (ClientStatusPatch w w') patched;
   Obs (EventfE w' EventTypeWarning reason "Reconcile" message) tt].

Lemma report_runs w reason message {A} (f : result unit → A) tr res :
  runs ('(p, w') ← setReadyConditionFalse w reason message;
        eventf w' EventTypeWarning reason message;; mret (f p)) tr res →
  ∃ now p, tr = report w reason message now p ∧ res = f p.
Proof.
  intros (? & ? & [p w'] & -> & Hs & Hr)%runs_bind.
  apply runs_bind in Hr as (? & ? & [] & -> & ->%runs_trigger & -> & ->).
  unfold setReadyConditionFalse, setStatusCondition in Hs.
  apply runs_bind in Hs as (? & ? & cs & -> & (? & ? & now & -> & ->%runs_trigger & -> & ->)%runs_bind & Hs).
  apply runs_bind in Hs as (? & ? & p' & -> & ->%runs_trigger & -> & [= -> ->]).
  by exists now, p'.
Qed.

(** What the error handler does with each class of error. *)
Definition error_handling w (e : error) (tr : trace) (res : Result * option error) : Prop :=
  match AsNamespaceConflictError e with
  | Some _ => ∃ now p, tr = report w "NamespaceConflict" (Error e) now p ∧
      res = (mkResult (if is_Ok p then 0 else 30 * time_Second), None)
  | None =>
      if IsConflict e then tr = [] ∧ res = (noRequeue, Some e)
      else ∃ now p, tr = report w "ReconcileError" (Error e) now p ∧ res = (noRequeue, Some e)
  end.

Lemma handleReconcileError_runs w e tr res :
  runs (handleReconcileError w e) tr res → error_handling w e tr res.
Proof.
  unfold handleReconcileError, error_handling. destruct (AsNamespaceConflictError e).
  - intros (tr1 & tr2 & [p w'] & -> & Hs & Hr)%runs_bind.
    destruct (report_runs w "NamespaceConflict" (Error e) (fun p => p) (tr1 ++ tr2) p)
      as (now & p' & -> & <-).
    { apply runs_bind. eexists _, _, _. split; [done|]. split; [exact Hs|].
      apply runs_bind in Hr as (tr3 & tr4 & u & -> & Hu & Hr). apply runs_bind.
      exists tr3, tr4, u. split_and!; [done..|]. by destruct p, Hr as [-> _]. }
    exists now, p. split; [done|].
    apply runs_bind in Hr as (? & ? & u & -> & Hu & Hr). by destruct p, Hr as [_ ->].
  - destruct (IsConflict e); [done|]. by intros (now & p & -> & ->)%(report_runs _ _ _ (fun _ => _)); eauto.
Qed.

Lemma error_handling_delay w e tr res err :
  error_handling w e tr (res, err) →
  (RequeueAfter res = 0 ∨ RequeueAfter res = 30 * time_Second)%Z ∧
  (err ≠ None → RequeueAfter res = 0%Z).
Proof.
  unfold error_handling. destruct (AsNamespaceConflictError e).
  - intros (now & p & _ & [= -> ->]). split; [destruct p; simpl; auto|done].
  - destruct (IsConflict e); [intros [_ [= -> ->]]|intros (now & p & _ & [= -> ->])]; auto.
Qed.

(** The delays a reconcile can end with. *)
Lemma reconcile_tail_delay r w tr res err :
  reconcile_tail r w tr (res, err) →
  (err ≠ None → RequeueAfter res = 0%Z) ∧
  (RequeueAfter res = 0 ∨ RequeueAfter res = 30 * time_Second ∨
   RequeueAfter res = missingHarborMembersRequeue)%Z.
Proof.
  unfold reconcile_tail. case_decide; [intros (u & _ & [= -> _]); auto|].
  intros (tr1 & tr2 & synced & _ & _ & Hr). destruct synced as [ms|e].
  - destruct Hr as ([u|e] & _ & [= -> ->]); [|by auto]. split; [done|].
    unfold reconciled_result. simpl. case_bool_decide; auto.
  - apply handleReconcileError_runs, error_handling_delay in Hr as [[?|?] ?]; auto.
Qed.
End runs.

(** ** Executions of a reconcile *)

(** Only a namespace conflict is handled without an error. *)
Lemma handled_conflict {CL : CtrlLib} {W : Type} {CW : Cluster W} w e (σ : W) res σ' :
  exec (handleReconcileError w e) σ = Some ((res, None), σ') → is_Some (AsNamespaceConflictError e).
Proof.
  intros [tr Hres%handleReconcileError_runs]%interp_runs. unfold error_handling in Hres.
  destruct (AsNamespaceConflictError e); [by eexists|].
  destruct (IsConflict e); [by destruct Hres|by destruct Hres as (? & ? & _ & [=])].
Qed.

Section execution.
Context {CL : CtrlLib} {HCL : CtrlLaws} {NL : NetLib}.
Context {W : Type} {CW : Cluster W} {LW : ClusterLaws W}.
Implicit Types (r : WorkspaceReconciler) (w : Workspace) (σ : W).

Definition workspaceKey w : ObjectKey := mkKey "" (W_Name w).

(** The event writes the status of [w], at most. *)
Definition status_only w (o : obs sysE) : Prop :=
  match o with
  | Obs e _ => match e with ClientStatusPatch _ p => W_Name p = W_Name w | _ => quiet o end
  end.

(** A workspace before and after its status may have been written. *)
Definition restated (before after : option Workspace) : Prop :=
  after = before ∨ ∃ w status, before = Some w ∧ after = Some (set_W_Status status w).

(** Nothing but the status of [w] changes. *)
Definition status_frame w σ σ' : Prop :=
  frame [(KWorkspace, workspaceKey w)] σ σ' ∧
  restated (view σ KWorkspace (workspaceKey w)) (view σ' KWorkspace (workspaceKey w)).

#[export] Instance restated_preorder : PreOrder restated.
Proof.
  split; [by left|]. intros o1 o2 o3 [->|(w & st & -> & ->)]; [done|].
  intros [->|(w' & st' & [= <-] & ->)]; [right; eauto|]. right. by exists w, st'.
Qed.

#[export] Instance status_frame_preorder w : PreOrder (status_frame w).
Proof.
  split; [by split|]. intros σ1 σ2 σ3 [Hf1 Hr1] [Hf2 Hr2].
  split; [by eapply frame_trans|by etrans].
Qed.

Lemma quiet_status_only w o : quiet o → status_only w o.
Proof.
  destruct o as [X [] x]; try done. intros Hq. by destruct (Hq KWorkspace (mkKey "" (W_Name modified))).
Qed.

Lemma patch_status_only w base p : W_Name p = W_Name w → emits (status_only w) (trigger (ClientStatusPatch base p)).
Proof. intros Hn. by apply emits_trigger. Qed.

Lemma exec_status_only {A} w (p : io A) σ a σ' :
  emits (status_only w) p → exec p σ = Some (a, σ') → status_frame w σ σ'.
Proof.
  apply exec_rel; [apply _|]. intros X e σ1 x σ2 Hs Ho.
  assert (quiet (Obs e x) → status_frame w σ1 σ2) as Hquiet.
  { intros Hq. assert (∀ k key, view σ2 k key = view σ1 k key) as Hv by (intros; eapply serve_frame; [done|apply Hq]).
    split; [by intros k key _; apply Hv|left; apply (Hv KWorkspace)]. }
  destruct e as [| | | |base p'| | | | | | | | | |]; try by apply Hquiet. simpl in Ho. split.
  - intros k key Hk. eapply serve_frame; [done|]. simpl. rewrite Ho. intros [-> ->].
    by apply Hk, list_elem_of_singleton.
  - apply serve_status_patch in Hs. unfold workspaceKey. rewrite <-Ho.
    destruct Hs as [->|(old & st & -> & ->)]; [by left|right; eauto].
Qed.

Lemma setReadyConditionFalse_status w reason message :
  emits (status_only w) (setReadyConditionFalse w reason message).
Proof.
  unfold setReadyConditionFalse, setStatusCondition. apply emits_bind.
  - apply emits_bind; [|done]. apply emits_trigger. intros x. by apply quiet_status_only; intros ?? [].
  - intros cs. apply emits_bind; [|done]. by apply patch_status_only.
Qed.

Lemma handleReconcileError_status w e : emits (status_only w) (handleReconcileError w e).
Proof.
  unfold handleReconcileError.
  destruct (AsNamespaceConflictError e); [|destruct (IsConflict e); [done|]];
    (apply emits_bind; [apply setReadyConditionFalse_status|]); intros [p w'];
    (apply emits_bind; [apply emits_trigger; intros x; by apply quiet_status_only; intros ?? []|]);
    intros []; by destruct p.
Qed.

Lemma updateStatus_status w missing : emits (status_only w) (updateStatus w missing).
Proof.
  assert (∀ k name ns, emits (status_only w) (observedRef k name ns)) as Ho.
  { intros. eapply emits_impl; [|apply observedRef_quiet]. intros o. apply quiet_status_only. }
  unfold updateStatus, setStatusCondition. apply emits_bindR; [done|]. intros s.
  apply emits_bindR; [done|]. intros h. apply emits_bind.
  { apply emits_bind; [|done]. apply emits_trigger. intros x. by apply quiet_status_only; intros ?? []. }
  intros cs. case_bool_decide; [done|]. apply emits_bindR.
  - by apply emits_wrap, patch_status_only.
  - intros _. apply emits_bind; [|done]. apply emits_trigger. intros x. by apply quiet_status_only; intros ?? [].
Qed.

(** A reconcile of a workspace that carries its label is a sync and a report. *)
Lemma exec_Reconcile r key w σ res σ' :
  view σ KWorkspace key = Some w → ¬ needs_backfill w →
  exec (Reconcile r key) σ = Some (res, σ') →
  (∃ e, res = (noRequeue, Some e) ∧ ∀ k key, view σ' k key = view σ k key) ∨
  ∃ synced σ0 σ1, (∀ k key, view σ0 k key = view σ k key) ∧
    exec (reconcileResources r w) σ0 = Some (synced, σ1) ∧
    status_frame w σ1 σ' ∧
    match synced with
    | Err e => exec (handleReconcileError w e) σ1 = Some (res, σ')
    | Ok missing => res = (reconciled_result missing, None) ∨ ∃ e, res = (noRequeue, Some e)
    end.
Proof.
  intros Hw Hb. unfold Reconcile. intros (got & σ0 & [Hg Hv]%(exec_get KWorkspace) & Hx)%exec_bind.
  destruct got as [w0|e].
  - rewrite Hw in Hg. injection Hg as <-. rewrite bool_decide_eq_false_2 in Hx by done.
    apply exec_bind in Hx as (synced & σ1 & Hs & Hx). right. exists synced, σ0, σ1.
    split_and!; [done|done| |]; destruct synced as [ms|e].
    + apply exec_bind in Hx as (st & σ2 & Hst & Hx).
      apply exec_status_only with (w := w) in Hst; [|apply updateStatus_status].
      destruct st; [case_bool_decide|]; by exec_inv.
    + eapply exec_status_only; [apply handleReconcileError_status|done].
    + apply exec_bind in Hx as (st & σ2 & Hst & Hx). unfold reconciled_result.
      destruct st; [case_bool_decide|]; exec_inv; eauto.
    + done.
  - left. destruct Hg as [_ Hn]. destruct (IsNotFound e); [by rewrite (Hn eq_refl) in Hw|].
    exec_inv. by exists e.
Qed.

(** A failed sync the handler does not report upwards: a foreign namespace. *)
Lemma exec_conflict `{!NetLaws} r w w' σ e σ1 res σ' :
  quiet_reconciler r → conflict_free_reconciler r → exec (reconcileResources r w) σ = Some (Err e, σ1) →
  exec (handleReconcileError w' e) σ1 = Some ((res, None), σ') →
  ∃ ns, view σ KNamespace (namespaceKey w) = Some ns ∧ foreign w ns ∧
    ∀ k key, view σ1 k key = view σ k key.
Proof.
  intros Hq Hc Hs [n He]%handled_conflict.
  destruct (conflict_foreign r w _ _ _ _ Hc (caught_up _ _ _) Hs He) as (ns & Hns & Hfor). exists ns.
  pose proof (exec_reconcileResources r w _ _ _ Hq Hs) as (_ & _ & Hforeign).
  by destruct (Hforeign _ Hns Hfor).
Qed.

(** Over a foreign namespace a reconcile changes the workspace at most. *)
Lemma exec_Reconcile_foreign r key w ns σ res σ' :
  quiet_reconciler r → view σ KWorkspace key = Some w →
  view σ KNamespace (namespaceKey w) = Some ns → foreign w ns →
  exec (Reconcile r key) σ = Some (res, σ') → frame [(KWorkspace, workspaceKey w)] σ σ'.
Proof.
  intros Hq Hw Hns Hfor Hx k key' Hk. destruct (decide (needs_backfill w)) as [Hb|Hb].
  - unfold Reconcile in Hx. apply exec_bind in Hx as (got & σ0 & [Hg Hv]%(exec_get KWorkspace) & Hx).
    rewrite <-Hv. destruct got as [w0|e]; [|by exec_inv].
    rewrite Hw in Hg. injection Hg as <-. rewrite bool_decide_eq_true_2 in Hx by done.
    eapply exec_frame; [|exact Hx]. apply emits_bind; [|by intros []]. apply emits_trigger.
    intros x [-> ->]. by apply Hk, list_elem_of_singleton.
  - apply (exec_Reconcile _ _ w) in Hx as [(e & _ & Hv)|(synced & σ0 & σ1 & Hv & Hs & [Hf _] & _)]; [done| |done..].
    apply exec_reconcileResources in Hs as (_ & _ & Hforeign); [|done].
    rewrite <-Hv, <-(proj1 (Hforeign ns ltac:(by rewrite Hv) Hfor)). apply Hf. set_solver.
Qed.

(** [tenant_ready] speaks of the tenant's objects only. *)
Lemma tenant_ready_on r w url σ σ' :
  (∀ k key, (k, key) ∈ tenant_footprint w → view σ' k key = view σ k key) →
  tenant_ready r w url σ → tenant_ready r w url σ'.
Proof.
  intros Hv [Hn Hp Hh Hb Hd Hq Hl Hpol].
  assert (∀ foot (post : W → Prop), foot ⊆ tenant_footprint w → local foot post → post σ → post σ') as Hloc.
  { intros foot post Hfoot Hl'. apply Hl'. intros k key Hk. by apply Hv, Hfoot. }
  unfold tenant_footprint, inner_footprint in Hv, Hloc. split.
  - eapply Hloc, Hn; [|apply (ReconcileNamespace_stage w (Version r))]. set_solver.
  - eapply Hloc, Hp; [|exact (stage_local _ _ _ (ReconcileHarbor_stage w (Version r) (NewClient "" "" "") url))]. set_solver.
  - eapply Hloc, Hh; [|apply (ReconcileHelmRepository_stage w (Version r) url)]. set_solver.
  - eapply Hloc, Hb; [|apply (ReconcileRoleBindings_stage w (Version r))]. set_solver.
  - eapply Hloc, Hd; [|apply (ReconcileServiceAccount_stage w (Version r))]. set_solver.
  - by rewrite (Hv KResourceQuota) by set_solver.
  - by rewrite (Hv KLimitRange) by set_solver.
  - by rewrite (Hv KNetworkPolicy) by set_solver.
Qed.

Lemma tenant_ready_local r w url σ σ' :
  (∀ k key, k ≠ KWorkspace → view σ' k key = view σ k key) →
  tenant_ready r w url σ → tenant_ready r w url σ'.
Proof.
  intros Hv. apply tenant_ready_on. intros k key Hk. apply Hv. intros ->.
  apply elem_of_cons in Hk as [[=]|Hk].
  assert (disjoint_footprints (inner_footprint w) [(KWorkspace, key)]) as Hd by disjoint_footprints.
  apply (Hd _ Hk). set_solver.
Qed.
End execution.

(** ** Properties *)

Section properties.
Context {CL : CtrlLib} {HCL : CtrlLaws} {NL : NetLib} {HNL : NetLaws}.
Context {W : Type} {CW : Cluster W} {LW : ClusterLaws W}.
Implicit Types (r : WorkspaceReconciler) (w : Workspace) (σ : W).

(** C1. What a reconcile achieves, on every lawful cluster, whatever was there
    before and whatever Harbor answers.  When reconciling a workspace that
    carries its namespace label ends without an error, either its namespace is
    a foreign one, and then nothing but the workspace itself has changed; or
    the workspace is ready: namespace claimed, a pull Secret there and listed by
    the default ServiceAccount, Helm repositories, role bindings, deployer
    identity, quota, limits and network policy all as its spec asks. *)
Theorem Reconcile_refines r key w σ res σ' :
  quiet_reconciler r → conflict_free_reconciler r → view σ KWorkspace key = Some w → ¬ needs_backfill w →
  exec (Reconcile r key) σ = Some ((res, None), σ') →
  (∃ ns, view σ KNamespace (namespaceKey w) = Some ns ∧ foreign w ns ∧
     ∀ k key', k ≠ KWorkspace → view σ' k key' = view σ k key') ∨
  (∃ secret, view σ KSecret operatorSecretKey = Some secret ∧
     tenant_ready r w (Harbor_URL (credentialsOf secret)) σ').
Proof.
  intros Hq Hc Hw Hb [(e & [=] & _)|(synced & σ0 & σ1 & Hv & Hs & [Hf _] & Hres)]%(exec_Reconcile _ _ w); [|done..].
  pose proof (exec_reconcileResources r w _ _ _ Hq Hs) as (Hready & Hframe & Hforeign).
  destruct synced as [missing|e].
  - right. destruct (Hready eq_refl) as (secret & Hsec & Ht). exists secret. rewrite <-Hv. split; [done|].
    eapply tenant_ready_local; [|done]. intros k key' Hk. apply Hf. set_solver.
  - left. destruct (exec_conflict r w _ _ _ _ _ _ Hq Hc Hs Hres) as (ns & Hns & Hfor & Hv1). exists ns.
    rewrite <-Hv. split_and!; [done..|]. intros k key' Hk. rewrite <-Hv, <-Hv1. apply Hf. set_solver.
Qed.

(** C8. A tenant cannot take over what is not theirs: while the namespace a
    workspace names is a foreign one, no reconcile of it, however it ends,
    changes anything in the cluster but the workspace object itself. *)
Theorem foreign_namespace_untouched r key w ns σ res σ' :
  quiet_reconciler r → view σ KWorkspace key = Some w →
  view σ KNamespace (namespaceKey w) = Some ns → foreign w ns →
  exec (Reconcile r key) σ = Some (res, σ') →
  ∀ k key', (k, key') ≠ (KWorkspace, workspaceKey w) → view σ' k key' = view σ k key'.
Proof.
  intros Hq Hw Hns Hfor Hx k key' Hk.
  pose proof (exec_Reconcile_foreign r key w ns σ res σ' Hq Hw Hns Hfor Hx) as Hf. apply Hf. set_solver.
Qed.

(** Level-triggered reconciliation settles.  Every mutate function the
    operator hands to CreateOrUpdate leaves alone the object it produced, as
    the server kept it, so that a second reconcile over an unchanged spec
    issues no update (and wakes no watch): namespace, pull secret, default
    ServiceAccount, Helm repositories, member bindings, deployer account and
    binding, quota, network policy.  (A LimitRange is left out: the server
    completes it with defaults.) *)
Theorem syncs_settle w version :
  (∀ rid, settles (k := KNamespace) (namespaceMutate w version rid)) ∧
  (∀ json, settles (k := KSecret) (pullSecretMutate w version json)) ∧
  settles (k := KServiceAccount) ensureImagePullSecretMutate ∧
  (∀ source url insecure, settles (k := KHelmRepository) (helmMutate w version source url insecure)) ∧
  (∀ role members, settles (k := KRoleBinding) (roleBindingMutate w version role members)) ∧
  settles (k := KServiceAccount) (serviceAccountMutate w version) ∧
  settles (k := KRoleBinding) (deployerBindingMutate w version) ∧
  (∀ spec, settles (k := KResourceQuota) (quotaMutate w version spec)) ∧
  settles (k := KNetworkPolicy) (policyMutate w version).
Proof.
  destruct (pull_settles w version "") as (_ & Hdefault & _).
  destruct (rbac_settles w version "" []) as (_ & Hdeployer & Hbinding).
  split_and!; try done.
  - intros rid. apply namespaceMutate_settles.
  - intros json. apply (pull_settles w version json).
  - intros. apply helm_settles.
  - intros role members. apply (rbac_settles w version role members).
  - intros spec. apply quota_settles.
  - apply policy_settles.
Qed.
End properties.

Section trace_properties.
Context {CL : CtrlLib} {HCL : CtrlLaws} {NL : NetLib}.
Implicit Types (r : WorkspaceReconciler) (w : Workspace).

Lemma reconcile_tail_confined r w tr res :
  quiet_reconciler r → reconcile_tail r w tr res → Forall (confined w) tr.
Proof.
  intros Hq Hr. unfold reconcile_tail in Hr. case_decide.
  - destruct Hr as (u & -> & _). apply list.Forall_singleton. intros k key' [-> ->]. by left.
  - destruct Hr as (tr1 & tr2 & synced & -> & Hs & Hr).
    apply (emits_runs (confined w)) in Hs; [|by apply reconcileResources_confined].
    apply Forall_app. split; [done|]. destruct synced as [ms|e].
    + destruct Hr as (st & Hr & _). eapply emits_runs; [|done]. apply updateStatus_confined.
    + eapply emits_runs; [|done]. apply handleReconcileError_confined.
Qed.

(** C3. Tenant isolation of the writes, on every run, with any environment: after
    fetching the workspace, a reconcile writes only that workspace, its
    Namespace object, and objects inside that namespace.  A workspace that
    cannot be fetched causes no further call at all. *)
Theorem Reconcile_confined r key tr res :
  quiet_reconciler r → runs (Reconcile r key) tr res →
  ∃ got tr', tr = Obs (ClientGet KWorkspace key) got :: tr' ∧
    match got with
    | Ok w => Forall (confined w) tr'
    | Err e => tr' = [] ∧ res = (noRequeue, if IsNotFound e then None else Some e)
    end.
Proof.
  intros Hq (got & tr' & -> & Hr)%Reconcile_runs. exists got, tr'. split; [done|].
  destruct got as [w|e]; [|done]. by eapply reconcile_tail_confined.
Qed.

(** C31. How an error is reported.  A namespace conflict (seen through any
    wrapping) is permanent: it is not returned, so it is not retried, unless
    the status could not be written, and then once after 30 seconds.  A write
    conflict is handed back for the rate-limited retry without touching status
    or events.  Everything else is returned unchanged, whether or not the
    status could be written.  A report patches Ready to False with that reason
    and message, for this generation, leaves other conditions and references
    alone, and emits one Warning event. *)
Theorem handleReconcileError_correct w e tr res :
  runs (handleReconcileError w e) tr res →
  error_handling w e tr res ∧
  ∀ reason message now, ∃ w' c,
    (∀ p, report w reason message now p =
      [Obs TimeNow now; Obs (ClientStatusPatch w w') p;
       Obs (EventfE w' EventTypeWarning reason "Reconcile" message) tt]) ∧
    W_Spec w' = W_Spec w ∧ metadata w' = metadata w ∧
    FindStatusCondition (Status_Conditions (W_Status w')) ConditionTypeReady = Some c ∧
    Cond_Status c = ConditionFalse ∧ Cond_Reason c = reason ∧ Cond_Message c = message ∧
    Cond_ObservedGeneration c = W_Generation w ∧
    ∀ t, t ≠ ConditionTypeReady → FindStatusCondition (Status_Conditions (W_Status w')) t =
      FindStatusCondition (Status_Conditions (W_Status w)) t.
Proof.
  intros Hr%handleReconcileError_runs. split; [done|]. intros reason message now.
  set (c := mkCondition ConditionTypeReady ConditionFalse (W_Generation w) 0 reason message).
  destruct (SetStatusCondition_find now (Status_Conditions (W_Status w)) c)
    as (c' & Hc & _ & Hs & Hg & Hre & Hm).
  eexists _, c'. split; [done|]. split_and!; try done.
  intros t Ht. by apply SetStatusCondition_other.
Qed.

(** C32. When a reconcile asks to run again.  An error is returned without a timed
    requeue (the queue's backoff applies); the only delays are 30 seconds and
    five minutes; and five minutes are asked for only after a complete sync and
    a written status with members missing in Harbor, the one input that no
    watch covers.  Without error and without delay, either nothing is missing,
    or the workspace was gone, backfilled, or in conflict. *)
Theorem Reconcile_requeues r key tr res err :
  runs (Reconcile r key) tr (res, err) →
  (err ≠ None → RequeueAfter res = 0%Z) ∧
  (RequeueAfter res = 0 ∨ RequeueAfter res = 30 * time_Second ∨
   RequeueAfter res = missingHarborMembersRequeue)%Z ∧
  (RequeueAfter res = missingHarborMembersRequeue ↔ ∃ w tr1 tr2 missing,
     tr = Obs (ClientGet KWorkspace key) (Ok w) :: tr1 ++ tr2 ∧ ¬ needs_backfill w ∧ missing ≠ [] ∧
     runs (reconcileResources r w) tr1 (Ok missing) ∧ runs (updateStatus w missing) tr2 (Ok tt) ∧
     res = reconciled_result missing).
Proof.
  intros (got & tr' & -> & Hr)%Reconcile_runs.
  assert (∀ missing, missing ≠ [] → RequeueAfter (reconciled_result missing) = missingHarborMembersRequeue) as Hpos.
  { intros missing Hm. unfold reconciled_result. rewrite bool_decide_eq_true_2; [done|].
    destruct missing; [done|simpl; lia]. }
  destruct got as [w|e]; [destruct (reconcile_tail_delay _ _ _ _ _ Hr) as [H1 H2]|].
  - split_and!; [done..|]. split; [|by intros (? & ? & ? & ms & _ & _ & Hm & _ & _ & ->); apply Hpos].
    intros Ht. unfold reconcile_tail in Hr. case_decide; [by destruct Hr as (u & _ & [= -> _])|].
    destruct Hr as (tr1 & tr2 & synced & -> & Hs & Hr). exists w, tr1, tr2. destruct synced as [ms|e].
    + destruct Hr as ([[]|e] & Hst & [= -> ->]); [|done]. exists ms. split_and!; try done. by intros ->.
    + apply handleReconcileError_runs, error_handling_delay in Hr as [[Hz|Hz] _];
        rewrite Hz in Ht; discriminate Ht.
  - destruct Hr as [-> [= -> _]]. split_and!; [done|by left|]. split; [done|].
    by intros (? & ? & ? & ms & _ & _ & Hm & _ & _ & ->); rewrite (Hpos ms).
Qed.
End trace_properties.
