(* ===== verification/Pulls.v ===== *)
(** The tenant's pull credentials through whole reconciles: HarborPull.v has the
    step of internal/workspace/harbor.go that touches them, the rest of Reconcile
    (internal/controller/workspace_controller.go) leaves the pull Secret and the
    robot alone.  As there, reads come from a cache. *)
From S2P Require Import Prelude Errors Prog GoStd Api Effects Cluster Sync Stage Fakes Labels Config.
From S2P Require Import Namespace Rbac Resources Helm Harbor HarborMembers HarborSync HarborPull Controller Conflicts.
From S2P Require Import Status Reconcile.

Section elsewhere.
Context {CL : CtrlLib} {HCL : CtrlLaws} {NL : NetLib}.
Context {W : Type} {CW : Cluster W} {LW : CachedLaws W} {RH : RobotHost W} {RL : RobotHostLaws W}.
Implicit Types (w : Workspace) (r : WorkspaceReconciler) (σ : W).

(** The event is none of Harbor's, and writes no Secret. *)
Definition elsewhere (o : obs sysE) : Prop := not_http o ∧ ∀ key, ¬ writes o KSecret key.

(** What the pull credentials depend on. *)
Definition same_pull w σ σ' : Prop :=
  view σ' KSecret (pullKey w) = view σ KSecret (pullKey w) ∧ h_robot σ' = h_robot σ.

#[export] Instance same_pull_preorder w : PreOrder (same_pull w).
Proof. split; [done|]. intros σ1 σ2 σ3 [H1 R1] [H2 R2]. split; congruence. Qed.

Lemma exec_elsewhere {A} w (p : io A) σ a σ' :
  emits elsewhere p → exec p σ = Some (a, σ') → same_pull w σ σ'.
Proof.
  apply exec_rel; [apply _|]. intros X e σ1 x σ2 Hs [Hh Hw]. split.
  - eapply serve_frame; [done|apply Hw].
  - by eapply h_robot_calls.
Qed.
End elsewhere.

(** Follow the program to its calls. *)
Ltac elsewhere :=
  repeat first
    [ done
    | apply emits_trigger; intros ?; split; [exact I|intros ?; simpl; intuition discriminate]
    | apply emits_bindR | apply emits_wrap | apply emits_fmap | apply emits_forR | apply emits_bind
    | match goal with |- ∀ _, _ => intros ? end
    | progress cbn beta iota zeta
    | match goal with |- emits _ (match ?x with _ => _ end) => destruct x end ].

Section steps.
Context {CL : CtrlLib} {HCL : CtrlLaws} {NL : NetLib}.
Implicit Types (w : Workspace) (r : WorkspaceReconciler).

Lemma ReconcileNamespace_elsewhere w version : emits elsewhere (ReconcileNamespace w version).
Proof. unfold ReconcileNamespace, operatorConfigData, Get, CreateOrUpdate. elsewhere. Qed.

Lemma OperatorHarborCredentials_elsewhere : emits elsewhere OperatorHarborCredentials.
Proof. unfold OperatorHarborCredentials, Get. elsewhere. Qed.

(** The part of a sync after Harbor. *)
Definition afterHarbor r w url (missing : list string) : io (result (list string)) :=
  ReconcileHelmRepository w (Version r) url ;;?
  ReconcileRoleBindings w (Version r) ;;?
  ReconcileServiceAccount w (Version r) ;;?
  ReconcileResourceQuota w (Version r) ;;?
  ReconcileLimitRange w (Version r) ;;?
  ReconcileNetworkIsolation w (Version r) ;;?
  okR missing.

Lemma afterHarbor_elsewhere r w url missing : emits elsewhere (afterHarbor r w url missing).
Proof.
  unfold afterHarbor, ReconcileHelmRepository, reconcileHelmSource, ReconcileRoleBindings, reconcileRoleBinding,
    ReconcileServiceAccount, ReconcileResourceQuota, ReconcileLimitRange, ReconcileNetworkIsolation,
    deleteIfPresent, CreateOrUpdate, Delete. elsewhere.
Qed.

Lemma updateStatus_elsewhere w missing : emits elsewhere (updateStatus w missing).
Proof. unfold updateStatus, observedRef, setStatusCondition, eventf, Get. elsewhere. Qed.

Lemma handleReconcileError_elsewhere w e : emits elsewhere (handleReconcileError w e).
Proof. unfold handleReconcileError, setReadyConditionFalse, setStatusCondition, eventf. elsewhere. Qed.
End steps.

Section reconcile.
Context {CL : CtrlLib} {HCL : CtrlLaws} {NL : NetLib} {HNL : NetLaws}.
Context {W : Type} {CW : Cluster W} {LW : CachedLaws W} {RH : RobotHost W} {RL : RobotHostLaws W}.
Implicit Types (w : Workspace) (r : WorkspaceReconciler) (σ : W).

Lemma pull_consistent_same w url σ σ' : same_pull w σ σ' → pull_consistent w url σ → pull_consistent w url σ'.
Proof. intros [? ?]. by apply pull_consistent_ext. Qed.

Lemma pull_current_same w url σ σ' : same_pull w σ σ' → pull_current w url σ → pull_current w url σ'.
Proof. intros [? ?]. by apply pull_current_ext. Qed.

(** The step leaves the pull Secret as the cache shows it. *)
Lemma exec_elsewhere_cached {A} w (p : io A) σ a σ' :
  emits elsewhere p → exec p σ = Some (a, σ') → pull_cached w σ → pull_cached w σ'.
Proof.
  intros He. eapply exec_current, emits_impl, He. intros o [_ Hw]. apply Hw.
Qed.

(** What a step makes of the credentials: it never lets the Secret fall behind
    the robot, and on success the Secret is current. *)
Definition pull_step w url {A} σ (res : result A) σ' : Prop :=
  pull_consistent w url σ → pull_consistent w url σ' ∧ (is_Ok res = true → pull_current w url σ').

Lemma reconcileResources_pull r w s σ res σ' :
  quiet_reconciler r → current σ KSecret operatorSecretKey → view σ KSecret operatorSecretKey = Some s →
  RobotClient (W := W) (harborClient r (credentialsOf s)) (W_Namespace w) → pull_cached w σ →
  exec (reconcileResources r w) σ = Some (res, σ') → pull_step w (Harbor_URL (credentialsOf s)) σ res σ'.
Proof.
  intros Hq Hcur Hs Hr Hpc Hx Hc. set (url := Harbor_URL (credentialsOf s)) in *.
  apply exec_bindR in Hx as [(e & Hx%(exec_elsewhere w) & ->)|([] & σ1 & Hx & Hy)];
    [by split; [eapply pull_consistent_same|]|apply ReconcileNamespace_elsewhere|].
  assert (cache σ1 KSecret operatorSecretKey = Some s) as Hs1.
  { rewrite <-Hs. pose proof (ReconcileNamespace_reads w (Version r) KSecret operatorSecretKey ltac:(done)) as He.
    rewrite <-(exec_frame _ _ _ _ _ _ He Hx). by apply (exec_current _ _ _ _ _ _ He Hx). }
  pose proof (exec_elsewhere_cached w _ _ _ _ (ReconcileNamespace_elsewhere w (Version r)) Hx Hpc) as Hpc1.
  apply (exec_elsewhere w) in Hx as H01; [|apply ReconcileNamespace_elsewhere].
  apply exec_bindR in Hy as [(e & Hy%(exec_elsewhere w) & ->)|(creds & σ2 & Hy & Hz)];
    [split; [eapply pull_consistent_same, Hc; by etrans|done]|apply OperatorHarborCredentials_elsewhere|].
  pose proof (exec_elsewhere_cached w _ _ _ _ OperatorHarborCredentials_elsewhere Hy Hpc1) as Hpc2.
  apply (exec_elsewhere w) in Hy as H12; [|apply OperatorHarborCredentials_elsewhere].
  apply OperatorHarborCredentials_cached in Hy as [(s' & Hs' & ->) _].
  rewrite Hs1 in Hs'. injection Hs' as <-. fold url in Hz.
  assert (pull_consistent w url σ2) as Hc2 by (eapply pull_consistent_same, Hc; by etrans).
  pose proof (fun res σ3 => ReconcileHarbor_pull_secret w (Version r) (harborClient r (credentialsOf s)) url σ2 res σ3
    (harborClient_quiet r (credentialsOf s) Hq) Hr Hpc2 Hc2) as Hharbor.
  apply exec_bindR in Hz as [(e & Hz & ->)|(missing & σ3 & Hz & Ht)].
  - destruct (Hharbor _ _ Hz) as [Hz' _]. split; [exact Hz'|discriminate].
  - destruct (Hharbor _ _ Hz) as [Hz' Hok]. specialize (Hok eq_refl).
    apply (exec_elsewhere w (afterHarbor r w url missing)) in Ht; [|apply afterHarbor_elsewhere].
    split; [exact (pull_consistent_same _ _ _ _ Ht Hz')|intros _; exact (pull_current_same _ _ _ _ Ht Hok)].
Qed.

End reconcile.

(** ** Property *)

Section property.
Context {CL : CtrlLib} {HCL : CtrlLaws} {NL : NetLib} {HNL : NetLaws}.
Context {W : Type} {CW : Cluster W} {LW : CachedLaws W} {RH : RobotHost W} {RL : RobotHostLaws W}.
Implicit Types (w : Workspace) (r : WorkspaceReconciler) (σ : W).

(** C20. The tenant can log in.  Harbor reveals a robot's secret once, so the image
    pull Secret may only change with the robot.  As long as it is absent or
    holds the current credentials of the project's robot, every reconcile keeps
    it so, whether it succeeds or fails on the way (a robot created and the
    Secret not written, the Secret written and the answer lost, a later step
    failed); and when it ends without an error, the Secret is there, and logs
    in to the registry of the operator's Secret with exactly the credentials
    Harbor holds for the robot, unless the namespace was a foreign one.  The
    reconciler reads from a cache: this is for a reconcile that starts once the
    cache has caught up with the pull Secret, the operator's Secret and the
    namespace; the workspace may be any version of it, and every other object
    may lag. *)
Theorem Reconcile_pull_secret r key w s σ res err σ' :
  quiet_reconciler r → conflict_free_reconciler r →
  cache σ KWorkspace key = Some w → ¬ needs_backfill w →
  current σ KSecret operatorSecretKey → view σ KSecret operatorSecretKey = Some s →
  current σ KNamespace (namespaceKey w) → pull_cached w σ →
  RobotClient (W := W) (harborClient r (credentialsOf s)) (W_Namespace w) →
  pull_consistent w (Harbor_URL (credentialsOf s)) σ →
  exec (Reconcile r key) σ = Some ((res, err), σ') →
  pull_consistent w (Harbor_URL (credentialsOf s)) σ' ∧
  (err = None → pull_current w (Harbor_URL (credentialsOf s)) σ' ∨
     ∃ ns, view σ KNamespace (namespaceKey w) = Some ns ∧ foreign w ns).
Proof.
  intros Hq Hcf Hw Hb Hos Hs Hns Hpc Hr Hc (got & σ0 & Hg & Hx)%exec_bind.
  destruct (exec_get_cached KWorkspace _ _ _ _ Hg) as [Hgot Hv].
  assert (∀ k key', current σ k key' → current σ0 k key') as Hcur.
  { intros k key'. eapply exec_current, Hg. apply emits_trigger. by intros x []. }
  apply (exec_elsewhere w) in Hg; [|elsewhere].
  destruct got as [w0|e].
  - rewrite Hw in Hgot. injection Hgot as <-. rewrite bool_decide_eq_false_2 in Hx by exact Hb.
    rewrite <-Hv in Hs.
    apply (pull_consistent_same _ _ _ _ Hg) in Hc.
    apply exec_bind in Hx as (synced & σ1 & Hsync & Hx).
    destruct (reconcileResources_pull _ _ _ _ _ _ Hq (Hcur _ _ Hos) Hs Hr (Hcur _ _ Hpc) Hsync Hc) as [Hc1 Hok].
    destruct synced as [missing|e].
    + specialize (Hok eq_refl). apply exec_bind in Hx as (st & σ2 & Hst & Hx).
      apply (exec_elsewhere w) in Hst; [|apply updateStatus_elsewhere].
      assert (σ' = σ2) as -> by (destruct st; [case_bool_decide|]; by exec_inv).
      split; [exact (pull_consistent_same _ _ _ _ Hst Hc1)|].
      intros _. left. exact (pull_current_same _ _ _ _ Hst Hok).
    + pose proof Hx as Hst. apply (exec_elsewhere w) in Hst; [|apply handleReconcileError_elsewhere].
      split; [exact (pull_consistent_same _ _ _ _ Hst Hc1)|]. intros ->. right.
      apply handled_conflict in Hx as [n He].
      destruct (conflict_foreign r w _ _ _ _ Hcf (Hcur _ _ Hns) Hsync He) as (ns & Hn & Hfor).
      exists ns. by rewrite <-(Hv KNamespace).
  - destruct Hgot as [_ Hn]. destruct (IsNotFound e); [by rewrite (Hn eq_refl) in Hw|].
    exec_inv. split; [exact (pull_consistent_same _ _ _ _ Hg Hc)|]. intros ?.
    match goal with H : (_, _) = (_, _) |- _ => injection H as -> -> end. discriminate.
Qed.
End property.
