(* ===== verification/Watches.v ===== *)
(** The event side of internal/controller/workspace_controller.go: the
    prerequisite check of SetupWithManager, the watches it registers, the
    predicates that filter their events, and the fan-out to every Workspace. *)
From S2P Require Import Prelude Errors Prog GoStd Api Effects Cluster Fakes Labels Config Namespace.
From S2P Require Import Authorization Webhook Controller Reconcile.

(** ** Prerequisites *)

Record GroupVersionKind := mkGVK { GVK_Group : string; GVK_Version : string; GVK_Kind : string }.

(** GroupVersionKind.String(). *)
Definition GroupVersionKind_String (g : GroupVersionKind) : string :=
  GVK_Group g +:+ "/" +:+ GVK_Version g +:+ ", Kind=" +:+ GVK_Kind g.

Record requiredKind := mkRequiredKind { provider : string; gvk : GroupVersionKind }.

Definition requiredKinds : list requiredKind :=
  [mkRequiredKind "Flux source-controller"
     (mkGVK "source.toolkit.fluxcd.io" "v1" "HelmRepository")].

(** [RESTMapping] is the manager's: its error, if any, for a kind. *)
Definition kindServed (RESTMapping : GroupVersionKind → option error) (gvk : GroupVersionKind) : bool :=
  match RESTMapping gvk with None => true | Some _ => false end.

(** The loop over the required kinds. *)
Fixpoint checkRequired (RESTMapping : GroupVersionKind → option error) (kinds : list requiredKind)
    : result unit :=
  match kinds with
  | [] => Ok tt
  | required :: kinds =>
      if negb (kindServed RESTMapping (gvk required)) then
        Err (ErrorString (GroupVersionKind_String (gvk required) +:+ " is not served by the cluster: the " +:+
               provider required +:+ " CRDs are required by the tenant operator"))
      else checkRequired RESTMapping kinds
  end.

(** ** Events and predicates *)

(** A watch event; an object may be missing (a nil interface). *)
Inductive watchEvent :=
  | CreateEvent (Object : option AnyObject)
  | DeleteEvent (Object : option AnyObject)
  | UpdateEvent (ObjectOld ObjectNew : option AnyObject)
  | GenericEvent (Object : option AnyObject).

Definition predicate := watchEvent → bool.

(** [operatorInputPredicate[T]], [T] being the objects of kind [k]: the type
    assertions are [cast_object]. *)
Definition operatorInputPredicate (k : Kind) (matches : option AnyObject → bool)
    (changed : obj k → obj k → bool) : predicate := fun e =>
  match e with
  | CreateEvent o => matches o
  | DeleteEvent o => matches o
  | UpdateEvent old new =>
      if negb (matches new) then false
      else match old ≫= cast_object k, new ≫= cast_object k with
           | Some oldObj, Some newObj => changed oldObj newObj
           | _, _ => false
           end
  | GenericEvent o => matches o
  end.

(** [maps.Equal]: a nil map equals an empty one. *)
Definition maps_Equal (a b : gomap string) : bool := bool_decide (gomap_view a = gomap_view b).

Definition operatorConfigChangedPredicate : predicate :=
  operatorInputPredicate KConfigMap IsOperatorConfig
    (fun oldConfig newConfig => negb (maps_Equal (payload oldConfig) (payload newConfig))).

Definition operatorSecretChangedPredicate : predicate :=
  operatorInputPredicate KSecret IsOperatorSecret
    (fun oldSecret newSecret =>
       negb (maps_Equal (Secret_Data (payload oldSecret)) (Secret_Data (payload newSecret)))).

(** ** Fan-out *)

(** A request names a Workspace, which is cluster-scoped.  A failed list enqueues
    nothing. *)
Definition allWorkspaceRequests : io (list ObjectKey) :=
  r ← List_;
  match r with
  | Err _ => mret []
  | Ok items => mret ((fun ws => mkKey "" (W_Name ws)) <$> items)
  end.

Definition enqueueAllWorkspacesIf (matches : option AnyObject → bool) (o : option AnyObject)
    : io (list ObjectKey) :=
  if negb (matches o) then mret [] else allWorkspaceRequests.

(** ** The watches *)

(** What the builder is told: the reconciled kind, the owned kinds (their events
    enqueue the controlling owner), and the mapped kinds. *)
Inductive watch :=
  | For_ (k : Kind) (p : predicate)
  | Owns (k : Kind)
  | Watches (k : Kind) (map : option AnyObject → io (list ObjectKey)) (p : predicate).

(** [GenerationChangedPredicate] is controller-runtime's. *)
Definition SetupWithManager (RESTMapping : GroupVersionKind → option error)
    (GenerationChangedPredicate : predicate) : result (list watch) :=
  match checkRequired RESTMapping requiredKinds with
  | Err e => Err e
  | Ok _ => Ok
      [For_ KWorkspace GenerationChangedPredicate;
       Owns KNamespace; Owns KResourceQuota; Owns KLimitRange; Owns KSecret; Owns KServiceAccount;
       Owns KRoleBinding; Owns KNetworkPolicy; Owns KHelmRepository;
       Watches KConfigMap (enqueueAllWorkspacesIf IsOperatorConfig) operatorConfigChangedPredicate;
       Watches KSecret (enqueueAllWorkspacesIf IsOperatorSecret) operatorSecretChangedPredicate]
  end.

(** ** Facts *)

Lemma IsOperatorConfig_spec o :
  IsOperatorConfig o = true ↔ ∃ a, o = Some a ∧ GetName a = OperatorConfigName ∧ GetNamespace a = OperatorNamespace.
Proof.
  destruct o as [a|]; simpl; [|split; [done|by intros (? & [=] & _)]].
  rewrite andb_true_iff, !bool_decide_eq_true. naive_solver.
Qed.

Lemma IsOperatorSecret_spec o :
  IsOperatorSecret o = true ↔ ∃ a, o = Some a ∧ GetName a = OperatorSecretName ∧ GetNamespace a = OperatorNamespace.
Proof.
  destruct o as [a|]; simpl; [|split; [done|by intros (? & [=] & _)]].
  rewrite andb_true_iff, !bool_decide_eq_true. naive_solver.
Qed.

Lemma maps_Equal_spec a b : maps_Equal a b = true ↔ gomap_view a = gomap_view b.
Proof. apply bool_decide_eq_true. Qed.

(** An object of a kind, as the client hands it over. *)
Lemma cast_Any k (o : obj k) : Some (Any k o) ≫= cast_object k = Some o.
Proof. apply cast_object_same. Qed.

Lemma input_update k (matches : option AnyObject → bool) changed (old new : obj k) :
  operatorInputPredicate k matches changed (UpdateEvent (Some (Any k old)) (Some (Any k new))) =
    matches (Some (Any k new)) && changed old new.
Proof.
  unfold operatorInputPredicate. rewrite !cast_Any. by destruct (matches _).
Qed.

(** ** Properties *)

(** The filters miss nothing a reconcile reads and pass nothing it does not.  An
    update of a ConfigMap (of a Secret) passes exactly when it is the operator's
    own object and its data changed; so an update that is filtered out leaves
    the Rancher project and the Harbor credentials that reconcile would read
    exactly as they were.  Creations and deletions of the operator's own objects
    always pass, objects of any other name or namespace never do. *)
Theorem operator_input_filters :
  (∀ old new : obj KConfigMap, let e := UpdateEvent (Some (Any KConfigMap old)) (Some (Any KConfigMap new)) in
     (operatorConfigChangedPredicate e = true ↔
      Meta_Name (metadata new) = OperatorConfigName ∧ Meta_Namespace (metadata new) = OperatorNamespace ∧
      gomap_view (payload old : gomap string) ≠ gomap_view (payload new : gomap string)) ∧
     (operatorConfigChangedPredicate e = false → IsOperatorConfig (Some (Any KConfigMap new)) = true →
      ∀ key, gomap_get (payload new) key = gomap_get (payload old) key)) ∧
  (∀ old new : obj KSecret, let e := UpdateEvent (Some (Any KSecret old)) (Some (Any KSecret new)) in
     (operatorSecretChangedPredicate e = true ↔
      Meta_Name (metadata new) = OperatorSecretName ∧ Meta_Namespace (metadata new) = OperatorNamespace ∧
      gomap_view (Secret_Data (payload old)) ≠ gomap_view (Secret_Data (payload new))) ∧
     (operatorSecretChangedPredicate e = false → IsOperatorSecret (Some (Any KSecret new)) = true →
      credentialsOf new = credentialsOf old)) ∧
  (∀ o, operatorConfigChangedPredicate (CreateEvent o) = IsOperatorConfig o ∧
        operatorConfigChangedPredicate (DeleteEvent o) = IsOperatorConfig o ∧
        operatorSecretChangedPredicate (CreateEvent o) = IsOperatorSecret o ∧
        operatorSecretChangedPredicate (DeleteEvent o) = IsOperatorSecret o) ∧
  (∀ old new, IsOperatorConfig new = false → operatorConfigChangedPredicate (UpdateEvent old new) = false) ∧
  (∀ old new, IsOperatorSecret new = false → operatorSecretChangedPredicate (UpdateEvent old new) = false).
Proof.
  split; [|split; [|split; [done|]]].
  - intros old new e. unfold e, operatorConfigChangedPredicate. rewrite input_update. split.
    + rewrite andb_true_iff, negb_true_iff, <-not_true_iff_false, maps_Equal_spec, IsOperatorConfig_spec.
      split; [by intros [(a & [= <-] & ? & ?) ?]|intros (? & ? & ?); eauto].
    + intros Hf Hm key. rewrite Hm in Hf. simpl in Hf. apply negb_false_iff, maps_Equal_spec in Hf.
      exact (f_equal (fun v => default "" (v !! key)) (eq_sym Hf)).
  - intros old new e. unfold e, operatorSecretChangedPredicate. rewrite input_update. split.
    + rewrite andb_true_iff, negb_true_iff, <-not_true_iff_false, maps_Equal_spec, IsOperatorSecret_spec.
      split; [by intros [(a & [= <-] & ? & ?) ?]|intros (? & ? & ?); eauto].
    + intros Hf Hm. rewrite Hm in Hf. simpl in Hf. apply negb_false_iff, maps_Equal_spec in Hf.
      exact (f_equal (fun v => mkHarborCredentials (default "" (v !! HarborURLKey))
        (default "" (v !! HarborRobotNameKey)) (default "" (v !! HarborRobotSecretKey))) (eq_sym Hf)).
  - split; intros old new Hm; simpl; by rewrite Hm.
Qed.

(** The fan-out reaches everyone: an event on an operator-wide input enqueues
    one request per listed Workspace, by name; an event on any other object does
    not even list; a failed list enqueues nothing. *)
Theorem fan_out_correct matches o tr keys :
  runs (enqueueAllWorkspacesIf matches o) tr keys ↔
  if matches o then
    ∃ answer, tr = [Obs ClientListWorkspaces answer] ∧
      keys = match answer with
             | Ok items => (fun ws => mkKey "" (W_Name ws)) <$> items
             | Err _ => []
             end
  else tr = [] ∧ keys = [].
Proof.
  unfold enqueueAllWorkspacesIf, allWorkspaceRequests, List_. destruct (matches o); [|done].
  cbn [negb]. rewrite runs_bind. split.
  - intros (? & ? & a & -> & ->%runs_trigger & Hr). exists a. by destruct a; destruct Hr as [-> ->].
  - intros (a & -> & ->). eexists [_], [], a. rewrite runs_trigger. by destruct a.
Qed.

(** The watches are registered only on a cluster that serves every required
    kind; otherwise setup fails with an error naming the missing kind. *)
Theorem setup_requires_kinds RESTMapping p :
  (is_Ok (SetupWithManager RESTMapping p) = true ↔
   ∀ k, k ∈ requiredKinds → RESTMapping (gvk k) = None) ∧
  (∀ e, SetupWithManager RESTMapping p = Err e →
   e = ErrorString "source.toolkit.fluxcd.io/v1, Kind=HelmRepository is not served by the cluster: the Flux source-controller CRDs are required by the tenant operator").
Proof.
  unfold SetupWithManager, requiredKinds, checkRequired, kindServed. simpl. split.
  - destruct (RESTMapping _) eqn:Hm; simpl; split; try done.
    + intros H. specialize (H _ (list_elem_of_here _ _)). simpl in H. congruence.
    + by intros _ k ->%list_elem_of_singleton.
  - by destruct (RESTMapping _); simpl; intros ? [= <-].
Qed.

(** ** The backfill *)

(** The event passes the filter of a watch on that kind. *)
Definition passes (w : watch) (k : Kind) (e : watchEvent) : bool :=
  match w with
  | For_ k' p | Watches k' _ p => bool_decide (k' = k) && p e
  | Owns k' => bool_decide (k' = k)
  end.

(** [predicate.GenerationChangedPredicate], as documented. *)
Definition generation_changed (p : predicate) : Prop :=
  ∀ k (old new : obj k), Meta_Generation (metadata old) = Meta_Generation (metadata new) →
    p (UpdateEvent (Some (Any k old)) (Some (Any k new))) = false.

Section backfill.
Context {CL : CtrlLib} {NL : NetLib}.

(** The backfill of the namespace label.  A workspace without the right label
    gets one Update, which corrects that label and nothing else, and the
    reconcile stops there: no resource is synced and no status is written in
    this run. *)
Theorem backfill_correct r key w tr res :
  needs_backfill w → runs (Reconcile r key) (Obs (ClientGet KWorkspace key) (Ok w) :: tr) res →
  ∃ updated, tr = [Obs (ClientUpdateWorkspace (backfilled w)) updated] ∧
    res = (noRequeue, match updated with
                      | Ok _ => None
                      | Err e => Some (WrapError "backfilling namespace label" e)
                      end) ∧
    payload (backfilled w) = payload w ∧ ¬ needs_backfill (backfilled w) ∧
    ∀ k, k ≠ LabelWorkspaceNamespace →
      gomap_view (W_Labels (backfilled w)) !! k = gomap_view (W_Labels w) !! k.
Proof.
  intros Hb Hr%Reconcile_tail_of.
  unfold reconcile_tail in Hr. rewrite decide_True in Hr by done.
  destruct Hr as (u & -> & ->). exists u. split_and!; [done..| |].
  - intros Hn. apply Hn. unfold backfilled, gomap_get. cbn. by rewrite lookup_insert_eq.
  - intros k Hk. cbn. by rewrite lookup_insert_ne.
Qed.

(** C35. The backfill does not requeue.  An update that leaves the spec alone leaves
    the generation alone, and the only watch on Workspaces is filtered by
    generation: none of the registered watches passes the event of the
    operator's own backfill, so nothing reconciles the fresh copy. *)
Theorem backfill_not_requeued RESTMapping p ws w (stored : Workspace) :
  generation_changed p → SetupWithManager RESTMapping p = Ok ws →
  (W_Spec stored = W_Spec w → W_Generation stored = W_Generation w) →
  W_Spec stored = W_Spec (backfilled w) →
  ∀ x, x ∈ ws → passes x KWorkspace
    (UpdateEvent (Some (Any KWorkspace w)) (Some (Any KWorkspace stored))) = false.
Proof.
  intros Hp Hs Hg Hspec x Hx. unfold SetupWithManager in Hs.
  destruct (checkRequired _ _); [|done]. injection Hs as <-.
  repeat (apply elem_of_cons in Hx as [->|Hx]); [|done..|by apply elem_of_nil in Hx].
  simpl. apply (Hp KWorkspace). symmetry. apply Hg, Hspec.
Qed.

(** The answer of a SubjectAccessReview. *)
Definition reviewed (o : obs sysE) : option (result bool) :=
  match o with
  | Obs e x =>
      match e in sysE X return X → option (result bool) with
      | ClientCreateReview _ => Some
      | _ => fun _ => None
      end x
  end.

(** The answer of an update of a Workspace. *)
Definition update_answer (o : obs sysE) : option (result unit) :=
  match o with
  | Obs e x =>
      match e in sysE X return X → option (result unit) with
      | ClientUpdateWorkspace _ => Some
      | _ => fun _ => None
      end x
  end.

(** C36. The backfill passes through the validating webhook like any other update,
    under the operator's own identity [u].  When that identity is outside the
    privileged groups, is no admin member of the workspace, and is not granted
    everything by the authorizer, an API server that applies an update only if
    the webhook admits it refuses the backfill: every reconcile of such a
    workspace ends in an error. *)
Theorem backfill_refused r key w u updated tr res :
  needs_backfill w → ¬ privileged u → ¬ admin_of (User_Username u) w →
  (updated = Ok tt → ∃ trv, runs (ValidateUpdate (Ok u) w (backfilled w)) trv (Ok tt) ∧
     Forall (fun o => reviewed o ≠ Some (Ok true)) trv) →
  runs (Reconcile r key) (Obs (ClientGet KWorkspace key) (Ok w) ::
    Obs (ClientUpdateWorkspace (backfilled w)) updated :: tr) res →
  ∃ e, res = (noRequeue, Some e).
Proof.
  intros Hb Hp Ha Hadm Hr%Reconcile_tail_of.
  unfold reconcile_tail in Hr. rewrite decide_True in Hr by done.
  destruct Hr as (u' & Hu & ->).
  assert (u' = updated) as ->.
  { apply (f_equal (fun l => head l ≫= update_answer)) in Hu. simpl in Hu. by injection Hu as ->. }
  destruct updated as [[]|e]; [|by eexists]. exfalso.
  destruct (Hadm eq_refl) as (trv & Hv & Hall).
  apply modification_runs in Hv as [([?|?] & _)|[_ (answer & -> & Hok)]]; [done..|].
  apply Forall_cons_1 in Hall as [Hall _]. simpl in Hall. by destruct answer as [[]|].
Qed.
End backfill.
