(* ===== verification/Main.v ===== *)
(** cmd/main.go: the options of the manager, built from the flags, and the order
    in which the operator starts up; and the webhook registration of
    internal/webhook/v1alpha1/workspace_webhook.go.

    The flags arrive parsed (logging options excepted, which change nothing
    here).  The manager of controller-runtime is outside: [startE] has one event
    per call of it that can fail, and [main] ends with the exit code. *)
From S2P Require Import Prelude Errors Prog GoStd Api Effects Labels Config Harbor Controller Watches.

(** ** Flags and options *)

Record flags := mkFlags {
  metricsAddr : string;
  probeAddr : string;
  enableLeaderElection : bool;
  secureMetrics : bool;
  webhookCertPath : string;
  webhookCertName : string;
  webhookCertKey : string;
  metricsCertPath : string;
  metricsCertName : string;
  metricsCertKey : string;
  enableHTTP2 : bool;
}.

Definition defaultFlags : flags :=
  mkFlags "0" ":8081" false true "" "tls.crt" "tls.key" "" "tls.crt" "tls.key" false.

(** [tls.Config], with the field the program sets. *)
Record tlsConfig := mkTlsConfig { NextProtos : list string }.

Definition disableHTTP2 (c : tlsConfig) : tlsConfig := mkTlsConfig ["http/1.1"].

Definition tlsOpts (f : flags) : list (tlsConfig → tlsConfig) :=
  if negb (enableHTTP2 f) then [disableHTTP2] else [].

(** [webhook.Options]; the empty string is Go's zero value. *)
Record webhookOptions := mkWebhookOptions {
  Webhook_TLSOpts : list (tlsConfig → tlsConfig);
  Webhook_CertDir : string;
  Webhook_CertName : string;
  Webhook_KeyName : string;
}.

Definition webhookServerOptions (f : flags) : webhookOptions :=
  if bool_decide (0 < String.length (webhookCertPath f))
  then mkWebhookOptions (tlsOpts f) (webhookCertPath f) (webhookCertName f) (webhookCertKey f)
  else mkWebhookOptions (tlsOpts f) "" "" "".

(** [metricsserver.Options]. *)
Inductive filterProvider := WithAuthenticationAndAuthorization.

Record metricsOptions := mkMetricsOptions {
  Metrics_BindAddress : string;
  Metrics_SecureServing : bool;
  Metrics_TLSOpts : list (tlsConfig → tlsConfig);
  Metrics_FilterProvider : option filterProvider;
  Metrics_CertDir : string;
  Metrics_CertName : string;
  Metrics_KeyName : string;
}.

Definition metricsServerOptions (f : flags) : metricsOptions :=
  let filter := if secureMetrics f then Some WithAuthenticationAndAuthorization else None in
  if bool_decide (0 < String.length (metricsCertPath f))
  then mkMetricsOptions (metricsAddr f) (secureMetrics f) (tlsOpts f) filter
         (metricsCertPath f) (metricsCertName f) (metricsCertKey f)
  else mkMetricsOptions (metricsAddr f) (secureMetrics f) (tlsOpts f) filter "" "" "".

(** [ctrl.Options]. *)
Record managerOptions := mkManagerOptions {
  Manager_Metrics : metricsOptions;
  Manager_Webhook : webhookOptions;
  Manager_HealthProbeBindAddress : string;
  Manager_LeaderElection : bool;
  Manager_LeaderElectionID : string;
}.

Definition optionsOf (f : flags) : managerOptions :=
  mkManagerOptions (metricsServerOptions f) (webhookServerOptions f) (probeAddr f)
    (enableLeaderElection f) "tenant-operator-leader-election".

(** ** The calls of the manager *)

(** Who answers a read: the API server, or the manager's cache. *)
Inductive readerSource := APIReader | ManagerClient.

(** The two hooks with the readers they are given. *)
Record webhookRegistration := mkWebhookRegistration {
  defaulter_Reader : readerSource;
  validator_Reader : readerSource;
  validator_Client : readerSource;
}.

(** The manager a start gets: the kinds its cluster serves. *)
Record manager := mkManager { RESTMapping : GroupVersionKind → option error }.

Inductive startE : Type → Type :=
  | NewManager (options : managerOptions) : startE (result manager)
  | CompleteController (r : WorkspaceReconciler) (watches : list watch) : startE (result unit)
  | CompleteWebhook (hooks : webhookRegistration) : startE (result unit)
  | Getenv (name : string) : startE string
  | AddHealthzCheck (name : string) : startE (result unit)
  | AddReadyzCheck (name : string) : startE (result unit)
  | Start : startE (result unit).

Definition SetupWorkspaceWebhookWithManager : prog startE (result unit) :=
  trigger (CompleteWebhook (mkWebhookRegistration APIReader APIReader ManagerClient)).

(** The method SetupWithManager, up to the builder's Complete. *)
Definition setupController (GenerationChangedPredicate : predicate) (mgr : manager)
    (r : WorkspaceReconciler) : prog startE (result unit) :=
  match SetupWithManager (RESTMapping mgr) GenerationChangedPredicate with
  | Err e => errR e
  | Ok watches => trigger (CompleteController r watches)
  end.

(** [if err := step; err != nil { os.Exit(1) }]. *)
Definition orExit {A} (step : prog startE (result A)) (next : A → prog startE Z) : prog startE Z :=
  r ← step; match r with Ok a => next a | Err _ => mret 1%Z end.

Definition main (GenerationChangedPredicate : predicate) (version : string) (f : flags) : prog startE Z :=
  orExit (trigger (NewManager (optionsOf f))) (fun mgr =>
  orExit (setupController GenerationChangedPredicate mgr (mkReconciler version None)) (fun _ =>
  enabled ← trigger (Getenv "ENABLE_WEBHOOKS");
  orExit (if bool_decide (enabled ≠ "false") then SetupWorkspaceWebhookWithManager else okR tt) (fun _ =>
  orExit (trigger (AddHealthzCheck "healthz")) (fun _ =>
  orExit (trigger (AddReadyzCheck "readyz")) (fun _ =>
  orExit (trigger Start) (fun _ => mret 0%Z)))))).

(** ** Facts *)

Lemma runs_orExit {A} (step : prog startE (result A)) next tr code :
  runs (orExit step next) tr code ↔
  (∃ e, runs step tr (Err e) ∧ code = 1%Z) ∨
  ∃ tr1 tr2 a, tr = tr1 ++ tr2 ∧ runs step tr1 (Ok a) ∧ runs (next a) tr2 code.
Proof.
  unfold orExit. rewrite runs_bind. split.
  - intros (tr1 & tr2 & [a|e] & -> & H1 & H2); [right; by eexists _, _, a|].
    destruct H2 as [-> ->]. left. exists e. by rewrite app_nil_r.
  - intros [(e & H & ->)|(tr1 & tr2 & a & -> & H1 & H2)].
    + eexists tr, [], (Err e). by rewrite app_nil_r.
    + by eexists tr1, tr2, (Ok a).
Qed.

Lemma checkRequired_served mapping kinds :
  checkRequired mapping kinds = Ok tt → ∀ k, k ∈ kinds → kindServed mapping (gvk k) = true.
Proof.
  induction kinds as [|x kinds IH]; simpl; [intros _ k Hk; by apply elem_of_nil in Hk|].
  destruct (kindServed mapping (gvk x)) eqn:Hx; [|done]. intros H k [->|Hk]%elem_of_cons; auto.
Qed.

Lemma SetupWithManager_served mapping p ws :
  SetupWithManager mapping p = Ok ws → ∀ k, k ∈ requiredKinds → kindServed mapping (gvk k) = true.
Proof.
  unfold SetupWithManager. destruct (checkRequired mapping requiredKinds) as [[]|] eqn:Hc; [|done].
  intros _. by apply checkRequired_served.
Qed.

(** What both servers negotiate. *)
Lemma tlsOpts_apply f c :
  foldl (fun c opt => opt c) c (tlsOpts f) = if enableHTTP2 f then c else mkTlsConfig ["http/1.1"].
Proof. unfold tlsOpts. by destruct (enableHTTP2 f). Qed.

Definition is_start (o : obs startE) : bool :=
  match o with Obs Start _ => true | _ => false end.

(** The events of a complete startup, up to Start. *)
Definition startup_events (f : flags) (version : string) (mgr : manager) (ws : list watch) (env : string)
    : list (obs startE) :=
  [Obs (NewManager (optionsOf f)) (Ok mgr); Obs (CompleteController (mkReconciler version None) ws) (Ok tt);
   Obs (Getenv "ENABLE_WEBHOOKS") env] ++
  (if decide (env = "false") then []
   else [Obs (CompleteWebhook (mkWebhookRegistration APIReader APIReader ManagerClient)) (Ok tt)]) ++
  [Obs (AddHealthzCheck "healthz") (Ok tt); Obs (AddReadyzCheck "readyz") (Ok tt)].

(** A startup that stopped before Start, or came to it. *)
Inductive startup (p : predicate) (f : flags) (version : string) : list (obs startE) → Z → Prop :=
  | startup_stopped tr : Forall (fun o => is_start o = false) tr → startup p f version tr 1
  | startup_complete mgr ws env x :
      SetupWithManager (RESTMapping mgr) p = Ok ws →
      startup p f version (startup_events f version mgr ws env ++ [Obs Start x]) (if is_Ok x then 0 else 1).

Lemma webhook_step env tr r :
  runs (if bool_decide (env ≠ "false") then SetupWorkspaceWebhookWithManager else okR tt) tr r →
  tr = if decide (env = "false") then []
       else [Obs (CompleteWebhook (mkWebhookRegistration APIReader APIReader ManagerClient)) r].
Proof.
  case_bool_decide; case_decide; try done; [intros ->%runs_trigger; done|by intros [-> _]].
Qed.

Lemma main_startup p version f tr code : runs (main p version f) tr code → startup p f version tr code.
Proof.
  unfold main. intros [(e & ->%runs_trigger & ->)|(? & ? & mgr & -> & ->%runs_trigger & Hr)]%runs_orExit;
    [constructor; by repeat constructor|].
  apply runs_orExit in Hr as [(e & Hs & ->)|(? & ? & [] & -> & Hs & Hr)]; unfold setupController in Hs;
    destruct (SetupWithManager (RESTMapping mgr) p) as [ws|] eqn:Hw; try apply runs_trigger in Hs as ->;
    [constructor; by repeat constructor|destruct Hs as [-> _]; constructor; by repeat constructor| |by destruct Hs].
  apply runs_bind in Hr as (? & ? & env & -> & ->%runs_trigger & Hr).
  apply runs_orExit in Hr as [(e & ->%webhook_step & ->)|(? & ? & [] & -> & ->%webhook_step & Hr)].
  { constructor. case_decide; by repeat constructor. }
  apply runs_orExit in Hr as [(e & ->%runs_trigger & ->)|(? & ? & [] & -> & ->%runs_trigger & Hr)].
  { constructor. case_decide; by repeat constructor. }
  apply runs_orExit in Hr as [(e & ->%runs_trigger & ->)|(? & ? & [] & -> & ->%runs_trigger & Hr)].
  { constructor. case_decide; by repeat constructor. }
  apply runs_orExit in Hr as [(e & ->%runs_trigger & ->)|(? & ? & [] & -> & ->%runs_trigger & [-> ->])].
  - pose proof (startup_complete p f version mgr ws env (Err e) Hw) as Hc.
    unfold startup_events in Hc. by rewrite <-!app_assoc in Hc.
  - pose proof (startup_complete p f version mgr ws env (Ok tt) Hw) as Hc.
    unfold startup_events in Hc. by rewrite <-!app_assoc in Hc.
Qed.

(** Both servers negotiate HTTP/1.1 only unless HTTP/2 is asked for, and secure
    metrics are filtered by authentication and authorization. *)
Lemma servers_hardened f c :
  let negotiated opts := NextProtos (foldl (fun c opt => opt c) c opts) in
  (enableHTTP2 f = false →
     negotiated (Webhook_TLSOpts (Manager_Webhook (optionsOf f))) = ["http/1.1"] ∧
     negotiated (Metrics_TLSOpts (Manager_Metrics (optionsOf f))) = ["http/1.1"]) ∧
  (is_Some (Metrics_FilterProvider (Manager_Metrics (optionsOf f))) ↔
   Metrics_SecureServing (Manager_Metrics (optionsOf f)) = true).
Proof.
  unfold optionsOf, webhookServerOptions, metricsServerOptions. simpl.
  repeat case_bool_decide; simpl; rewrite tlsOpts_apply; (split; [by intros ->|]);
    destruct (secureMetrics f); split; try done; by intros [? [=]].
Qed.

(** ** Property *)

(** C37. The operator starts only complete.  Whatever the manager answers, if Start is
    called at all then it is the last call, after everything else succeeded:
    the manager was created with the options of the flags, every required CRD
    is served, the reconciler is registered with all its watches, both hooks
    are registered with the uncached reader unless ENABLE_WEBHOOKS is "false",
    and both probes are in place; the exit code is then Start's.  A startup
    that does not get there exits with 1. *)
Theorem startup_fails_closed p version f tr code :
  runs (main p version f) tr code →
  (Forall (fun o => is_start o = false) tr → code = 1%Z) ∧
  ∀ o, o ∈ tr → is_start o = true →
    ∃ mgr ws env x, tr = startup_events f version mgr ws env ++ [Obs Start x] ∧
      SetupWithManager (RESTMapping mgr) p = Ok ws ∧
      (∀ k, k ∈ requiredKinds → kindServed (RESTMapping mgr) (gvk k) = true) ∧
      code = if is_Ok x then 0%Z else 1%Z.
Proof.
  intros [tr' Hno|mgr ws env x Hw]%main_startup; rewrite ?list.Forall_forall.
  - split; [done|]. intros o Ho Hs. rewrite list.Forall_forall in Hno. by rewrite (Hno o Ho) in Hs.
  - split; [|intros o Ho Hs; exists mgr, ws, env, x; split_and!; by eauto using SetupWithManager_served].
    intros Hall. assert (Obs Start x ∈ startup_events f version mgr ws env ++ [Obs Start x]) as Hin by set_solver.
    by apply Hall in Hin.
Qed.
