(* ===== verification/Scheme.v ===== *)
(** The scheme, which tells the client what Go type a kind is: the API group of
    api/v1alpha1/groupversion_info.go and workspace_types.go, and the
    registrations of init in cmd/main.go.

    runtime.Scheme and the registrations of other packages are parameters.  A
    registration may panic ([None]) or return an error; Must turns an error into a
    panic. *)
From S2P Require Import Prelude Errors GoStd Api Effects Cluster Sync Fakes Labels Config Namespace Rbac.
From S2P Require Import Resources Helm Harbor HarborSync Controller Watches.

Record GroupVersion := mkGroupVersion { GV_Group : string; GV_Version : string }.
#[export] Instance GroupVersion_eq_dec : EqDecision GroupVersion.
Proof. solve_decision. Defined.
#[export] Instance GroupVersionKind_eq_dec : EqDecision GroupVersionKind.
Proof. solve_decision. Defined.

Definition WithKind (gv : GroupVersion) (kind : string) : GroupVersionKind :=
  mkGVK (GV_Group gv) (GV_Version gv) kind.

(** A Go type: its package and its name. *)
Record GoType := mkGoType { Type_Package : string; Type_Name : string }.
#[export] Instance GoType_eq_dec : EqDecision GoType.
Proof. solve_decision. Defined.

(** ** Other packages *)

Class SchemeLib := {
  Scheme : Type;
  NewScheme : Scheme;
  (** the type registered for a kind *)
  KnownType : Scheme → GroupVersionKind → option GoType;
  AddKnownTypes : GroupVersion → list GoType → Scheme → option Scheme;
  AddToGroupVersion : GroupVersion → Scheme → option Scheme;
  (** [runtime.SchemeBuilder] is a slice of registrations; its AddToScheme *)
  SchemeBuilder_AddToScheme : list (Scheme → option (result Scheme)) → Scheme → option (result Scheme);
  clientgoscheme_AddToScheme : Scheme → option (result Scheme);
  sourcev1_AddToScheme : Scheme → option (result Scheme);
}.

(** The packages of the kinds' types, and their groups. *)
Definition corev1 : string := "k8s.io/api/core/v1".
Definition rbacv1 : string := "k8s.io/api/rbac/v1".
Definition networkingv1 : string := "k8s.io/api/networking/v1".
Definition sourcev1 : string := "github.com/fluxcd/source-controller/api/v1".
Definition tenantv1alpha1 : string := "github.com/otterscale/tenant-operator/api/v1alpha1".

(** The kinds that [metav1.AddToGroupVersion] adds to a group. *)
Definition metaKinds : list string :=
  ["WatchEvent"; "ListOptions"; "GetOptions"; "DeleteOptions"; "CreateOptions"; "UpdateOptions"; "PatchOptions"].

Section scheme.
Context {SL : SchemeLib}.
Implicit Types (s : Scheme) (gv : GroupVersion) (g : GroupVersionKind).

Abbreviation registration := (Scheme → option (result Scheme)).

(** A registration of kinds that satisfy [P] only. *)
Definition adds_only (P : GroupVersionKind → Prop) s s' : Prop :=
  (∀ g t, KnownType s g = Some t → KnownType s' g = Some t) ∧
  ∀ g t, KnownType s' g = Some t → KnownType s g = Some t ∨ P g.

(** ** The package's variables and init *)

Definition SchemeGroupVersion : GroupVersion := mkGroupVersion "tenant.otterscale.io" "v1alpha1".

(** [SchemeBuilder] as the package's variables are initialised. *)
Definition SchemeBuilder : list registration :=
  [fun s => s ← AddToGroupVersion SchemeGroupVersion s; Some (Ok s)].

Definition WorkspaceType : GoType := mkGoType tenantv1alpha1 "Workspace".
Definition WorkspaceListType : GoType := mkGoType tenantv1alpha1 "WorkspaceList".

(** init of workspace_types.go: SchemeBuilder.Register appends. *)
Definition v1alpha1_init (builder : list registration) : list registration :=
  builder ++ [fun s => s ← AddKnownTypes SchemeGroupVersion [WorkspaceType; WorkspaceListType] s; Some (Ok s)].

(** [AddToScheme] is a method value on the address of SchemeBuilder, so a call
    runs what init has registered by then. *)
Definition AddToScheme : registration := fun s => SchemeBuilder_AddToScheme (v1alpha1_init SchemeBuilder) s.

(** ** main *)

(** [utilruntime.Must] *)
Definition Must (r : option (result Scheme)) : option Scheme :=
  match r with Some (Ok s) => Some s | _ => None end.

Definition main_init : option Scheme :=
  scheme ← Must (clientgoscheme_AddToScheme NewScheme);
  scheme ← Must (AddToScheme scheme);
  Must (sourcev1_AddToScheme scheme).

(** ** The kinds the operator uses *)

Definition gvk_of (k : Kind) : GroupVersionKind :=
  match k with
  | KWorkspace => WithKind SchemeGroupVersion "Workspace"
  | KNamespace => mkGVK "" "v1" "Namespace"
  | KSecret => mkGVK "" "v1" "Secret"
  | KConfigMap => mkGVK "" "v1" "ConfigMap"
  | KServiceAccount => mkGVK "" "v1" "ServiceAccount"
  | KRoleBinding => mkGVK "rbac.authorization.k8s.io" "v1" "RoleBinding"
  | KResourceQuota => mkGVK "" "v1" "ResourceQuota"
  | KLimitRange => mkGVK "" "v1" "LimitRange"
  | KNetworkPolicy => mkGVK "networking.k8s.io" "v1" "NetworkPolicy"
  | KHelmRepository => mkGVK "source.toolkit.fluxcd.io" "v1" "HelmRepository"
  end.

Definition package_of (k : Kind) : string :=
  match k with
  | KWorkspace => tenantv1alpha1
  | KRoleBinding => rbacv1
  | KNetworkPolicy => networkingv1
  | KHelmRepository => sourcev1
  | _ => corev1
  end.

Definition type_of (k : Kind) : GoType := mkGoType (package_of k) (GVK_Kind (gvk_of k)).

Definition third_party (k : Kind) : bool := bool_decide (k ≠ KWorkspace ∧ k ≠ KHelmRepository).
End scheme.

(** What the packages document. *)
Class SchemeLaws `{SchemeLib} : Prop := {
  NewScheme_empty g : KnownType NewScheme g = None;
  (** Registering a type under its name, unless the kind has another type. *)
  AddKnownTypes_spec gv types s :
    (∀ t t', t ∈ types → KnownType s (WithKind gv (Type_Name t)) = Some t' → t' = t) → NoDup (Type_Name <$> types) →
    ∃ s', AddKnownTypes gv types s = Some s' ∧
      adds_only (fun g => ∃ t, t ∈ types ∧ g = WithKind gv (Type_Name t)) s s' ∧
      ∀ t, t ∈ types → KnownType s' (WithKind gv (Type_Name t)) = Some t;
  AddToGroupVersion_spec gv s :
    (∀ g t, KnownType s g = Some t → GVK_Group g ≠ GV_Group gv) →
    ∃ s', AddToGroupVersion gv s = Some s' ∧
      adds_only (fun g => g ∈ WithKind gv <$> metaKinds ∨ GVK_Group g = "") s s';
  SchemeBuilder_nil s : SchemeBuilder_AddToScheme [] s = Some (Ok s);
  SchemeBuilder_cons f fs s : SchemeBuilder_AddToScheme (f :: fs) s =
    match f s with Some (Ok s') => SchemeBuilder_AddToScheme fs s' | r => r end;
  clientgoscheme_spec : ∃ s', clientgoscheme_AddToScheme NewScheme = Some (Ok s') ∧
    (∀ k, third_party k = true → KnownType s' (gvk_of k) = Some (type_of k)) ∧
    ∀ g t, KnownType s' g = Some t →
      GVK_Group g ≠ GVK_Group (gvk_of KWorkspace) ∧ GVK_Group g ≠ GVK_Group (gvk_of KHelmRepository);
  sourcev1_spec s : (∀ g t, KnownType s g = Some t → GVK_Group g ≠ GVK_Group (gvk_of KHelmRepository)) →
    ∃ s', sourcev1_AddToScheme s = Some (Ok s') ∧ KnownType s' (gvk_of KHelmRepository) = Some (type_of KHelmRepository) ∧
      adds_only (fun g => GVK_Group g = GVK_Group (gvk_of KHelmRepository) ∨ GVK_Group g = "") s s';
}.

(** ** The scheme is complete *)

Section complete.
Context {SL : SchemeLib} {HSL : SchemeLaws}.

(** The group's own registration, on a scheme that does not know the group. *)
Lemma AddToScheme_spec s :
  (∀ g t, KnownType s g = Some t → GVK_Group g ≠ GV_Group SchemeGroupVersion) →
  ∃ s', AddToScheme s = Some (Ok s') ∧
    adds_only (fun g => GVK_Group g = GV_Group SchemeGroupVersion ∨ GVK_Group g = "") s s' ∧
    KnownType s' (gvk_of KWorkspace) = Some WorkspaceType ∧
    KnownType s' (WithKind SchemeGroupVersion "WorkspaceList") = Some WorkspaceListType.
Proof.
  intros Hnew. destruct (AddToGroupVersion_spec SchemeGroupVersion s Hnew) as (s1 & H1 & Hk1 & Ho1).
  destruct (AddKnownTypes_spec SchemeGroupVersion [WorkspaceType; WorkspaceListType] s1) as (s2 & H2 & [Hk2 Ho2] & Hin).
  - intros t t' Ht Hs1. exfalso. apply Ho1 in Hs1 as [Hs|[Hm|Hg]]; [by apply Hnew in Hs| |done].
    apply elem_of_cons in Ht as [->| ->%list_elem_of_singleton]; revert Hm; apply (bool_decide_unpack _); vm_compute; exact I.
  - apply (bool_decide_unpack _). vm_compute. exact I.
  - exists s2. split_and!; [| |apply (Hin WorkspaceType); set_solver|apply (Hin WorkspaceListType); set_solver].
    + unfold AddToScheme, v1alpha1_init, SchemeBuilder. simpl.
      rewrite SchemeBuilder_cons, H1. simpl. rewrite SchemeBuilder_cons, H2. simpl. by rewrite SchemeBuilder_nil.
    + split; [by auto|]. intros g t [Hs|(t' & _ & ->)]%Ho2; [|by right; left].
      apply Ho1 in Hs as [?|[(? & -> & _)%list_elem_of_fmap|?]]; [by left|by right; left|by right; right].
Qed.

(** C38. The operator starts with a complete scheme: init does not panic, and the
    scheme knows the type of every kind that the operator reads, writes or
    watches, each under its own group, and of the list of workspaces that
    the fan-out and the webhook list into. *)
Theorem scheme_complete :
  ∃ s, main_init = Some s ∧ (∀ k, KnownType s (gvk_of k) = Some (type_of k)) ∧
    KnownType s (WithKind SchemeGroupVersion "WorkspaceList") = Some WorkspaceListType.
Proof.
  destruct clientgoscheme_spec as (s1 & H1 & Hk1 & Ho1).
  destruct (AddToScheme_spec s1) as (s2 & H2 & [Hk2 Ho2] & Hw & Hl); [intros g t Hg; apply (Ho1 _ _ Hg)|].
  destruct (sourcev1_spec s2) as (s3 & H3 & Hh & Hk3 & _).
  { intros g t [Hg|[Hg|Hg]]%Ho2; [apply (Ho1 _ _ Hg)| |]; by rewrite Hg. }
  exists s3. split_and!; [|intros k|by apply Hk3].
  - unfold main_init. rewrite H1. simpl. rewrite H2. simpl. by rewrite H3.
  - destruct (third_party k) eqn:Hk; [by apply Hk3, Hk2, Hk1|]. destruct k; try done. by apply Hk3.
Qed.
End complete.
