(* ===== verification/Crd.v ===== *)
(** The schema of a Workspace (the kubebuilder validation markers of
    api/v1alpha1/workspace_types.go), as the predicate the API server checks
    before an object is stored, and what it gives the rest of the program. *)
From S2P Require Import Prelude Errors Prog GoStd Api Effects Cluster Sync Stage Fakes Labels Config.
From S2P Require Import Namespace Rbac Resources Helm Authorization Harbor HarborSync Webhook Controller.
From S2P Require Import Reconcile.

(** ** The markers *)

Definition alnum (c : ascii) : bool := in_range "a" c "z" || in_range "0" c "9".

(** [[a-z0-9]([-a-z0-9]*[a-z0-9])?]. *)
Definition dns_label_pattern (s : string) : bool :=
  match String.list_ascii_of_string s with
  | [] => false
  | c :: cs => alnum c && forallb (fun c => alnum c || bool_decide (c = "-"%char)) cs &&
               match list.last cs with Some c => alnum c | None => true end
  end.

(** Enum=admin;edit;view. *)
Definition valid_MemberRole (role : MemberRole) : bool := bool_decide (role ∈ ["admin"; "edit"; "view"]).

(** MinLength=1, MaxLength=253 (a limit on characters, so at most that many
    bytes here for ASCII subjects). *)
Definition valid_member (m : WorkspaceMember) : bool :=
  valid_MemberRole (Member_Role m) &&
  bool_decide (1 ≤ String.length (Member_Subject m)) &&
  bool_decide (String.length (Member_Subject m) ≤ 253).

Definition reservedNamespaces : list string :=
  ["default"; "kube-system"; "kube-public"; "kube-node-lease"; "otterscale-system"].

Definition valid_namespace (ns : string) : bool :=
  bool_decide (String.length ns ≤ 63) && (bool_decide (ns = "") || dns_label_pattern ns) &&
  negb (bool_decide (ns ∈ reservedNamespaces)).

(** MinItems=1 and the CEL rule on the members. *)
Definition valid_members (members : list WorkspaceMember) : bool :=
  bool_decide (1 ≤ length members) && forallb valid_member members &&
  existsb (fun u => bool_decide (Member_Role u = "admin")) members.

Definition valid_NetworkIsolation (net : NetworkIsolationSpec) : bool :=
  let allowed := Isolation_AllowedNamespaces net in
  (bool_decide (length allowed = 0) || Isolation_Enabled net) &&
  bool_decide (NoDup allowed) && bool_decide (length allowed ≤ 64) &&
  forallb (fun ns => bool_decide (1 ≤ String.length ns) && bool_decide (String.length ns ≤ 63) &&
                     dns_label_pattern ns) allowed.

Definition valid_WorkspaceSpec (spec : WorkspaceSpec) : bool :=
  valid_namespace (Spec_Namespace spec) && valid_members (Spec_Members spec) &&
  valid_NetworkIsolation (Spec_NetworkIsolation spec).

(** The transition rule: self == oldSelf. *)
Definition valid_transition (oldSpec newSpec : WorkspaceSpec) : bool :=
  bool_decide (Spec_Namespace newSpec = Spec_Namespace oldSpec).

(** ** Facts *)

Lemma alnum_unescaped c mode : alnum c || bool_decide (c = "-"%char) = true → shouldEscape c mode = false ∧ c ≠ " "%char.
Proof. destruct c as [[] [] [] [] [] [] [] []]; try discriminate; by split. Qed.

Lemma dns_label_chars s :
  dns_label_pattern s = true →
  ∀ c, c ∈ String.list_ascii_of_string s → alnum c || bool_decide (c = "-"%char) = true.
Proof.
  unfold dns_label_pattern. destruct (String.list_ascii_of_string s) as [|c cs]; [done|].
  rewrite !andb_true_iff. intros [[Hc Hcs] _] x [->|Hx]%elem_of_cons; [by rewrite Hc|].
  rewrite forallb_In in Hcs. by apply Hcs.
Qed.

Lemma escape_plain s mode :
  (∀ c, c ∈ String.list_ascii_of_string s → shouldEscape c mode = false ∧ c ≠ " "%char) → escape s mode = s.
Proof.
  induction s as [|c s IH]; [done|]. intros Hs. cbn [escape].
  destruct (Hs c ltac:(by left)) as [He Hn]. rewrite bool_decide_eq_false_2 by done. rewrite He. cbn [andb].
  rewrite IH; [done|]. intros x Hx. apply Hs. by right.
Qed.

Lemma valid_namespace_plain ns mode : valid_namespace ns = true → escape ns mode = ns.
Proof.
  unfold valid_namespace. rewrite !andb_true_iff, orb_true_iff, bool_decide_eq_true.
  intros [[_ [->%bool_decide_eq_true|Hp]] _]; [by destruct mode|].
  apply escape_plain. intros c Hc. apply alnum_unescaped. by eapply dns_label_chars.
Qed.

Lemma valid_role_known role : valid_MemberRole role = true ↔ role ∈ AllMemberRoles.
Proof. apply bool_decide_eq_true. Qed.

Lemma valid_members_spec members :
  valid_members members = true →
  (∀ m, m ∈ members → valid_member m = true) ∧ ∃ m, m ∈ members ∧ Member_Role m = MemberRoleAdmin.
Proof.
  unfold valid_members. rewrite !andb_true_iff. intros [[_ Hall] Hex]. rewrite forallb_In in Hall.
  split; [done|]. apply existsb_In in Hex as (m & Hm & Hr%bool_decide_eq_true). by exists m.
Qed.

Lemma valid_spec_members w :
  valid_WorkspaceSpec (W_Spec w) = true → valid_members (W_Members w) = true.
Proof. unfold valid_WorkspaceSpec. rewrite !andb_true_iff. tauto. Qed.

(** ** What readiness means to the members *)

Section properties.
Context {CL : CtrlLib} {HCL : CtrlLaws} {NL : NetLib} {HNL : NetLaws}.
Context {W : Type} {CW : Cluster W} {LW : ClusterLaws W}.
Implicit Types (r : WorkspaceReconciler) (w : Workspace) (σ : W).

(** Nobody is left out.  A stored workspace has only known roles and at least
    one admin, so once it is ready every member holds exactly the cluster role
    of their entry, some user holds admin, and that user may change the
    workspace. *)
Lemma ready_grants_everyone r w url σ :
  valid_WorkspaceSpec (W_Spec w) = true → tenant_ready r w url σ →
  (∀ m, m ∈ W_Members w → granted σ w (Member_Role m) (Member_Subject m)) ∧
  (∀ role user, role ∈ AllMemberRoles → granted σ w role user →
     ∃ m, m ∈ W_Members w ∧ Member_Role m = role ∧ Member_Subject m = user) ∧
  ∃ user, granted σ w MemberRoleAdmin user ∧ isWorkspaceAdmin user w = true.
Proof.
  intros [Hall (adm & Hadm & Hrole)]%valid_spec_members%valid_members_spec [_ _ _ Hb _ _ _ _].
  assert (∀ m, m ∈ W_Members w → granted σ w (Member_Role m) (Member_Subject m)) as Hgrant.
  { intros m Hm. apply (binding_ok_granted w (Version r)); [|by exists m].
    apply Hb, valid_role_known. specialize (Hall m Hm). unfold valid_member in Hall.
    rewrite !andb_true_iff in Hall. tauto. }
  split_and!; [done| |].
  - intros role user Hr Hg. by apply (binding_ok_granted w (Version r)) in Hg; [|apply Hb].
  - exists (Member_Subject adm). split; [rewrite <-Hrole; by apply Hgrant|].
    apply isWorkspaceAdmin_spec. by exists adm.
Qed.

(** Tenants do not meet.  Take two workspaces of different names, whose
    namespaces are different and set (admission checks uniqueness and fills in
    the empty one).  Whatever the cluster and Harbor answer, no object written
    in a reconcile of one is written in a reconcile of the other. *)
Theorem tenants_disjoint r1 r2 key1 key2 w1 w2 tr1 tr2 res1 res2 :
  quiet_reconciler r1 → quiet_reconciler r2 →
  W_Name w1 ≠ W_Name w2 → W_Namespace w1 ≠ W_Namespace w2 →
  W_Namespace w1 ≠ "" → W_Namespace w2 ≠ "" →
  runs (Reconcile r1 key1) (Obs (ClientGet KWorkspace key1) (Ok w1) :: tr1) res1 →
  runs (Reconcile r2 key2) (Obs (ClientGet KWorkspace key2) (Ok w2) :: tr2) res2 →
  ∀ o1 o2 k key, o1 ∈ tr1 → o2 ∈ tr2 → writes o1 k key → ¬ writes o2 k key.
Proof.
  intros Hq1 Hq2 Hn Hns He1 He2 Hr1%Reconcile_tail_of Hr2%Reconcile_tail_of o1 o2 k key Ho1 Ho2.
  apply reconcile_tail_confined in Hr1, Hr2; [|done..]. rewrite list.Forall_forall in Hr1, Hr2.
  intros [[-> ->]|[[-> ->]|Hk1]]%(Hr1 _ Ho1) [[? Hk]|[[? Hk]|Hk2]]%(Hr2 _ Ho2); try done;
    try (injection Hk; congruence); subst; simpl in *; congruence.
Qed.

(** The paths of the Harbor client are safe.  The namespace of a stored
    workspace, which is also the name of its Harbor project and robot, is not
    changed by either escaping, so the paths that carry it unescaped are the
    paths that carry it escaped; and it contains no separator of a path or a
    query. *)
Theorem project_name_url_safe w :
  valid_WorkspaceSpec (W_Spec w) = true →
  PathEscape (W_Namespace w) = W_Namespace w ∧ QueryEscape (W_Namespace w) = W_Namespace w ∧
  ∀ c, c ∈ ["/"; "?"; "#"; "&"; "="; "%"; "+"; " "]%char →
    c ∉ String.list_ascii_of_string (W_Namespace w).
Proof.
  unfold valid_WorkspaceSpec. rewrite !andb_true_iff. intros [[Hns _] _].
  change (Spec_Namespace (W_Spec w)) with (W_Namespace w) in Hns.
  split_and!; [by apply valid_namespace_plain..|]. intros c Hc Hin.
  unfold valid_namespace in Hns. rewrite !andb_true_iff, orb_true_iff in Hns.
  destruct Hns as [[_ [He%bool_decide_eq_true|Hp]] _]; [rewrite He in Hin; by apply elem_of_nil in Hin|].
  pose proof (dns_label_chars _ Hp c Hin) as Hal.
  repeat (apply elem_of_cons in Hc as [->|Hc]; [by vm_compute in Hal|]). by apply elem_of_nil in Hc.
Qed.

(** C39. A generated namespace name always passes the schema: it matches the
    pattern, fits the length, and is none of the reserved names. *)
Theorem generated_name_passes_schema tr name :
  runs generateAvailableNamespaceName tr (Ok name) → Forall lawful_rand tr →
  valid_namespace name = true.
Proof.
  intros [_ (b & s & e & -> & _ & Hin & _)]%tryNames_runs Hlaw.
  rewrite list.Forall_forall in Hlaw. destruct (generated_dns b s (Hlaw _ Hin)) as [Hlen Hdns].
  generalize dependent (lowercaseLetter b +:+ s). clear. intros name Hlen Hdns.
  unfold valid_namespace. rewrite !andb_true_iff, orb_true_iff, negb_true_iff, bool_decide_eq_true, bool_decide_eq_false.
  split_and!; [lia|right|].
  - unfold dns_name, dns_label_pattern in *. destruct name as [|c name]; [done|]. cbn.
    apply andb_true_iff in Hdns as [Hc Hs]. unfold alnum at 1. rewrite Hc. cbn.
    rewrite forallb_In in Hs. apply andb_true_iff. split.
    + apply forallb_In. intros x Hx. change (dns_char x || bool_decide (x = "-"%char) = true). by rewrite (Hs x Hx).
    + destruct (list.last _) as [x|] eqn:Hl; [|done]. apply Hs.
      apply last_Some in Hl as [l ->]. set_solver.
  - intros Hr. unfold reservedNamespaces in Hr.
    repeat (apply elem_of_cons in Hr as [->|Hr]; [discriminate Hlen|]). by apply elem_of_nil in Hr.
Qed.
End properties.
