(* ===== verification/System.v ===== *)
(** The life of the Workspace objects in a cluster: admission and storage.

    The API server runs the mutating webhook on every create and update, then
    the schema, then the validating webhook, and only then stores the object; a
    create that passed admission is stored later, and other requests may come in
    between.  Writes of the status subresource reach neither webhook.  The step
    relation [step] is that documented chain over the hooks of Webhook.v and the
    schema of Crd.v; [serial] restricts it to one creation at a time.

    The last part follows two workspaces of one namespace into reconcile: the
    first to claim the namespace keeps it. *)
From S2P Require Import Prelude Errors Prog GoStd Api Effects Cluster Sync Stage Fakes Labels Config.
From S2P Require Import Namespace Authorization Harbor HarborSync Webhook Controller Conflicts Status Reconcile Crd.

(** The stored workspaces by name, and the creations admitted but not stored yet. *)
Record system := mkSystem {
  stored : gmap string Workspace;
  inflight : list Workspace;
}.

Definition initial : system := mkSystem ∅ [].

(** Storing fills in metadata of the server's own, and no more. *)
Definition kept_as (sent kept : Workspace) : Prop :=
  W_Name kept = W_Name sent ∧ W_Labels kept = W_Labels sent ∧ W_Spec kept = W_Spec sent.

(** The webhook's List is uncached: it returns what is stored. *)
Definition live (objects : gmap string Workspace) (tr : trace) : Prop :=
  ∀ items, Obs ClientListWorkspaces (Ok items) ∈ tr → ∀ w, w ∈ items ↔ ∃ name, objects !! name = Some w.

(** What a List answered. *)
Definition listed_workspaces (o : obs sysE) : option (result (list Workspace)) :=
  match o with
  | Obs e x =>
      match e in sysE X return X → option (result (list Workspace)) with
      | ClientListWorkspaces => fun r => Some r
      | _ => fun _ => None
      end x
  end.

Section system.
Context {NL : NetLib}.
Implicit Types (s : system) (w ws : Workspace).

Inductive step : system → system → Prop :=
  | step_admit s req ws ws' tr1 tr2 :
      runs (Default ws) tr1 (Ok ws') → valid_WorkspaceSpec (W_Spec ws') = true →
      runs (ValidateCreate req ws') tr2 (Ok tt) → live (stored s) tr2 →
      step s (mkSystem (stored s) (ws' :: inflight s))
  | step_store objects l1 l2 ws kept :
      objects !! W_Name ws = None → kept_as ws kept →
      step (mkSystem objects (l1 ++ ws :: l2)) (mkSystem (<[W_Name ws := kept]> objects) (l1 ++ l2))
  | step_abandon objects l1 l2 ws :
      step (mkSystem objects (l1 ++ ws :: l2)) (mkSystem objects (l1 ++ l2))
  | step_update s req old new new' kept tr1 tr2 :
      stored s !! W_Name new = Some old →
      runs (Default new) tr1 (Ok new') → valid_WorkspaceSpec (W_Spec new') = true →
      valid_transition (W_Spec old) (W_Spec new') = true →
      runs (ValidateUpdate req old new') tr2 (Ok tt) → kept_as new' kept →
      step s (mkSystem (<[W_Name new := kept]> (stored s)) (inflight s))
  | step_status s name w status :
      stored s !! name = Some w →
      step s (mkSystem (<[name := set_W_Status status w]> (stored s)) (inflight s))
  | step_delete s req name w tr :
      stored s !! name = Some w → runs (ValidateDelete req w) tr (Ok tt) →
      step s (mkSystem (delete name (stored s)) (inflight s)).

Definition reachable : system → Prop := rtc step initial.

(** One creation at a time. *)
Definition serial_step s s' : Prop := step s s' ∧ length (inflight s') ≤ 1.

Lemma invariant_reachable (R : relation system) (I : system → Prop) s s' :
  (∀ s s', I s → R s s' → I s') → rtc R s s' → I s → I s'.
Proof. intros HR. induction 1; eauto. Qed.

(** ** What admission guarantees of one object *)

(** The labels mirror the members. *)
Definition mirrors w : Prop :=
  ∀ k, HasPrefix k UserLabelPrefix = true →
    gomap_view (W_Labels w) !! k = if decide (member_label w k) then Some "true" else None.

(** What the reconciler relies on. *)
Record wellformed w : Prop := {
  wellformed_spec : valid_WorkspaceSpec (W_Spec w) = true;
  wellformed_namespace : W_Namespace w ≠ "";
  wellformed_label : ¬ needs_backfill w;
  wellformed_members : mirrors w;
}.

Lemma namespace_label_not_member : HasPrefix LabelWorkspaceNamespace UserLabelPrefix = false.
Proof. done. Qed.

Lemma Default_wellformed ws tr ws' :
  runs (Default ws) tr (Ok ws') → valid_WorkspaceSpec (W_Spec ws') = true →
  wellformed ws' ∧ W_Name ws' = W_Name ws.
Proof.
  intros (ns & (labels & -> & Hk) & Hgiven & Hgen)%Default_ok Hv. split; [|done].
  assert (ns ≠ "") as Hns.
  { destruct (decide (W_Namespace ws = "")) as [Hn|Hn]; [by apply Hgen|by destruct (Hgiven Hn) as [-> _]]. }
  split; [done|done| |].
  - intros Hb. apply Hb. cbn. unfold gomap_get. cbn. rewrite Hk. unfold defaulted. by rewrite decide_True.
  - intros k Hp. cbn. rewrite Hk. unfold defaulted.
    rewrite decide_False by (intros ->; by rewrite namespace_label_not_member in Hp).
    unfold mirrored. rewrite Hp. by apply decide_ext.
Qed.

Lemma wellformed_kept w kept : kept_as w kept → wellformed w → wellformed kept.
Proof.
  intros (Hn & Hl & Hs) [H1 H2 H3 H4].
  assert (W_Namespace kept = W_Namespace w) as Hns by (unfold W_Namespace; by rewrite Hs).
  assert (W_Members kept = W_Members w) as Hm by (unfold W_Members; by rewrite Hs).
  split.
  - by rewrite Hs.
  - by rewrite Hns.
  - unfold needs_backfill. by rewrite Hl, Hns.
  - intros k Hk. rewrite Hl, (H4 k Hk). apply decide_ext. unfold member_label. by rewrite Hm.
Qed.

Record system_ok s : Prop := {
  ok_stored name w : stored s !! name = Some w →
    W_Name w = name ∧ String.length name ≤ LabelValueMaxLength ∧ wellformed w;
  ok_inflight w : w ∈ inflight s → String.length (W_Name w) ≤ LabelValueMaxLength ∧ wellformed w;
}.

Lemma step_ok s s' : system_ok s → step s s' → system_ok s'.
Proof.
  intros [Hst Hin] Hstep. destruct Hstep as
    [s req ws ws' tr1 tr2 Hd Hv Hc _|objects l1 l2 ws kept Hnone Hk|objects l1 l2 ws
    |s req old new new' kept tr1 tr2 Hold Hd Hv Ht _ Hk|s name w status Hw|s req name w tr Hw _]; split; simpl in *.
  - exact Hst.
  - intros w [->|Hw]%elem_of_cons; [|by apply Hin].
    apply Default_wellformed in Hd as [Hd _]; [|done]. by apply ValidateCreate_admitted in Hc as [Hl _].
  - intros name w [[<- <-]|[_ Hw]]%lookup_insert_Some; [|by apply Hst].
    destruct (Hin ws) as [Hl Hwf]; [set_solver|]. split_and!; [apply Hk|done|by eapply wellformed_kept].
  - intros w Hw. apply Hin. set_solver.
  - exact Hst.
  - intros w Hw. apply Hin. set_solver.
  - intros name w [[<- <-]|[_ Hw]]%lookup_insert_Some; [|by apply Hst].
    apply Default_wellformed in Hd as [Hd Hn]; [|done]. destruct (Hst _ _ Hold) as (_ & Hl & _).
    split_and!; [by rewrite (proj1 Hk)|done|by eapply wellformed_kept].
  - exact Hin.
  - intros name' w' [[<- <-]|[_ Hw']]%lookup_insert_Some; [|by apply Hst].
    destruct (Hst _ _ Hw) as (Hn & Hl & Hwf).
    split_and!; [done|done|by eapply (wellformed_kept w)].
  - exact Hin.
  - intros name' w' [_ Hw']%lookup_delete_Some. by apply Hst.
  - exact Hin.
Qed.

Lemma initial_ok : system_ok initial.
Proof. split; simpl; intros *; [by rewrite lookup_empty|]. by intros ?%elem_of_nil. Qed.

Lemma reachable_ok s : reachable s → system_ok s.
Proof. intros Hr. eapply invariant_reachable; [apply step_ok|exact Hr|apply initial_ok]. Qed.

(** ** The system is live, and its creations race *)

Definition defaulted_workspace ws : Workspace := set_W_Labels (Some (referenceLabels ws)) ws.

(** A valid workspace whose creator is one of its admins is admitted when nobody
    stored claims its namespace and the namespace does not exist. *)
Lemma creation_admitted s u ws :
  W_Namespace ws ≠ "" → valid_WorkspaceSpec (W_Spec ws) = true →
  String.length (W_Name ws) ≤ LabelValueMaxLength → admin_of (User_Username u) ws →
  (∀ n w, stored s !! n = Some w → W_Namespace w = W_Namespace ws → W_Name w = W_Name ws) →
  step s (mkSystem (stored s) (defaulted_workspace ws :: inflight s)).
Proof.
  intros Hne Hv Hl Ha Hu. destruct (Default_named_run ws String.length String.length Hne) as [r Hr].
  destruct (Default_named _ _ _ Hne Hr) as [_ ->].
  eapply (step_admit s (Ok u)); [exact Hr|exact Hv| |].
  - apply (ValidateCreate_admits u (defaulted_workspace ws) (snd <$> map_to_list (stored s))
      (Err (StatusError StatusReasonNotFound "")) []); [exact Hl| |done|by left; split; [right|]].
    intros o ([n w] & -> & Hin%elem_of_map_to_list)%list_elem_of_fmap. by eapply Hu.
  - intros items [Heq|Hin]%elem_of_cons w; [|apply list_elem_of_singleton, (f_equal listed_workspaces) in Hin; discriminate Hin].
    assert (items = snd <$> map_to_list (stored s)) as -> by by apply (f_equal listed_workspaces) in Heq; injection Heq.
    rewrite list_elem_of_fmap. split.
    + intros ([n w'] & -> & Hin%elem_of_map_to_list). by exists n.
    + intros [n Hn]. exists (n, w). split; [done|]. by apply elem_of_map_to_list.
Qed.

(** Uniqueness is checked against what is stored.  Two creations admitted before
    either is stored both succeed: two workspaces of one namespace. *)
Lemma create_race u a b :
  W_Namespace a ≠ "" → W_Namespace b = W_Namespace a → W_Name a ≠ W_Name b →
  (∀ ws, ws ∈ [a; b] → valid_WorkspaceSpec (W_Spec ws) = true ∧
     String.length (W_Name ws) ≤ LabelValueMaxLength ∧ admin_of (User_Username u) ws) →
  reachable (mkSystem (<[W_Name b := defaulted_workspace b]> (<[W_Name a := defaulted_workspace a]> ∅)) []).
Proof.
  intros Hne Hns Hn Hok. destruct (Hok a) as (Hva & Hla & Haa); [set_solver|].
  destruct (Hok b) as (Hvb & Hlb & Hab); [set_solver|].
  eapply rtc_l; [apply (creation_admitted initial u a); try done; intros n w; simpl; by rewrite lookup_empty|].
  assert (W_Namespace b ≠ "") as Hnb by by rewrite Hns.
  eapply rtc_l; [apply (creation_admitted _ u b); try done; intros n w; simpl; by rewrite lookup_empty|]. simpl.
  eapply rtc_l; [apply (step_store ∅ [_] [] (defaulted_workspace a) (defaulted_workspace a)); by rewrite ?lookup_empty|].
  simpl. apply rtc_once. apply (step_store _ [] [] (defaulted_workspace b) (defaulted_workspace b)); [|done].
  apply lookup_insert_None. by rewrite lookup_empty.
Qed.

(** ** Namespaces, one creation at a time *)

(** No namespace has two workspaces, stored or about to be. *)
Record unique s : Prop := {
  unique_stored n1 n2 w1 w2 : stored s !! n1 = Some w1 → stored s !! n2 = Some w2 →
    W_Namespace w1 = W_Namespace w2 → n1 = n2;
  unique_inflight n w ws : stored s !! n = Some w → ws ∈ inflight s →
    W_Namespace w = W_Namespace ws → n = W_Name ws;
}.

(** Replacing a workspace by one of the same namespace keeps uniqueness. *)
Lemma unique_replace objects l name old new :
  objects !! name = Some old → W_Namespace new = W_Namespace old →
  unique (mkSystem objects l) → unique (mkSystem (<[name := new]> objects) l).
Proof.
  intros Hold Hns [Hu Hi]. simpl in *.
  assert (∀ n w, <[name := new]> objects !! n = Some w →
    ∃ w', objects !! n = Some w' ∧ W_Namespace w = W_Namespace w') as Hback.
  { intros n w [[<- <-]|[_ Hw]]%lookup_insert_Some; eauto. }
  split; simpl.
  - intros n1 n2 w1 w2 (w1' & H1 & E1)%Hback (w2' & H2 & E2)%Hback E. eapply Hu; [done..|congruence].
  - intros n w ws (w' & H & E')%Hback Hws E. eapply Hi; [done..|congruence].
Qed.

Lemma unique_fewer objects l name : unique (mkSystem objects l) → unique (mkSystem (delete name objects) l).
Proof.
  intros [Hu Hi]. split; simpl in *.
  - intros n1 n2 w1 w2 [_ H1]%lookup_delete_Some [_ H2]%lookup_delete_Some. by eapply Hu.
  - intros n w ws [_ H]%lookup_delete_Some. by eapply Hi.
Qed.

(** The invariant of the serialized system. *)
Definition serial_ok s : Prop := system_ok s ∧ length (inflight s) ≤ 1 ∧ unique s.

Lemma serial_step_ok s s' : serial_ok s → serial_step s s' → serial_ok s'.
Proof.
  intros (Hok & Hlen & Hun) [Hstep Hlen']. split_and!; [by eapply step_ok|done|].
  destruct Hstep as
    [[objects l] req ws ws' tr1 tr2 Hd Hv Hc Hlive|objects l1 l2 ws kept Hnone Hk|objects l1 l2 ws
    |[objects l] req old new new' kept tr1 tr2 Hold Hd Hv Ht _ Hk|[objects l] name w status Hw
    |[objects l] req name w tr Hw _]; simpl in *.
  - destruct Hun as [Hu Hi]. split; [exact Hu|]. intros n w x Hw [->|Hx]%elem_of_cons E; [|by eapply Hi].
    apply ValidateCreate_admitted in Hc as (_ & items & Hitems & Huniq).
    rewrite <-(proj1 (ok_stored _ Hok _ _ Hw)). apply Huniq; [|done]. apply (Hlive _ Hitems). by exists n.
  - assert (l1 = [] ∧ l2 = []) as [-> ->].
    { rewrite length_app in Hlen. destruct l1, l2; simpl in Hlen; try done; lia. }
    destruct Hun as [Hu Hi]. simpl in *.
    assert (W_Namespace kept = W_Namespace ws) as Hns by (unfold W_Namespace; by rewrite (proj2 (proj2 Hk))).
    assert (∀ n w, objects !! n = Some w → W_Namespace w ≠ W_Namespace ws) as Hfresh.
    { intros n w Hw E. rewrite (Hi n w ws Hw) in Hw; [by rewrite Hnone in Hw|by left|done]. }
    split; simpl; [|by intros ??? _ ?%elem_of_nil].
    intros n1 n2 w1 w2 [[<- <-]|[_ H1]]%lookup_insert_Some [[<- <-]|[_ H2]]%lookup_insert_Some E;
      [done|..|by eapply Hu]; exfalso; eapply Hfresh; [exact H2|congruence|exact H1|congruence].
  - destruct Hun as [Hu Hi]. split; [exact Hu|]. intros n w x Hw Hx. eapply Hi; [done|]. set_solver.
  - eapply unique_replace; [done| |done].
    apply bool_decide_eq_true in Ht. unfold W_Namespace. by rewrite (proj2 (proj2 Hk)).
  - by eapply unique_replace.
  - by apply unique_fewer.
Qed.

Lemma initial_serial_ok : serial_ok initial.
Proof.
  split_and!; [apply initial_ok|simpl; lia|].
  by split; simpl; intros *; rewrite lookup_empty.
Qed.

Lemma serial_reachable_ok s : rtc serial_step initial s → serial_ok s.
Proof.
  intros Hr. eapply invariant_reachable; [apply serial_step_ok|exact Hr|apply initial_serial_ok].
Qed.
End system.

(** ** Two workspaces of one namespace *)

Section claims.
Context {CL : CtrlLib} {HCL : CtrlLaws} {NL : NetLib} {HNL : NetLaws}.
Context {W : Type} {CW : Cluster W} {LW : ClusterLaws W}.
Implicit Types (r : WorkspaceReconciler) (w : Workspace) (σ : W).

(** The namespace [name] exists and has the owner [uid]. *)
Definition namespace_owner (name uid : string) σ : Prop :=
  ∃ ns, view σ KNamespace (mkKey "" name) = Some ns ∧ IsOwned (Meta_OwnerReferences (metadata ns)) uid = true.

(** Claiming a namespace gives it no other owner. *)
Lemma exec_ReconcileNamespace_owner w version σ σ' uid :
  exec (ReconcileNamespace w version) σ = Some (Ok tt, σ') → uid ≠ W_UID w →
  namespace_owner (W_Namespace w) uid σ' → namespace_owner (W_Namespace w) uid σ.
Proof.
  intros [(e & _ & [=])|(data & σ1 & [-> Hv]%exec_operatorConfigData & Hx)]%exec_bindR Hne (ns & Hns & Ho).
  apply exec_sync in Hx as [Hs _]. destruct (Hs eq_refl) as (sent & kept & Hk & Hm & [_ _ _ Hp _]).
  change (mkKey "" (W_Namespace w)) with (namespaceKey w) in Hns. rewrite Hk in Hns. injection Hns as <-.
  rewrite namespaceMutate_eq in Hm. case_decide; [done|]. apply own_Ok in Hm as (refs & Hr & ->).
  rewrite Hp in Ho. eapply SetControllerReference_only in Ho; [|exact Hr|done]. rewrite Hv in Ho.
  unfold namespace_owner. change (mkKey "" (W_Namespace w)) with (namespaceKey w).
  destruct (view σ KNamespace (namespaceKey w)) as [before|]; [by exists before|done].
Qed.

(** Whoever owns the namespace makes it foreign to those who do not. *)
Lemma owned_foreign w1 w2 version σ :
  W_Namespace w2 = W_Namespace w1 → namespace_ready w1 version σ →
  ¬ namespace_owner (W_Namespace w1) (W_UID w2) σ →
  ∃ ns, view σ KNamespace (namespaceKey w2) = Some ns ∧ foreign w2 ns.
Proof.
  intros Hns (ns & Hv & [_ Ho] & _) Hno. exists ns. unfold namespaceKey in *. rewrite Hns. split; [done|].
  split_and!.
  - by eapply view_created.
  - apply not_true_iff_false. intros H2. apply Hno. by exists ns.
  - intros [Hnil _]. by rewrite Hnil in Ho.
Qed.

(** The owner a reconcile gives the namespace is the workspace alone. *)
Lemma exec_Reconcile_owner r key w σ res σ' uid :
  quiet_reconciler r → conflict_free_reconciler r → view σ KWorkspace key = Some w → ¬ needs_backfill w →
  exec (Reconcile r key) σ = Some ((res, None), σ') → uid ≠ W_UID w →
  namespace_owner (W_Namespace w) uid σ' → namespace_owner (W_Namespace w) uid σ.
Proof.
  intros Hq Hc Hw Hb [(e & [=] & _)|(synced & σ0 & σ1 & Hv & Hs & [Hf _] & Hres)]%(exec_Reconcile _ _ w) Hne Ho;
    [|done..].
  assert (namespace_owner (W_Namespace w) uid σ1) as Ho1.
  { destruct Ho as (ns & Hns & Ho). exists ns. split; [|done]. rewrite <-Hf; [done|].
    by intros [=]%list_elem_of_singleton. }
  enough (namespace_owner (W_Namespace w) uid σ0) as (ns & Hns & ?) by (exists ns; by rewrite <-Hv).
  destruct synced as [missing|e].
  - rewrite reconcileResources_inner in Hs.
    apply exec_bindR in Hs as [(e & _ & [=])|([] & σa & Hx & Hs)].
    eapply exec_ReconcileNamespace_owner; [exact Hx|done|].
    apply exec_bindR in Hs as [(e & _ & [=])|(creds & σb & [_ Hvb]%exec_OperatorHarborCredentials & Hs)].
    pose proof (stage_frame _ _ _ (inner_sync_stage r w creds Hq) _ _ _ Hs) as Hfi.
    destruct Ho1 as (ns & Hns & ?). exists ns. split; [|done]. rewrite <-Hvb, <-Hfi; [done|].
    intros Hin. assert (disjoint_footprints (inner_footprint w) [(KNamespace, mkKey "" (W_Namespace w))]) as Hd.
    { clear. disjoint_footprints. }
    apply (Hd _ Hin). set_solver.
  - destruct (exec_conflict r w _ _ _ _ _ _ Hq Hc Hs Hres) as (_ & _ & _ & Hv1).
    destruct Ho1 as (ns & Hns & ?). exists ns. by rewrite <-Hv1.
Qed.
End claims.

(** ** Properties *)

Section properties.
Context {CL : CtrlLib} {HCL : CtrlLaws} {NL : NetLib} {HNL : NetLaws}.
Context {W : Type} {CW : Cluster W} {LW : ClusterLaws W}.
Implicit Types (r : WorkspaceReconciler) (w : Workspace) (σ : W).

(** C15. The type of a stored Workspace.  However creations, updates, status writes
    and deletions of any callers interleave, and whatever the reads of the
    webhooks answer, every stored workspace is well formed: its spec satisfies
    the schema, its namespace is set and its namespace label says so (the
    reconciler's backfill is for objects older than the webhook only), its
    member labels are exactly its members', and its name fits a label value. *)
Theorem stored_wellformed s name w :
  reachable s → stored s !! name = Some w →
  W_Name w = name ∧ String.length name ≤ LabelValueMaxLength ∧ wellformed w.
Proof. intros Hr. apply (ok_stored _ (reachable_ok s Hr)). Qed.

(** C16. One namespace, one workspace.  As long as creations are admitted one at a
    time, no two stored workspaces ever claim the same namespace, through any
    updates and deletions of any callers. *)
Theorem namespaces_unique s n1 n2 w1 w2 :
  rtc serial_step initial s → stored s !! n1 = Some w1 → stored s !! n2 = Some w2 →
  W_Namespace w1 = W_Namespace w2 → n1 = n2.
Proof.
  intros (_ & _ & Hun)%serial_reachable_ok. by apply (unique_stored _ Hun).
Qed.

(** C9. The first claim wins.  Even when the race between two creations let two
    workspaces of one namespace in, the second one cannot take anything from
    the first.  Once [w1] is reconciled (the namespace not belonging to [w2]
    before), every reconcile of [w2], however it ends, leaves every object of
    the cluster as it is but [w2] itself, and [w1] stays ready. *)
Theorem first_claim_wins r key1 key2 w1 w2 url σ res1 σ1 res2 σ2 :
  quiet_reconciler r → conflict_free_reconciler r →
  W_UID w1 ≠ W_UID w2 → W_Namespace w2 = W_Namespace w1 →
  ¬ needs_backfill w1 → view σ KWorkspace key1 = Some w1 → ¬ namespace_owner (W_Namespace w1) (W_UID w2) σ →
  exec (Reconcile r key1) σ = Some ((res1, None), σ1) → tenant_ready r w1 url σ1 →
  view σ1 KWorkspace key2 = Some w2 → exec (Reconcile r key2) σ1 = Some (res2, σ2) →
  frame [(KWorkspace, workspaceKey w2)] σ1 σ2 ∧ tenant_ready r w1 url σ2.
Proof.
  intros Hq Hc Hu Hns Hb1 Hw1 Hno Hx Hready Hw2 Hy.
  assert (frame [(KWorkspace, workspaceKey w2)] σ1 σ2) as Hf.
  - destruct (owned_foreign w1 w2 (Version r) σ1 Hns (ready_namespace _ _ _ _ Hready)) as (ns & Hv & Hfor).
    { intros Ho. apply Hno. by eapply exec_Reconcile_owner. }
    by eapply exec_Reconcile_foreign.
  - split; [done|]. eapply tenant_ready_local; [|done]. intros k key Hk. apply Hf.
    by intros [= -> _]%list_elem_of_singleton.
Qed.
End properties.
