(* ===== verification/Total.v ===== *)
(** Against an environment that answers every call, the programs end with a
    result.  Programs are finite trees, so all this says is that a reconcile
    cannot panic.  The theorems of Convergence.v and Settling.v that a run exists
    are built on it. *)
From S2P Require Import Prelude Errors Prog GoStd Api Effects Cluster Sync Fakes Labels Config Namespace.
From S2P Require Import Rbac Resources Helm Authorization Harbor HarborSync Webhook Controller Watches.

Definition is_panic {X} (e : sysE X) : bool :=
  match e with PanicE _ => true | _ => false end.

Create HintDb totals discriminated.

Section total.
Context {W : Type} (h : handler sysE W).
Implicit Types (σ : W).

(** Every call but a panic is answered. *)
Class Answering : Prop := answering X (e : sysE X) σ : is_panic e = false → h X e σ ≠ None.

Definition total {A} (p : io A) : Prop := ∀ σ, ∃ a σ', interp h p σ = Some (a, σ').

Lemma total_ret {A} (a : A) : total (Ret a).
Proof. intros σ. by exists a, σ. Qed.

Lemma total_okR {A} (a : A) : total (okR a).
Proof. apply total_ret. Qed.

Lemma total_errR {A} e : total (errR (A := A) e).
Proof. apply total_ret. Qed.

Lemma total_trigger {X} `{Answering} (e : sysE X) : is_panic e = false → total (trigger e).
Proof.
  intros He σ. cbn. pose proof (answering _ e σ He). destruct (h X e σ) as [[x σ']|]; [|done]. by exists x, σ'.
Qed.

Lemma total_bind {A B} (p : io A) (f : A → io B) : total p → (∀ a, total (f a)) → total (p ≫= f).
Proof. intros Hp Hf σ. rewrite interp_bind. destruct (Hp σ) as (a & σ1 & ->). apply Hf. Qed.

Lemma total_bindR {A B} (p : io (result A)) (f : A → io (result B)) :
  total p → (∀ a, total (f a)) → total (bindR p f).
Proof. intros Hp Hf. apply total_bind; [done|]. intros [a|e]; [apply Hf|apply total_ret]. Qed.

Lemma total_wrap {A} s (p : io (result A)) : total p → total (wrap s p).
Proof. intros Hp. apply total_bind; [done|]. intros r. apply total_ret. Qed.

Lemma total_fmap {A B} (f : A → B) (p : io A) : total p → total (f <$> p).
Proof. intros Hp. apply total_bind; [done|]. intros a. apply total_ret. Qed.

Lemma total_forR {A} (f : A → io (result unit)) l : (∀ x, total (f x)) → total (forR f l).
Proof. intros Hf. induction l; [apply total_okR|]. by apply total_bindR. Qed.

(** What a Harbor client must promise in return. *)
Class TotalClient (hc : HarborClient) : Prop := {
  EnsureProject_total p : total (EnsureProject hc p);
  ReconcileProjectMembers_total p ms : total (ReconcileProjectMembers hc p ms);
  EnsureRobot_total p n : total (EnsureRobot hc p n);
  RefreshRobotSecret_total p n : total (RefreshRobotSecret hc p n);
}.
End total.

#[export] Hint Resolve EnsureProject_total ReconcileProjectMembers_total EnsureRobot_total
  RefreshRobotSecret_total : totals.

(** Follow the program: its binds, its calls, its case distinctions. *)
Ltac totally :=
  repeat first
    [ apply total_ret | apply total_okR | apply total_errR
    | apply total_trigger; [done|reflexivity]
    | solve [auto with totals]
    | apply total_bindR | apply total_wrap | apply total_fmap | apply total_forR | apply total_bind
    | match goal with |- ∀ _, _ => intros ? end
    | progress cbn beta iota
    | match goal with |- total _ (match ?x with _ => _ end) => destruct x end ].

Section harbor.
Context {W : Type} (h : handler sysE W) {HA : Answering h} {NL : NetLib}.
Implicit Types (c : httpClient).

Lemma deferClose_total {A} resp (p : io A) : total h p → total h (deferClose resp p).
Proof. unfold deferClose. intros Hp. totally. Qed.
Lemma do_total c method path body : total h (do_ c method path body).
Proof. unfold do_. totally. Qed.
Lemma range_map_total {V} (m : gmap string V) : total h (range_map m).
Proof. unfold range_map. totally. Qed.
#[local] Hint Resolve do_total range_map_total : totals.
#[local] Hint Extern 2 (total _ (deferClose _ _)) => apply deferClose_total; totally : totals.

Lemma addProjectMember_total c path user role : total h (addProjectMember c path user role).
Proof. unfold addProjectMember, doJSON. totally. Qed.
Lemma updateProjectMember_total c path id role : total h (updateProjectMember c path id role).
Proof. unfold updateProjectMember, doJSON. totally. Qed.
Lemma deleteProjectMember_total c path id : total h (deleteProjectMember c path id).
Proof. unfold deleteProjectMember. totally. Qed.
#[local] Hint Resolve addProjectMember_total updateProjectMember_total deleteProjectMember_total : totals.

Lemma syncDesired_total c path desired existing missing :
  total h (syncDesired c path desired existing missing).
Proof. revert existing missing. induction desired as [|d desired IH]; intros; simpl; totally. Qed.
#[local] Hint Resolve syncDesired_total : totals.

Lemma removeStale_total c path stale : total h (removeStale c path stale).
Proof. unfold removeStale. totally. Qed.
#[local] Hint Resolve removeStale_total : totals.

Lemma getProjectID_total c project : total h (getProjectID c project).
Proof. unfold getProjectID. totally. Qed.
#[local] Hint Resolve getProjectID_total : totals.
Lemma findRobot_total c project robot : total h (findRobot c project robot).
Proof. unfold findRobot. totally. Qed.
Lemma createRobot_total c project robot : total h (createRobot c project robot).
Proof. unfold createRobot, doJSON. totally. Qed.
Lemma deleteRobot_total c id : total h (deleteRobot c id).
Proof. unfold deleteRobot. totally. Qed.
#[local] Hint Resolve findRobot_total createRobot_total deleteRobot_total : totals.

(** The HTTP client is one of those. *)
#[export] Instance NewClient_total url user password : TotalClient h (NewClient url user password).
Proof.
  split; simpl; intros.
  - unfold httpEnsureProject, projectExists, doJSON. totally.
  - unfold httpReconcileProjectMembers. totally.
  - unfold httpEnsureRobot. totally.
  - unfold httpRefreshRobotSecret. totally.
Qed.
End harbor.

#[export] Hint Resolve NewClient_total : totals.

Section syncs.
Context {W : Type} (h : handler sysE W) {HA : Answering h} {CL : CtrlLib} {NL : NetLib}.
Implicit Types (w : Workspace).

Lemma deleteIfPresent_total k key message : total h (deleteIfPresent k key message).
Proof. unfold deleteIfPresent, Delete. totally. Qed.
Lemma ReconcileNamespace_total w version : total h (ReconcileNamespace w version).
Proof. unfold ReconcileNamespace, operatorConfigData, Get, CreateOrUpdate. totally. Qed.
Lemma OperatorHarborCredentials_total : total h OperatorHarborCredentials.
Proof. unfold OperatorHarborCredentials, Get. totally. Qed.
#[local] Hint Resolve deleteIfPresent_total ReconcileNamespace_total OperatorHarborCredentials_total : totals.

Lemma ReconcileHarbor_total w version hc url : TotalClient h hc → total h (ReconcileHarbor w version hc url).
Proof.
  intros Hc. unfold ReconcileHarbor, robotCredentials, imagePullSecretMissing, reconcileImagePullSecret,
    ensureImagePullSecret, Get, CreateOrUpdate. totally.
Qed.
Lemma ReconcileHelmRepository_total w version url : total h (ReconcileHelmRepository w version url).
Proof. unfold ReconcileHelmRepository, reconcileHelmSource, CreateOrUpdate. totally. Qed.
Lemma ReconcileRoleBindings_total w version : total h (ReconcileRoleBindings w version).
Proof. unfold ReconcileRoleBindings, reconcileRoleBinding, CreateOrUpdate. totally. Qed.
Lemma ReconcileServiceAccount_total w version : total h (ReconcileServiceAccount w version).
Proof. unfold ReconcileServiceAccount, CreateOrUpdate. totally. Qed.
Lemma ReconcileResourceQuota_total w version : total h (ReconcileResourceQuota w version).
Proof. unfold ReconcileResourceQuota, CreateOrUpdate. totally. Qed.
Lemma ReconcileLimitRange_total w version : total h (ReconcileLimitRange w version).
Proof. unfold ReconcileLimitRange, CreateOrUpdate. totally. Qed.
Lemma ReconcileNetworkIsolation_total w version : total h (ReconcileNetworkIsolation w version).
Proof. unfold ReconcileNetworkIsolation, CreateOrUpdate. totally. Qed.
#[local] Hint Resolve ReconcileHarbor_total ReconcileHelmRepository_total ReconcileRoleBindings_total
  ReconcileServiceAccount_total ReconcileResourceQuota_total ReconcileLimitRange_total
  ReconcileNetworkIsolation_total : totals.

(** The client constructor the tests substitute makes such clients too. *)
Definition total_reconciler (r : WorkspaceReconciler) : Prop :=
  ∀ f, NewHarborClient r = Some f → ∀ url name secret, TotalClient h (f url name secret).

Lemma harborClient_total r creds : total_reconciler r → TotalClient h (harborClient r creds).
Proof.
  intros Hr. unfold harborClient. destruct (NewHarborClient r) as [f|] eqn:Hf; simpl; [by apply Hr|apply _].
Qed.

Lemma reconcileResources_total r w : total_reconciler r → total h (reconcileResources r w).
Proof.
  intros Hr. pose proof (fun creds => harborClient_total r creds Hr). unfold reconcileResources. totally.
Qed.

Lemma setReadyConditionFalse_total w reason message : total h (setReadyConditionFalse w reason message).
Proof. unfold setReadyConditionFalse, setStatusCondition. totally. Qed.
#[local] Hint Resolve setReadyConditionFalse_total : totals.

Lemma handleReconcileError_total w e : total h (handleReconcileError w e).
Proof. unfold handleReconcileError, eventf. totally. Qed.
Lemma updateStatus_total w missing : total h (updateStatus w missing).
Proof. unfold updateStatus, observedRef, setStatusCondition, Get. totally. Qed.
#[local] Hint Resolve handleReconcileError_total updateStatus_total : totals.

Lemma Reconcile_total r key : total_reconciler r → total h (Reconcile r key).
Proof.
  intros Hr. pose proof (fun w => reconcileResources_total r w Hr).
  unfold Reconcile, Get, Update. totally.
Qed.
End syncs.
