(* ===== verification/Convergence.v ===== *)
(** Convergence of a reconcile: when nothing outside refuses, a reconcile ends
    in success.

    [Cooperative] is a cluster whose only refusals are those of the calls'
    own meaning (no such object, a mutate function that returns an error), and
    [CooperativeClient] a Harbor client that does its work.  [sure p pre] says
    that from a state satisfying [pre] the program [p] does not end in an
    error; it composes along the footprints of the stages. *)
From S2P Require Import Prelude Errors Prog GoStd Api Effects Cluster Sync Stage Fakes Labels Config.
From S2P Require Import Namespace Rbac Resources Helm Harbor HarborSync Controller Status Reconcile Total.

Class Cooperative (W : Type) `{Cluster W} : Prop := {
  coop_get k key σ e σ' : serve _ (ClientGet k key) σ = Some (Err e, σ') → IsNotFound e = true;
  coop_write k key f σ e σ' :
    serve _ (CreateOrUpdateE k key f) σ = Some (Err e, σ') →
    f (default (literal k key) (view σ k key)) = Err e;
  coop_delete k key σ e σ' : serve _ (ClientDelete k key) σ = Some (Err e, σ') → IsNotFound e = true;
  coop_patch base w σ e σ' : serve _ (ClientStatusPatch base w) σ ≠ Some (Err e, σ');
}.

Section sure.
Context {W : Type} {CW : Cluster W}.
Implicit Types (σ : W) (pre : W → Prop).

Definition sure {A} (p : io (result A)) pre : Prop :=
  ∀ σ r σ', pre σ → exec p σ = Some (r, σ') → is_Ok r = true.

Lemma sure_okR {A} (a : A) pre : sure (okR a) pre.
Proof. intros σ r σ' _ [-> _]%exec_ret. done. Qed.

Lemma sure_wrap {A} s (p : io (result A)) pre : sure p pre → sure (wrap s p) pre.
Proof. intros Hp σ r σ' Hpre (r1 & Hx & ->)%exec_wrap. apply Hp in Hx; [|done]. by destruct r1. Qed.

(** In sequence; what the first step returned may matter to the second. *)
Lemma sure_bind_post {A B} (p : io (result A)) (q : A → io (result B)) P (Q : A → W → Prop) :
  sure p P → (∀ σ a σ', P σ → exec p σ = Some (Ok a, σ') → Q a σ') → (∀ a, sure (q a) (Q a)) →
  sure (bindR p q) P.
Proof.
  intros Hp HQ Hq σ r σ' Hpre [(e & Hx & ->)|(a & σ1 & H1 & H2)]%exec_bindR.
  - by apply Hp in Hx.
  - eapply Hq; [|done]. by eapply HQ.
Qed.

Lemma sure_bindR {A B} (p : io (result A)) (q : A → io (result B)) P Q :
  sure p P → (∀ σ a σ', P σ → exec p σ = Some (Ok a, σ') → Q σ') → (∀ a, sure (q a) Q) →
  sure (bindR p q) P.
Proof. apply (sure_bind_post _ _ _ (fun _ => Q)). Qed.

Lemma sure_weaken {A} (p : io (result A)) P Q : (∀ σ, Q σ → P σ) → sure p P → sure p Q.
Proof. intros HPQ Hp σ r σ' HQ. apply Hp. by apply HPQ. Qed.

Lemma sure_any {A} (p : io (result A)) pre : sure p (fun _ => True) → sure p pre.
Proof. by apply sure_weaken. Qed.

(** Steps that hold from every state. *)
Lemma sure_then {A B} (p : io (result A)) (q : A → io (result B)) pre :
  sure p pre → (∀ a, sure (q a) (fun _ => True)) → sure (bindR p q) pre.
Proof. intros Hp Hq. by apply (sure_bindR _ _ _ (fun _ => True)). Qed.

(** A Harbor client that does its work for a project, its robot included: once
    it says that the robot is there, it can also reset its secret, whatever is
    read in between. *)
Class CooperativeClient (hc : HarborClient) (project : string) : Prop := {
  EnsureProject_sure : sure (EnsureProject hc project) (fun _ => True);
  ReconcileProjectMembers_sure ms : sure (ReconcileProjectMembers hc project ms) (fun _ => True);
  EnsureRobot_sure : sure (EnsureRobot hc project project) (fun _ => True);
  RefreshRobotSecret_sure : ∃ known : W → Prop,
    (∀ σ σ', exec (EnsureRobot hc project project) σ = Some (Ok None, σ') → known σ') ∧
    (∀ k key σ r σ', serve _ (ClientGet k key) σ = Some (r, σ') → known σ → known σ') ∧
    sure (RefreshRobotSecret hc project project) known;
}.
End sure.

(** ** The calls of a sync *)

Section calls.
Context {CL : CtrlLib} {HCL : CtrlLaws} {NL : NetLib}.
Context {W : Type} {CW : Cluster W} {LW : ClusterLaws W} {CO : Cooperative W}.
Implicit Types (w : Workspace) (σ : W).

Lemma sure_get k key pre : (∀ σ, pre σ → is_Some (view σ k key)) → sure (Get k key) pre.
Proof.
  intros Hsome σ r σ' Hpre Hx. destruct (exec_get k _ _ _ _ Hx) as [Hr _].
  apply exec_trigger in Hx. destruct r as [|e]; [done|]. apply coop_get in Hx.
  destruct Hr as [_ Hr]. destruct (Hsome σ Hpre) as [o Ho]. by rewrite Hr in Ho.
Qed.

Lemma sure_deleteIfPresent k key message pre : sure (deleteIfPresent k key message) pre.
Proof.
  apply sure_wrap. intros σ r σ' _ (r1 & Hx%exec_trigger & ->)%exec_fmap.
  destruct r1 as [|e]; [done|]. apply coop_delete in Hx. simpl. by rewrite Hx.
Qed.

(** No other controller stands in the way of owning the object. *)
Definition ownable w {k} key (before : option (obj k)) : Prop :=
  ∃ refs, SetControllerReference (W_Name w) (W_UID w) (Meta_OwnerReferences (metadata (default (literal k key) before))) = Ok refs.

Lemma ownable_absent w k key : ownable w (k := k) key None.
Proof. apply SetControllerReference_nil. Qed.

(** Every object of a list is. *)
Definition ownables w (foot : footprint) σ : Prop :=
  ∀ k key, (k, key) ∈ foot → ownable w key (view σ k key).

Lemma ownables_frame w f foot σ σ' :
  frame f σ σ' → disjoint_footprints f foot → ownables w foot σ → ownables w foot σ'.
Proof. intros Hf Hd Ho k key Hk. rewrite Hf; [by apply Ho|]. intros Hin. by apply (Hd _ Hin). Qed.

Lemma ownables_app w f1 f2 σ : ownables w (f1 ++ f2) σ ↔ ownables w f1 σ ∧ ownables w f2 σ.
Proof. unfold ownables. setoid_rewrite elem_of_app. naive_solver. Qed.

(** CreateOrUpdate with a mutate function that owns the object: owning is the
    only thing that could be refused. *)
Lemma sure_write w k key (g : obj k → obj k) message :
  (∀ o, Meta_OwnerReferences (metadata (g o)) = Meta_OwnerReferences (metadata o)) →
  sure (wrap message (CreateOrUpdate k key (fun o => own w (g o)))) (ownables w [(k, key)]).
Proof.
  intros Hg. apply sure_wrap. intros σ r σ' Hown Hx%exec_trigger. destruct r as [|e]; [done|].
  apply coop_write in Hx. destruct (Hown k key) as [refs Hr]; [by apply list_elem_of_singleton|].
  unfold own in Hx. by rewrite Hg, Hr in Hx.
Qed.

Lemma sure_sync w k key (g : obj k → obj k) message :
  (∀ o, Meta_OwnerReferences (metadata (g o)) = Meta_OwnerReferences (metadata o)) →
  sure (wrap message (CreateOrUpdate k key (fun o => own w (g o))) ;;? okR tt) (ownables w [(k, key)]).
Proof.
  intros Hg. apply sure_then; [by apply sure_write|]. intros op. apply sure_okR.
Qed.

(** Steps in sequence: what the first one writes is not what the second one owns. *)
Lemma sure_seq {A B} w (p : io (result A)) (q : A → io (result B)) o1 o2 f1 post :
  sure p (ownables w o1) → stage p f1 post → (∀ a, sure (q a) (ownables w o2)) →
  disjoint_footprints f1 o2 → sure (bindR p q) (ownables w (o1 ++ o2)).
Proof.
  intros Hp [_ Hf _] Hq Hd. apply (sure_bindR _ _ _ (ownables w o2)); [|by intros σ a σ' [_ Ho]%ownables_app Hx;
    eapply ownables_frame; [by eapply Hf| |]|done].
  eapply sure_weaken; [|done]. by intros σ [? _]%ownables_app.
Qed.

Lemma sure_forR {X} w (f : X → io (result unit)) (loc : X → Kind * ObjectKey) l :
  (∀ x, sure (f x) (ownables w [loc x])) →
  (∀ x σ r σ', exec (f x) σ = Some (r, σ') → ∀ k key, (k, key) ≠ loc x → view σ' k key = view σ k key) →
  NoDup (loc <$> l) → sure (forR f l) (ownables w (loc <$> l)).
Proof.
  intros Hs Hf. induction l as [|x l IH]; simpl; [intros _; apply sure_okR|].
  intros [Hni Hnd]%list.NoDup_cons.
  apply (sure_bindR _ _ _ (ownables w (loc <$> l))).
  - eapply sure_weaken; [|apply Hs]. intros σ Ho k key Hk%list_elem_of_singleton.
    apply Ho. rewrite Hk. apply list_elem_of_here.
  - intros σ u σ' Ho Hx k key Hk. rewrite (Hf _ _ _ _ Hx); [apply Ho; by apply list_elem_of_further|].
    intros Heq. apply Hni. by rewrite <-Heq.
  - intros _. by apply IH.
Qed.
End calls.

(** ** The steps of a reconcile *)

Section steps.
Context {CL : CtrlLib} {HCL : CtrlLaws} {NL : NetLib}.
Context {W : Type} {CW : Cluster W} {LW : ClusterLaws W} {CO : Cooperative W}.
Implicit Types (r : WorkspaceReconciler) (w : Workspace) (σ : W).

Definition namespace_free w σ : Prop :=
  ownable w (namespaceKey w) (view σ KNamespace (namespaceKey w)) ∧
  ∀ ns, view σ KNamespace (namespaceKey w) = Some ns → ¬ foreign w ns.

Lemma sure_operatorConfigData pre : sure operatorConfigData pre.
Proof.
  intros σ r σ' _ (a & σ1 & Hx%exec_trigger & Hr)%exec_bind. destruct a as [cm|e]; [by exec_inv|].
  apply (coop_get KConfigMap) in Hx. rewrite Hx in Hr. by exec_inv.
Qed.

Lemma sure_ReconcileNamespace w version : sure (ReconcileNamespace w version) (namespace_free w).
Proof.
  apply (sure_bindR _ _ _ (namespace_free w)); [apply sure_operatorConfigData| |].
  { intros σ a σ' Hfree [_ Hv]%exec_operatorConfigData. unfold namespace_free. by rewrite Hv. }
  intros data. apply sure_then; [|intros; apply sure_okR].
  apply sure_wrap. intros σ r σ' [[refs Hrefs] Hnf] Hx%exec_trigger. destruct r as [|e]; [done|].
  apply (coop_write KNamespace) in Hx. pose proof (namespaceMutate_correct w version (gomap_get data RancherProjectIDKey)
    (default (literal KNamespace (namespaceKey w)) (view σ KNamespace (namespaceKey w)))) as Hm.
  rewrite Hx in Hm. destruct Hm as [[Hf _]|[_ Hs]]; [|by rewrite Hrefs in Hs].
  apply foreign_before in Hf as (ns & Hns & Hf). by destruct (Hnf _ Hns).
Qed.

(** The reconciler's Harbor client does its work for the workspace's project. *)
Definition cooperative_reconciler r creds w : Prop :=
  CooperativeClient (W := W) (harborClient r creds) (W_Namespace w).

(** The operator's Secret is complete. *)
Definition configured_harbor (creds : HarborCredentials) σ : Prop :=
  ∃ s, view σ KSecret operatorSecretKey = Some s ∧ creds = credentialsOf s ∧ missingKeys creds = [].

Lemma sure_credentials creds : sure OperatorHarborCredentials (configured_harbor creds).
Proof.
  intros σ r σ' (s & Hs & -> & Hm) [(e & Hx & _)|(s' & σ1 & Hx & Hr)]%exec_bindR.
  - eapply (sure_wrap _ _ (fun σ => is_Some (view σ KSecret operatorSecretKey)) (sure_get _ _ _ (fun _ H => H)))
      in Hx; [done|by eexists].
  - apply exec_wrap in Hx as (r1 & [Hg _]%(exec_get KSecret) & Hw). symmetry in Hw. apply wrapR_Ok in Hw as ->.
    rewrite Hs in Hg. injection Hg as <-. cbv zeta in Hr. rewrite Hm in Hr. simpl in Hr. by exec_inv.
Qed.

Lemma sure_imagePullSecretMissing ns pre : sure (imagePullSecretMissing ns) pre.
Proof.
  intros σ r σ' _ (a & σ1 & Hx%exec_trigger & Hr)%exec_bind. destruct a as [s|e]; [by exec_inv|].
  apply (coop_get KSecret) in Hx. rewrite Hx in Hr. by exec_inv.
Qed.

Lemma sure_robotCredentials w hc `{!CooperativeClient (W := W) hc (W_Namespace w)} :
  sure (robotCredentials w hc) (fun _ : W => True).
Proof.
  destruct (RefreshRobotSecret_sure (W := W) (hc := hc) (project := W_Namespace w)) as (known & Hknown & Hget & Hrefresh).
  apply (sure_bind_post _ _ _ (fun creds σ => creds = None → known σ)); [apply sure_wrap, EnsureRobot_sure| |].
  - intros σ creds σ' _ (r1 & Hx & Hw)%exec_wrap ->. symmetry in Hw. apply wrapR_Ok in Hw as ->. by eapply Hknown.
  - intros [creds|]; [apply sure_okR|]. apply (sure_bindR _ _ _ known); [apply sure_imagePullSecretMissing| |].
    + intros σ a σ' Hk (x & σ1 & Hx%exec_trigger & Hr)%exec_bind.
      assert (σ' = σ1) as -> by (destruct x as [|e]; [|destruct (IsNotFound e)]; by exec_inv).
      eapply (Hget KSecret); [done|by apply Hk].
    + intros []; [|apply sure_okR]. apply (sure_bindR _ _ _ (fun _ => True)); [by apply sure_wrap|done|].
      intros creds. apply sure_okR.
Qed.

Lemma sure_pull_secret w version hc url `{!QuietClient hc, !CooperativeClient (W := W) hc (W_Namespace w)} :
  sure (ReconcileHarbor w version hc url) (ownables w [(KSecret, imagePullSecretKey (W_Namespace w))]).
Proof.
  assert (∀ A (p : io (result A)), emits quiet p → ∀ σ a σ',
    ownables w [(KSecret, imagePullSecretKey (W_Namespace w))] σ → exec p σ = Some (Ok a, σ') →
    ownables w [(KSecret, imagePullSecretKey (W_Namespace w))] σ') as Hkeep.
  { intros A p Hq σ a σ' Ho Hx k key Hk. rewrite (exec_quiet _ _ _ _ Hq Hx). by apply Ho. }
  unfold ReconcileHarbor.
  eapply sure_bindR; [apply sure_wrap, sure_any, EnsureProject_sure|
    apply Hkeep, emits_wrap, EnsureProject_quiet|intros _].
  eapply sure_bindR; [apply sure_wrap, sure_any, ReconcileProjectMembers_sure|
    apply Hkeep, emits_wrap, ReconcileProjectMembers_quiet|intros ms].
  eapply (sure_bindR _ _ _ (ownables w [(KSecret, imagePullSecretKey (W_Namespace w))])).
  - by apply sure_any, sure_robotCredentials.
  - intros σ a σ' Ho Hx k key Hk. apply exec_robotCredentials in Hx as [_ Hv]; [|done].
    rewrite Hv. by apply Ho.
  - intros creds. apply sure_then; [|intros _].
    + destruct creds as [creds|]; [|apply sure_okR]. by apply sure_sync.
    + apply sure_then; [|intros _; apply sure_okR]. apply sure_then; [|intros _; apply sure_okR].
      apply sure_wrap. intros σ r σ' _ Hx%exec_trigger. destruct r as [|e]; [done|].
      apply (coop_write KServiceAccount) in Hx. unfold ensureImagePullSecretMutate in Hx. by destruct (existsb _ _).
Qed.

Lemma sure_helm w version url : is_Ok (url_Parse url) = true →
  sure (ReconcileHelmRepository w version url) (ownables w (helm_footprint w)).
Proof.
  intros Hurl. apply (sure_forR w _ (fun s => (KHelmRepository, helmKey w (Source_name s)))).
  - intros source. unfold reconcileHelmSource, buildHelmRepositoryURL.
    destruct (url_Parse url) as [[scheme host]|]; [|done]. by apply sure_sync.
  - intros source σ r σ' [_ Hf]%exec_reconcileHelmSource. exact Hf.
  - simpl. apply list.NoDup_cons. split; [|apply NoDup_singleton].
    intros Hin%list_elem_of_singleton%(f_equal (Key_Name ∘ snd)). discriminate Hin.
Qed.

Lemma sure_bindings w version :
  sure (ReconcileRoleBindings w version) (ownables w (bindings_footprint w)).
Proof.
  apply (sure_forR w _ (fun role => (KRoleBinding, roleBindingKey w role))).
  - intros role. unfold reconcileRoleBinding. case_bool_decide; [apply sure_deleteIfPresent|by apply sure_sync].
  - intros role σ r σ' [_ Hf]%exec_reconcileRoleBinding. exact Hf.
  - apply NoDup_fmap_2; [|by apply (bool_decide_unpack _); vm_compute].
    intros r1 r2 Hk%(f_equal snd). by apply roleBindingKey_inj in Hk.
Qed.

Lemma sure_deployer w version :
  sure (ReconcileServiceAccount w version) (ownables w (deployer_footprint w)).
Proof.
  change (deployer_footprint w) with
    ([(KServiceAccount, serviceAccountKey w)] ++ [(KRoleBinding, serviceAccountKey w)]).
  eapply sure_seq; [|apply serviceAccount_stage|intros op; by apply sure_sync|].
  - by apply (sure_write w KServiceAccount (serviceAccountKey w)
      (with_meta (set_Labels (Some (LabelsForWorkspace (W_Name w) version))))).
  - intros x ->%list_elem_of_singleton [=]%list_elem_of_singleton.
Qed.

Lemma sure_apply_or_delete w version k key (spec : option (payload_of k)) message1 message2 :
  sure (match spec with
        | None => deleteIfPresent k key message1
        | Some p => wrap message2 (CreateOrUpdate k key (fun o : obj k =>
            own w (with_payload p (with_meta (set_Labels (Some
              (LabelsForWorkspace (W_Name w) version))) o)))) ;;? okR tt
        end) (ownables w [(k, key)]).
Proof. destruct spec; [by apply sure_sync|apply sure_deleteIfPresent]. Qed.

Lemma sure_policy w version :
  sure (ReconcileNetworkIsolation w version) (ownables w [(KNetworkPolicy, policyKey w)]).
Proof.
  unfold ReconcileNetworkIsolation. destruct (Isolation_Enabled _);
    [by apply sure_sync|apply sure_deleteIfPresent].
Qed.

(** What a workspace owns inside its namespace. *)
Definition owned_footprint w : footprint :=
  [(KSecret, imagePullSecretKey (W_Namespace w))] ++ helm_footprint w ++ bindings_footprint w ++
  deployer_footprint w ++ [(KResourceQuota, quotaKey w)] ++ [(KLimitRange, limitsKey w)] ++
  [(KNetworkPolicy, policyKey w)] ++ [].

Lemma sure_inner_sync r w creds :
  quiet_reconciler r → cooperative_reconciler r creds w → is_Ok (url_Parse (Harbor_URL creds)) = true →
  sure (inner_sync r w creds) (ownables w (owned_footprint w)).
Proof.
  intros Hq Hc Hurl. pose proof (harborClient_quiet r creds Hq). unfold cooperative_reconciler in Hc.
  unfold inner_sync, owned_footprint.
  eapply sure_seq; [by apply sure_pull_secret|by apply ReconcileHarbor_stage|intros missing|disjoint_footprints].
  eapply sure_seq; [by apply sure_helm|apply ReconcileHelmRepository_stage|intros _|disjoint_footprints].
  eapply sure_seq; [apply sure_bindings|apply ReconcileRoleBindings_stage|intros _|disjoint_footprints].
  eapply sure_seq; [apply sure_deployer|apply ReconcileServiceAccount_stage|intros _|disjoint_footprints].
  eapply sure_seq; [apply sure_apply_or_delete|apply ReconcileResourceQuota_stage|intros _|disjoint_footprints].
  eapply sure_seq; [apply sure_apply_or_delete|apply ReconcileLimitRange_stage|intros _|disjoint_footprints].
  eapply sure_seq; [apply sure_policy|apply ReconcileNetworkIsolation_stage|intros _|disjoint_footprints].
  apply sure_okR.
Qed.

(** Nothing in the cluster stands in the way of reconciling [w]. *)
Record unobstructed w creds σ : Prop := {
  unobstructed_namespace : namespace_free w σ;
  unobstructed_harbor : configured_harbor creds σ;
  unobstructed_objects : ownables w (owned_footprint w) σ;
}.

Lemma unobstructed_ext w creds σ σ' :
  (∀ k key, view σ' k key = view σ k key) → unobstructed w creds σ → unobstructed w creds σ'.
Proof.
  intros Hv [Hns (s & Hs & Hc) Ho]. split.
  - unfold namespace_free. by rewrite Hv.
  - exists s. by rewrite Hv.
  - intros k key Hk. rewrite Hv. by apply Ho.
Qed.

Lemma sure_reconcileResources r w creds :
  quiet_reconciler r → cooperative_reconciler r creds w → is_Ok (url_Parse (Harbor_URL creds)) = true →
  sure (reconcileResources r w) (unobstructed w creds).
Proof.
  intros Hq Hc Hurl. rewrite reconcileResources_inner.
  pose proof (stage_frame _ _ _ (ReconcileNamespace_stage w (Version r))) as Hns.
  apply (sure_bindR _ _ _ (fun σ => configured_harbor creds σ ∧ ownables w (owned_footprint w) σ)).
  - eapply sure_weaken, sure_ReconcileNamespace. by intros σ [].
  - intros σ a σ' [_ (s & Hs & ?) Ho] Hx%Hns. split.
    + exists s. rewrite Hx; [done|]. by intros [=]%list_elem_of_singleton.
    + eapply ownables_frame; [done| |done]. unfold owned_footprint. disjoint_footprints.
  - intros _ σ res σ' [Hcreds Ho] [(e & Hx%(sure_credentials creds) & ->)|(c & σ1 & Hx & Hr)]%exec_bindR; [done..|].
    apply exec_OperatorHarborCredentials in Hx as [(s & Hs & ->) Hv].
    destruct Hcreds as (s' & Hs' & -> & _). rewrite Hs in Hs'. injection Hs' as ->.
    eapply (sure_inner_sync r w (credentialsOf s')); [done..| |done].
    intros k key Hk. rewrite Hv. by apply Ho.
Qed.

Lemma sure_updateStatus w missing pre : sure (updateStatus w missing) pre.
Proof.
  assert (∀ k name ns, sure (observedRef k name ns) (fun _ => True)) as Hobs.
  { intros k name ns σ r σ' _ (a & σ1 & Hx%exec_trigger & Hr)%exec_bind.
    destruct a as [o|e]; [by exec_inv|]. apply (coop_get k) in Hx. rewrite Hx in Hr. by exec_inv. }
  unfold updateStatus. apply sure_then; [apply sure_any, Hobs|intros s]. apply sure_then; [apply Hobs|intros h].
  intros σ r σ' _ (cs & σ1 & _ & Hx)%exec_bind. case_bool_decide; [by exec_inv|].
  apply exec_bindR in Hx as [(e & (r1 & Hp%exec_trigger & Hw)%exec_wrap & ->)|([] & σ2 & _ & Hx)].
  - symmetry in Hw. apply wrapR_Err in Hw as (e' & -> & _). by apply coop_patch in Hp.
  - by exec_inv.
Qed.

Lemma Reconcile_outcome r key w creds σ res err σ' :
  quiet_reconciler r → cooperative_reconciler r creds w → view σ KWorkspace key = Some w → ¬ needs_backfill w →
  unobstructed w creds σ → is_Ok (url_Parse (Harbor_URL creds)) = true →
  exec (Reconcile r key) σ = Some ((res, err), σ') →
  ∃ missing, (res, err) = (reconciled_result missing, None) ∧ tenant_ready r w (Harbor_URL creds) σ'.
Proof.
  intros Hq Hc Hw Hb Hun Hurl (got & σ0 & Hg & Hx)%exec_bind.
  assert (got = Ok w ∧ ∀ k key, view σ0 k key = view σ k key) as [-> Hv].
  { destruct (exec_get KWorkspace _ _ _ _ Hg) as [Hr Hv]. split; [|done]. apply exec_trigger in Hg.
    destruct got as [w'|e]; [rewrite Hw in Hr; by injection Hr as <-|].
    apply (coop_get KWorkspace) in Hg. destruct Hr as [_ Hr]. by rewrite (Hr Hg) in Hw. }
  rewrite bool_decide_eq_false_2 in Hx by done.
  apply exec_bind in Hx as (synced & σ1 & Hs & Hx).
  assert (unobstructed w creds σ0) as Hun0 by by eapply unobstructed_ext.
  pose proof (sure_reconcileResources r w creds Hq Hc Hurl _ _ _ Hun0 Hs) as Hok.
  destruct (exec_reconcileResources r w _ _ _ Hq Hs) as (Hready & _ & _).
  destruct synced as [missing|e]; [|done]. apply exec_bind in Hx as (st & σ2 & Hst & Hx).
  pose proof (sure_updateStatus w missing (fun _ => True) _ _ _ I Hst).
  apply exec_status_only with (w := w) in Hst as [Hst _]; [|apply updateStatus_status].
  destruct st as [[]|e]; [|done]. exists missing. split.
  - unfold reconciled_result. case_bool_decide; by exec_inv.
  - assert (σ' = σ2) as -> by (case_bool_decide; by exec_inv).
    destruct (Hready eq_refl) as (s & Hsec & Hr). destruct Hun0 as [_ (s' & Hs' & -> & _) _].
    rewrite Hsec in Hs'. injection Hs' as <-. eapply tenant_ready_local; [|done].
    intros k key' Hk. apply Hst. by intros [= -> _]%list_elem_of_singleton.
Qed.
End steps.

(** ** Properties *)

Section properties.
Context {CL : CtrlLib} {HCL : CtrlLaws} {NL : NetLib}.
Context {W : Type} {CW : Cluster W} {LW : ClusterLaws W} {CO : Cooperative W} {HA : Answering (serve (W := W))}.
Implicit Types (r : WorkspaceReconciler) (w : Workspace) (σ : W).

(** C2. Every tenant is eventually served.  When nothing outside refuses (the API
    answers and refuses only what the calls themselves make impossible, the
    Harbor client does its work), and nothing in the cluster stands in the way
    (the namespace is free or the workspace's own, no object it needs belongs
    to another controller, the operator's Secret is complete and its URL
    parses), one reconcile of a labelled workspace ends, without an error, and
    leaves the workspace ready: it comes back only for members Harbor does not
    know yet. *)
Theorem Reconcile_converges r key w creds σ :
  quiet_reconciler r → total_reconciler serve r → cooperative_reconciler r creds w →
  view σ KWorkspace key = Some w → ¬ needs_backfill w →
  unobstructed w creds σ → is_Ok (url_Parse (Harbor_URL creds)) = true →
  ∃ missing σ', exec (Reconcile r key) σ = Some ((reconciled_result missing, None), σ') ∧
    tenant_ready r w (Harbor_URL creds) σ'.
Proof.
  intros Hq Ht Hc Hw Hb Hun Hurl.
  destruct (Reconcile_total serve r key Ht σ) as ([res err] & σ' & Hx).
  assert (∃ missing, (res, err) = (reconciled_result missing, None) ∧ tenant_ready r w (Harbor_URL creds) σ')
    as (missing & [= -> ->] & Hready); [|by exists missing, σ'].
  change (exec (Reconcile r key) σ = Some ((res, err), σ')) in Hx.
  by eapply Reconcile_outcome.
Qed.
End properties.
