(* ===== verification/Serving.v ===== *)
(** The HTTP client of internal/harbor/client.go does its work.

    [ServingHarbor] is a Harbor that is up: every request gets an answer, one of
    those its API documents for success, the bodies parse, and the page of
    robots it lists shows the project's own.  Against one
    that also obeys [RobotLaws], the client the operator makes is a
    [CooperativeClient]: what Convergence.v and Settling.v ask of a client is
    what the operator's own client provides. *)
From S2P Require Import Prelude Errors Prog GoStd Api Effects Cluster Sync Fakes Labels Harbor.
From S2P Require Import HarborMembers HarborSync HarborPull RobotHttp Convergence.

Section server.
Context {NL : NetLib} {W : Type} {CW : Cluster W} {RH : RobotHost W}.

(** The answer to a request is satisfactory. *)
Definition replies (req : Request) (P : Response → Prop) : Prop :=
  ∀ (σ : W) r σ', serve _ (HttpDo req) σ = Some (r, σ') → ∃ resp, r = Ok resp ∧ P resp.

Definition has_status (codes : list Z) (resp : Response) : Prop := StatusCode resp ∈ codes.

Class ServingHarbor (c : httpClient) (project : string) (projectID : Z) : Prop := {
  up_request method path : NewRequest_error method (client_baseURL c +:+ path) = None;
  up_project_found : replies (plainRequest c "HEAD" ("/api/v2.0/projects?project_name=" +:+ project))
    (has_status [StatusOK; StatusNotFound]);
  up_project_created body : replies (jsonRequest c "POST" "/api/v2.0/projects" body)
    (has_status [StatusCreated; StatusConflict]);
  up_project : replies (plainRequest c "GET" (projectPath project))
    (fun resp => has_status [StatusOK] resp ∧ Decode_projectID (Body resp) = Ok projectID);
  up_members : replies (plainRequest c "GET" (membersPath project))
    (fun resp => has_status [StatusOK] resp ∧ is_Ok (Decode_existingMembers (Body resp)) = true);
  up_member_added body : replies (jsonRequest c "POST" (membersPath project) body)
    (has_status [StatusCreated; StatusConflict; StatusNotFound]);
  up_member_updated id body : replies (jsonRequest c "PUT" (membersPath project +:+ "/" +:+ pretty (id : Z)) body)
    (has_status [StatusOK]);
  up_member_removed id : replies (plainRequest c "DELETE" (membersPath project +:+ "/" +:+ pretty (id : Z)))
    (has_status [StatusOK]);
  up_robots : replies (plainRequest c "GET" (robotListPath projectID project project))
    (fun resp => has_status [StatusOK] resp ∧ is_Ok (Decode_robots (Body resp)) = true);
  up_robot_listed σ resp σ' l :
    serve _ (HttpDo (plainRequest c "GET" (robotListPath projectID project project))) σ = Some (Ok resp, σ') →
    Decode_robots (Body resp) = Ok l → is_Some (h_robot σ) →
    ∃ ref, ref ∈ l ∧ Robot_Name ref = robotFullName project project;
  up_robot_created : replies (jsonRequest c "POST" robotsPath (createRobotBody project project))
    (fun resp => has_status [StatusCreated; StatusConflict] resp ∧
       (StatusCode resp = StatusCreated → ∃ creds, Decode_createdRobot (Body resp) = Ok creds ∧ Creds_Secret creds ≠ ""));
  up_robot_removed id : replies (plainRequest c "DELETE" (robotPath id))
    (has_status [StatusOK; StatusNotFound]);
}.
End server.

Section client.
Context {NL : NetLib} {W : Type} {CW : Cluster W} {LW : ClusterLaws W} {RH : RobotHost W}.
Context (c : httpClient) (project : string) (projectID : Z) {HS : ServingHarbor (W := W) c project projectID}.
Implicit Types (σ : W).

Lemma exec_do_answered method path (body : option string) P σ r σ' :
  replies (W := W) (mkRequest method (client_baseURL c +:+ path) (client_username c, client_password c)
    (if body then Some "application/json" else None) body) P →
  exec (do_ c method path body) σ = Some (r, σ') → ∃ resp, r = Ok resp ∧ P resp.
Proof. intros HP. unfold do_. rewrite up_request. intros Hx%exec_trigger. by eapply HP. Qed.

Lemma exec_plain_answered method path P σ r σ' :
  replies (W := W) (plainRequest c method path) P →
  exec (do_ c method path None) σ = Some (r, σ') → ∃ resp, r = Ok resp ∧ P resp.
Proof. apply (exec_do_answered method path None). Qed.

Lemma exec_json_answered method path body P σ r σ' :
  replies (W := W) (jsonRequest c method path body) P →
  exec (doJSON c method path body) σ = Some (r, σ') → ∃ resp, r = Ok resp ∧ P resp.
Proof. apply (exec_do_answered method path (Some _)). Qed.

(** One exchange: a satisfactory answer is dealt with. *)
Lemma sure_exchange {A} method path (body : option string) P (f : Response → io (result A)) (pre : W → Prop) :
  (∀ σ, pre σ → replies (W := W) (mkRequest method (client_baseURL c +:+ path) (client_username c, client_password c)
    (if body then Some "application/json" else None) body) P) →
  (∀ resp, P resp → sure (f resp) (fun _ : W => True)) →
  sure (resp ←? do_ c method path body; deferClose resp (f resp)) pre.
Proof.
  intros HP Hf σ r σ' Hpre%HP [(e & Hx & ->)|(resp & σ1 & Hx & Hr)]%exec_bindR;
    destruct (exec_do_answered _ _ _ _ _ _ _ Hpre Hx) as (resp' & Heq & Hresp); [discriminate Heq|].
  injection Heq as <-. apply exec_bind in Hr as (a & σ2 & Ha & (u & σ3 & _ & [-> _]%exec_ret)%exec_bind). by eapply Hf.
Qed.

Lemma sure_wrapped_exchange {A} message method path (body : option string) P (f : Response → io (result A)) (pre : W → Prop) :
  replies (W := W) (mkRequest method (client_baseURL c +:+ path) (client_username c, client_password c)
    (if body then Some "application/json" else None) body) P →
  (∀ resp, P resp → sure (f resp) (fun _ : W => True)) →
  sure (resp ←? wrap message (do_ c method path body); deferClose resp (f resp)) pre.
Proof.
  intros HP Hf σ r σ' _ [(e & (r1 & Hx & Hw)%exec_wrap & ->)|(resp & σ1 & (r1 & Hx & Hw)%exec_wrap & Hr)]%exec_bindR;
    destruct (exec_do_answered _ _ _ _ _ _ _ HP Hx) as (resp' & -> & Hresp); [discriminate Hw|].
  injection Hw as ->. apply exec_bind in Hr as (a & σ2 & Ha & (u & σ3 & _ & [-> _]%exec_ret)%exec_bind). by eapply Hf.
Qed.

(** A program that looks at the status only, one accepted code at a time. *)
Ltac by_status :=
  let resp := fresh "resp" in let Hs := fresh "Hs" in
  intros resp Hs; unfold has_status in Hs;
  repeat (apply elem_of_cons in Hs as [->|Hs]; [apply sure_okR|]); by apply elem_of_nil in Hs.

Lemma sure_EnsureProject : sure (W := W) (httpEnsureProject c project) (fun _ => True).
Proof.
  apply (sure_bindR _ _ _ (fun _ => True)); [apply sure_wrap|done|].
  - eapply sure_exchange; [intros; apply up_project_found|by_status].
  - intros []; [apply sure_okR|]. eapply sure_wrapped_exchange; [apply up_project_created|by_status].
Qed.

(** Adding a member: done, or a user Harbor does not know. *)
Lemma answered_addProjectMember user role σ r σ' :
  exec (addProjectMember c (membersPath project) user role) σ = Some (r, σ') → r = Ok tt ∨ r = Err ErrUserNotFound.
Proof.
  intros [(e & Hx & ->)|(resp & σ1 & Hx & Hr)]%exec_bindR;
    destruct (exec_json_answered _ _ _ _ _ _ _ (up_member_added _) Hx) as (resp' & Heq & Hs); [discriminate Heq|].
  injection Heq as <-. apply exec_bind in Hr as (a & σ2 & Ha & (u & σ3 & _ & [-> _]%exec_ret)%exec_bind).
  unfold has_status in Hs.
  repeat (apply elem_of_cons in Hs as [Hs|Hs]; [rewrite Hs in Ha; apply exec_ret in Ha as [-> _]; by auto|]). by apply elem_of_nil in Hs.
Qed.

Lemma sure_syncDesired desired existing missing :
  sure (W := W) (syncDesired c (membersPath project) desired existing missing) (fun _ => True).
Proof.
  revert existing missing. induction desired as [|d desired IH]; intros existing missing; simpl; [apply sure_okR|].
  destruct (existing !! _) as [cur|].
  - apply sure_then; [|intros _; apply IH]. case_bool_decide; [apply sure_wrap|apply sure_okR].
    eapply sure_exchange; [intros; apply up_member_updated|by_status].
  - intros σ r σ' _ (a & σ1 & Ha%answered_addProjectMember & Hx)%exec_bind. destruct Ha as [-> | ->]; exact (IH _ _ _ _ _ I Hx).
Qed.

Lemma sure_members desired : sure (W := W) (httpReconcileProjectMembers c project desired) (fun _ => True).
Proof.
  eapply sure_wrapped_exchange; [apply up_members|]. intros resp [Hs Hd].
  apply list_elem_of_singleton in Hs as ->. rewrite bool_decide_eq_false_2 by (intros H; by apply H).
  destruct (Decode_existingMembers (Body resp)) as [existing|e]; [|discriminate Hd].
  apply sure_then; [apply sure_syncDesired|]. intros [rest missing] σ r σ' _ (stale & σ1 & _ & Hx)%exec_bind.
  revert Hx. apply (sure_then _ _ (fun _ => True)); [|intros _; apply sure_okR|done].
  clear -HS. induction stale as [|x stale IH]; simpl; [apply sure_okR|]. apply sure_then; [|done]. apply sure_wrap.
  eapply sure_exchange; [intros; apply up_member_removed|by_status].
Qed.

(** ** The robot *)

Context {HL : RobotLaws c project projectID}.

Lemma sure_findRobot : sure (W := W) (findRobot c project project) (fun _ => True).
Proof.
  apply (sure_bind_post _ _ _ (fun id _ => id = projectID)).
  - eapply sure_exchange; [intros; apply up_project|]. intros resp [Hs Hd]. apply list_elem_of_singleton in Hs as ->.
    rewrite bool_decide_eq_false_2 by (intros H; by apply H). rewrite Hd. apply sure_okR.
  - intros σ id σ' _ [(e & _ & [=])|(resp & σ1 & Hx & Hr)]%exec_bindR.
    destruct (exec_plain_answered _ _ _ _ _ _ up_project Hx) as (resp' & Heq & Hs & Hd). injection Heq as <-.
    apply exec_bind in Hr as (a & σ2 & Ha & (u & σ3 & _ & [<- _]%exec_ret)%exec_bind).
    apply list_elem_of_singleton in Hs as Hs. rewrite bool_decide_eq_false_2 in Ha by (intros H; by apply H).
    rewrite Hd in Ha. by exec_inv.
  - intros id. eapply (sure_exchange "GET" (robotListPath id project project) None);
      [intros σ ->; exact (up_robots (projectID := projectID))|]. intros resp [Hs Hd].
    apply list_elem_of_singleton in Hs as ->.
    rewrite bool_decide_eq_false_2 by (intros H; by apply H).
    destruct (Decode_robots (Body resp)); [apply sure_okR|discriminate Hd].
Qed.

Lemma sure_createRobot : sure (W := W) (createRobot c project project) (fun _ => True).
Proof.
  eapply sure_wrapped_exchange; [apply up_robot_created|]. intros resp [Hs Hd].
  apply elem_of_cons in Hs as [Hs|Hs%list_elem_of_singleton].
  - rewrite bool_decide_eq_true_2 by done. destruct (Hd Hs) as (creds & -> & Hne).
    rewrite bool_decide_eq_false_2 by done. apply sure_okR.
  - rewrite Hs. apply sure_okR.
Qed.

Lemma sure_EnsureRobot : sure (W := W) (httpEnsureRobot c project project) (fun _ => True).
Proof.
  apply sure_then; [apply sure_wrap, sure_findRobot|]. intros [ref|]; [apply sure_okR|apply sure_createRobot].
Qed.

(** A robot that is there is found. *)
Lemma findRobot_shows σ σ' :
  exec (findRobot c project project) σ = Some (Ok None, σ') → is_Some (h_robot σ) → False.
Proof.
  intros Hx Hh. apply exec_bindR in Hx as [(e & _ & [=])|(id & σ1 & Hp & Hx)].
  assert (h_robot σ1 = h_robot σ) as Hh1.
  { eapply (exec_robotless c project projectID), Hp. apply emits_bindR; [apply do_read_robotless; by left|].
    intros resp. apply deferClose_robotless. by repeat case_match. }
  assert (id = projectID) as ->.
  { apply (exec_exchange c project projectID) in Hp as [(e & [=] & _)|(resp & σp & Hp%exec_do_plain & Hid & _)];
      [|intros resp; repeat case_match; by eexists].
    case_bool_decide as Hst; [discriminate Hid|].
    destruct (Decode_projectID (Body resp)) as [id'|] eqn:Hd; [|discriminate Hid].
    injection Hid as <-. by eapply hr_project. }
  apply (exec_exchange c project projectID) in Hx as [(e & [=] & _)|(resp2 & σ2 & Hl%exec_do_plain & Hr & _)];
    [|intros resp'; repeat case_match; by eexists].
  case_bool_decide as Hst; [discriminate Hr|].
  destruct (Decode_robots (Body resp2)) as [l|] eqn:Hd; [|discriminate Hr]. injection Hr as Hf.
  rewrite <-Hh1 in Hh. destruct (up_robot_listed _ _ _ _ Hl Hd Hh) as (ref & Hin%list_elem_of_In & Hn).
  apply (List.find_none _ _ Hf) in Hin. by apply bool_decide_eq_false in Hin.
Qed.

(** Resetting the secret of a robot that is there. *)
Lemma sure_RefreshRobotSecret :
  sure (W := W) (httpRefreshRobotSecret c project project) (fun σ => is_Some (h_robot σ)).
Proof.
  apply (sure_bind_post _ _ _ (fun found σ => ∃ ref creds, found = Some ref ∧ h_robot σ = Some (Robot_ID ref, creds))).
  - apply sure_wrap, sure_any, sure_findRobot.
  - intros σ found σ' [[id creds] Hs] (r1 & Hxf & Hw)%exec_wrap.
    pose proof (exec_findRobot c project projectID _ _ _ Hxf) as Hx.
    symmetry in Hw. apply wrapR_Ok in Hw as ->. destruct Hx as [Hh Hf].
    destruct found as [ref|]; [|by exfalso; eapply findRobot_shows; [exact Hxf|eexists]].
    destruct Hf as (creds' & Hs'). exists ref, creds'. split; [done|]. by rewrite Hh.
  - intros found σ r σ' (ref & creds & -> & Hh).
    apply (sure_bindR _ _ (fun σ => h_robot σ = Some (Robot_ID ref, creds)) (fun σ => h_robot σ = None)); [| | |done].
    + eapply sure_wrapped_exchange; [apply up_robot_removed|by_status].
    + intros σ1 [] σ2 Hh1 Hx. by eapply (exec_deleteRobot c project projectID).
    + intros _. apply (sure_bind_post _ _ _ (fun creds _ => is_Some creds)).
      * apply sure_wrap, sure_any, sure_createRobot.
      * intros σ1 creds1 σ2 Hn (r1 & Hx & Hw)%exec_wrap. symmetry in Hw. apply wrapR_Ok in Hw as ->.
        destruct (exec_createRobot c project projectID _ _ _ Hx Hn) as (id & creds2 & -> & _). by eexists.
      * intros creds1 σ1 r1 σ2 [creds2 ->]. by apply (sure_okR creds2 (fun _ => True)).
Qed.
End client.

(** The operator's own client, on a Harbor that is up. *)
#[export] Instance NewClient_cooperative {NL : NetLib} {W : Type} {CW : Cluster W} {LW : ClusterLaws W} {RH : RobotHost W}
  {RL : RobotHostLaws W} url name secret project projectID :
  let c := mkHttpClient (TrimRight url ["/"%char]) name secret in
  RobotLaws c project projectID → ServingHarbor (W := W) c project projectID →
  CooperativeClient (W := W) (NewClient url name secret) project.
Proof.
  intros c HL HS. split; simpl; fold c.
  - by eapply sure_EnsureProject.
  - intros ms. by eapply sure_members.
  - by eapply sure_EnsureRobot.
  - exists (fun σ => is_Some (h_robot σ)). split_and!.
    + intros σ σ' Hx. pose proof (NewClient_robot url name secret project projectID HL) as HR.
      pose proof (EnsureRobot_robot (hc := NewClient url name secret) _ _ _ Hx) as Hrobot.
      destruct (h_robot σ) as [robot|]; [destruct Hrobot as [-> _]; by eexists|].
      by destruct (Hrobot None eq_refl) as (id & creds & [=] & _).
    + intros k key σ r σ' Hs. by rewrite (h_robot_calls _ _ _ _ _ Hs).
    + by eapply sure_RefreshRobotSecret.
Qed.
