(* ===== verification/Idempotence.v ===== *)
(** Reconciling again changes nothing: level-triggered reconciliation settles
    after one successful pass.

    [settling p foot exc post] extends a [stage]: [post] says that the objects
    of the step are as its mutate functions leave them, and run again from a
    state satisfying [post] the step changes nothing outside [exc].  The
    exceptions of a reconcile are the pull secret, whose content follows the
    robot account Harbor hands out, and the LimitRange, into which the API
    server writes defaults of its own. *)
From S2P Require Import Prelude Errors Prog GoStd Api Effects Cluster Sync Stage Fakes Labels Config.
From S2P Require Import Namespace Rbac Resources Helm Harbor HarborSync Controller Conflicts Status Reconcile.

Section settling.
Context {CL : CtrlLib} {HCL : CtrlLaws}.
Context {W : Type} {CW : Cluster W} {LW : ClusterLaws W}.
Implicit Types (σ : W) (w : Workspace).

Record settling {A} (p : io (result A)) (foot exc : footprint) (post : W → Prop) : Prop := {
  settling_stage : stage p foot post;
  settling_keep σ a σ' : post σ → exec p σ = Some (Ok a, σ') → frame exc σ σ';
}.

Lemma settling_seq {A B} `{!Inhabited A} (p : io (result A)) (q : A → io (result B)) f1 f2 x1 x2 P Q :
  settling p f1 x1 P → (∀ a, settling (q a) f2 x2 Q) →
  disjoint_footprints f1 f2 → disjoint_footprints f2 x1 →
  settling (bindR p q) (f1 ++ f2) (x1 ++ x2) (fun σ => P σ ∧ Q σ).
Proof.
  intros [Hp Hkp] Hq Hd Hx. split; [apply stage_seq; [done|apply Hq|done]|].
  intros σ b σ' [HP HQ] [(e & _ & [=])|(a & σ1 & H1 & H2)]%exec_bindR.
  pose proof (Hkp _ _ _ HP H1) as Hf1.
  assert (Q σ1) as HQ1 by (eapply local_frame; [apply (settling_stage _ _ _ _ (Hq a))|done..]).
  pose proof (settling_keep _ _ _ _ (Hq a) _ _ _ HQ1 H2) as Hf2.
  eapply frame_trans; (eapply frame_mono; [|done]); set_solver.
Qed.

(** A step about which only its footprint is known. *)
Lemma settling_any {A} (p : io (result A)) foot :
  (∀ σ r σ', exec p σ = Some (r, σ') → frame foot σ σ') → settling p foot foot (fun _ => True).
Proof. intros Hf. split; [by split|]. intros σ a σ' _ Hx. by eapply Hf. Qed.

Lemma settling_quiet {A} (p : io (result A)) : emits quiet p → settling p [] [] (fun _ => True).
Proof. intros Hq. apply settling_any. intros σ r σ' Hx k key _. by eapply exec_quiet. Qed.

Lemma settling_okR {A} (a : A) : settling (okR a) [] [] (fun _ => True).
Proof. by apply settling_quiet. Qed.

(** The object is there, and the mutate function has nothing to change in it. *)
Definition fixed k key (f : obj k → result (obj k)) σ : Prop :=
  ∃ o, view σ k key = Some o ∧ f o = Ok o.

Lemma fixed_synced k key f before σ :
  settles f → synced k key f before (view σ k key) → fixed k key f σ.
Proof. intros Hs (sent & kept & Hk & Hf & Hp). exists kept. split; [done|]. by eapply Hs. Qed.

Lemma fixed_local k key f : local [(k, key)] (fixed k key f).
Proof. intros σ σ' Hv. unfold fixed. by rewrite Hv by by apply list_elem_of_singleton. Qed.

Lemma settling_write k key (f : obj k → result (obj k)) message :
  settles f → settling (wrap message (CreateOrUpdate k key f)) [(k, key)] [] (fixed k key f).
Proof.
  intros Hs. split; [split; [|intros σ r σ' [_ Hf]%exec_write k' key' Hk; apply Hf; set_solver|apply fixed_local]|].
  - intros σ op σ' [Hsy _]%exec_write. by eapply fixed_synced, Hsy.
  - intros σ op σ' (o & Ho & Hf) Hx k' key' _.
    apply (exec_sync_settled k key f message (Some o) σ σ' Hs); [exists o, o; by auto using persisted_refl|].
    unfold exec in *. by rewrite interp_bindR, Hx.
Qed.

(** An object kept as the mutate function makes it, or absent. *)
Definition maintained k key (f : option (obj k → result (obj k))) σ : Prop :=
  match f with None => view σ k key = None | Some f => fixed k key f σ end.

Lemma settling_maintain k key (f : option (obj k → result (obj k))) message1 message2 :
  (∀ g, f = Some g → settles g) →
  settling (match f with
            | None => deleteIfPresent k key message1
            | Some g => wrap message2 (CreateOrUpdate k key g) ;;? okR tt
            end) [(k, key)] [] (maintained k key f).
Proof.
  destruct f as [g|]; simpl; intros Hs; (split; [split|]).
  - intros σ [] σ' [Hsy _]%exec_sync. by eapply fixed_synced, Hsy; [apply Hs|].
  - intros σ r σ' [_ Hf]%exec_sync k' key' Hk. apply Hf. set_solver.
  - apply fixed_local.
  - intros σ [] σ' (o & Ho & Hf) Hx k' key' _.
    by apply (exec_sync_settled k key g message2 (Some o) σ σ' (Hs _ eq_refl)); [exists o, o; by auto using persisted_refl|].
  - intros σ [] σ' [Hd _]%exec_deleteIfPresent. by apply Hd.
  - intros σ r σ' [_ Hf]%exec_deleteIfPresent k' key' Hk. apply Hf. set_solver.
  - intros σ σ' Hv Hn. simpl in *. by rewrite Hv by by apply list_elem_of_singleton.
  - intros σ [] σ' Hn [Hd Hf]%exec_deleteIfPresent k' key' _.
    destruct (decide ((k', key') = (k, key))) as [[= -> ->]|Hne]; [|by apply Hf].
    by rewrite Hn, Hd.
Qed.

Lemma settling_forR {X} (f : X → io (result unit)) (loc : X → Kind * ObjectKey) (Q : X → W → Prop) l :
  (∀ x, settling (f x) [loc x] [] (Q x)) → NoDup (loc <$> l) →
  settling (forR f l) (loc <$> l) [] (foldr (fun x P σ => Q x σ ∧ P σ) (fun _ => True) l).
Proof.
  intros Hf. induction l as [|x l IH]; simpl; [intros _; apply settling_okR|].
  intros [Hni Hnd]%list.NoDup_cons.
  apply (settling_seq _ _ [loc x] (loc <$> l) [] []); [apply Hf|intros _; by apply IH| |].
  - by intros y ->%list_elem_of_singleton.
  - intros y _. apply not_elem_of_nil.
Qed.
End settling.

Lemma disjoint_nil_r (f : footprint) : disjoint_footprints f [].
Proof. intros x _. apply not_elem_of_nil. Qed.

Lemma disjoint_nil_l (f : footprint) : disjoint_footprints [] f.
Proof. intros x Hx. by apply elem_of_nil in Hx. Qed.

(** ** The steps of a reconcile *)

Section steps.
Context {CL : CtrlLib} {HCL : CtrlLaws} {NL : NetLib}.
Context {W : Type} {CW : Cluster W} {LW : ClusterLaws W}.
Implicit Types (σ : W) (w : Workspace) (r : WorkspaceReconciler).

(** The pull secret is rewritten when Harbor hands out new credentials. *)
Definition pull_secret w : footprint := [(KSecret, imagePullSecretKey (W_Namespace w))].

Lemma settling_pull_secret w version url (creds : option RobotCredentials) :
  settling (match creds with
            | Some creds => reconcileImagePullSecret w version url creds
            | None => okR tt
            end) (pull_secret w) (pull_secret w) (fun _ : W => True).
Proof.
  apply settling_any. intros σ r σ' Hx k key Hk. destruct creds as [creds|]; [|by exec_inv].
  apply exec_reconcileImagePullSecret in Hx as [_ Hf]. apply Hf. unfold pull_secret in Hk. set_solver.
Qed.

Lemma settling_ReconcileHarbor w version hc url `{!QuietClient hc} :
  ∃ post, settling (W := W) (ReconcileHarbor w version hc url) (harbor_footprint w) (pull_secret w) post.
Proof.
  pose proof (proj1 (proj2 (pull_settles w version ""))) as Hensure.
  eexists. unfold ReconcileHarbor.
  apply (settling_seq _ _ [] (harbor_footprint w) [] (pull_secret w));
    [by apply settling_quiet, emits_wrap, EnsureProject_quiet|intros _|apply disjoint_nil_l|apply disjoint_nil_r].
  apply (settling_seq _ _ [] (harbor_footprint w) [] (pull_secret w));
    [by apply settling_quiet, emits_wrap, ReconcileProjectMembers_quiet|intros ms|apply disjoint_nil_l|apply disjoint_nil_r].
  apply (settling_seq _ _ [] (harbor_footprint w) [] (pull_secret w));
    [by apply settling_quiet, robotCredentials_quiet|intros creds|apply disjoint_nil_l|apply disjoint_nil_r].
  apply (settling_seq _ _ (pull_secret w) [(KServiceAccount, defaultServiceAccountKey (W_Namespace w))]
    (pull_secret w) []); [apply settling_pull_secret|intros _| |].
  - apply (settling_seq _ _ [_] [] [] []); [|intros _; apply settling_okR|apply disjoint_nil_r|apply disjoint_nil_l].
    apply (settling_maintain KServiceAccount _ (Some _) ""). by intros g [= <-].
  - intros x ->%list_elem_of_singleton [=]%list_elem_of_singleton.
  - intros x ->%list_elem_of_singleton [=]%list_elem_of_singleton.
Qed.

Lemma settling_ReconcileHelmRepository w version url :
  ∃ post, settling (W := W) (ReconcileHelmRepository w version url) (helm_footprint w) [] post.
Proof.
  eexists. apply (settling_forR _ (fun s => (KHelmRepository, helmKey w (Source_name s)))
    (fun source => match buildHelmRepositoryURL url (Source_projectName source) with
       | Err _ => fun _ => True
       | Ok (repoURL, insecure) => fixed KHelmRepository (helmKey w (Source_name source))
           (helmMutate w version source repoURL insecure)
       end)).
  - intros source. unfold reconcileHelmSource. destruct (buildHelmRepositoryURL _ _) as [[repoURL insecure]|e].
    + apply (settling_maintain KHelmRepository _ (Some _) ""). intros g [= <-]. apply helm_settles.
    + split; [split; [| |done]|]; intros σ a σ'; intros; by exec_inv.
  - simpl. apply list.NoDup_cons. split; [|apply NoDup_singleton].
    intros Hin%list_elem_of_singleton%(f_equal (Key_Name ∘ snd)). discriminate Hin.
Qed.

Lemma settling_ReconcileRoleBindings w version :
  ∃ post, settling (W := W) (ReconcileRoleBindings w version) (bindings_footprint w) [] post.
Proof.
  eexists. apply (settling_forR _ (fun role => (KRoleBinding, roleBindingKey w role))
    (fun role => maintained KRoleBinding (roleBindingKey w role)
       (let members := default [] (membersByRole (W_Members w) !! role) in
        if bool_decide (length members = 0) then None else Some (roleBindingMutate w version role members)))).
  - intros role. unfold reconcileRoleBinding. simpl. case_bool_decide;
      [by apply (settling_maintain KRoleBinding _ None _ "")|].
    apply (settling_maintain KRoleBinding _ (Some _) ""). intros g [= <-]. by apply rbac_settles.
  - apply NoDup_fmap_2; [|by apply (bool_decide_unpack _); vm_compute].
    intros r1 r2 Hk%(f_equal snd). by apply roleBindingKey_inj in Hk.
Qed.

Lemma settling_ReconcileServiceAccount w version :
  ∃ post, settling (W := W) (ReconcileServiceAccount w version) (deployer_footprint w) [] post.
Proof.
  destruct (rbac_settles w version "" []) as (_ & Haccount & Hbinding).
  eexists. apply (settling_seq _ _ [_] [_] [] []); [by apply settling_write|intros op| |].
  - apply (settling_maintain KRoleBinding _ (Some _) ""). by intros g [= <-].
  - intros x ->%list_elem_of_singleton [=]%list_elem_of_singleton.
  - intros x _. apply not_elem_of_nil.
Qed.

Lemma settling_ReconcileResourceQuota w version :
  ∃ post, settling (W := W) (ReconcileResourceQuota w version) [(KResourceQuota, quotaKey w)] [] post.
Proof.
  eexists (maintained KResourceQuota _ (quotaMutate w version <$> Spec_ResourceQuota (W_Spec w))).
  unfold ReconcileResourceQuota. destruct (Spec_ResourceQuota (W_Spec w)) as [spec|]; simpl.
  - apply (settling_maintain KResourceQuota _ (Some _) ""). intros g [= <-]. apply quota_settles.
  - by apply (settling_maintain KResourceQuota _ None _ "").
Qed.

Lemma settling_ReconcileNetworkIsolation w version :
  ∃ post, settling (W := W) (ReconcileNetworkIsolation w version) [(KNetworkPolicy, policyKey w)] [] post.
Proof.
  eexists (maintained KNetworkPolicy _
    (if Isolation_Enabled (Spec_NetworkIsolation (W_Spec w)) then Some (policyMutate w version) else None)).
  unfold ReconcileNetworkIsolation. destruct (Isolation_Enabled _); simpl.
  - apply (settling_maintain KNetworkPolicy _ (Some _) ""). intros g [= <-]. apply policy_settles.
  - by apply (settling_maintain KNetworkPolicy _ None _ "").
Qed.

(** The objects a repeated reconcile may still change. *)
Definition unsettled w : footprint := pull_secret w ++ [(KLimitRange, limitsKey w)].

Lemma settling_inner_sync r w creds :
  quiet_reconciler r →
  ∃ post, settling (W := W) (inner_sync r w creds) (inner_footprint w) (unsettled w) post.
Proof.
  intros Hq. pose proof (harborClient_quiet r creds Hq).
  destruct (settling_ReconcileHarbor w (Version r) (harborClient r creds) (Harbor_URL creds)) as [P1 H1].
  destruct (settling_ReconcileHelmRepository w (Version r) (Harbor_URL creds)) as [P2 H2].
  destruct (settling_ReconcileRoleBindings w (Version r)) as [P3 H3].
  destruct (settling_ReconcileServiceAccount w (Version r)) as [P4 H4].
  destruct (settling_ReconcileResourceQuota w (Version r)) as [P5 H5].
  destruct (settling_ReconcileNetworkIsolation w (Version r)) as [P7 H7].
  eexists. unfold inner_sync, inner_footprint, unsettled.
  eapply (settling_seq _ _ _ _ (pull_secret w) [_]);
    [exact H1|intros missing|disjoint_footprints|unfold pull_secret; disjoint_footprints].
  eapply (settling_seq _ _ _ _ [] [_]); [exact H2|intros _|disjoint_footprints|apply disjoint_nil_r].
  eapply (settling_seq _ _ _ _ [] [_]); [exact H3|intros _|disjoint_footprints|apply disjoint_nil_r].
  eapply (settling_seq _ _ _ _ [] [_]); [exact H4|intros _|disjoint_footprints|apply disjoint_nil_r].
  eapply (settling_seq _ _ _ _ [] [_]); [exact H5|intros _|disjoint_footprints|apply disjoint_nil_r].
  eapply (settling_seq _ _ _ _ [_] []); [|intros _|disjoint_footprints|disjoint_footprints].
  - apply settling_any. by apply ReconcileLimitRange_stage.
  - eapply (settling_seq _ _ _ _ [] []); [exact H7|intros _; apply settling_okR|apply disjoint_nil_r|apply disjoint_nil_l].
Qed.

(** The mutate function the namespace step uses now. *)
Definition namespace_fixed w version σ : Prop :=
  fixed KNamespace (namespaceKey w)
    (namespaceMutate w version (gomap_get (configured σ) RancherProjectIDKey)) σ.

Lemma namespace_fixed_ext w version σ σ' :
  view σ' KConfigMap operatorConfigKey = view σ KConfigMap operatorConfigKey →
  view σ' KNamespace (namespaceKey w) = view σ KNamespace (namespaceKey w) →
  namespace_fixed w version σ → namespace_fixed w version σ'.
Proof. intros Hc Hn. unfold namespace_fixed, fixed, configured. by rewrite Hc, Hn. Qed.

Lemma exec_ReconcileNamespace_fixed w version σ σ' :
  exec (ReconcileNamespace w version) σ = Some (Ok tt, σ') →
  namespace_fixed w version σ' ∧ frame [(KNamespace, namespaceKey w)] σ σ' ∧
  (namespace_fixed w version σ → ∀ k key, view σ' k key = view σ k key).
Proof.
  intros [(e & _ & [=])|(data & σ1 & [-> Hv]%exec_operatorConfigData & Hx)]%exec_bindR.
  pose proof (settling_maintain (W := W) KNamespace (namespaceKey w) (Some (namespaceMutate w version
    (gomap_get (configured σ) RancherProjectIDKey))) "" ("reconciling Namespace " +:+ Quote (W_Namespace w)))
    as [Hst Hk]; [intros g [= <-]; apply namespaceMutate_settles|].
  pose proof (stage_frame _ _ _ Hst _ _ _ Hx) as Hf. split_and!.
  - assert (configured σ' = configured σ) as Heq.
    { unfold configured. rewrite Hf, Hv; [done|]. by intros [=]%list_elem_of_singleton. }
    unfold namespace_fixed. rewrite Heq. by apply (stage_post _ _ _ Hst) in Hx.
  - intros k key Hkk. by rewrite Hf, Hv.
  - intros Hfix k key. rewrite (Hk _ _ _) with (2 := Hx); [apply Hv| |apply not_elem_of_nil].
    unfold namespace_fixed, fixed in *. simpl. unfold fixed. by rewrite Hv.
Qed.

(** The inner sync does not write what the steps before it read. *)
Lemma inner_inputs w σ σ' : frame (inner_footprint w) σ σ' →
  view σ' KConfigMap operatorConfigKey = view σ KConfigMap operatorConfigKey ∧
  view σ' KNamespace (namespaceKey w) = view σ KNamespace (namespaceKey w) ∧
  view σ' KSecret operatorSecretKey = view σ KSecret operatorSecretKey.
Proof.
  intros Hf. assert (disjoint_footprints (inner_footprint w) [(KConfigMap, operatorConfigKey);
    (KNamespace, namespaceKey w); (KSecret, operatorSecretKey)]) as Hd by disjoint_footprints.
  split_and!; apply Hf; intros Hin; apply (Hd _ Hin); set_solver.
Qed.

Lemma inner_footprint_kinds w k key : (k, key) ∈ inner_footprint w → k ≠ KWorkspace.
Proof.
  assert (disjoint_footprints (inner_footprint w) [(KWorkspace, key)]) as Hd by disjoint_footprints.
  intros Hin ->. apply (Hd _ Hin). set_solver.
Qed.

(** One successful sync after another, with the operator's inputs unchanged. *)
Lemma reconcileResources_twice r w σ m1 σ1 σ2 m2 σ3 :
  quiet_reconciler r →
  exec (reconcileResources r w) σ = Some (Ok m1, σ1) →
  (∀ k key, k ≠ KWorkspace → view σ2 k key = view σ1 k key) →
  exec (reconcileResources r w) σ2 = Some (Ok m2, σ3) →
  frame (unsettled w) σ2 σ3.
Proof.
  intros Hq Hx H12. revert Hx. rewrite reconcileResources_inner.
  intros [(e & _ & [=])|([] & σa & (Hfix & _ & _)%exec_ReconcileNamespace_fixed & Hx)]%exec_bindR.
  apply exec_bindR in Hx as [(e & _ & [=])|(creds & σb & [(s & Hs & ->) Hvb]%exec_OperatorHarborCredentials & Hx)].
  destruct (settling_inner_sync r w (credentialsOf s) Hq) as [post Hset].
  pose proof (stage_post _ _ _ (settling_stage _ _ _ _ Hset) _ _ _ Hx) as Hpost.
  pose proof (stage_frame _ _ _ (settling_stage _ _ _ _ Hset) _ _ _ Hx) as (Hc & Hn & Hsec)%inner_inputs.
  intros [(e & _ & [=])|([] & σc & (_ & _ & Hkeep)%exec_ReconcileNamespace_fixed & Hy)]%exec_bindR.
  assert (∀ k key, view σc k key = view σ2 k key) as Hvc.
  { apply Hkeep. eapply namespace_fixed_ext; [| |exact Hfix].
    - by rewrite H12, Hc, Hvb.
    - by rewrite H12, Hn, Hvb. }
  apply exec_bindR in Hy as [(e & _ & [=])|(creds & σd & [(s' & Hs' & ->) Hvd]%exec_OperatorHarborCredentials & Hy)].
  assert (s' = s) as ->.
  { rewrite Hvc, H12, Hsec, Hvb, Hs in Hs' by done. by injection Hs' as ->. }
  pose proof (settling_keep _ _ _ _ Hset) as Hk.
  intros k key Hkk. rewrite (Hk _ _ _) with (2 := Hy); [by rewrite Hvd, Hvc| |done].
  eapply (stage_local _ _ _ (settling_stage _ _ _ _ Hset)); [|exact Hpost].
  intros k' key' Hin%inner_footprint_kinds. by rewrite Hvd, Hvc, H12.
Qed.
End steps.

(** ** Property *)

Section properties.
Context {CL : CtrlLib} {HCL : CtrlLaws} {NL : NetLib} {HNL : NetLaws}.
Context {W : Type} {CW : Cluster W} {LW : ClusterLaws W}.
Implicit Types (r : WorkspaceReconciler) (w : Workspace) (σ : W).

(** C10. Reconciling again changes nothing.  Take a reconcile of a labelled workspace
    that ends without an error, on any cluster and whatever Harbor answers; if
    the only thing that happens to the workspace is the status the reconcile
    wrote, then a further reconcile that ends without an error leaves every
    object of the cluster exactly as it found it, but for the workspace itself,
    the pull secret (rewritten when Harbor hands out new credentials) and the
    LimitRange (whose defaults the API server fills in).  There is no loop of
    writes between the operator and the objects it owns. *)
Theorem Reconcile_idempotent r key w status σ res1 σ1 res2 σ2 :
  quiet_reconciler r → conflict_free_reconciler r → ¬ needs_backfill w →
  view σ KWorkspace key = Some w →
  exec (Reconcile r key) σ = Some ((res1, None), σ1) →
  view σ1 KWorkspace key = Some (set_W_Status status w) →
  exec (Reconcile r key) σ1 = Some ((res2, None), σ2) →
  frame ((KWorkspace, workspaceKey w) :: unsettled w) σ1 σ2.
Proof.
  intros Hq Hc Hb Hw Hx Hw1 Hy.
  apply (exec_Reconcile _ _ w) in Hx as [(e & [=] & _)|(synced & σa & σb & Hva & Hs & [Hf _] & Hres)]; [|done..].
  apply (exec_Reconcile _ _ (set_W_Status status w)) in Hy
    as [(e & [=] & _)|(synced' & σc & σd & Hvc & Hs' & [Hf' _] & Hres')]; [|done..].
  change (reconcileResources r (set_W_Status status w)) with (reconcileResources r w) in Hs'.
  change (workspaceKey (set_W_Status status w)) with (workspaceKey w) in Hf'.
  eapply (frame_trans _ _ σd); [|eapply frame_mono, Hf'; set_solver].
  apply (frame_trans _ _ σc); [intros k key' _; apply Hvc|].
  destruct synced' as [m2|e2]; [|destruct (exec_conflict r w _ _ _ _ _ _ Hq Hc Hs' Hres') as (ns & _ & _ & Hv);
    intros k key' _; by rewrite Hv].
  assert (∀ k key', k ≠ KWorkspace → view σc k key' = view σb k key') as Hbc.
  { intros k key' Hk. rewrite Hvc, Hf; [done|]. by intros [= -> _]%list_elem_of_singleton. }
  destruct synced as [m1|e1].
  - eapply frame_mono; [|by eapply (reconcileResources_twice r w σa)]. set_solver.
  - destruct (exec_conflict r w _ _ _ _ _ _ Hq Hc Hs Hres) as (ns & Hns & Hfor & Hv).
    pose proof (exec_reconcileResources r w _ _ _ Hq Hs') as (_ & _ & Hforeign).
    rewrite <-Hv, <-Hbc in Hns by done. by destruct (Hforeign _ Hns Hfor).
Qed.
End properties.
