(* ===== verification/Queue.v ===== *)
(** The running controller: the cluster, the work queue, and the watches that
    feed it (SetupWithManager and Reconcile of
    internal/controller/workspace_controller.go, composed).

    [move] is a step relation.  Somebody else changes an object, and the watches
    enqueue requests for it; or the worker takes a request and reconciles.  The
    queue is a set, as in controller-runtime; requests may be in it for any
    other reason too (a resync, the operator's own writes, a delayed retry), so
    a move bounds the queue from below.  Reconciles run one at a time, which is
    the builder's default.

    A level-triggered controller is right if it loses no wakeup: a workspace is
    waiting in the queue, or the cluster is as its spec asks.  This controller
    gives up a request without either in two cases, which the state records: a
    foreign namespace ([refused]), and a missing namespace label, which it puts
    right without asking to come back ([relabelled]). *)
From S2P Require Import Prelude Errors Prog GoStd Api Effects Cluster Sync Stage Fakes Labels Config.
From S2P Require Import Namespace Rbac Resources Helm Harbor HarborSync Controller Conflicts Status Reconcile.
From S2P Require Import Watches Idempotence.

(** ** Requests *)

(** What the builder attaches to a watch: the predicate of the reconciled kind,
    and the handlers of For and of Owns. *)
Class EventLib := {
  GenerationChangedPredicate : predicate;
  EnqueueRequestForObject : AnyObject → list ObjectKey;
  EnqueueRequestForOwner : AnyObject → list ObjectKey;
}.

Definition ObjectKeyFromObject (o : AnyObject) : ObjectKey := mkKey (GetNamespace o) (GetName o).

(** Their documented behaviour. *)
Class EventLaws `{CtrlLib} `{EventLib} : Prop := {
  generation_create o : GenerationChangedPredicate (CreateEvent (Some o)) = true;
  generation_update k (old new : obj k) :
    Meta_Generation (metadata old) ≠ Meta_Generation (metadata new) →
    GenerationChangedPredicate (UpdateEvent (Some (Any k old)) (Some (Any k new))) = true;
  enqueue_object o : ObjectKeyFromObject o ∈ EnqueueRequestForObject o;
  enqueue_owner w k (o : obj k) : controlled w o → workspaceKey w ∈ EnqueueRequestForOwner (Any k o);
}.

(** The manager's client lists from a synced cache. *)
Class CacheLaws (W : Type) `{Cluster W} : Prop := {
  serve_list σ : ∃ items σ', serve _ ClientListWorkspaces σ = Some (Ok items, σ') ∧
    ∀ key w, view σ KWorkspace key = Some w → ∃ w', w' ∈ items ∧ W_Name w' = W_Name w;
}.

(** The event of a change. *)
Definition change {k} (before after : option (obj k)) : option watchEvent :=
  match before, after with
  | None, None => None
  | None, Some o => Some (CreateEvent (Some (Any k o)))
  | Some o, None => Some (DeleteEvent (Some (Any k o)))
  | Some o, Some o' => Some (UpdateEvent (Some (Any k o)) (Some (Any k o')))
  end.

Definition event_objects (e : watchEvent) : list AnyObject :=
  match e with
  | CreateEvent o | DeleteEvent o | GenericEvent o => option_list o
  | UpdateEvent old new => option_list old ++ option_list new
  end.

Section requests.
Context {EL : EventLib} {W : Type} {CW : Cluster W}.
Implicit Types (σ : W).

(** The requests a watch makes of an object. *)
Definition handled (x : watch) (o : AnyObject) σ (keys : list ObjectKey) : Prop :=
  match x with
  | For_ _ _ => keys = EnqueueRequestForObject o
  | Owns _ => keys = EnqueueRequestForOwner o
  | Watches _ map _ => ∃ σ', exec (map (Some o)) σ = Some (keys, σ')
  end.

(** The change reached the queue through every watch it passes. *)
Definition delivered (ws : list watch) {k} (before after : option (obj k)) σ (queue : gset ObjectKey) : Prop :=
  ∀ e x o keys key, change before after = Some e → x ∈ ws → passes x k e = true →
    o ∈ event_objects e → handled x o σ keys → key ∈ keys → key ∈ queue.
End requests.

(** ** The controller *)

Record controller (W : Type) := mkController {
  cluster : W;
  queue : gset ObjectKey;
  (** the workspaces whose last reconcile met a foreign namespace *)
  refused : gset ObjectKey;
  (** the workspaces whose last reconcile only put their namespace label right *)
  relabelled : gset ObjectKey;
}.
Arguments mkController {W} _ _ _ _.
Arguments cluster {W} _.
Arguments queue {W} _.
Arguments refused {W} _.
Arguments relabelled {W} _.

Section controller.
Context {CL : CtrlLib} {NL : NetLib} {EL : EventLib} {W : Type} {CW : Cluster W}.
Implicit Types (σ : W) (c : controller W) (w : Workspace) (r : WorkspaceReconciler).

(** What the API server and the webhooks keep true of the objects a reconcile
    starts from. *)
Record stored_ok σ : Prop := {
  ok_workspace key w : view σ KWorkspace key = Some w →
    key = workspaceKey w ∧ Meta_Namespace (metadata w) = "";
  ok_uid key1 key2 w1 w2 : view σ KWorkspace key1 = Some w1 → view σ KWorkspace key2 = Some w2 →
    W_UID w1 = W_UID w2 → key1 = key2;
  ok_secret s : view σ KSecret operatorSecretKey = Some s → ObjectKeyFromObject (Any KSecret s) = operatorSecretKey;
  ok_config s : view σ KConfigMap operatorConfigKey = Some s →
    ObjectKeyFromObject (Any KConfigMap s) = operatorConfigKey;
}.

(** An updated workspace keeps its UID, and its generation only with its spec. *)
Definition revised σ σ' : Prop :=
  ∀ key w w', view σ KWorkspace key = Some w → view σ' KWorkspace key = Some w' →
    W_UID w' = W_UID w ∧ (W_Generation w' = W_Generation w → W_Spec w' = W_Spec w).

(** The reconcile of [key] would be refused the namespace. *)
Definition refuses σ (key : ObjectKey) : bool :=
  match view σ KWorkspace key with
  | None => false
  | Some w => match view σ KNamespace (namespaceKey w) with
              | None => false
              | Some ns => bool_decide (foreign w ns)
              end
  end.

(** The reconcile of [key] would put the label of the workspace right, and return. *)
Definition backfills σ (key : ObjectKey) : bool :=
  match view σ KWorkspace key with
  | None => false
  | Some w => bool_decide (needs_backfill w)
  end.

(** Note how the last reconcile of [key] ended. *)
Definition mark (b : bool) (key : ObjectKey) (p : gset ObjectKey) : gset ObjectKey :=
  if b then {[key]} ∪ p else p ∖ {[key]}.

Inductive move r (ws : list watch) : controller W → controller W → Prop :=
  | move_external σ σ' q q' p l k key :
      frame [(k, key)] σ σ' → stored_ok σ' → revised σ σ' →
      q ⊆ q' → delivered ws (view σ k key) (view σ' k key) σ' q' →
      move r ws (mkController σ q p l) (mkController σ' q' p l)
  | move_work σ σ' q q' p l key res err :
      key ∈ q → exec (Reconcile r key) σ = Some ((res, err), σ') →
      q ∖ {[key]} ⊆ q' → (err ≠ None ∨ RequeueAfter res ≠ 0%Z → key ∈ q') →
      move r ws (mkController σ q p l)
        (mkController σ' q' (mark (refuses σ key && negb (backfills σ key)) key p) (mark (backfills σ key) key l)).

(** What a workspace is kept in, from one reconcile to the next. *)
Record tenant_kept r w σ : Prop := {
  kept_namespace : ∃ ns, view σ KNamespace (namespaceKey w) = Some ns ∧ controlled w ns ∧
    claimed w (Version r) (gomap_get (configured σ) RancherProjectIDKey) ns ns;
  kept_helm : ∃ secret, view σ KSecret operatorSecretKey = Some secret ∧
    helm_ok w (Version r) (Harbor_URL (credentialsOf secret)) σ;
  kept_bindings role : role ∈ AllMemberRoles → members_with role (W_Members w) ≠ [] →
    binding_ok w (Version r) role σ;
  kept_deployer : deployer_ok w (Version r) σ;
  kept_quota spec : Spec_ResourceQuota (W_Spec w) = Some spec →
    matches_spec (k := KResourceQuota) (Some spec) w (Version r) (view σ KResourceQuota (quotaKey w));
  kept_limits spec : Spec_LimitRange (W_Spec w) = Some spec →
    matches_spec (k := KLimitRange) (Some spec) w (Version r) (view σ KLimitRange (limitsKey w));
  kept_policy policy : wantedPolicy w = Some policy →
    matches_spec (k := KNetworkPolicy) (Some policy) w (Version r) (view σ KNetworkPolicy (policyKey w));
}.
End controller.

(** ** What is kept, and which objects it speaks of *)

Section kept.
Context {CL : CtrlLib} {HCL : CtrlLaws} {NL : NetLib}.
Context {W : Type} {CW : Cluster W} {LW : ClusterLaws W}.
Implicit Types (σ : W) (w : Workspace) (r : WorkspaceReconciler).

(** The objects the spec requires, all of which the workspace controls. *)
Definition required w : footprint :=
  (KNamespace, namespaceKey w) :: helm_footprint w ++
  ((fun role => (KRoleBinding, roleBindingKey w role)) <$>
     filter (fun role => members_with role (W_Members w) ≠ []) AllMemberRoles) ++
  deployer_footprint w ++
  option_list ((fun _ => (KResourceQuota, quotaKey w)) <$> Spec_ResourceQuota (W_Spec w)) ++
  option_list ((fun _ => (KLimitRange, limitsKey w)) <$> Spec_LimitRange (W_Spec w)) ++
  option_list ((fun _ => (KNetworkPolicy, policyKey w)) <$> wantedPolicy w).

(** The operator's own objects. *)
Definition inputs : footprint := [(KSecret, operatorSecretKey); (KConfigMap, operatorConfigKey)].

(** The inputs as a reconcile uses them. *)
Definition same_inputs σ σ' : Prop :=
  (∀ s, view σ KSecret operatorSecretKey = Some s →
     ∃ s', view σ' KSecret operatorSecretKey = Some s' ∧ credentialsOf s' = credentialsOf s) ∧
  gomap_get (configured σ') RancherProjectIDKey = gomap_get (configured σ) RancherProjectIDKey.

Lemma same_inputs_views σ σ' :
  (∀ k key, (k, key) ∈ inputs → view σ' k key = view σ k key) → same_inputs σ σ'.
Proof.
  intros Hv. split.
  - intros s Hs. exists s. by rewrite Hv by set_solver.
  - unfold configured. by rewrite Hv by set_solver.
Qed.

Lemma required_kinds w k key : (k, key) ∈ required w → k ≠ KWorkspace ∧ k ≠ KSecret ∧ k ≠ KConfigMap.
Proof.
  unfold required, helm_footprint, deployer_footprint. rewrite elem_of_cons, !elem_of_app.
  intros [[= -> _]|[Hin|[Hin|[Hin|[Hin|[Hin|Hin]]]]]]; [done|..].
  - by apply list_elem_of_fmap in Hin as (? & [= -> _] & _).
  - by apply list_elem_of_fmap in Hin as (? & [= -> _] & _).
  - apply elem_of_cons in Hin as [[= -> _]|[= -> _]%list_elem_of_singleton]; done.
  - destruct (Spec_ResourceQuota _); [by apply list_elem_of_singleton in Hin as [= -> _]|by apply elem_of_nil in Hin].
  - destruct (Spec_LimitRange _); [by apply list_elem_of_singleton in Hin as [= -> _]|by apply elem_of_nil in Hin].
  - destruct (wantedPolicy _); [by apply list_elem_of_singleton in Hin as [= -> _]|by apply elem_of_nil in Hin].
Qed.

(** [tenant_kept] speaks of the required objects and of the inputs only. *)
Lemma tenant_kept_local r w σ σ' :
  (∀ k key, (k, key) ∈ required w → view σ' k key = view σ k key) → same_inputs σ σ' →
  tenant_kept r w σ → tenant_kept r w σ'.
Proof.
  unfold required. intros Hv [Hsec Hcfg] [(ns & Hns & Hcl) (s & Hs & Hh) Hb [(sa & Hsa & Hsa2) (b & Hb1 & Hb2)] Hq Hl Hp]. split.
  - exists ns. rewrite Hv, Hcfg by set_solver. done.
  - destruct (Hsec _ Hs) as (s' & Hs' & Hc). exists s'. split; [done|]. rewrite Hc.
    intros source Hin. destruct (Hh source Hin) as (scheme & host & repo & Hu & Hr & Ho).
    exists scheme, host, repo. split; [done|]. rewrite Hv; [done|].
    apply elem_of_cons. right. apply elem_of_app. left. apply list_elem_of_fmap. by exists source.
  - intros role Hr Hm. specialize (Hb role Hr Hm). unfold binding_ok in *.
    rewrite (Hv KRoleBinding); [done|]. apply elem_of_cons. right. apply elem_of_app. right.
    apply elem_of_app. left. apply list_elem_of_fmap. exists role. by rewrite list_elem_of_filter.
  - split; [exists sa|exists b]; rewrite Hv by set_solver; done.
  - intros spec Hspec. rewrite Hspec in Hv. rewrite (Hv KResourceQuota) by set_solver. by apply Hq.
  - intros spec Hspec. rewrite Hspec in Hv. rewrite (Hv KLimitRange) by set_solver. by apply Hl.
  - intros spec Hspec. rewrite Hspec in Hv. rewrite (Hv KNetworkPolicy) by set_solver. by apply Hp.
Qed.

(** Everything required is there, under the workspace's control. *)
Lemma kept_controlled r w σ k key :
  tenant_kept r w σ → (k, key) ∈ required w → ∃ o, view σ k key = Some o ∧ controlled w o.
Proof.
  intros [(ns & Hns & Hcl & _) (s & _ & Hh) Hb [(sa & Hsa & Hsa2 & _) (b & Hb1 & _ & Hb2)] Hq Hl Hp].
  unfold required, deployer_footprint. rewrite elem_of_cons, !elem_of_app.
  intros [[= -> ->]|[Hin|[Hin|[Hin|[Hin|[Hin|Hin]]]]]].
  - by exists ns.
  - apply list_elem_of_fmap in Hin as (source & [= -> ->] & Hin).
    destruct (Hh source Hin) as (? & ? & repo & _ & Hr & _ & _ & _ & Ho). by exists repo.
  - apply list_elem_of_fmap in Hin as (role & [= -> ->] & [Hm Hr]%list_elem_of_filter).
    specialize (Hb role Hr Hm). unfold binding_ok in Hb.
    destruct (members_with role (W_Members w)); [done|]. destruct Hb as (x & Hx & _ & _ & Ho). by exists x.
  - apply elem_of_cons in Hin as [[= -> ->]|[= -> ->]%list_elem_of_singleton]; [by exists sa|by exists b].
  - destruct (Spec_ResourceQuota _) as [spec|]; [|by apply elem_of_nil in Hin].
    apply list_elem_of_singleton in Hin as [= -> ->]. destruct (Hq spec eq_refl) as (x & Hx & _ & _ & Ho). by exists x.
  - destruct (Spec_LimitRange _) as [spec|]; [|by apply elem_of_nil in Hin].
    apply list_elem_of_singleton in Hin as [= -> ->]. destruct (Hl spec eq_refl) as (x & Hx & _ & _ & Ho). by exists x.
  - destruct (wantedPolicy _) as [spec|]; [|by apply elem_of_nil in Hin].
    apply list_elem_of_singleton in Hin as [= -> ->]. destruct (Hp spec eq_refl) as (x & Hx & _ & _ & Ho). by exists x.
Qed.

(** A ready tenant is kept. *)
Lemma ready_kept r w σ secret :
  view σ KSecret operatorSecretKey = Some secret →
  tenant_ready r w (Harbor_URL (credentialsOf secret)) σ → namespace_fixed w (Version r) σ →
  tenant_kept r w σ.
Proof.
  intros Hs [_ _ Hh Hb Hd Hq Hl Hp] (ns & Hns & Hf). split.
  - exists ns. split; [done|]. rewrite namespaceMutate_eq in Hf. case_decide; [done|].
    split; [by apply (own_controlled (k := KNamespace) _ _ _ _ Hf), persisted_refl|by apply claimed_stamp].
  - by exists secret.
  - intros role Hr _. by apply Hb.
  - done.
  - intros spec Hspec. by rewrite Hspec in Hq.
  - intros spec Hspec. by rewrite Hspec in Hl.
  - intros spec Hspec. by rewrite Hspec in Hp.
Qed.

(** Only the name, the UID and the spec of the workspace matter. *)
Definition same_core w w' : Prop :=
  W_Name w' = W_Name w ∧ W_UID w' = W_UID w ∧ W_Spec w' = W_Spec w.

Lemma required_core w w' : same_core w w' → required w' = required w.
Proof. destruct w as [[] []], w' as [[] []]. intros (Hn & Hu & Hs). compute in Hn, Hu, Hs. by subst. Qed.

Lemma controlled_core {P} w w' (o : object P) : same_core w w' → controlled w o → controlled w' o.
Proof.
  intros (Hn & Hu & _) [Hown Howned]. split; [|by rewrite Hu].
  unfold own in *. by rewrite Hn, Hu.
Qed.

Lemma matches_spec_core {k} (spec : option (payload_of k)) version w w' o :
  same_core w w' → matches_spec spec w version o → matches_spec spec w' version o.
Proof.
  intros Hc. destruct spec as [spec|]; [|done]. intros (x & -> & Hp & Hl & Ho). exists x.
  split_and!; [done..| |by eapply controlled_core]. by rewrite (proj1 Hc).
Qed.

Lemma tenant_kept_core r w w' σ : same_core w w' → tenant_kept r w σ → tenant_kept r w' σ.
Proof.
  intros Hc. pose proof (fun P (o : object P) => controlled_core w w' o Hc) as Hctl.
  pose proof (fun k spec o => matches_spec_core (k := k) spec (Version r) w w' o Hc) as Hspec.
  destruct w as [[] [sp st]], w' as [[] [sp' st']], Hc as (Hn & Hu & Hs). compute in Hn, Hu, Hs. subst.
  intros [(ns & Hns & Ho & [? ? ? ? ? ?]) (secret & Hsec & Hh) Hb [(sa & Hsa & Hsao & Hsl) (b & Hb1 & Hb2 & Hbo)] Hq Hl Hp].
  split.
  - exists ns. split_and!; [done|by apply Hctl|]. by split.
  - exists secret. split; [done|]. intros source Hin.
    destruct (Hh source Hin) as (scheme & host & repo & ? & ? & ? & ? & ? & ?). exists scheme, host, repo.
    split_and!; try done. by apply Hctl.
  - intros role Hr Hm. specialize (Hb role Hr Hm). unfold binding_ok in *.
    unfold W_Members, W_Spec in *. simpl in *.
    destruct (members_with role (Spec_Members sp)) as [|m ms]; [done|].
    destruct Hb as (x & ? & ? & ? & ?). exists x. split_and!; try done. by apply Hctl.
  - split; [exists sa|exists b]; split_and!; try done; by apply Hctl.
  - intros spec ?. by apply Hspec, Hq.
  - intros spec ?. by apply Hspec, Hl.
  - intros spec ?. by apply Hspec, Hp.
Qed.
End kept.
