(* ===== verification/Wakeups.v ===== *)
(** The controller of Queue.v loses no wakeup: one reconcile keeps the workspace
    it is for and disturbs no other, and every change that matters passes a
    watch. *)
From S2P Require Import Prelude Errors Prog GoStd Api Effects Cluster Sync Stage Fakes Labels Config.
From S2P Require Import Namespace Rbac Resources Helm Harbor HarborSync Controller Conflicts Status Reconcile.
From S2P Require Import Watches Idempotence Queue.

(** ** One reconcile *)

Section work.
Context {CL : CtrlLib} {HCL : CtrlLaws} {NL : NetLib} {HNL : NetLaws}.
Context {W : Type} {CW : Cluster W} {LW : ClusterLaws W}.
Implicit Types (σ : W) (w : Workspace) (r : WorkspaceReconciler).

(** After a successful sync the namespace is as the mutate function makes it. *)
Lemma reconcileResources_fixed r w σ missing σ' :
  quiet_reconciler r → exec (reconcileResources r w) σ = Some (Ok missing, σ') → namespace_fixed w (Version r) σ'.
Proof.
  rewrite reconcileResources_inner.
  intros Hq [(e & _ & [=])|([] & σa & (Hfix & _ & _)%exec_ReconcileNamespace_fixed & Hx)]%exec_bindR.
  apply exec_bindR in Hx as [(e & _ & [=])|(creds & σb & [_ Hv]%exec_OperatorHarborCredentials & Hx)].
  pose proof (stage_frame _ _ _ (inner_sync_stage r w creds Hq) _ _ _ Hx) as (Hc & Hn & _)%inner_inputs.
  eapply namespace_fixed_ext; [| |exact Hfix]; congruence.
Qed.

(** A namespace another workspace controls stops the sync before it writes. *)
Lemma exec_taken r w w2 ns σ res σ' :
  view σ KNamespace (namespaceKey w) = Some ns → controlled w2 ns → W_Name w ≠ W_Name w2 →
  exec (reconcileResources r w) σ = Some (res, σ') → ∀ k key, view σ' k key = view σ k key.
Proof.
  rewrite reconcileResources_inner. intros Hns [Hown _] Hne Hx.
  assert (∀ version rid, ∃ e, namespaceMutate w version rid ns = Err e) as Hm.
  { intros version rid. rewrite namespaceMutate_eq. case_decide; [by eexists|].
    apply own_Ok in Hown as (refs & Hs & Hr). apply (f_equal (fun o => Meta_OwnerReferences (metadata o))) in Hr.
    simpl in Hs, Hr. rewrite Hr in Hs. destruct (SetControllerReference_exclusive _ _ _ (W_Name w) (W_UID w) Hs Hne) as [e He].
    exists e. unfold own, stamp. simpl. rewrite Hr. by rewrite He. }
  assert (∀ σ1 res1, exec (ReconcileNamespace w (Version r)) σ = Some (res1, σ1) →
    is_Ok res1 = false ∧ ∀ k key, view σ1 k key = view σ k key) as Hstop.
  { intros σ1 res1 [(e & [_ Hv]%exec_operatorConfigData & ->)|(data & σa & [-> Hv]%exec_operatorConfigData & Hy)]%exec_bindR;
      [done|].
    destruct (Hm (Version r) (gomap_get (configured σ) RancherProjectIDKey)) as [e He].
    apply exec_bindR in Hy as [(e1 & (r2 & [Hc Hf]%exec_create_or_update & _)%exec_wrap & ->)
      |(op & σb & (r2 & [Hc Hf]%exec_create_or_update & Hw)%exec_wrap & Hy)];
      rewrite (Hv KNamespace), Hns in Hc; apply (create_or_update_refused (k := KNamespace) _ _ _ _ _ e) in Hc as [Ha Hr]; try done.
    - split; [done|]. intros k key. destruct (decide ((k, key) = (KNamespace, namespaceKey w))) as [[= -> ->]|Hk];
        [by rewrite Ha, Hns|by rewrite Hf, Hv].
    - destruct Hr as (e' & -> & _). discriminate Hw. }
  apply exec_bindR in Hx as [(e & Hx & _)|([] & σ1 & Hx & _)]; apply Hstop in Hx as [Hr Hv]; [done|discriminate Hr].
Qed.

Lemma tenant_footprint_namespace w k key :
  (k, key) ∈ tenant_footprint w →
  k ≠ KWorkspace ∧ if decide (k = KNamespace) then key = namespaceKey w else Key_Namespace key = W_Namespace w.
Proof.
  unfold tenant_footprint. rewrite elem_of_cons. intros [[= -> ->]|Hin]; [done|].
  split; [by eapply inner_footprint_kinds|].
  unfold inner_footprint, harbor_footprint, helm_footprint, bindings_footprint, deployer_footprint in Hin.
  rewrite !elem_of_app, !list_elem_of_fmap, !elem_of_cons, !elem_of_nil in Hin.
  destruct_or!; try done; repeat match goal with H : ∃ _, _ |- _ => destruct H as (? & ? & _) end; by simplify_eq.
Qed.

Lemma required_tenant w : required w ⊆ tenant_footprint w.
Proof.
  unfold required, tenant_footprint, inner_footprint, bindings_footprint. intros x.
  rewrite !elem_of_cons, !elem_of_app. intros [?|[?|[Hin|[?|[Hin|[Hin|Hin]]]]]]; eauto 10.
  - right. right. right. left. apply list_elem_of_fmap in Hin as (role & -> & [_ Hr]%list_elem_of_filter).
    apply list_elem_of_fmap. by exists role.
  - destruct (Spec_ResourceQuota _); [eauto 10|by apply elem_of_nil in Hin].
  - destruct (Spec_LimitRange _); [eauto 10|by apply elem_of_nil in Hin].
  - destruct (wantedPolicy _); [eauto 10|by apply elem_of_nil in Hin].
Qed.

Lemma inner_inputs_disjoint w : disjoint_footprints (inner_footprint w) inputs.
Proof. unfold inputs. disjoint_footprints. Qed.

Lemma inputs_not_tenant w x : x ∈ inputs → x ∉ tenant_footprint w.
Proof.
  intros Hi Hin. unfold inputs in Hi. unfold tenant_footprint in Hin. apply elem_of_cons in Hin as [->|Hin].
  - by apply elem_of_cons in Hi as [[=]|[=]%list_elem_of_singleton].
  - by apply inner_inputs_disjoint in Hin.
Qed.

(** A workspace that is gone. *)
Lemma exec_Reconcile_gone r key σ res σ' :
  view σ KWorkspace key = None → exec (Reconcile r key) σ = Some (res, σ') →
  ∀ k key', view σ' k key' = view σ k key'.
Proof.
  intros Hn (got & σ1 & [Hg Hv]%(exec_get KWorkspace) & Hx)%exec_bind.
  destruct got as [w|e]; [congruence|]. by exec_inv.
Qed.

(** A workspace without its label: the label is put right, or nothing happens. *)
Lemma exec_Reconcile_backfill r key w σ res σ' :
  view σ KWorkspace key = Some w → key = workspaceKey w → needs_backfill w →
  exec (Reconcile r key) σ = Some (res, σ') →
  frame [(KWorkspace, key)] σ σ' ∧ ∃ w', view σ' KWorkspace key = Some w' ∧ same_core w w' ∧
    Meta_Namespace (metadata w') = Meta_Namespace (metadata w).
Proof.
  intros Hw -> Hb (got & σ1 & [Hg Hv]%(exec_get KWorkspace) & Hx)%exec_bind.
  destruct got as [w0|e].
  - rewrite Hw in Hg. injection Hg as <-. rewrite bool_decide_eq_true_2 in Hx by done.
    apply exec_bind in Hx as (r1 & σ2 & Hu%exec_trigger & Hx).
    assert (σ' = σ2) as -> by (destruct r1; by exec_inv). split.
    + intros k key Hk. rewrite <-Hv. eapply serve_frame; [exact Hu|]. intros [-> ->].
      by apply Hk, list_elem_of_singleton.
    + apply serve_update in Hu. change (mkKey "" (W_Name _)) with (workspaceKey w) in Hu.
      rewrite (Hv KWorkspace), Hw in Hu. destruct Hu as [[_ ->]|(old & kept & [= <-] & Hk & Hn & Hs & Hu & Hm)]; [by exists w|].
      exists kept. split_and!; [done| |done]. by split_and!.
  - destruct Hg as [_ Hn]. destruct (IsNotFound e); [by rewrite (Hn eq_refl) in Hw|]. exec_inv.
    split; [by intros ???|]. exists w. by rewrite (Hv KWorkspace).
Qed.

(** What a reconcile writes. *)
Lemma exec_Reconcile_frame r key w σ res σ' :
  quiet_reconciler r → view σ KWorkspace key = Some w → key = workspaceKey w → ¬ needs_backfill w →
  exec (Reconcile r key) σ = Some (res, σ') →
  frame ((KWorkspace, key) :: tenant_footprint w) σ σ' ∧ restated (Some w) (view σ' KWorkspace key).
Proof.
  intros Hq Hw -> Hb [(e & _ & Hv)|(synced & σ0 & σ1 & Hv & Hs & [Hf Hr] & _)]%(exec_Reconcile _ _ w); [| |done..].
  - split; [by intros ???|]. left. by rewrite (Hv KWorkspace).
  - pose proof (exec_reconcileResources r w _ _ _ Hq Hs) as (_ & Hf2 & _). split.
    + intros k key Hk. rewrite Hf, Hf2, Hv; [done|set_solver..].
    + assert (view σ1 KWorkspace (workspaceKey w) = Some w) as Hw1.
      { rewrite Hf2, Hv; [done|]. by intros [? _]%tenant_footprint_namespace. }
      by rewrite Hw1 in Hr.
Qed.

(** A reconcile that is not to be repeated leaves the tenant kept, unless the
    namespace was a foreign one. *)
Lemma exec_Reconcile_kept r key w σ res σ' :
  quiet_reconciler r → conflict_free_reconciler r →
  view σ KWorkspace key = Some w → key = workspaceKey w → ¬ needs_backfill w →
  exec (Reconcile r key) σ = Some ((res, None), σ') → refuses σ key = true ∨ tenant_kept r w σ'.
Proof.
  intros Hq Hc Hw -> Hb [(e & [=] & _)|(synced & σ0 & σ1 & Hv & Hs & [Hf _] & Hres)]%(exec_Reconcile _ _ w); [|done..].
  destruct synced as [missing|e].
  - right. pose proof (exec_reconcileResources r w _ _ _ Hq Hs) as (Hready & Hf2 & _).
    destruct (Hready eq_refl) as (secret & Hsec & Ht).
    assert (∀ k key, k ≠ KWorkspace → view σ' k key = view σ1 k key) as Hv'.
    { intros k key Hk. apply Hf. by intros [= -> _]%list_elem_of_singleton. }
    apply reconcileResources_fixed in Hs; [|done]. apply (ready_kept _ _ _ secret).
    + rewrite Hv' by done. rewrite Hf2; [done|]. apply inputs_not_tenant. set_solver.
    + by eapply tenant_ready_local.
    + eapply namespace_fixed_ext; [..|exact Hs]; by apply Hv'.
  - left. destruct (exec_conflict r w _ _ _ _ _ _ Hq Hc Hs Hres) as (ns & Hns & Hfor & _).
    unfold refuses. rewrite Hw, <-(Hv KNamespace), Hns. by apply bool_decide_eq_true.
Qed.

(** The other tenants stay kept. *)
Lemma exec_Reconcile_others r key w w2 σ res σ' :
  quiet_reconciler r → view σ KWorkspace key = Some w → key = workspaceKey w →
  W_Name w ≠ W_Name w2 → tenant_kept r w2 σ →
  exec (Reconcile r key) σ = Some (res, σ') → tenant_kept r w2 σ'.
Proof.
  intros Hq Hw -> Hne Hkept Hx.
  assert (∀ k key, k ≠ KWorkspace → (k, key) ∈ required w2 ++ inputs → view σ' k key = view σ k key) as Hsame.
  - destruct (decide (needs_backfill w)) as [Hb|Hb].
    { apply (exec_Reconcile_backfill _ _ w) in Hx as [Hf _]; [|done..]. intros k key Hkind _. apply Hf.
      by intros [= -> _]%list_elem_of_singleton. }
    destruct (kept_namespace _ _ _ Hkept) as (ns & Hns & Ho & _).
    destruct (decide (W_Namespace w = W_Namespace w2)) as [Heq|Hns2].
    + assert (namespaceKey w = namespaceKey w2) as Hk by (unfold namespaceKey; by rewrite Heq).
      rewrite <-Hk in Hns. apply (exec_Reconcile _ _ w) in Hx as [(e & _ & Hv)|(synced & σ0 & σ1 & Hv & Hs & [Hf _] & _)];
        [done| |done..]. intros k key Hkind _. rewrite Hf by (by intros [= -> _]%list_elem_of_singleton).
      rewrite (exec_taken r w w2 ns _ _ _ ltac:(by rewrite (Hv KNamespace)) Ho Hne Hs). apply Hv.
    + apply exec_Reconcile_frame with (w := w) in Hx as [Hf _]; [|done..].
      intros k key Hkind Hin. apply Hf. intros [[= -> _]|Ht]%elem_of_cons; [done|].
      apply elem_of_app in Hin as [Hin|Hin]; [|by apply (inputs_not_tenant w) in Hin].
      apply required_tenant, tenant_footprint_namespace in Hin as [_ Hin].
      apply tenant_footprint_namespace in Ht as [_ Ht]. case_decide; [|congruence].
      apply Hns2. rewrite Ht in Hin. by injection Hin.
  - eapply tenant_kept_local, Hkept.
    + intros k key Hin. apply Hsame; [by apply (required_kinds w2 k key)|set_solver].
    + apply same_inputs_views. intros k key Hin. apply Hsame; [|set_solver].
      by apply elem_of_cons in Hin as [[= -> _]|[= -> _]%list_elem_of_singleton].
Qed.

(** The API server keeps its promises about the workspaces through a reconcile. *)
Lemma restated_core before w' :
  restated before (Some w') → ∃ w, before = Some w ∧ same_core w w' ∧ Meta_Namespace (metadata w') = Meta_Namespace (metadata w).
Proof.
  intros [Hw|(w & st & -> & [= ->])]; [exists w'|exists w]; (split; [congruence|]); by split.
Qed.

Lemma exec_Reconcile_stored r key w σ res σ' :
  quiet_reconciler r → view σ KWorkspace key = Some w → key = workspaceKey w →
  exec (Reconcile r key) σ = Some (res, σ') →
  (∀ key2 w2', view σ' KWorkspace key2 = Some w2' → ∃ w2, view σ KWorkspace key2 = Some w2 ∧ same_core w2 w2' ∧
    Meta_Namespace (metadata w2') = Meta_Namespace (metadata w2)) ∧
  ∀ k key', (k, key') ∈ inputs → view σ' k key' = view σ k key'.
Proof.
  intros Hq Hw Hkey Hx.
  assert (frame ((KWorkspace, key) :: tenant_footprint w) σ σ' ∧
    ∀ w2', view σ' KWorkspace key = Some w2' → ∃ w2, view σ KWorkspace key = Some w2 ∧ same_core w2 w2' ∧
      Meta_Namespace (metadata w2') = Meta_Namespace (metadata w2)) as [Hf Hr].
  { destruct (decide (needs_backfill w)) as [Hb|Hb].
    - apply (exec_Reconcile_backfill _ _ w) in Hx as (Hf & w' & Hw' & Hc & Hm); [|done..]. split.
      + intros k key' Hk. apply Hf. set_solver.
      + intros w2'. rewrite Hw'. intros [= <-]. by exists w.
    - apply (exec_Reconcile_frame _ _ w) in Hx as [Hf Hr]; [|done..]. split; [done|].
      intros w2' Hw2. rewrite Hw2, <-Hw in Hr. by apply restated_core. }
  split.
  - intros key2 w2' Hw2. destruct (decide (key2 = key)) as [->|Hne]; [by apply Hr|].
    exists w2'. split; [|done]. rewrite <-Hw2. symmetry. apply Hf.
    intros [[= ->]|[? _]%tenant_footprint_namespace]%elem_of_cons; done.
  - intros k key' Hin. apply Hf. intros [[= -> ->]|Ht]%elem_of_cons; [|by eapply inputs_not_tenant].
    by apply elem_of_cons in Hin as [[=]|[=]%list_elem_of_singleton].
Qed.

Lemma work_stored r σ σ' key w res :
  quiet_reconciler r → stored_ok σ → view σ KWorkspace key = Some w →
  exec (Reconcile r key) σ = Some (res, σ') →
  stored_ok σ' ∧ ∀ key2 w2', view σ' KWorkspace key2 = Some w2' → ∃ w2, view σ KWorkspace key2 = Some w2 ∧ same_core w2 w2'.
Proof.
  intros Hq Hok Hw Hx. destruct (ok_workspace _ Hok _ _ Hw) as [Hkey _].
  destruct (exec_Reconcile_stored r key w _ _ _ Hq Hw Hkey Hx) as [Hback Hin].
  split; [split|].
  - intros key2 w2' (w2 & Hw2 & (Hn & _ & _) & Hm)%Hback. destruct (ok_workspace _ Hok _ _ Hw2) as [-> Hns].
    unfold workspaceKey. by rewrite Hn, Hm.
  - intros key1 key2 w1' w2' (w1 & H1 & (_ & U1 & _) & _)%Hback (w2 & H2 & (_ & U2 & _) & _)%Hback Hu.
    eapply (ok_uid _ Hok); [done..|congruence].
  - intros s. rewrite (Hin KSecret) by set_solver. apply (ok_secret _ Hok).
  - intros s. rewrite (Hin KConfigMap) by set_solver. apply (ok_config _ Hok).
  - intros key2 w2' (w2 & Hw2 & Hc & _)%Hback. by exists w2.
Qed.
End work.

(** ** No wakeup is lost *)

Section wakeups.
Context {CL : CtrlLib} {HCL : CtrlLaws} {NL : NetLib} {HNL : NetLaws}.
Context {EL : EventLib} {HEL : EventLaws}.
Context {W : Type} {CW : Cluster W} {LW : ClusterLaws W} {CaW : CacheLaws W}.
Implicit Types (σ : W) (c : controller W) (w : Workspace) (r : WorkspaceReconciler).

Section registered.
Context (RESTMapping : GroupVersionKind → option error) (ws : list watch).
Context (Hws : SetupWithManager RESTMapping GenerationChangedPredicate = Ok ws).

Lemma registered :
  For_ KWorkspace GenerationChangedPredicate ∈ ws ∧
  (∀ k, k ∈ [KNamespace; KHelmRepository; KRoleBinding; KServiceAccount; KResourceQuota; KLimitRange; KNetworkPolicy] →
     Owns k ∈ ws) ∧
  Watches KSecret (enqueueAllWorkspacesIf IsOperatorSecret) operatorSecretChangedPredicate ∈ ws ∧
  Watches KConfigMap (enqueueAllWorkspacesIf IsOperatorConfig) operatorConfigChangedPredicate ∈ ws.
Proof.
  unfold SetupWithManager in Hws. destruct (checkRequired _ _); [|done]. injection Hws as <-.
  split_and!; [by left| |set_solver..].
  intros k Hk. repeat (apply elem_of_cons in Hk as [->|Hk]; [set_solver|]). by apply elem_of_nil in Hk.
Qed.

Lemma required_owned w k key : (k, key) ∈ required w → Owns k ∈ ws.
Proof.
  intros Hin. apply registered. revert Hin.
  unfold required, helm_footprint, deployer_footprint. rewrite elem_of_cons, !elem_of_app.
  intros [[= -> _]|[Hin|[Hin|[Hin|[Hin|[Hin|Hin]]]]]]; [set_solver|..].
  - apply list_elem_of_fmap in Hin as (? & [= -> _] & _). set_solver.
  - apply list_elem_of_fmap in Hin as (? & [= -> _] & _). set_solver.
  - apply elem_of_cons in Hin as [[= -> _]|[= -> _]%list_elem_of_singleton]; set_solver.
  - destruct (Spec_ResourceQuota _); set_solver.
  - destruct (Spec_LimitRange _); set_solver.
  - destruct (wantedPolicy _); set_solver.
Qed.

End registered.

(** Once the watches have delivered the change, the workspace is in the queue. *)
Definition noticed ws w {k} (before after : option (obj k)) σ : Prop :=
  ∀ q, delivered ws before after σ q → workspaceKey w ∈ q.

(** Whatever happens to an object a workspace controls, it is noticed. *)
Lemma drift_delivered ws w k (o : obj k) after σ q :
  Owns k ∈ ws → controlled w o → delivered ws (Some o) after σ q → workspaceKey w ∈ q.
Proof.
  intros Hk Ho Hd. pose proof (enqueue_owner w k o Ho) as Hin.
  assert (∃ e, change (Some o) after = Some e ∧ Any k o ∈ event_objects e) as (e & He & Hoe).
  { destruct after as [o'|]; eexists; (split; [done|]); set_solver. }
  eapply (Hd e (Owns k) (Any k o)); [done..| |done|by simpl|done]. by apply bool_decide_eq_true.
Qed.

(** A change that matters in one of the operator's inputs reaches everyone. *)
Lemma fan_out_delivered ws k matches changed (before after : option (obj k)) σ q :
  Watches k (enqueueAllWorkspacesIf matches) (operatorInputPredicate k matches changed) ∈ ws →
  (∀ o, before = Some o ∨ after = Some o → matches (Some (Any k o)) = true) →
  delivered ws before after σ q →
  match before, after with
  | Some o, Some o' => changed o o' = false
  | None, None => True
  | _, _ => False
  end ∨ ∀ key w, view σ KWorkspace key = Some w → workspaceKey w ∈ q.
Proof.
  intros Hx Hm Hd. destruct (serve_list σ) as (items & σ' & Hs & Hitems).
  assert (∀ o, matches (Some (Any k o)) = true →
    handled (Watches k (enqueueAllWorkspacesIf matches) (operatorInputPredicate k matches changed))
      (Any k o) σ ((fun w => mkKey "" (W_Name w)) <$> items)) as Hh.
  { intros o Ho. exists σ'. unfold enqueueAllWorkspacesIf. rewrite Ho. unfold exec. cbn. by rewrite Hs. }
  assert (∀ key w, view σ KWorkspace key = Some w → workspaceKey w ∈ (fun w => mkKey "" (W_Name w)) <$> items) as Hall.
  { intros key w (w' & Hw' & Hn)%Hitems. apply list_elem_of_fmap. exists w'. unfold workspaceKey. by rewrite Hn. }
  destruct before as [o|], after as [o'|]; [|right|right|by left]; [destruct (changed o o') eqn:Hc; [right|by left]|..];
    intros key w Hw.
  - eapply (Hd _ _ (Any k o')); [done|exact Hx| |by right; left|by apply Hh, Hm; right|by eapply Hall].
    unfold passes. rewrite bool_decide_eq_true_2, input_update by done. by rewrite Hm by (by right).
  - eapply (Hd _ _ (Any k o)); [done|exact Hx| |by left|by apply Hh, Hm; left|by eapply Hall].
    simpl. rewrite bool_decide_eq_true_2 by done. simpl. by apply Hm; left.
  - eapply (Hd _ _ (Any k o')); [done|exact Hx| |by left|by apply Hh, Hm; right|by eapply Hall].
    simpl. rewrite bool_decide_eq_true_2 by done. simpl. by apply Hm; right.
Qed.

(** Somebody changes one object: the inputs mean what they meant, or every
    workspace is enqueued. *)
Lemma external_inputs RESTMapping ws k key σ σ' q :
  SetupWithManager RESTMapping GenerationChangedPredicate = Ok ws →
  stored_ok σ → stored_ok σ' → frame [(k, key)] σ σ' →
  delivered ws (view σ k key) (view σ' k key) σ' q →
  same_inputs σ σ' ∨ ∀ key' w, view σ' KWorkspace key' = Some w → key' ∈ q.
Proof.
  intros (_ & _ & Hsec & Hcfg)%registered Hok Hok' Hf Hd.
  assert ((∀ key' w, view σ' KWorkspace key' = Some w → workspaceKey w ∈ q) →
    ∀ key' w, view σ' KWorkspace key' = Some w → key' ∈ q) as Hall.
  { intros H key' w Hw. destruct (ok_workspace _ Hok' _ _ Hw) as [-> _]. by eapply H. }
  assert (∀ k' key', (k', key') ≠ (k, key) → view σ' k' key' = view σ k' key') as Hv.
  { intros k' key' Hne. apply Hf. by intros ?%list_elem_of_singleton. }
  destruct (decide ((k, key) = (KSecret, operatorSecretKey))) as [[= -> ->]|Hns];
    [|destruct (decide ((k, key) = (KConfigMap, operatorConfigKey))) as [[= -> ->]|Hnc]].
  - eapply fan_out_delivered in Hd as [Hd|Hd]; [|right; by apply Hall|exact Hsec|].
    + left. split; [|unfold configured; by rewrite (Hv KConfigMap)].
      intros s Hs. rewrite Hs in Hd. destruct (view σ' KSecret operatorSecretKey) as [s'|]; [|done].
      exists s'. split; [done|]. apply negb_false_iff, maps_Equal_spec in Hd.
      exact (f_equal (fun v => mkHarborCredentials (default "" (v !! HarborURLKey))
        (default "" (v !! HarborRobotNameKey)) (default "" (v !! HarborRobotSecretKey))) (eq_sym Hd)).
    + intros o Ho. apply IsOperatorSecret_spec. exists (Any KSecret o). split; [done|].
      assert (ObjectKeyFromObject (Any KSecret o) = operatorSecretKey) as [= -> ->]; [|done].
      destruct Ho as [Ho|Ho]; [by apply (ok_secret _ Hok)|by apply (ok_secret _ Hok')].
  - eapply fan_out_delivered in Hd as [Hd|Hd]; [|right; by apply Hall|exact Hcfg|].
    + left. split; [intros s Hs; exists s; by rewrite (Hv KSecret)|]. unfold configured.
      destruct (view σ KConfigMap operatorConfigKey) as [s|], (view σ' KConfigMap operatorConfigKey) as [s'|]; try done.
      apply negb_false_iff, maps_Equal_spec in Hd.
      exact (f_equal (fun v => default "" (v !! RancherProjectIDKey)) (eq_sym Hd)).
    + intros o Ho. apply IsOperatorConfig_spec. exists (Any KConfigMap o). split; [done|].
      assert (ObjectKeyFromObject (Any KConfigMap o) = operatorConfigKey) as [= -> ->]; [|done].
      destruct Ho as [Ho|Ho]; [by apply (ok_config _ Hok)|by apply (ok_config _ Hok')].
  - left. apply same_inputs_views. intros k' key' Hin. apply Hv.
    apply elem_of_cons in Hin as [[= -> ->]|[= -> ->]%list_elem_of_singleton]; congruence.
Qed.

(** A change of the workspace itself: same core, or enqueued. *)
Lemma external_workspace RESTMapping ws key σ σ' q w :
  SetupWithManager RESTMapping GenerationChangedPredicate = Ok ws →
  stored_ok σ → stored_ok σ' → revised σ σ' →
  delivered ws (view σ KWorkspace key) (view σ' KWorkspace key) σ' q → view σ' KWorkspace key = Some w →
  key ∈ q ∨ ∃ w0, view σ KWorkspace key = Some w0 ∧ same_core w0 w.
Proof.
  intros (Hfor & _)%registered Hok Hok' Hrev Hd Hw. rewrite Hw in Hd.
  destruct (ok_workspace _ Hok' _ _ Hw) as [Hkey Hns].
  assert (∀ e, change (view σ KWorkspace key) (Some w) = Some e → passes (For_ KWorkspace GenerationChangedPredicate) KWorkspace e = true →
    Any KWorkspace w ∈ event_objects e → key ∈ q) as Hq.
  { intros e He Hp Hin. eapply (Hd e _ _ _ _ He Hfor Hp Hin); [done|].
    pose proof (enqueue_object (Any KWorkspace w)) as Henq. unfold ObjectKeyFromObject, GetNamespace in Henq.
    simpl in Henq. rewrite Hns in Henq. by rewrite Hkey. }
  destruct (view σ KWorkspace key) as [w0|] eqn:Hw0.
  - destruct (decide (W_Generation w = W_Generation w0)) as [Hg|Hg].
    + right. exists w0. split; [done|]. destruct (Hrev _ _ _ Hw0 Hw) as [Hu Hs]. split_and!; [|done|by apply Hs].
      destruct (ok_workspace _ Hok _ _ Hw0) as (Hkey0 & _). rewrite Hkey0 in Hkey. by injection Hkey.
    + left. eapply Hq; [done| |set_solver]. simpl. by apply generation_update.
  - left. eapply Hq; [done| |set_solver]. simpl. by apply generation_create.
Qed.

(** Started: the first listing enqueues every workspace. *)
Definition started c : Prop :=
  stored_ok (cluster c) ∧ ∀ key w, view (cluster c) KWorkspace key = Some w → key ∈ queue c.

(** Waiting, refused its namespace, given its label back, or kept. *)
Definition accounted r c : Prop :=
  stored_ok (cluster c) ∧
  ∀ key w, view (cluster c) KWorkspace key = Some w →
    key ∈ queue c ∨ key ∈ refused c ∨ key ∈ relabelled c ∨ tenant_kept r w (cluster c).

Lemma external_accounted RESTMapping r ws σ σ' q q' p l k key :
  SetupWithManager RESTMapping GenerationChangedPredicate = Ok ws →
  frame [(k, key)] σ σ' → stored_ok σ' → revised σ σ' → q ⊆ q' →
  delivered ws (view σ k key) (view σ' k key) σ' q' →
  accounted r (mkController σ q p l) → accounted r (mkController σ' q' p l).
Proof.
  intros Hws Hf Hok' Hrev Hsub Hd [Hok Hacc]. split; [done|]. simpl in *. intros key2 w Hw.
  destruct (external_inputs _ _ _ _ _ _ _ Hws Hok Hok' Hf Hd) as [Hin|Hall]; [|left; by eapply Hall].
  assert (key2 ∈ q' ∨ ∃ w0, view σ KWorkspace key2 = Some w0 ∧ same_core w0 w) as [?|(w0 & Hw0 & Hcore)]; [|by left|].
  { destruct (decide ((k, key) = (KWorkspace, key2))) as [[= -> ->]|Hne]; [by apply (external_workspace RESTMapping ws key2 σ σ' q' w)|].
    right. exists w. split; [|done]. rewrite <-Hw. symmetry. apply Hf. by intros [= <- <-]%list_elem_of_singleton. }
  destruct (Hacc _ _ Hw0) as [?|[?|[?|Hk]]]; [left; set_solver|by right; left|by right; right; left|].
  destruct (decide ((k, key) ∈ required w0)) as [Hreq|Hreq].
  - left. destruct (kept_controlled _ _ _ _ _ Hk Hreq) as (o & Ho & Hctl). rewrite Ho in Hd.
    destruct (ok_workspace _ Hok _ _ Hw0) as [-> _].
    by apply (drift_delivered ws w0 k o _ _ _ (required_owned _ _ Hws _ _ _ Hreq) Hctl) in Hd.
  - right. right. right. apply (tenant_kept_core _ w0); [done|]. eapply tenant_kept_local; [|done..].
    intros k' key' Hin'. apply Hf. by intros [= -> ->]%list_elem_of_singleton.
Qed.

Lemma mark_other b key key2 p : key2 ≠ key → key2 ∈ p → key2 ∈ mark b key p.
Proof. unfold mark. destruct b; set_solver. Qed.

Lemma mark_true key p : key ∈ mark true key p.
Proof. unfold mark. set_solver. Qed.

(** The request that was worked on. *)
Lemma work_accounted_self r σ σ' key w res w' p l :
  quiet_reconciler r → conflict_free_reconciler r → stored_ok σ → view σ KWorkspace key = Some w →
  exec (Reconcile r key) σ = Some ((res, None), σ') → same_core w w' →
  key ∈ mark (refuses σ key && negb (backfills σ key)) key p ∨ key ∈ mark (backfills σ key) key l ∨ tenant_kept r w' σ'.
Proof.
  intros Hq Hc Hok Hw Hx Hcore. destruct (ok_workspace _ Hok _ _ Hw) as [Hkey _]. unfold backfills. rewrite Hw.
  case_bool_decide as Hb; [right; left; apply mark_true|].
  eapply exec_Reconcile_kept in Hx as [Hr|Hk]; try done.
  - left. rewrite Hr. apply mark_true.
  - right. right. by eapply tenant_kept_core.
Qed.

Lemma stored_ok_ext σ σ' : (∀ k key, view σ' k key = view σ k key) → stored_ok σ → stored_ok σ'.
Proof.
  intros Hv [H1 H2 H3 H4]. split; intros *.
  - rewrite (Hv KWorkspace). apply H1.
  - rewrite !(Hv KWorkspace). apply H2.
  - rewrite (Hv KSecret). apply H3.
  - rewrite (Hv KConfigMap). apply H4.
Qed.

Lemma work_accounted r σ σ' q q' p l key res err :
  quiet_reconciler r → conflict_free_reconciler r →
  exec (Reconcile r key) σ = Some ((res, err), σ') →
  q ∖ {[key]} ⊆ q' → (err ≠ None ∨ RequeueAfter res ≠ 0%Z → key ∈ q') →
  accounted r (mkController σ q p l) →
  accounted r (mkController σ' q' (mark (refuses σ key && negb (backfills σ key)) key p) (mark (backfills σ key) key l)).
Proof.
  intros Hq Hc Hx Hsub Hrep [Hok Hacc]. simpl in *.
  assert (∀ key2 w2, key2 ≠ key → view σ KWorkspace key2 = Some w2 →
    key2 ∈ q' ∨ key2 ∈ mark (refuses σ key && negb (backfills σ key)) key p ∨
    key2 ∈ mark (backfills σ key) key l ∨ tenant_kept r w2 σ) as Hother.
  { intros key2 w2 Hne Hw2. destruct (Hacc _ _ Hw2) as [?|[?|[?|Hk]]];
      [left; set_solver|right; left; by apply mark_other|right; right; left; by apply mark_other|auto]. }
  destruct (view σ KWorkspace key) as [w|] eqn:Hw.
  - destruct (work_stored r σ σ' key w _ Hq Hok Hw Hx) as [Hok' Hback]. split; [done|]. simpl.
    intros key2 w2' (w2 & Hw2 & Hcore)%Hback. destruct (decide (key2 = key)) as [->|Hne].
    + rewrite Hw in Hw2. injection Hw2 as <-. destruct err as [e|]; [by left; apply Hrep; left|].
      right. by eapply work_accounted_self.
    + destruct (Hother _ _ Hne Hw2) as [?|[?|[?|Hk]]]; [auto..|].
      right. right. right. apply (tenant_kept_core _ w2); [done|].
      destruct (ok_workspace _ Hok _ _ Hw) as [Hkey _]. destruct (ok_workspace _ Hok _ _ Hw2) as [Hkey2 _].
      eapply (exec_Reconcile_others r key w w2); try done.
      intros Hn. apply Hne. rewrite Hkey, Hkey2. unfold workspaceKey. by rewrite Hn.
  - pose proof (exec_Reconcile_gone r key σ _ _ Hw Hx) as Hv. split; [by eapply stored_ok_ext|]. simpl.
    intros key2 w2. rewrite (Hv KWorkspace). intros Hw2.
    destruct (Hother key2 w2) as [?|[?|[?|Hk]]]; [congruence|done|auto..|].
    right. right. right. eapply tenant_kept_local, Hk; [intros; apply Hv|apply same_inputs_views; intros; apply Hv].
Qed.

Lemma move_accounted RESTMapping r ws c c' :
  quiet_reconciler r → conflict_free_reconciler r →
  SetupWithManager RESTMapping GenerationChangedPredicate = Ok ws →
  move r ws c c' → accounted r c → accounted r c'.
Proof. intros Hq Hc Hws [] Hacc; [by eapply external_accounted|by eapply work_accounted]. Qed.

Lemma started_accounted r c : started c → accounted r c.
Proof. intros [Hok Hq]. split; [done|]. intros key w Hw. left. by eapply Hq. Qed.

Lemma reachable_accounted RESTMapping r ws c0 c :
  quiet_reconciler r → conflict_free_reconciler r →
  SetupWithManager RESTMapping GenerationChangedPredicate = Ok ws →
  started c0 → rtc (move r ws) c0 c → accounted r c.
Proof.
  intros Hq Hc Hws Hs Hr. apply (started_accounted r) in Hs.
  induction Hr as [c|c c1 c2 Hm Hr IH]; [exact Hs|]. apply IH. by eapply move_accounted.
Qed.

(** ** Properties *)

(** C4. What becomes of every wakeup.  Start the controller on any cluster whose
    workspaces are stored under their names with UIDs of their own, labelled or
    not, and let anybody change anything in any order between its reconciles
    (specs, labels, the objects it manages, the operator's ConfigMap and
    Secret), as long as the API server keeps names, UIDs and generations as it
    does; let reconciles succeed or fail as they may, each reading from a cache
    that has caught up.  At every moment
    each workspace is waiting in the queue, or is kept: its namespace is
    claimed, labelled and in the configured Rancher project, its Helm
    repositories have the URL and credentials of the current operator Secret,
    its members, its deployer, its quota, limits and network policy are as its
    current spec asks.  The only exceptions are the two requests the controller
    itself gives up: the last reconcile met a foreign namespace, or found the
    namespace label missing, put it right and returned without a requeue.  So
    once the queue is empty every tenant is right but for those. *)
Theorem no_lost_wakeup RESTMapping r ws c0 c key w :
  quiet_reconciler r → conflict_free_reconciler r →
  SetupWithManager RESTMapping GenerationChangedPredicate = Ok ws →
  started c0 → rtc (move r ws) c0 c → view (cluster c) KWorkspace key = Some w →
  key ∈ queue c ∨ key ∈ refused c ∨ key ∈ relabelled c ∨ tenant_kept r w (cluster c).
Proof.
  intros Hq Hc Hws Hs Hr Hw.
  destruct (reachable_accounted RESTMapping r ws c0 c Hq Hc Hws Hs Hr) as [_ Hacc]. by apply Hacc.
Qed.

(** C11. Drift is noticed at once.  Whoever changes or deletes an object that a kept
    workspace requires (namespace, Helm repositories, role bindings in use,
    deployer ServiceAccount and binding, quota, limits, network policy), the
    event passes a watch and the handler enqueues that workspace. *)
Theorem drift_noticed RESTMapping r ws σ σ' w k key :
  SetupWithManager RESTMapping GenerationChangedPredicate = Ok ws →
  tenant_kept r w σ → (k, key) ∈ required w →
  noticed ws w (view σ k key) (view σ' k key) σ'.
Proof.
  intros Hws Hk Hreq q Hd. destruct (kept_controlled _ _ _ _ _ Hk Hreq) as (o & Ho & Hctl). rewrite Ho in Hd.
  by apply (drift_delivered ws w k o _ _ _ (required_owned _ _ Hws _ _ _ Hreq) Hctl) in Hd.
Qed.
End wakeups.
