(* ===== verification/Settling.v ===== *)
(** The queue settles: with nothing outside in the way, whichever order the
    worker takes the requests in, every reconcile succeeds, no tenant undoes
    another's, and what was brought right stays right. *)
From S2P Require Import Prelude Errors Prog GoStd Api Effects Cluster Sync Stage Fakes Labels Config.
From S2P Require Import Namespace Rbac Resources Helm Harbor HarborSync Controller Conflicts Status Reconcile.
From S2P Require Import Watches Total Convergence Idempotence Queue Wakeups.

(** ** What a workspace could own, it still can *)

Section yielding.
Context {CL : CtrlLib} {HCL : CtrlLaws} {NL : NetLib}.
Context {W : Type} {CW : Cluster W} {LW : ClusterLaws W}.
Implicit Types (σ : W) (w : Workspace) (r : WorkspaceReconciler).

(** The workspace may put its controller reference there. *)
Definition refs_ownable w {P} (o : object P) : Prop :=
  ∃ refs, SetControllerReference (W_Name w) (W_UID w) (Meta_OwnerReferences (metadata o)) = Ok refs.

(** The mutate function never takes that from it. *)
Definition leaves_ownable w {k} (f : obj k → result (obj k)) : Prop :=
  ∀ before sent, f before = Ok sent → refs_ownable w before → refs_ownable w sent.

(** The event writes nothing but workspaces and objects it leaves ownable. *)
Definition yielding w (o : obs sysE) : Prop :=
  match o with
  | Obs e _ => match e with CreateOrUpdateE k _ f => leaves_ownable w f | _ => True end
  end.

#[export] Instance writes_dec o k key : Decision (writes o k key).
Proof. destruct o as [X [] x]; simpl; apply _. Defined.

(** Nothing became somebody else's. *)
Definition still_ownable w σ σ' : Prop :=
  ∀ k key, k ≠ KWorkspace → ownable w key (view σ k key) → ownable w key (view σ' k key).

#[export] Instance still_ownable_preorder w : PreOrder (still_ownable w).
Proof. split; [by intros ????|]. intros σ1 σ2 σ3 H1 H2 k key Hk Ho. by apply H2, H1. Qed.

Lemma ownable_written w {k} key f (before : option (obj k)) res after :
  leaves_ownable w f → create_or_update key f before res after → ownable w key before → ownable w key after.
Proof.
  intros Hf Hc Ho. inversion Hc as [| ? ? sent kept _ Hs Hp | | | ? sent kept Hs _ Hp]; subst; try done;
    destruct (Hf _ _ Hs Ho) as [refs Hr]; exists refs; by rewrite <-Hr, <-(persisted_owners _ _ Hp).
Qed.

Lemma yielding_event w X (e : sysE X) σ x σ' :
  serve X e σ = Some (x, σ') → yielding w (Obs e x) → still_ownable w σ σ'.
Proof.
  intros Hs Hy k key Hk Ho.
  destruct (decide (writes (Obs e x) k key)) as [Hw|Hw]; [|by rewrite (serve_frame _ _ _ _ _ _ _ Hs Hw)].
  destruct e; simpl in Hw; try done; try (by destruct Hw as [-> _]); destruct Hw as [-> ->].
  - apply serve_delete in Hs. unfold deletion in Hs. destruct x as [|err]; [rewrite Hs; apply ownable_absent|].
    destruct (IsNotFound err); [destruct Hs as [_ ->]; apply ownable_absent|].
    destruct Hs as [_ [->| ->]]; [done|apply ownable_absent].
  - apply serve_create_or_update in Hs. by eapply ownable_written.
Qed.

Lemma quiet_yielding w {A} (p : io A) : emits quiet p → emits (yielding w) p.
Proof.
  apply emits_impl. intros [X [] x] Hq; try done. by destruct (Hq k key).
Qed.

Lemma yielding_own w k key (g : obj k → obj k) message :
  emits (yielding w) (wrap message (CreateOrUpdate k key (fun o => own w (g o)))).
Proof.
  apply emits_wrap, emits_trigger. intros x before sent Hs%own_idem _.
  apply own_Ok in Hs as (refs & Hr & _). by exists refs.
Qed.

Lemma yielding_sync w k key (g : obj k → obj k) message :
  emits (yielding w) (wrap message (CreateOrUpdate k key (fun o => own w (g o))) ;;? okR tt).
Proof. apply emits_bindR; [apply yielding_own|done]. Qed.

Lemma yielding_delete w k key message : emits (yielding w) (deleteIfPresent k key message).
Proof. by apply emits_wrap, emits_fmap, emits_trigger. Qed.

Lemma yielding_namespace w version : emits (yielding w) (ReconcileNamespace w version).
Proof.
  apply emits_bindR; [|intros data].
  - apply emits_bind; [by apply emits_trigger|]. intros [|e]; [done|]. by destruct (IsNotFound e).
  - apply emits_bindR; [|done]. apply emits_wrap, emits_trigger. intros x before sent Hs _.
    rewrite namespaceMutate_eq in Hs. case_decide; [done|]. apply own_idem, own_Ok in Hs as (refs & Hr & _).
    by exists refs.
Qed.

Lemma yielding_ReconcileHarbor w version hc url `{!QuietClient hc} :
  emits (yielding w) (ReconcileHarbor w version hc url).
Proof.
  apply emits_bindR; [by apply quiet_yielding, emits_wrap, EnsureProject_quiet|intros _].
  apply emits_bindR; [by apply quiet_yielding, emits_wrap, ReconcileProjectMembers_quiet|intros missing].
  apply emits_bindR; [by apply quiet_yielding, robotCredentials_quiet|intros creds].
  apply emits_bindR; [|intros _; apply emits_bindR; [|done]].
  - destruct creds as [creds|]; [|done]. unfold reconcileImagePullSecret.
    destruct (buildDockerConfigJSON _ _ _); [apply yielding_sync|done].
  - apply emits_bindR; [|done]. apply emits_wrap, emits_trigger. intros x before sent Hs Ho.
    unfold ensureImagePullSecretMutate in Hs. destruct (existsb _ _); by injection Hs as <-.
Qed.

Lemma yielding_inner_sync r w creds : quiet_reconciler r → emits (yielding w) (inner_sync r w creds).
Proof.
  intros Hq. pose proof (harborClient_quiet r creds Hq). unfold inner_sync.
  apply emits_bindR; [by apply yielding_ReconcileHarbor|intros missing].
  apply emits_bindR; [|intros _].
  { apply emits_forR. intros source. unfold reconcileHelmSource.
    destruct (buildHelmRepositoryURL _ _) as [[repoURL insecure]|]; [apply yielding_sync|done]. }
  apply emits_bindR; [|intros _].
  { apply emits_forR. intros role. unfold reconcileRoleBinding.
    case_bool_decide; [apply yielding_delete|apply yielding_sync]. }
  apply emits_bindR; [apply emits_bindR; [apply yielding_own|intros _; apply yielding_sync]|intros _].
  apply emits_bindR; [|intros _].
  { unfold ReconcileResourceQuota. destruct (Spec_ResourceQuota _); [apply yielding_sync|apply yielding_delete]. }
  apply emits_bindR; [|intros _].
  { unfold ReconcileLimitRange. destruct (Spec_LimitRange _); [apply yielding_sync|apply yielding_delete]. }
  apply emits_bindR; [|done]. unfold ReconcileNetworkIsolation.
  destruct (Isolation_Enabled _); [apply yielding_sync|apply yielding_delete].
Qed.

Lemma yielding_reconcileResources r w : quiet_reconciler r → emits (yielding w) (reconcileResources r w).
Proof.
  intros Hq. rewrite reconcileResources_inner.
  apply emits_bindR; [apply yielding_namespace|intros _]. apply emits_bindR; [|intros creds; by apply yielding_inner_sync].
  apply emits_bindR; [by apply emits_wrap, emits_trigger|]. intros s.
  cbv zeta. by case_bool_decide.
Qed.

(** However a reconcile ends, what its workspace could own it still can. *)
Lemma exec_Reconcile_ownable r key w σ res σ' :
  quiet_reconciler r → view σ KWorkspace key = Some w → ¬ needs_backfill w →
  exec (Reconcile r key) σ = Some (res, σ') → still_ownable w σ σ'.
Proof.
  intros Hq Hw Hb [(e & _ & Hv)|(synced & σ0 & σ1 & Hv & Hs & [Hf _] & _)]%(exec_Reconcile _ _ w); [| |done..];
    intros k key' Hk Ho.
  - by rewrite Hv.
  - rewrite Hf by (by intros [= -> _]%list_elem_of_singleton).
    eapply (exec_rel (still_ownable w) (yielding w)); [|by eapply yielding_reconcileResources|done|done|by rewrite Hv].
    intros X e. apply yielding_event.
Qed.
End yielding.

(** ** Nothing stands in the way, and nothing comes to *)

Section clear.
Context {CL : CtrlLib} {HCL : CtrlLaws} {NL : NetLib} {HNL : NetLaws}.
Context {W : Type} {CW : Cluster W} {LW : ClusterLaws W}.
Implicit Types (σ : W) (w : Workspace) (r : WorkspaceReconciler).

(** What admission and the cluster's administrators see to. *)
Record clear creds σ : Prop := {
  clear_stored : stored_ok σ;
  (** every stored workspace carries its namespace label *)
  clear_labelled key w : view σ KWorkspace key = Some w → ¬ needs_backfill w;
  clear_namespaces key1 key2 w1 w2 :
    view σ KWorkspace key1 = Some w1 → view σ KWorkspace key2 = Some w2 → W_Namespace w1 = W_Namespace w2 → key1 = key2;
  clear_unobstructed key w : view σ KWorkspace key = Some w → unobstructed w creds σ;
}.

(** Harbor does its work for all of their projects. *)
Definition served_by r creds σ : Prop :=
  ∀ key w, view σ KWorkspace key = Some w → cooperative_reconciler r creds w.

(** The workspace stored under a key, and that its tenant is as its spec asks. *)
Definition served r url (key : ObjectKey) σ : Prop :=
  ∀ w, view σ KWorkspace key = Some w → tenant_ready r w url σ ∧ tenant_kept r w σ.

(** The same of the part a change would be noticed in. *)
Definition kept_at r (key : ObjectKey) σ : Prop := ∀ w, view σ KWorkspace key = Some w → tenant_kept r w σ.

Lemma owned_tenant w : owned_footprint w ⊆ tenant_footprint w.
Proof.
  unfold owned_footprint, tenant_footprint, inner_footprint, harbor_footprint. intros x.
  rewrite !elem_of_app, !elem_of_cons, !elem_of_app, !elem_of_cons. naive_solver.
Qed.

(** Another tenant's reconcile. *)
Lemma frame_other key w w2 σ σ' :
  frame ((KWorkspace, key) :: tenant_footprint w) σ σ' → W_Namespace w ≠ W_Namespace w2 →
  ∀ k key', (k, key') ∈ tenant_footprint w2 ++ inputs → view σ' k key' = view σ k key'.
Proof.
  intros Hf Hne k key' [Hin|Hin]%elem_of_app; apply Hf; intros [[= -> ->]|Ht]%elem_of_cons.
  - by apply tenant_footprint_namespace in Hin as [? _].
  - apply tenant_footprint_namespace in Hin as [_ Hin]. apply tenant_footprint_namespace in Ht as [_ Ht].
    case_decide; [|congruence]. rewrite Hin in Ht. by injection Ht.
  - unfold inputs in Hin. by apply elem_of_cons in Hin as [[=]|[=]%list_elem_of_singleton].
  - by eapply inputs_not_tenant.
Qed.

Lemma unobstructed_on w creds σ σ' :
  (∀ k key, (k, key) ∈ tenant_footprint w ++ inputs → view σ' k key = view σ k key) →
  unobstructed w creds σ → unobstructed w creds σ'.
Proof.
  intros Hv [Hns (s & Hs & Hc) Ho]. split.
  - unfold namespace_free. rewrite Hv; [done|]. apply elem_of_app. left. apply elem_of_cons. by left.
  - exists s. rewrite Hv; [done|]. apply elem_of_app. right. apply elem_of_cons. by left.
  - intros k key Hk. rewrite Hv; [by apply Ho|]. apply elem_of_app. left. by apply owned_tenant.
Qed.

(** Only the status of stored workspaces changes. *)
Definition same_workspaces σ σ' : Prop :=
  ∀ key, restated (view σ KWorkspace key) (view σ' KWorkspace key).

Lemma exec_Reconcile_workspaces r key w σ res σ' :
  quiet_reconciler r → view σ KWorkspace key = Some w → key = workspaceKey w → ¬ needs_backfill w →
  exec (Reconcile r key) σ = Some (res, σ') → same_workspaces σ σ'.
Proof.
  intros Hq Hw Hkey Hb [Hf Hr]%(exec_Reconcile_frame r key w); [|done..]. intros key2.
  destruct (decide (key2 = key)) as [->|Hne]; [by rewrite Hw|left].
  apply (Hf KWorkspace key2). intros [[= ->]|[? _]%tenant_footprint_namespace]%elem_of_cons; done.
Qed.

(** A stored workspace is one stored before, but for its status. *)
Lemma same_workspaces_back σ σ' key w' :
  same_workspaces σ σ' → view σ' KWorkspace key = Some w' →
  ∃ w, view σ KWorkspace key = Some w ∧ ∀ P : Workspace → Prop, (∀ status, P w → P (set_W_Status status w)) → P w → P w'.
Proof.
  intros Hs Hw'. destruct (Hs key) as [Heq|(w & st & Hw & Heq)]; rewrite Hw' in Heq.
  - exists w'. by rewrite <-Heq.
  - exists w. injection Heq as ->. by auto.
Qed.

Lemma served_by_same r creds σ σ' : same_workspaces σ σ' → served_by r creds σ → served_by r creds σ'.
Proof.
  intros Hs Hb key w' (w & Hw & HP)%(same_workspaces_back _ _ _ _ Hs). by apply (HP (cooperative_reconciler r creds)), (Hb key).
Qed.

Lemma same_workspaces_ns σ σ' key w' :
  same_workspaces σ σ' → view σ' KWorkspace key = Some w' →
  ∃ w, view σ KWorkspace key = Some w ∧ W_Namespace w = W_Namespace w'.
Proof.
  intros Hs (w & Hw & HP)%(same_workspaces_back _ _ _ _ Hs). exists w. split; [done|].
  by apply (HP (fun x => W_Namespace w = W_Namespace x)).
Qed.

(** The status matters to none of these. *)
Lemma controlled_status {P} w status (o : object P) : controlled w o → controlled (set_W_Status status w) o.
Proof. by intros [? ?]; split. Qed.

Lemma unobstructed_status w creds σ status : unobstructed w creds σ → unobstructed (set_W_Status status w) creds σ.
Proof. by intros [? ? ?]; split. Qed.

Lemma tenant_ready_status r w url σ status : tenant_ready r w url σ → tenant_ready r (set_W_Status status w) url σ.
Proof.
  pose proof (fun P (o : object P) => controlled_status w status o) as Hctl.
  pose proof (fun k spec o => matches_spec_core (k := k) spec (Version r) w (set_W_Status status w) o (conj eq_refl (conj eq_refl eq_refl))) as Hspec.
  intros [(ns & ? & ? & ? & ?) [(s & ?) (sa & ? & ?)] Hh Hb [(da & ? & ? & ?) (db & ? & ? & ?)] Hq Hl Hp].
  split; [exists ns| | | |split|..]; eauto 10.
  - split; [by exists s|by exists sa].
  - intros source Hin. destruct (Hh source Hin) as (scheme & host & repo & ? & ? & ? & ? & ? & ?).
    exists scheme, host, repo. eauto 10.
  - intros role Hin. specialize (Hb role Hin). unfold binding_ok in *.
    change (W_Members (set_W_Status status w)) with (W_Members w).
    destruct (members_with role (W_Members w)); [done|]. destruct Hb as (x & ? & ? & ? & ?). exists x. eauto.
Qed.

Lemma served_status r w url σ status :
  tenant_ready r w url σ ∧ tenant_kept r w σ →
  tenant_ready r (set_W_Status status w) url σ ∧ tenant_kept r (set_W_Status status w) σ.
Proof. intros [? Hk]. split; [by apply tenant_ready_status|]. apply (tenant_kept_core _ w); [done|exact Hk]. Qed.

(** Who is served as stored now was served as stored before. *)
Lemma served_restated r url key w σ σ' :
  view σ KWorkspace key = Some w → same_workspaces σ σ' → served r url key σ' →
  (∃ w', view σ' KWorkspace key = Some w' ∧ same_core w w') ∧ tenant_ready r w url σ' ∧ tenant_kept r w σ'.
Proof.
  intros Hw Hs Hserved. destruct (Hs key) as [Heq|(w0 & st & Hw0 & Heq)]; rewrite Hw in *.
  - split; [by exists w|by apply Hserved].
  - injection Hw0 as <-. split; [by exists (set_W_Status st w)|].
    assert (w = set_W_Status (W_Status w) (set_W_Status st w)) as -> by by destruct w as [? []].
    by apply served_status, Hserved.
Qed.

Lemma kept_restated r key w σ σ' :
  view σ KWorkspace key = Some w → same_workspaces σ σ' → kept_at r key σ' → tenant_kept r w σ'.
Proof.
  intros Hw Hs Hkept. destruct (Hs key) as [Heq|(w0 & st & Hw0 & Heq)]; rewrite Hw in *; [by apply Hkept|].
  injection Hw0 as <-. apply (tenant_kept_core _ (set_W_Status st w)); [done|by apply Hkept].
Qed.

Lemma kept_on r w σ σ' :
  (∀ k key, (k, key) ∈ tenant_footprint w ++ inputs → view σ' k key = view σ k key) →
  tenant_kept r w σ → tenant_kept r w σ'.
Proof.
  intros Hv. apply tenant_kept_local.
  - intros k key Hin. apply Hv, elem_of_app. left. by apply required_tenant.
  - apply same_inputs_views. intros k key Hin. apply Hv, elem_of_app. by right.
Qed.

Lemma served_on r w url σ σ' :
  (∀ k key, (k, key) ∈ tenant_footprint w ++ inputs → view σ' k key = view σ k key) →
  tenant_ready r w url σ ∧ tenant_kept r w σ → tenant_ready r w url σ' ∧ tenant_kept r w σ'.
Proof.
  intros Hv [Hr Hk]. split; [|by eapply kept_on].
  eapply tenant_ready_on; [|done]. intros k key Hin. apply Hv, elem_of_app. by left.
Qed.

(** The tenant's own namespace is no foreign one once it is kept. *)
Lemma kept_free r w creds σ σ' :
  unobstructed w creds σ → still_ownable w σ σ' → view σ' KSecret operatorSecretKey = view σ KSecret operatorSecretKey →
  tenant_kept r w σ' → unobstructed w creds σ'.
Proof.
  intros [[Hns _] (s & Hs & Hc) Ho] Hstill Hsec Hk. split.
  - split; [by apply Hstill|]. destruct (kept_namespace _ _ _ Hk) as (ns & Hn & Hctl & _).
    intros ns' Hn'. rewrite Hn in Hn'. injection Hn' as <-. apply owned_not_foreign, Hctl.
  - exists s. by rewrite Hsec.
  - intros k key Hin. apply Hstill; [|by apply Ho]. by apply owned_tenant, tenant_footprint_namespace in Hin as [? _].
Qed.

Lemma clear_refuses creds σ key : clear creds σ → refuses σ key = false.
Proof.
  intros [_ _ _ Hun]. unfold refuses. destruct (view σ KWorkspace key) as [w|] eqn:Hw; [|done].
  destruct (Hun _ _ Hw) as [[_ Hf] _ _]. destruct (view σ KNamespace _) as [ns|]; [|done].
  apply bool_decide_eq_false. by apply Hf.
Qed.

Lemma clear_ext creds σ σ' : (∀ k key, view σ' k key = view σ k key) → clear creds σ → clear creds σ'.
Proof.
  intros Hv [Hok Hl Hns Hun]. split; [by eapply stored_ok_ext|..]; intros *; rewrite ?Hv; eauto.
  intros Hw. eapply unobstructed_ext; [done|by eapply Hun].
Qed.

(** What a request for [key] brings: its workspace is served, whoever was served
    or kept still is, and nothing comes to stand in the way. *)
Record advances r creds key σ σ' : Prop := {
  adv_clear : clear creds σ';
  adv_workspaces : same_workspaces σ σ';
  adv_served : served r (Harbor_URL creds) key σ';
  adv_others key2 : served r (Harbor_URL creds) key2 σ → served r (Harbor_URL creds) key2 σ';
  adv_kept key2 : kept_at r key2 σ → kept_at r key2 σ';
}.

Lemma advances_absent r creds key σ σ' :
  view σ KWorkspace key = None → (∀ k key, view σ' k key = view σ k key) → clear creds σ → advances r creds key σ σ'.
Proof.
  intros Hw Hv Hc. split; [by eapply clear_ext|intros key2; left; apply (Hv KWorkspace)|..].
  - intros w. by rewrite (Hv KWorkspace), Hw.
  - intros key2 Hs w. rewrite (Hv KWorkspace). intros [Hr Hk]%Hs.
    eapply served_on; [|done]. intros; apply Hv.
  - intros key2 Hs w. rewrite (Hv KWorkspace). intros Hk%Hs. eapply kept_on; [|done]. intros; apply Hv.
Qed.

Lemma advances_stored r creds key w σ σ' :
  clear creds σ → view σ KWorkspace key = Some w → stored_ok σ' →
  frame ((KWorkspace, key) :: tenant_footprint w) σ σ' → same_workspaces σ σ' → still_ownable w σ σ' →
  tenant_ready r w (Harbor_URL creds) σ' → tenant_kept r w σ' → advances r creds key σ σ'.
Proof.
  intros Hc Hw Hstored Hf Hsame Hown Hready Hkept.
  assert (∀ key2 w2, key2 ≠ key → view σ KWorkspace key2 = Some w2 →
    ∀ k key', (k, key') ∈ tenant_footprint w2 ++ inputs → view σ' k key' = view σ k key') as Hother.
  { intros key2 w2 Hne Hw2. eapply frame_other; [done|]. intros Heq. apply Hne.
    symmetry. by apply (clear_namespaces _ _ Hc _ _ _ _ Hw Hw2). }
  assert (view σ' KSecret operatorSecretKey = view σ KSecret operatorSecretKey) as Hsec.
  { apply Hf. intros [[=]|Hin]%elem_of_cons. eapply (inputs_not_tenant w); [|exact Hin]. by left. }
  assert (served r (Harbor_URL creds) key σ') as Hserved.
  { intros w1' (w1 & Hw1 & HP)%(same_workspaces_back _ _ _ _ Hsame). rewrite Hw in Hw1. injection Hw1 as <-.
    apply (HP (fun x => tenant_ready r x _ σ' ∧ tenant_kept r x σ')); [intros ?; apply served_status|done]. }
  split; [split|..]; [done| | | |done|done|..].
  - intros key2 w2' (w2 & Hw2 & HP)%(same_workspaces_back _ _ _ _ Hsame).
    apply (HP (fun x => ¬ needs_backfill x)); [done|by eapply clear_labelled].
  - intros key1 key2 w1' w2' (w1 & H1 & <-)%(same_workspaces_ns _ _ _ _ Hsame) (w2 & H2 & <-)%(same_workspaces_ns _ _ _ _ Hsame).
    by apply (clear_namespaces _ _ Hc).
  - intros key2 w2' (w2 & Hw2 & HP)%(same_workspaces_back _ _ _ _ Hsame).
    apply (HP (fun x => unobstructed x creds σ')); [apply unobstructed_status|].
    destruct (decide (key2 = key)) as [->|Hne].
    + rewrite Hw in Hw2. injection Hw2 as <-. by eapply kept_free, Hkept; [eapply clear_unobstructed|..].
    + eapply unobstructed_on; [by eapply Hother|by eapply clear_unobstructed].
  - intros key2 Hserved2. destruct (decide (key2 = key)) as [->|Hne]; [done|].
    intros w2' (w2 & Hw2 & HP)%(same_workspaces_back _ _ _ _ Hsame).
    apply (HP (fun x => tenant_ready r x _ σ' ∧ tenant_kept r x σ')); [intros ?; apply served_status|].
    eapply served_on; [by eapply Hother|by apply Hserved2].
  - intros key2 Hkept2. destruct (decide (key2 = key)) as [->|Hne]; [by intros w1 []%Hserved|].
    intros w2' (w2 & Hw2 & HP)%(same_workspaces_back _ _ _ _ Hsame).
    apply (HP (fun x => tenant_kept r x σ')); [intros ?; by apply tenant_kept_core|].
    eapply kept_on; [by eapply Hother|by apply Hkept2].
Qed.
End clear.

(** ** The worker *)

Section drain.
Context {CL : CtrlLib} {NL : NetLib} {W : Type} {CW : Cluster W}.
Implicit Types (σ : W) (r : WorkspaceReconciler).

Definition outcome : Type := Result * option error.

(** One request after the other. *)
Fixpoint drain r (requests : list ObjectKey) σ : option (list (ObjectKey * outcome) * W) :=
  match requests with
  | [] => Some ([], σ)
  | key :: requests =>
      '(o, σ1) ← exec (Reconcile r key) σ;
      '(os, σ2) ← drain r requests σ1;
      Some ((key, o) :: os, σ2)
  end.

(** The request comes back, at once or after a delay. *)
Definition comes_back (o : ObjectKey * outcome) : bool :=
  match o.2 with
  | (_, Some _) => true
  | (res, None) => bool_decide (RequeueAfter res ≠ 0%Z)
  end.

Definition delayed (os : list (ObjectKey * outcome)) : gset ObjectKey :=
  list_to_set (fst <$> filter (fun o => comes_back o = true) os).
End drain.

Section settling.
Context {CL : CtrlLib} {HCL : CtrlLaws} {NL : NetLib} {HNL : NetLaws}.
Context {W : Type} {CW : Cluster W} {LW : ClusterLaws W} {CO : Cooperative W} {HA : Answering (serve (W := W))}.
Implicit Types (σ : W) (w : Workspace) (r : WorkspaceReconciler).

(** A request for a workspace that is gone ends quietly. *)
Lemma exec_Reconcile_absent r key σ res σ' :
  view σ KWorkspace key = None → exec (Reconcile r key) σ = Some (res, σ') →
  res = (reconciled_result [], None) ∧ ∀ k key', view σ' k key' = view σ k key'.
Proof.
  intros Hn Hx. split; [|by eapply exec_Reconcile_gone]. apply exec_bind in Hx as (got & σ1 & Hg & Hx).
  destruct (exec_get KWorkspace _ _ _ _ Hg) as [Hr _]. apply exec_trigger in Hg.
  destruct got as [w|e]; [congruence|]. apply (coop_get KWorkspace) in Hg. rewrite Hg in Hx. by exec_inv.
Qed.

(** One request. *)
Lemma settle_step r creds key σ :
  quiet_reconciler r → conflict_free_reconciler r → total_reconciler serve r → served_by r creds σ →
  is_Ok (url_Parse (Harbor_URL creds)) = true → clear creds σ →
  ∃ missing σ', exec (Reconcile r key) σ = Some ((reconciled_result missing, None), σ') ∧ advances r creds key σ σ'.
Proof.
  intros Hq Hcf Ht Hco Hurl Hc.
  destruct (Reconcile_total serve r key Ht σ) as ([res err] & σ' & Hx).
  change (exec (Reconcile r key) σ = Some ((res, err), σ')) in Hx.
  destruct (view σ KWorkspace key) as [w|] eqn:Hw.
  - destruct (ok_workspace _ (clear_stored _ _ Hc) _ _ Hw) as [Hkey _].
    pose proof (clear_labelled _ _ Hc _ _ Hw) as Hb.
    pose proof (clear_unobstructed _ _ Hc _ _ Hw) as Hun.
    destruct (Reconcile_outcome r key w creds σ res err σ' Hq (Hco _ _ Hw) Hw Hb Hun Hurl Hx) as (missing & [= -> ->] & Hready).
    exists missing, σ'. split; [done|]. eapply advances_stored; try done.
    + apply (work_stored _ _ _ _ _ _ Hq (clear_stored _ _ Hc) Hw Hx).
    + by apply (exec_Reconcile_frame _ _ _ _ _ _ Hq Hw Hkey Hb Hx).
    + by eapply exec_Reconcile_workspaces.
    + by eapply exec_Reconcile_ownable.
    + destruct (exec_Reconcile_kept _ _ _ _ _ _ Hq Hcf Hw Hkey Hb Hx) as [Hr|Hkept]; [by rewrite (clear_refuses creds) in Hr|done].
  - destruct (exec_Reconcile_absent _ _ _ _ _ Hw Hx) as [[= -> ->] Hv]. exists [], σ'. split; [done|by apply advances_absent].
Qed.

(** The whole queue, in any order, repeats included. *)
Lemma drain_settles r creds requests σ :
  quiet_reconciler r → conflict_free_reconciler r → total_reconciler serve r → served_by r creds σ →
  is_Ok (url_Parse (Harbor_URL creds)) = true → clear creds σ →
  ∃ os σ', drain r requests σ = Some (os, σ') ∧ os.*1 = requests ∧
    (∀ o, o ∈ os → ∃ missing, o.2 = (reconciled_result missing, None)) ∧
    clear creds σ' ∧ same_workspaces σ σ' ∧
    (∀ key, key ∈ requests ∨ served r (Harbor_URL creds) key σ → served r (Harbor_URL creds) key σ') ∧
    (∀ key, kept_at r key σ → kept_at r key σ').
Proof.
  intros Hq Hcf Ht Hco Hurl Hc. revert σ Hco Hc. induction requests as [|key requests IH]; intros σ Hco Hc.
  - exists [], σ. split_and!; [done..|by intros ? ?%elem_of_nil|done|by left| |done]. by intros key [?%elem_of_nil|?].
  - destruct (settle_step r creds key σ Hq Hcf Ht Hco Hurl Hc) as (missing & σ1 & Hx & [Hc1 Hs1 Hkey Hkeep Hkept]).
    destruct (IH σ1 (served_by_same _ _ _ _ Hs1 Hco) Hc1) as (os & σ' & Hd & Hkeys & Hos & Hc' & Hs' & Hserved & Hkept').
    exists ((key, (reconciled_result missing, None)) :: os), σ'. split_and!.
    + simpl. rewrite Hx. simpl. by rewrite Hd.
    + rewrite fmap_cons. by rewrite Hkeys.
    + intros o [->|Ho]%elem_of_cons; [by exists missing|by apply Hos].
    + done.
    + intros key2. etrans; [apply Hs1|apply Hs'].
    + intros key2 [[->|Hin]%elem_of_cons|Hk]; apply Hserved; auto.
    + auto.
Qed.

(** Working the queue off is a sequence of moves of the controller. *)
Lemma drain_moves `{EL : EventLib} r ws requests σ q p l os σ' :
  drain r requests σ = Some (os, σ') →
  ∃ p' l', rtc (move r ws) (mkController σ (list_to_set requests ∪ q) p l) (mkController σ' (delayed os ∪ q) p' l').
Proof.
  revert σ q p l os. induction requests as [|key requests IH]; intros σ q p l os; simpl.
  - intros [= <- <-]. by exists p, l.
  - destruct (exec (Reconcile r key) σ) as [[[res err] σ1]|] eqn:Hx; [|done]. simpl.
    destruct (drain r requests σ1) as [[os1 σ2]|] eqn:Hd; [|done]. intros [= <- <-].
    set (back := comes_back (key, (res, err))).
    destruct (IH σ1 (if back then {[key]} ∪ q else q) (mark (refuses σ key && negb (backfills σ key)) key p)
      (mark (backfills σ key) key l) _ Hd) as (p' & l' & Hm).
    exists p', l'. eapply rtc_l.
    + apply (move_work r ws σ σ1 _ (list_to_set requests ∪ if back then {[key]} ∪ q else q) p l key res err);
        [set_solver|done|destruct back; set_solver|].
      intros Hback. assert (back = true) as ->; [|set_solver]. unfold back, comes_back. simpl.
      destruct err as [e|]; [done|]. apply bool_decide_eq_true. naive_solver.
    + replace (delayed ((key, (res, err)) :: os1) ∪ q) with (delayed os1 ∪ (if back then {[key]} ∪ q else q)); [done|].
      apply leibniz_equiv. unfold delayed. rewrite filter_cons. fold back. destruct back; simpl; set_solver.
Qed.

(** ** Property *)

Context {EL : EventLib} {HEL : EventLaws} {CaW : CacheLaws W}.

End settling.
