(* ===== verification/EndToEnd.v ===== *)
(** From admission to access: the webhooks of internal/webhook/v1alpha1, the schema
    of api/v1alpha1, and the controller of internal/controller, composed.

    [hosts] links the two views of the cluster: the stored workspaces that System.v
    follows through admission are the ones Settling.v reconciles. *)
From S2P Require Import Prelude Errors Prog GoStd Api Effects Cluster Sync Stage Fakes Labels Config.
From S2P Require Import Namespace Rbac Resources Helm Authorization Harbor HarborSync Webhook Controller Conflicts Status.
From S2P Require Import Reconcile Crd System Watches Total Convergence Idempotence Queue Wakeups Settling.

Section host.
Context {CL : CtrlLib} {HCL : CtrlLaws} {NL : NetLib} {HNL : NetLaws}.
Context {W : Type} {CW : Cluster W} {LW : ClusterLaws W}.
Implicit Types (σ : W) (w : Workspace) (r : WorkspaceReconciler) (s : system).

(** What the API server sees to: a Workspace is cluster-scoped and stored under its
    name, UIDs are its own, an object has the name it is found under. *)
Record hosts s σ : Prop := {
  host_workspace key w :
    view σ KWorkspace key = Some w ↔ key = mkKey "" (Key_Name key) ∧ stored s !! Key_Name key = Some w;
  host_scope key w : view σ KWorkspace key = Some w → Meta_Namespace (metadata w) = "";
  host_uid key1 key2 w1 w2 : view σ KWorkspace key1 = Some w1 → view σ KWorkspace key2 = Some w2 →
    W_UID w1 = W_UID w2 → key1 = key2;
  host_secret x : view σ KSecret operatorSecretKey = Some x → ObjectKeyFromObject (Any KSecret x) = operatorSecretKey;
  host_config x : view σ KConfigMap operatorConfigKey = Some x →
    ObjectKeyFromObject (Any KConfigMap x) = operatorConfigKey;
}.

(** What admission lets through needs no backfill and shares no namespace. *)
Lemma admitted_clear s σ creds :
  serial_ok s → hosts s σ → (∀ key w, view σ KWorkspace key = Some w → unobstructed w creds σ) → clear creds σ.
Proof.
  intros (Hok & _ & Hun) [Hw Hscope Huid Hsec Hcfg] Hfree.
  split; [split|..]; [|exact Huid|exact Hsec|exact Hcfg| | |exact Hfree].
  - intros key w Hv. pose proof (Hscope _ _ Hv) as Hs. apply Hw in Hv as [Hkey Hst].
    destruct (ok_stored _ Hok _ _ Hst) as (Hn & _ & _). split; [|done]. unfold workspaceKey. by rewrite Hn.
  - intros key w Hv. apply Hw in Hv as [_ Hst]. apply (ok_stored _ Hok _ _ Hst).
  - intros key1 key2 w1 w2 [-> H1]%Hw [-> H2]%Hw Hns. f_equal. by eapply (unique_stored _ Hun).
Qed.

End host.

(** ** Property *)

Section property.
Context {CL : CtrlLib} {HCL : CtrlLaws} {NL : NetLib} {HNL : NetLaws}.
Context {W : Type} {CW : Cluster W} {LW : ClusterLaws W} {CO : Cooperative W} {HA : Answering (serve (W := W))}.
Implicit Types (σ : W) (w : Workspace) (r : WorkspaceReconciler) (s : system).

(** C6. What users are admitted to is what they get.  Let workspaces be created, one
    creation at a time, updated and deleted by anybody, through the webhooks and
    the schema, and let the cluster store what came of it.  Suppose that nothing
    stands in the way: each namespace is free or the workspace's own, no object
    to be written is under somebody else's control, the operator's Secret is
    complete and its registry URL parses, the reconciler's cache has caught up,
    and the API server and Harbor answer and cooperate.  Then the controller works
    through a queue with all of them, in any order, and afterwards every stored
    workspace has a namespace it controls and shares with no other workspace, its
    members hold exactly the roles of their entries there and nobody else holds
    any, one of them is an admin whom the webhook will let change the workspace,
    and the default ServiceAccount lists a pull Secret that exists (when it also
    holds the robot's credentials is said in Pulls.v). *)
Theorem admitted_workspaces_served r creds requests s σ :
  quiet_reconciler r → conflict_free_reconciler r → total_reconciler serve r → served_by r creds σ →
  is_Ok (url_Parse (Harbor_URL creds)) = true →
  rtc serial_step initial s → hosts s σ → (∀ key w, view σ KWorkspace key = Some w → unobstructed w creds σ) →
  (∀ name, is_Some (stored s !! name) → mkKey "" name ∈ requests) →
  ∃ os σ', drain r requests σ = Some (os, σ') ∧ ∀ name w, stored s !! name = Some w →
    (∃ ns, view σ' KNamespace (namespaceKey w) = Some ns ∧ controlled w ns) ∧
    (∀ name2 w2, stored s !! name2 = Some w2 → namespaceKey w2 = namespaceKey w → name2 = name) ∧
    (∀ role user, role ∈ AllMemberRoles →
       granted σ' w role user ↔ ∃ m, m ∈ W_Members w ∧ Member_Role m = role ∧ Member_Subject m = user) ∧
    (∃ user, granted σ' w MemberRoleAdmin user ∧ isWorkspaceAdmin user w = true) ∧
    pull_configured w σ'.
Proof.
  intros Hq Hcf Ht Hco Hurl Hs Hh Hfree Hall. apply serial_reachable_ok in Hs as Hok.
  pose proof (admitted_clear s σ creds Hok Hh Hfree) as Hc.
  destruct (drain_settles r creds requests σ Hq Hcf Ht Hco Hurl Hc) as (os & σ' & Hd & _ & _ & _ & Hsame & Hserved & _).
  exists os, σ'. split; [done|]. intros name w Hw.
  assert (view σ KWorkspace (mkKey "" name) = Some w) as Hv by by apply (host_workspace _ _ Hh).
  destruct (served_restated r _ _ w σ σ' Hv Hsame (Hserved _ (or_introl (Hall _ (ex_intro _ w Hw))))) as (_ & Hready & Hkept).
  destruct (ok_stored _ (proj1 Hok) _ _ Hw) as (_ & _ & Hwf).
  destruct (ready_grants_everyone r w _ σ' (wellformed_spec _ Hwf) Hready) as (Hgrant & Honly & Hadmin).
  split_and!.
  - destruct (kept_namespace _ _ _ Hkept) as (ns & Hns & Hctl & _). by exists ns.
  - intros name2 w2 Hw2 [= Hns]. by apply (unique_stored _ (proj2 (proj2 Hok)) _ _ _ _ Hw2 Hw).
  - intros role user Hrole. split; [by apply Honly|]. intros (m & Hm & <- & <-). by apply Hgrant.
  - done.
  - apply (ready_pull _ _ _ _ Hready).
Qed.
End property.
