(* ===== verification/Witnesses.v ===== *)
(** The theorems applied: each hypothesis of a property of the development holds
    of a concrete workspace, cluster and run, evaluated on the in-memory API
    server and the in-memory Harbor. *)
From S2P Require Import Prelude Errors Prog GoStd Api Effects Cluster Backed Sync Stage Fakes Labels Config.
From S2P Require Import Namespace Rbac Resources Helm Authorization Harbor HarborRobots HarborMembers.
From S2P Require Import HarborFake HarborSync HarborPull RobotHttp RobotFake Lagging.
From S2P Require Import Encoding Webhook Controller Conflicts Status Reconcile Pulls.
From S2P Require Import Watches Main Crd System Total Convergence Serving Idempotence.

#[local] Existing Instances fakeCtrlLib fakeCtrlLaws fakeNetLib fakeNetLaws memory_laws.

(** ** A cluster with one workspace and the operator's Secret *)

Definition isolated : NetworkIsolationSpec := mkNetworkIsolation true ["shared"].

(** As the webhook leaves it: with its namespace label. *)
Definition team : Workspace :=
  set_W_Labels (Some {[ LabelWorkspaceNamespace := "team" ]})
    (workspaceWith "ws" "uid-1" "team" exampleMembers isolated).

Definition teamKey : ObjectKey := mkKey "" "ws".

Definition operatorSecret : obj KSecret :=
  mkObject (mkObjectMeta OperatorSecretName OperatorNamespace "s-uid" 0 None None [] (Some 1%Z) None)
    (mkSecretBody "Opaque" (Some
      (<[HarborURLKey := "https://harbor"]>
       (<[HarborRobotNameKey := "robot$op"]> {[ HarborRobotSecretKey := "pw" ]})))).

(** A Harbor that accepts everything and knows no one. *)
Definition permissiveHarbor (r : Request) : string + Response :=
  inr (mkResponse (if bool_decide (Req_Method r = "POST") then 201 else 200)%Z "").

Definition objectsOf (w : Workspace) : gmap (Kind * ObjectKey) AnyObject :=
  <[(KWorkspace, teamKey) := Any KWorkspace w]>
  {[ (KSecret, operatorSecretKey) := Any KSecret operatorSecret ]}.

Definition clusterOf (w : Workspace) : memory := mkMemory (objectsOf w) 9 permissiveHarbor.

Definition operator : WorkspaceReconciler := mkReconciler "v1" None.

Lemma operator_quiet : quiet_reconciler operator.
Proof. intros f Hf. discriminate Hf. Qed.
Lemma operator_conflict_free {W : Type} {CW : Cluster W} : conflict_free_reconciler operator.
Proof. intros f Hf. discriminate Hf. Qed.

Lemma team_stored : view (clusterOf team) KWorkspace teamKey = Some team.
Proof. vm_compute. reflexivity. Qed.

Lemma team_labelled : ¬ needs_backfill team.
Proof. intros H. apply H. vm_compute. reflexivity. Qed.

(** A run that computes to a result has a final state. *)
Lemma ends {W : Type} {CW : Cluster W} {A} (p : io A) (σ : W) a :
  fst <$> exec p σ = Some a → ∃ σ', exec p σ = Some (a, σ').
Proof. intros ([b σ'] & Hx & ->)%fmap_Some. by exists σ'. Qed.

Lemma team_reconciled :
  ∃ σ', exec (Reconcile operator teamKey) (clusterOf team) = Some ((noRequeue, None), σ').
Proof. apply ends. vm_compute. reflexivity. Qed.

(** A fresh workspace reconciles to a ready tenant. *)
Lemma Reconcile_refines_witness :
  ∃ σ', exec (Reconcile operator teamKey) (clusterOf team) = Some ((noRequeue, None), σ') ∧
    tenant_ready operator team "https://harbor" σ'.
Proof.
  destruct team_reconciled as [σ' Hx]. exists σ'. split; [exact Hx|].
  destruct (Reconcile_refines operator teamKey team (clusterOf team) noRequeue σ' operator_quiet
    operator_conflict_free team_stored team_labelled Hx)
    as [(ns & Hns & _)|(secret & Hsec & Hready)].
  - vm_compute in Hns. discriminate Hns.
  - vm_compute in Hsec. injection Hsec as <-. exact Hready.
Defined.

(** The run of that reconcile, from the answer to its Get. *)
Lemma team_run :
  ∃ tr, runs (Reconcile operator teamKey) (Obs (ClientGet KWorkspace teamKey) (Ok team) :: tr) (noRequeue, None).
Proof.
  destruct team_reconciled as [σ' Hx].
  refine (interp_runs_head (serve (W := memory)) _ (ClientGet KWorkspace teamKey) _ (clusterOf team) _
    (clusterOf team) _ σ' eq_refl _ Hx).
  vm_compute. reflexivity.
Qed.

Lemma Reconcile_confined_witness :
  ∃ tr, runs (Reconcile operator teamKey) (Obs (ClientGet KWorkspace teamKey) (Ok team) :: tr)
    (noRequeue, None) ∧ Forall (confined team) tr.
Proof.
  destruct team_run as [tr Hr]. exists tr. split; [exact Hr|].
  destruct (Reconcile_confined operator teamKey _ _ operator_quiet Hr) as (a & tr' & Heq & Hc).
  pose proof (Get_inj KWorkspace _ _ _ _ _ Heq) as <-. apply (f_equal tail) in Heq. simpl in Heq.
  rewrite Heq. exact Hc.
Defined.

(** ** A namespace of somebody else *)

Definition foreignTeam : obj KNamespace := plainNamespace None.
Definition foreignClusterOf (w : Workspace) : memory :=
  mkMemory (<[(KNamespace, mkKey "" "team") := Any KNamespace foreignTeam]> (objectsOf w)) 9 permissiveHarbor.

Lemma foreignTeam_foreign : foreign team foreignTeam.
Proof. apply (bool_decide_unpack _). vm_compute. exact I. Qed.

Lemma foreign_reconciled :
  ∃ σ', exec (Reconcile operator teamKey) (foreignClusterOf team) = Some ((noRequeue, None), σ').
Proof. apply ends. vm_compute. reflexivity. Qed.

Lemma foreign_namespace_untouched_witness :
  ∃ σ', exec (Reconcile operator teamKey) (foreignClusterOf team) = Some ((noRequeue, None), σ') ∧
    ∀ k key, (k, key) ≠ (KWorkspace, teamKey) → view σ' k key = view (foreignClusterOf team) k key.
Proof.
  destruct foreign_reconciled as [σ' Hx]. exists σ'. split; [exact Hx|].
  assert (view (foreignClusterOf team) KWorkspace teamKey = Some team) as Hw by (vm_compute; reflexivity).
  assert (view (foreignClusterOf team) KNamespace (namespaceKey team) = Some foreignTeam) as Hn
    by (vm_compute; reflexivity).
  exact (foreign_namespace_untouched operator teamKey team foreignTeam _ _ σ' operator_quiet Hw Hn
    foreignTeam_foreign Hx).
Defined.

(** ** Harbor members *)

Definition harborBefore : harborWorld :=
  mkHarborWorld (<["bob" := 1%Z]> {[ "mallory" := 3%Z ]}) {["alice"; "bob"; "mallory"]} (clusterOf team).

Definition askedMembers : list ProjectMember :=
  [mkProjectMember "alice" 1; mkProjectMember "bob" 3; mkProjectMember "carol" 2].

Lemma askedMembers_askable : askable exampleNames askedMembers.
Proof.
  intros d Hd. apply (list.Forall_forall (fun d => PM_Username d ∈ exampleNames ∧ valid_role (PM_RoleID d))
    askedMembers); [|exact Hd]. unfold valid_role. repeat constructor; try (simpl; set_solver); done.
Qed.

Lemma harbor_synced :
  ∃ σ', exec (httpReconcileProjectMembers (NL := harborNetLib) exampleClient exampleProject askedMembers)
    harborBefore = Some (Ok ["carol"], σ').
Proof. apply ends. vm_compute. reflexivity. Qed.

(** alice is added, bob demoted, mallory removed, carol reported. *)
Lemma ReconcileProjectMembers_refines_witness :
  ∃ σ', exec (httpReconcileProjectMembers (NL := harborNetLib) exampleClient exampleProject askedMembers)
    harborBefore = Some (Ok ["carol"], σ') ∧
  role_of σ' "alice" = Some 1%Z ∧ role_of σ' "bob" = Some 3%Z ∧ role_of σ' "mallory" = None.
Proof.
  destruct harbor_synced as [σ' Hx]. exists σ'. split; [exact Hx|].
  destruct (ReconcileProjectMembers_refines (HNL := harborNetLaws) (LW := harborWorld_cached)
    exampleClient exampleProject exampleNames (HL := harborWorld_harbor) askedMembers harborBefore _ σ'
    askedMembers_askable Hx) as (_ & _ & _ & Hr).
  assert (size (h_members harborBefore) ≤ h_page_size harborWorld) as Hle by (vm_compute; lia).
  rewrite !(Hr Hle). split_and!; vm_compute; reflexivity.
Defined.

(** Eleven members, the last of them not asked for: it is beyond the first page,
    and stays. *)
Definition crowdNames : list string := (fun n => "user" +:+ pretty n) <$> seq 0 11.
Definition crowd : harborWorld :=
  mkHarborWorld (list_to_map ((fun u => (u, 2%Z)) <$> crowdNames)) (list_to_set crowdNames) (clusterOf team).
Definition beyond : string := default "" (list.last (Existing_Username <$> member_entries crowd)).

Lemma stale_member_beyond_page :
  ∃ σ', exec (httpReconcileProjectMembers (NL := harborNetLib) exampleClient exampleProject []) crowd
      = Some (Ok [], σ') ∧
    size (h_members σ') = 1 ∧ role_of σ' beyond = Some 2%Z.
Proof.
  assert ((fun x => (x.1, size (h_members x.2), role_of x.2 beyond)) <$>
    exec (httpReconcileProjectMembers (NL := harborNetLib) exampleClient exampleProject []) crowd
    = Some (Ok [], 1, Some 2%Z)) as Hx by (vm_compute; reflexivity).
  apply fmap_Some in Hx as ([r σ'] & Hx & Heq). exists σ'. rewrite Hx. clear Hx.
  simpl in Heq. injection Heq as <- Hs Hr. split; [reflexivity|]. split; [exact (eq_sym Hs)|exact (eq_sym Hr)].
Qed.

Definition harborClientOf : HarborClient := NewClient (NL := harborNetLib) "https://harbor/" "robot$op" "pw".

Lemma team_names m : m ∈ W_Members team → Member_ServiceAccount m = false → Member_Subject m ∈ exampleNames.
Proof.
  change (W_Members team) with exampleMembers. unfold exampleMembers, exampleNames.
  rewrite !elem_of_cons. intros [->|[->|[->|Hm]]] Hs; simpl in *;
    [set_solver|set_solver|discriminate Hs|by apply elem_of_nil in Hm].
Qed.

Lemma harbor_reconciled :
  ∃ σ', exec (ReconcileHarbor team "v1" harborClientOf "https://harbor") harborBefore = Some (Ok [], σ').
Proof. apply ends. vm_compute. reflexivity. Qed.

Lemma ReconcileHarbor_members_witness :
  ∃ σ', exec (ReconcileHarbor team "v1" harborClientOf "https://harbor") harborBefore = Some (Ok [], σ') ∧
  ∀ user, role_of σ' user = if decide (user ∈ h_users σ') then harbor_role team user else None.
Proof.
  destruct harbor_reconciled as [σ' Hx]. exists σ'. split; [exact Hx|].
  destruct (ReconcileHarbor_members (HNL := harborNetLaws) (LW := harborWorld_cached) team "v1"
    "https://harbor/" "robot$op" "pw" "https://harbor" exampleNames harborBefore [] σ' harborWorld_harbor team_names Hx)
    as (σ1 & Hp & _ & Hfit & _).
  apply Hfit. assert (size ∘ h_members ∘ snd <$> exec (EnsureProject harborClientOf "team") harborBefore = Some 2) as Hs
    by (vm_compute; reflexivity).
  unfold harborClientOf in Hs. change (W_Namespace team) with "team" in Hp. rewrite Hp in Hs.
  injection Hs as Hs. change (size (h_members σ1) ≤ 10). change (size (h_members σ1) = 2) in Hs. rewrite Hs. lia.
Defined.

(** ** The syncs of the namespace's objects *)

Lemma bindings_reconciled :
  ∃ σ', exec (ReconcileRoleBindings team "v1") (clusterOf team) = Some (Ok tt, σ').
Proof. apply ends. vm_compute. reflexivity. Qed.

Lemma ReconcileRoleBindings_refines_witness :
  ∃ σ', exec (ReconcileRoleBindings team "v1") (clusterOf team) = Some (Ok tt, σ') ∧
    ∀ user, granted σ' team MemberRoleAdmin user ↔
      ∃ m, m ∈ W_Members team ∧ Member_Role m = MemberRoleAdmin ∧ Member_Subject m = user.
Proof.
  destruct bindings_reconciled as [σ' Hx]. exists σ'. split; [exact Hx|].
  apply (proj1 (ReconcileRoleBindings_refines team "v1" _ _ σ' Hx) eq_refl). apply list_elem_of_here.
Defined.

Lemma isolation_reconciled :
  ∃ σ', exec (ReconcileNetworkIsolation team "v1") (clusterOf team) = Some (Ok tt, σ').
Proof. apply ends. vm_compute. reflexivity. Qed.

Definition sharedPod : Pod := mkPod "shared" {[ metadataNameLabel := "shared" ]} ∅.
Definition teamPod : Pod := mkPod "team" {[ metadataNameLabel := "team" ]} ∅.

Lemma ReconcileNetworkIsolation_refines_witness :
  ∃ σ' policy, exec (ReconcileNetworkIsolation team "v1") (clusterOf team) = Some (Ok tt, σ') ∧
    view σ' KNetworkPolicy (policyKey team) = Some policy ∧
    ingress_allowed "team" (payload policy) sharedPod teamPod.
Proof.
  destruct isolation_reconciled as [σ' Hx].
  destruct (proj1 (ReconcileNetworkIsolation_refines team "v1" _ _ σ' Hx) eq_refl) as (policy & Hv & _ & Hi).
  exists σ', policy. split; [exact Hx|]. split; [exact Hv|].
  apply (Hi sharedPod teamPod); [vm_compute; reflexivity|reflexivity|right; apply list_elem_of_here].
Defined.

Definition constrained : Workspace :=
  set_W_Labels (Some {[ LabelWorkspaceNamespace := "team" ]})
    (mkObject (mkObjectMeta "ws" "" "uid-1" 1 None None [] (Some 1%Z) None)
      (mkWorkspaceBody (mkWorkspaceSpec "team" exampleMembers
        (Some (zero_payload KResourceQuota)) None isolated) (Status (zero_payload KWorkspace)))).

Lemma constraints_reconciled :
  ∃ σ', exec (ReconcileResourceQuota constrained "v1" ;;? ReconcileLimitRange constrained "v1")
    (clusterOf constrained) = Some (Ok tt, σ').
Proof. apply ends. vm_compute. reflexivity. Qed.

Lemma constraints_refine_witness :
  ∃ σ', exec (ReconcileResourceQuota constrained "v1" ;;? ReconcileLimitRange constrained "v1")
    (clusterOf constrained) = Some (Ok tt, σ') ∧
  view σ' KLimitRange (limitsKey constrained) = None.
Proof.
  destruct constraints_reconciled as [σ' Hx]. exists σ'. split; [exact Hx|].
  exact (proj2 (proj1 (constraints_refine constrained "v1" _ _ σ' Hx) eq_refl)).
Defined.

Lemma helm_reconciled :
  ∃ σ', exec (ReconcileHelmRepository team "v1" "https://harbor.example") (clusterOf team) = Some (Ok tt, σ').
Proof. apply ends. vm_compute. reflexivity. Qed.

Lemma ReconcileHelmRepository_refines_witness :
  ∃ σ', exec (ReconcileHelmRepository team "v1" "https://harbor.example") (clusterOf team) = Some (Ok tt, σ') ∧
    ∀ source, source ∈ helmSources team → source_ok team "v1" "https://harbor.example" source σ'.
Proof.
  destruct helm_reconciled as [σ' Hx]. exists σ'. split; [exact Hx|].
  exact (proj1 (ReconcileHelmRepository_refines team "v1" _ _ _ σ' Hx) eq_refl).
Defined.

Lemma deployer_reconciled :
  ∃ σ', exec (ReconcileServiceAccount team "v1") (clusterOf team) = Some (Ok tt, σ').
Proof. apply ends. vm_compute. reflexivity. Qed.

Lemma ReconcileServiceAccount_refines_witness :
  ∃ σ', exec (ReconcileServiceAccount team "v1") (clusterOf team) = Some (Ok tt, σ') ∧ deployer_ok team "v1" σ'.
Proof.
  destruct deployer_reconciled as [σ' Hx]. exists σ'. split; [exact Hx|].
  exact (proj1 (ReconcileServiceAccount_refines team "v1" _ _ σ' Hx) eq_refl).
Defined.

Lemma pull_reconciled :
  ∃ σ', exec (ReconcileHarbor team "v1" (NewClient "https://harbor" "robot$op" "pw") "https://harbor")
    (clusterOf team) = Some (Ok [], σ').
Proof. apply ends. vm_compute. reflexivity. Qed.

Lemma ReconcileHarbor_refines_witness :
  ∃ σ', exec (ReconcileHarbor team "v1" (NewClient "https://harbor" "robot$op" "pw") "https://harbor")
    (clusterOf team) = Some (Ok [], σ') ∧ pull_configured team σ'.
Proof.
  destruct pull_reconciled as [σ' Hx]. exists σ'. split; [exact Hx|].
  exact (proj1 (ReconcileHarbor_refines team "v1" _ _ _ _ σ' (NewClient_quiet _ _ _) Hx) eq_refl).
Defined.

(** A Harbor with the robot of the team's project. *)
Definition noRobot : robotWorld := mkRobotWorld None 0 (clusterOf team).

Definition robotClient : HarborClient := NewClient (NL := robotWorldLib) "https://harbor/" "robot$op" "pw".

Lemma robotClient_robot : RobotClient (W := robotWorld) robotClient (W_Namespace team).
Proof.
  exact (NewClient_robot (NL := robotWorldLib) (LW := robotWorld_cached) "https://harbor/" "robot$op" "pw"
    exampleProject exampleProjectID robotWorld_robots).
Qed.

Lemma robotWorldLaws : @NetLaws robotWorldLib.
Proof. by split. Qed.

Lemma robot_given :
  ∃ σ', exec (Reconcile (NL := robotWorldLib) operator teamKey) noRobot = Some ((noRequeue, None), σ').
Proof. apply ends. vm_compute. reflexivity. Qed.

Lemma Reconcile_pull_secret_witness :
  ∃ σ', exec (Reconcile (NL := robotWorldLib) operator teamKey) noRobot = Some ((noRequeue, None), σ') ∧
    pull_current team "https://harbor" σ'.
Proof.
  destruct robot_given as [σ' Hx]. exists σ'. split; [exact Hx|].
  refine (match proj2 (Reconcile_pull_secret (HNL := robotWorldLaws) (LW := robotWorld_cached) operator teamKey team
    operatorSecret noRobot _ _ σ' operator_quiet operator_conflict_free _ team_labelled eq_refl _ eq_refl eq_refl
    robotClient_robot _ Hx) eq_refl with
    or_introl H => H | or_intror H => _ end).
  - vm_compute. reflexivity.
  - vm_compute. reflexivity.
  - left. vm_compute. reflexivity.
  - destruct H as (ns & Hns & _). vm_compute in Hns. discriminate Hns.
Defined.

(** A Secret that never logged anyone in, next to a robot that exists: the run
    succeeds and leaves it. *)
Definition robotThere : RobotCredentials := mkRobotCredentials (robotFullName exampleProject exampleProject) "old".

Definition staleSecret : obj KSecret :=
  mkObject (mkObjectMeta ImagePullSecretName "team" "p-uid" 0 None None [] (Some 1%Z) None)
    (mkSecretBody "Opaque" None).

Definition staleWorld : robotWorld :=
  mkRobotWorld (Some robotThere) 3
    (mkMemory (<[(KSecret, pullKey team) := Any KSecret staleSecret]> (objectsOf team)) 9 permissiveHarbor).

Lemma stale_reconciled :
  ∃ σ', exec (ReconcileHarbor team "v1" robotClient "https://harbor/") staleWorld = Some (Ok [], σ').
Proof. apply ends. vm_compute. reflexivity. Qed.

Lemma pull_secret_kept_witness :
  ∃ σ', exec (ReconcileHarbor team "v1" robotClient "https://harbor/") staleWorld = Some (Ok [], σ') ∧
    view σ' KSecret (pullKey team) = Some staleSecret ∧ h_robot σ' = Some (exampleRobotID, robotThere).
Proof.
  destruct stale_reconciled as [σ' Hx]. exists σ'. split; [exact Hx|].
  apply (pull_secret_kept (LW := robotWorld_cached) team "v1" robotClient "https://harbor/" staleWorld staleSecret
    (exampleRobotID, robotThere) (Ok []) σ' (NewClient_quiet (NL := robotWorldLib) _ _ _) robotClient_robot eq_refl); [| |exact Hx].
  - vm_compute. reflexivity.
  - reflexivity.
Defined.

(** Three ReconcileHarbor from a project without a robot: the first creates robot
    and Secret; the second reads from a cache that has not seen that Secret; the
    third from one that has. *)
Definition unseen (σ : robotWorld) : lagging robotWorld := mkLagging {[ (KSecret, pullKey team) ]} σ.

Definition stranded : option (result (list string) * result (list string) * robotWorld * robotWorld * robotWorld) :=
  match exec (ReconcileHarbor team "v1" robotClient "https://harbor/") noRobot with
  | Some (_, σ1) =>
      match exec (W := lagging robotWorld) (ReconcileHarbor team "v1" robotClient "https://harbor/") (unseen σ1) with
      | Some (r2, L2) =>
          match exec (ReconcileHarbor team "v1" robotClient "https://harbor/") (real L2) with
          | Some (r3, σ3) => Some (r2, r3, σ1, real L2, σ3)
          | None => None
          end
      | None => None
      end
  | None => None
  end.

(** The pull Secret logs in as the robot. *)
Definition pulls (σ : robotWorld) : bool :=
  match view σ KSecret (pullKey team), rw_robot σ with
  | Some s, Some creds => bool_decide (payload s = pullSecret "https://harbor/" creds)
  | _, _ => false
  end.

(** The second strands the Secret, and the third is content with that. *)
Lemma stranded_for_good :
  ∃ r2 r3 σ1 σ2 σ3, stranded = Some (r2, r3, σ1, σ2, σ3) ∧
    is_Ok r2 = false ∧ is_Ok r3 = true ∧ pulls σ1 = true ∧ pulls σ2 = false ∧ pulls σ3 = false.
Proof.
  assert ((fun '(r2, r3, σ1, σ2, σ3) => (is_Ok r2, is_Ok r3, (pulls σ1, pulls σ2, pulls σ3))) <$> stranded
    = Some (false, true, (true, false, false))) as H by (vm_compute; reflexivity).
  destruct stranded as [[[[[r2 r3] σ1] σ2] σ3]|]; [|discriminate H].
  simpl in H. injection H as H2 H3 H4 H5 H6. exists r2, r3, σ1, σ2, σ3. split; [reflexivity|].
  exact (conj H2 (conj H3 (conj H4 (conj H5 H6)))).
Qed.

Lemma robotClient_lagging : RobotClient (W := lagging robotWorld) robotClient (W_Namespace team).
Proof.
  exact (NewClient_robot (NL := robotWorldLib) (LW := lagging_laws (LW := robotWorld_laws)) "https://harbor/" "robot$op" "pw"
    exampleProject exampleProjectID
    (lagging_robots (NL := robotWorldLib) exampleClient exampleProject exampleProjectID robotWorld_robots)).
Qed.

Definition pullingWorld : lagging robotWorld :=
  unseen (mkRobotWorld (Some robotThere) 3
    (mkMemory (<[(KSecret, pullKey team) := Any KSecret staleSecret]> (objectsOf team)) 9 permissiveHarbor)).

Lemma lagging_reconciled :
  ∃ r L', exec (ReconcileHarbor team "v1" robotClient "https://harbor/") pullingWorld = Some (r, L') ∧
    h_robot L' ≠ h_robot pullingWorld.
Proof.
  assert ((fun x => Creds_Secret <$> rw_robot (real (snd x))) <$>
    exec (ReconcileHarbor team "v1" robotClient "https://harbor/") pullingWorld = Some (Some (secretOf 3))) as H
    by (vm_compute; reflexivity).
  destruct (exec _ pullingWorld) as [[r L']|]; [|discriminate H]. exists r, L'. split; [reflexivity|].
  intros Hn. apply (f_equal (fmap (fun x => Creds_Secret x.2))) in Hn. simpl in Hn, H. injection H as H.
  destruct (rw_robot (real L')); [|discriminate H]. simpl in Hn, H. rewrite H in Hn. discriminate Hn.
Qed.

Lemma lagging_cache_strands_secret_witness :
  ∃ r L', exec (ReconcileHarbor team "v1" robotClient "https://harbor/") pullingWorld = Some (r, L') ∧
    is_Ok r = false ∧ view L' KSecret (pullKey team) = Some staleSecret ∧ h_robot L' ≠ h_robot pullingWorld.
Proof.
  destruct lagging_reconciled as (r & L' & Hx & Hn). exists r, L'. split; [exact Hx|].
  assert (view pullingWorld KSecret (pullKey team) = Some staleSecret) as Hv by (vm_compute; reflexivity).
  destruct (lagging_cache_strands_secret (LW := robotWorld_laws) team "v1" robotClient "https://harbor/" pullingWorld
    staleSecret r L' (NewClient_quiet (NL := robotWorldLib) _ _ _) robotClient_lagging (proj2 (elem_of_singleton _ _) eq_refl)
    Hv Hx) as (Hr & Hs & _).
  exact (conj Hr (conj Hs Hn)).
Defined.

Lemma claimed_after_admission :
  ∃ σ1 σ', exec (ValidateNamespaceAvailable team) (clusterOf team) = Some (Ok tt, σ1) ∧
    exec (ReconcileNamespace team "v1") σ1 = Some (Ok tt, σ').
Proof.
  assert (fst <$> exec (ValidateNamespaceAvailable team ;;? ReconcileNamespace team "v1") (clusterOf team)
    = Some (Ok tt)) as [σ' Hx]%ends by (vm_compute; reflexivity).
  apply exec_bindR in Hx as [(e & _ & He)|([] & σ1 & H1 & H2)]; [discriminate He|].
  exists σ1, σ'. split; [exact H1|exact H2].
Qed.

Lemma admitted_namespace_claimable_witness :
  ∃ (σ1 : memory) res σ', exec (ReconcileNamespace team "v1") σ1 = Some (res, σ') ∧
    ∀ e, res = Err e → AsNamespaceConflictError e = None.
Proof.
  destruct claimed_after_admission as (σ1 & σ' & H1 & H2). exists σ1, (Ok tt), σ'. split; [exact H2|].
  exact (admitted_namespace_claimable (CW := memory_cluster) team "v1" _ σ1 _ σ' H1 H2).
Defined.

(** A second run of the namespace's mutate function, over what the first wrote. *)
Lemma syncs_settle_witness :
  let w := exampleWorkspace "ws" "uid-1" "team" in
  namespaceMutate w "v1" "c:p" claimedExample = Ok claimedExample.
Proof.
  exact (proj1 (syncs_settle (HCL := fakeCtrlLaws) (exampleWorkspace "ws" "uid-1" "team") "v1") "c:p" _ _ _
    claimedExample_eq (persisted_refl (k := KNamespace) _)).
Defined.

(** ** Tenants *)

Lemma team_valid : valid_WorkspaceSpec (W_Spec team) = true.
Proof. vm_compute. reflexivity. Qed.

Lemma team_ready : ∃ σ', tenant_ready operator team "https://harbor" (σ' : memory).
Proof.
  assert (fst <$> exec (reconcileResources operator team) (clusterOf team) = Some (Ok [])) as [σ' Hx]%ends
    by (vm_compute; reflexivity).
  exists σ'. destruct (exec_reconcileResources operator team _ _ _ operator_quiet Hx) as [Hr _].
  destruct (Hr eq_refl) as (secret & Hs & Ht). vm_compute in Hs. injection Hs as <-. exact Ht.
Qed.

Lemma ready_grants_everyone_witness :
  ∃ σ' : memory, granted σ' team MemberRoleView "bob" ∧ granted σ' team MemberRoleEdit "ci-bot".
Proof.
  destruct team_ready as [σ' Ht]. exists σ'.
  destruct (ready_grants_everyone operator team _ σ' team_valid Ht) as [Hg _].
  split.
  - exact (Hg (mkMember MemberRoleView "bob" None false) (list_elem_of_further _ _ _ (list_elem_of_here _ _))).
  - exact (Hg (mkMember MemberRoleEdit "ci-bot" None true)
      (list_elem_of_further _ _ _ (list_elem_of_further _ _ _ (list_elem_of_here _ _)))).
Defined.

Definition blue : Workspace := exampleWorkspace "blue" "uid-2" "blue-ns".
Definition blueKey : ObjectKey := mkKey "" "blue".

(** The run of [team] against the backfill of [blue]. *)
Lemma tenants_disjoint_witness :
  ∃ tr, runs (Reconcile operator teamKey) (Obs (ClientGet KWorkspace teamKey) (Ok team) :: tr) (noRequeue, None) ∧
    ∀ o, o ∈ tr → ¬ writes o KWorkspace blueKey.
Proof.
  destruct team_run as [tr Hr]. exists tr. split; [exact Hr|].
  assert (runs (Reconcile operator blueKey) [Obs (ClientGet KWorkspace blueKey) (Ok blue);
    Obs (ClientUpdateWorkspace (backfilled blue)) (Ok tt)] (noRequeue, None)) as Hb.
  { repeat (eexists _, _; split; [reflexivity|]). split; reflexivity. }
  intros o Ho Hw.
  refine (tenants_disjoint operator operator teamKey blueKey team blue _ _ _ _ operator_quiet operator_quiet
    _ _ _ _ Hr Hb o (Obs (ClientUpdateWorkspace (backfilled blue)) (Ok tt)) KWorkspace blueKey Ho
    (list_elem_of_here _ _) Hw _).
  1-4: intros H; vm_compute in H; discriminate H.
  split; reflexivity.
Defined.

Lemma project_name_url_safe_witness : PathEscape "team" = "team".
Proof. exact (proj1 (project_name_url_safe team team_valid)). Defined.

Lemma generated_name_passes_schema_witness :
  ∃ tr, runs generateAvailableNamespaceName tr (Ok "ebcdfg") ∧ valid_namespace "ebcdfg" = true.
Proof.
  assert (runs generateAvailableNamespaceName
    [Obs RandByte (Ok "004"%char); Obs (UtilRandString 5) "bcdfg";
     Obs (ClientGet KNamespace (mkKey "" "ebcdfg")) (Err notFound)] (Ok "ebcdfg")) as Hr.
  { repeat (eexists _, _; split; [reflexivity|]). vm_compute. split; reflexivity. }
  eexists. split; [exact Hr|]. apply (generated_name_passes_schema _ _ Hr).
  repeat constructor; vm_compute; first [reflexivity|discriminate].
Defined.

(** ** Robot accounts *)

(** The decoders of a Harbor that knows the robot of the project. *)
Definition robotNetLib : NetLib := {|
  NewRequest_error := @NewRequest_error fakeNetLib;
  url_Parse := @url_Parse fakeNetLib;
  Quote := @Quote fakeNetLib;
  Decode_existingMembers := @Decode_existingMembers fakeNetLib;
  Decode_projectID := @Decode_projectID fakeNetLib;
  Decode_robots _ := Ok [mkRobotRef 5 "robot$team+team"];
  Decode_createdRobot := @Decode_createdRobot fakeNetLib;
|}.

Definition teamCreds : RobotCredentials := mkRobotCredentials "robot$ns+ns" "s3cret".

Lemma RefreshRobotSecret_correct_witness :
  ∃ tr, runs (httpRefreshRobotSecret (NL := robotNetLib) exampleClient "team" "team") tr (Ok teamCreds) ∧
    ∃ tr1 ref deletion creation, looked_up (NL := robotNetLib) exampleClient "team" "team" tr1 (Some ref) ∧
      tr = tr1 ++ exchange (deleteRobotRequest exampleClient (Robot_ID ref)) deletion ++
           exchange (createRobotRequest exampleClient "team" "team") creation.
Proof.
  assert (fst <$> exec (httpRefreshRobotSecret (NL := robotNetLib) exampleClient "team" "team") (clusterOf team)
    = Some (Ok teamCreds)) as [σ' [tr Hr]%interp_runs]%ends by (vm_compute; reflexivity).
  exists tr. split; [exact Hr|].
  destruct (RefreshRobotSecret_correct (NL := robotNetLib) exampleClient "team" "team" tr _ Hr)
    as (_ & _ & tr1 & ref & deletion & creation & Hl & Ht & _).
  exists tr1, ref, deletion, creation. split; [exact Hl|exact Ht].
Defined.

Lemma EnsureRobot_correct_witness :
  ∃ tr, runs (httpEnsureRobot (NL := fakeNetLib) exampleClient "team" "team") tr (Ok (Some teamCreds)) ∧
    methods tr `prefix_of` ["GET"; "GET"; "POST"].
Proof.
  assert (fst <$> exec (httpEnsureRobot (NL := fakeNetLib) exampleClient "team" "team") (clusterOf team)
    = Some (Ok (Some teamCreds))) as [σ' [tr Hr]%interp_runs]%ends by (vm_compute; reflexivity).
  exists tr. split; [exact Hr|].
  destruct (EnsureRobot_correct (NL := fakeNetLib) exampleClient "team" "team" tr _ Hr) as [Hm _].
  exact Hm.
Defined.

(** ** The webhook *)

Definition unnamed : Workspace := workspaceWith "ws" "uid-1" "" exampleMembers isolated.

Lemma unnamed_defaulted :
  ∃ tr ws tr' ws', runs (Default unnamed) tr (Ok ws) ∧ runs (Default ws) tr' (Ok ws').
Proof.
  assert ((is_Ok ∘ fst) <$> exec (ws ←? Default unnamed; Default ws) (clusterOf team) = Some true) as Hx
    by (vm_compute; reflexivity).
  apply fmap_Some in Hx as ([[ws'|e] σ'] & Hx & Hok); [|discriminate Hok].
  apply exec_bindR in Hx as [(e & _ & He)|(ws & σ1 & [tr H1]%interp_runs & [tr' H2]%interp_runs)];
    [discriminate He|].
  exists tr, ws, tr', ws'. split; [exact H1|exact H2].
Qed.

Lemma Default_correct_witness :
  ∃ tr ws ns, runs (Default unnamed) tr (Ok ws) ∧ is_defaulted unnamed ns ws ∧ ns ≠ "".
Proof.
  destruct unnamed_defaulted as (tr & ws & _ & _ & Hr & _).
  destruct (Default_correct unnamed tr _ Hr) as (ns & Hd & _ & Hns).
  exists tr, ws, ns. split; [exact Hr|]. split; [exact Hd|]. exact (proj1 (Hns eq_refl)).
Defined.

Lemma Default_idempotent_witness :
  ∃ tr ws tr', runs (Default unnamed) tr (Ok ws) ∧ runs (Default ws) tr' (Ok ws).
Proof.
  destruct unnamed_defaulted as (tr & ws & tr' & ws' & H1 & H2).
  destruct (Default_idempotent unnamed tr ws tr' _ H1 H2) as [[= <-] _].
  exists tr, ws', tr'. split; [exact H1|exact H2].
Defined.

Lemma ValidateNamespaceUniqueness_correct_witness :
  claimedBy [exampleWorkspace "other" "uid-9" "team"] team ≠ Ok tt.
Proof.
  destruct (ValidateNamespaceUniqueness_correct team
    [Obs ClientListWorkspaces (Ok [exampleWorkspace "other" "uid-9" "team"])]
    (claimedBy [exampleWorkspace "other" "uid-9" "team"] team)) as (answer & Ha & Hspec).
  - eexists _, _. split; [reflexivity|]. split; reflexivity.
  - intros Hok.
    assert (answer = Ok [exampleWorkspace "other" "uid-9" "team"]) as ->.
    { apply (f_equal (fun l => head l ≫= listed_workspaces)) in Ha. simpl in Ha. injection Ha as <-. reflexivity. }
    apply (proj1 (proj1 Hspec) Hok (exampleWorkspace "other" "uid-9" "team")).
    split; [apply list_elem_of_here|]. split; [discriminate|reflexivity].
Defined.

Lemma OperatorHarborCredentials_correct_witness : Harbor_URL (credentialsOf operatorSecret) ≠ "".
Proof.
  destruct (OperatorHarborCredentials_correct [Obs (ClientGet KSecret operatorSecretKey) (Ok operatorSecret)]
    (Ok (credentialsOf operatorSecret))) as (a & Ha & Hspec).
  - eexists _, _. split; [reflexivity|]. vm_compute. split; reflexivity.
  - pose proof (Get_inj KSecret _ _ _ _ _ Ha) as <-. exact (proj1 (proj2 Hspec)).
Defined.

(** ** Status and errors *)

Lemma team_conditions : NoDup (Cond_Type <$> Status_Conditions (W_Status team)).
Proof. constructor. Qed.

Lemma updateStatus_correct_witness :
  ∃ tr secret helm st, runs (updateStatus team ["carol"]) tr (Ok tt) ∧
    status_describes team ["carol"] secret helm st.
Proof.
  assert (fst <$> exec (updateStatus team ["carol"]) (clusterOf team) = Some (Ok tt))
    as [σ' [tr Hr]%interp_runs]%ends by (vm_compute; reflexivity).
  destruct (updateStatus_correct team ["carol"] tr _ team_conditions Hr)
    as [(e & He & _)|(a1 & a2 & now & rest & st & _ & Hd & _)]; [discriminate He|].
  exists tr, (is_Ok a1), (is_Ok a2), st. split; [exact Hr|exact Hd].
Defined.

Definition teamStatus : WorkspaceStatus := statusOf team ["carol"] false false 9.
Definition teamReported : Workspace := set_W_Status teamStatus team.

Lemma updateStatus_settles_witness :
  ∃ tr, runs (updateStatus teamReported ["carol"])
    (secretGet teamReported (Err notFound) :: helmGet teamReported (Err notFound) :: tr) (Ok tt) ∧
  ∃ now, tr = [Obs TimeNow now].
Proof.
  assert (runs (updateStatus team ["carol"]) (secretGet team (Err notFound) :: helmGet team (Err notFound) ::
    Obs TimeNow 9%Z :: [Obs (ClientStatusPatch team teamReported) (Ok tt); reconciledEvent teamReported]) (Ok tt))
    as H1.
  { repeat (eexists _, _; split; [reflexivity|]). split; reflexivity. }
  assert (runs (updateStatus teamReported ["carol"]) (secretGet teamReported (Err notFound) ::
    helmGet teamReported (Err notFound) :: [Obs TimeNow 60%Z]) (Ok tt)) as H2.
  { repeat (eexists _, _; split; [reflexivity|]). split; reflexivity. }
  eexists. split; [exact H2|].
  exact (updateStatus_settles team ["carol"] _ _ 9 _ teamStatus _ _ _ team_conditions H1
    (ex_intro _ (Ok tt) (list_elem_of_here _ _)) eq_refl eq_refl H2).
Defined.

Lemma handleReconcileError_correct_witness :
  ∃ tr, runs (handleReconcileError team (NamespaceConflictError "team")) tr (noRequeue, None) ∧
    error_handling team (NamespaceConflictError "team") tr (noRequeue, None).
Proof.
  assert (fst <$> exec (handleReconcileError team (NamespaceConflictError "team")) (clusterOf team)
    = Some (noRequeue, None)) as [σ' [tr Hr]%interp_runs]%ends by (vm_compute; reflexivity).
  exists tr. split; [exact Hr|]. exact (proj1 (handleReconcileError_correct team _ tr _ Hr)).
Defined.

(** A Harbor that does not know bob yet. *)
Definition harborWithoutBob : harborWorld := mkHarborWorld ∅ {["alice"]} (clusterOf team).

Lemma Reconcile_requeues_witness :
  ∃ tr w missing tr1, runs (Reconcile (NL := harborNetLib) operator teamKey) tr
    (mkResult missingHarborMembersRequeue, None) ∧
    missing ≠ [] ∧ runs (reconcileResources (NL := harborNetLib) operator w) tr1 (Ok missing).
Proof.
  assert (fst <$> exec (Reconcile (NL := harborNetLib) operator teamKey) harborWithoutBob
    = Some (mkResult missingHarborMembersRequeue, None)) as [σ' [tr Hr]%interp_runs]%ends
    by (vm_compute; reflexivity).
  destruct (proj1 (proj2 (proj2 (Reconcile_requeues (NL := harborNetLib) operator teamKey tr _ _ Hr))) eq_refl)
    as (w & tr1 & tr2 & missing & _ & _ & Hm & Hs & _).
  exists tr, w, missing, tr1. split; [exact Hr|]. split; [exact Hm|exact Hs].
Defined.

(** ** The backfill *)

Definition unlabelled : Workspace := exampleWorkspace "ws" "uid-1" "team".

Definition generationPredicate : predicate := fun e =>
  match e with
  | UpdateEvent (Some (Any _ old)) (Some (Any _ new)) =>
      bool_decide (Meta_Generation (metadata old) ≠ Meta_Generation (metadata new))
  | _ => true
  end.

Lemma generationPredicate_ok : generation_changed generationPredicate.
Proof. intros k old new H. apply bool_decide_eq_false. intros Hn. exact (Hn H). Qed.

Lemma backfill_not_requeued_witness :
  ∃ ws, SetupWithManager (fun _ => None) generationPredicate = Ok ws ∧
  ∀ x, x ∈ ws → passes x KWorkspace (UpdateEvent (Some (Any KWorkspace unlabelled))
    (Some (Any KWorkspace (backfilled unlabelled)))) = false.
Proof.
  eexists. split; [reflexivity|].
  exact (backfill_not_requeued (fun _ => None) generationPredicate _ unlabelled (backfilled unlabelled)
    generationPredicate_ok eq_refl (fun _ => eq_refl) eq_refl).
Defined.

Definition operatorUser : UserInfo :=
  mkUserInfo "system:serviceaccount:otterscale-system:tenant-operator" "op" ["system:authenticated"] ∅.

Lemma operatorUser_plain : ¬ privileged operatorUser ∧ ¬ admin_of (User_Username operatorUser) unlabelled.
Proof. split; apply (bool_decide_unpack _); vm_compute; exact I. Qed.

Definition refused : error := StatusError (StatusReasonOther "Forbidden") "admission webhook denied the request".

Lemma backfill_refused_witness :
  ∃ e, runs (Reconcile operator teamKey) [Obs (ClientGet KWorkspace teamKey) (Ok unlabelled);
    Obs (ClientUpdateWorkspace (backfilled unlabelled)) (Err refused)] (noRequeue, Some e).
Proof.
  assert (runs (Reconcile operator teamKey) [Obs (ClientGet KWorkspace teamKey) (Ok unlabelled);
    Obs (ClientUpdateWorkspace (backfilled unlabelled)) (Err refused)]
    (noRequeue, Some (WrapError "backfilling namespace label" refused))) as Hr.
  { eexists _, _. split; [reflexivity|]. eexists _, _. split; [reflexivity|]. split; reflexivity. }
  assert (needs_backfill unlabelled) as Hb by (intros H; vm_compute in H; discriminate H).
  destruct (backfill_refused operator teamKey unlabelled operatorUser (Err refused) [] _ Hb
    (proj1 operatorUser_plain) (proj2 operatorUser_plain) ltac:(discriminate) Hr) as [e He].
  exists e. rewrite <-He. exact Hr.
Defined.

(** ** Encodings and answers *)

Lemma dockerConfig_roundtrip_witness :
  buildDockerConfigJSON "harbor" "robot$team+team" "s3cret" =
    Ok (json_Marshal (dockerConfig "harbor" "robot$team+team" "s3cret")).
Proof.
  apply (dockerConfig_roundtrip "harbor" "robot$team+team" "s3cret").
  apply (bool_decide_unpack _). vm_compute. exact I.
Defined.

Lemma memory_answering : Answering (serve (W := memory)).
Proof. intros X e σ He. destruct e; try discriminate He; discriminate. Qed.

(** ** Convergence *)

Lemma memory_cooperative : Cooperative memory.
Proof.
  split; simpl.
  - intros k key σ e σ'. destruct (mem_view σ k key); by intros [= <- _].
  - intros k key f σ e σ'. unfold mem_create_or_update. destruct (mem_view σ k key) as [o|]; simpl.
    + destruct (f o); [case_decide|]; intros [= ? _]; congruence.
    + destruct (f (literal k key)); intros [= ? _]; congruence.
  - intros k key σ e σ'. unfold mem_delete. destruct (mem_view σ k key); by intros [= <- _].
  - intros base w σ e σ'. discriminate.
Qed.

(** A Harbor client that always succeeds, as the controller's tests inject. *)
Definition stubClient : HarborClient :=
  mkHarborClient (fun _ => okR tt) (fun _ _ => okR []) (fun _ _ => okR (Some teamCreds)) (fun _ _ => okR teamCreds).

Definition stubbed : WorkspaceReconciler := mkReconciler "v1" (Some (fun _ _ _ => stubClient)).

Lemma stubbed_quiet : quiet_reconciler stubbed.
Proof. intros f [= <-] url name secret. by split. Qed.
Lemma stubbed_conflict_free : conflict_free_reconciler (W := memory) stubbed.
Proof. intros f [= <-] url name secret. split; simpl; intros; apply nc_okR. Qed.
Lemma stubbed_total : total_reconciler (serve (W := memory)) stubbed.
Proof. intros f [= <-] url name secret. split; simpl; intros; apply total_okR. Qed.
Lemma stubbed_cooperative creds w : cooperative_reconciler (W := memory) stubbed creds w.
Proof. split; simpl; intros; try apply sure_okR. exists (fun _ => True). split_and!; [done..|apply sure_okR]. Qed.

(** A workspace whose objects do not exist yet. *)
Lemma fresh_unobstructed w (σ : memory) :
  Forall (fun x => mem_objects σ !! x = None) ((KNamespace, namespaceKey w) :: owned_footprint w) →
  view σ KSecret operatorSecretKey = Some operatorSecret → unobstructed w (credentialsOf operatorSecret) σ.
Proof.
  intros [Hns Hall]%list.Forall_cons Hs.
  assert (∀ k key, mem_objects σ !! (k, key) = None → view σ k key = None) as Hnone.
  { intros k key Hk. simpl. unfold mem_view. by rewrite Hk. }
  split.
  - split; [rewrite (Hnone _ _ Hns); apply ownable_absent|]. intros ns. by rewrite (Hnone _ _ Hns).
  - exists operatorSecret. split_and!; [exact Hs|done|vm_compute; reflexivity].
  - intros k key Hk. rewrite list.Forall_forall in Hall. rewrite (Hnone _ _ (Hall _ Hk)). apply ownable_absent.
Qed.

Lemma team_unobstructed : unobstructed team (credentialsOf operatorSecret) (clusterOf team).
Proof.
  apply fresh_unobstructed; [apply (bool_decide_unpack _); vm_compute; exact I|vm_compute; reflexivity].
Qed.

(** The operator with its own client, on a Harbor that is up. *)
Lemma robotWorld_answering : Answering (serve (W := robotWorld)).
Proof.
  intros X e σ He. destruct (is_http e) eqn:Hh; [by destruct e|].
  pose proof (memory_answering X e (back σ) He) as Hm. change (mem_serve X e (back σ) ≠ None) in Hm.
  assert (serve X e σ = on_back σ e) as -> by by destruct e.
  unfold on_back. by destruct (mem_serve X e (back σ)) as [[? ?]|].
Qed.

Lemma robotWorld_cooperative : Cooperative robotWorld.
Proof.
  destruct memory_cooperative as [H1 H2 H3 H4]. split.
  - intros k key σ e σ' (m & Hs & _)%(backed_serve_mem (W := robotWorld) _ (ClientGet k key)); [|done]. by eapply H1.
  - intros k key f σ e σ' (m & Hs & _)%(backed_serve_mem (W := robotWorld) _ (CreateOrUpdateE k key f)); [|done]. by eapply H2.
  - intros k key σ e σ' (m & Hs & _)%(backed_serve_mem (W := robotWorld) _ (ClientDelete k key)); [|done]. by eapply H3.
  - intros base w σ e σ' (m & Hs & _)%(backed_serve_mem (W := robotWorld) _ (ClientStatusPatch base w)); [|done]. by eapply H4.
Qed.

Lemma robotWorld_serving :
  ServingHarbor (NL := robotWorldLib) (W := robotWorld) exampleClient exampleProject exampleProjectID.
Proof.
  assert (∀ req P, (∀ σ : robotWorld, ∃ resp, (rw_http req σ).1 = Ok resp ∧ P resp) → replies (W := robotWorld) req P) as Hin.
  { intros req P HP σ r σ' Hs%rw_serve_http. destruct (HP σ) as (resp & Hr & Hp). rewrite Hs in Hr. by exists resp. }
  assert (∀ req codes, (if bool_decide (Req_Method req = "POST") then StatusCreated else StatusOK) ∈ codes →
    req ≠ rw_list → req ≠ rw_create → req ≠ rw_delete → replies (W := robotWorld) req (has_status codes)) as Hother.
  { intros req codes Hc H1 H2 H3. apply Hin. intros σ. unfold rw_http.
    rewrite (bool_decide_eq_false_2 _ H1), (bool_decide_eq_false_2 _ H2), (bool_decide_eq_false_2 _ H3). by eexists. }
  split.
  - done.
  - apply Hother; [apply list_elem_of_here|intros [=]..].
  - intros body. apply Hother; [apply list_elem_of_here|intros [=]..].
  - apply Hin. intros σ. exists (mkResponse StatusOK ""). split; [reflexivity|]. split; [apply list_elem_of_here|reflexivity].
  - apply Hin. intros σ. exists (mkResponse StatusOK ""). split; [reflexivity|]. split; [apply list_elem_of_here|reflexivity].
  - intros body. apply Hother; [apply list_elem_of_here|intros [=]..].
  - intros id body. apply Hother; [apply list_elem_of_here|intros [=]..].
  - intros id. apply Hother; [apply list_elem_of_here|intros [=]..].
  - apply Hin. intros σ. unfold rw_http. rewrite bool_decide_eq_true_2 by reflexivity.
    eexists. split; [reflexivity|]. split; [apply list_elem_of_here|reflexivity].
  - intros σ resp σ' l Hs%rw_serve_http. unfold rw_http in Hs. rewrite bool_decide_eq_true_2 in Hs by reflexivity.
    injection Hs as <- <-. simpl. destruct (rw_robot σ); [|by intros _ [? [=]]]. intros [= <-] _.
    eexists. split; [apply list_elem_of_here|reflexivity].
  - apply Hin. intros σ. unfold rw_http. rewrite bool_decide_eq_false_2, bool_decide_eq_true_2 by done.
    destruct (rw_robot σ) as [creds|]; (eexists; split; [reflexivity|]).
    + split; [apply list_elem_of_further, list_elem_of_here|intros [=]].
    + split; [apply list_elem_of_here|]. intros _. eexists. split; [reflexivity|]. done.
  - intros id. apply Hin. intros σ. unfold rw_http. case_bool_decide; [discriminate|].
    case_bool_decide; [discriminate|]. case_bool_decide.
    + destruct (rw_robot σ); (eexists; split; [reflexivity|]); [apply list_elem_of_here|apply list_elem_of_further, list_elem_of_here].
    + eexists. split; [reflexivity|]. apply list_elem_of_here.
Qed.


Lemma operator_cooperative :
  cooperative_reconciler (NL := robotWorldLib) (W := robotWorld) operator (credentialsOf operatorSecret) team.
Proof.
  exact (NewClient_cooperative (NL := robotWorldLib) (LW := robotWorld_laws) "https://harbor" "robot$op" "pw"
    exampleProject exampleProjectID robotWorld_robots robotWorld_serving).
Qed.

Lemma robot_unobstructed : unobstructed team (credentialsOf operatorSecret) noRobot.
Proof. destruct team_unobstructed as [H1 H2 H3]. split; [exact H1|exact H2|exact H3]. Qed.

Lemma Reconcile_converges_witness :
  ∃ missing σ', exec (Reconcile (NL := robotWorldLib) operator teamKey) noRobot = Some ((reconciled_result missing, None), σ') ∧
    tenant_ready (NL := robotWorldLib) operator team "https://harbor" σ'.
Proof.
  assert (view noRobot KWorkspace teamKey = Some team) as Hw by (vm_compute; reflexivity).
  assert (total_reconciler (serve (W := robotWorld)) operator) as Ht by (intros f Hf; discriminate Hf).
  exact (@Reconcile_converges _ fakeCtrlLaws robotWorldLib robotWorld _ robotWorld_laws robotWorld_cooperative
    robotWorld_answering operator teamKey team (credentialsOf operatorSecret) noRobot operator_quiet Ht
    operator_cooperative Hw team_labelled robot_unobstructed eq_refl).
Defined.

Lemma team_reconciled_twice :
  ∃ status σ1 σ2, exec (Reconcile operator teamKey) (clusterOf team) = Some ((noRequeue, None), σ1) ∧
    view σ1 KWorkspace teamKey = Some (set_W_Status status team) ∧
    exec (Reconcile operator teamKey) σ1 = Some ((noRequeue, None), σ2).
Proof.
  assert (∃ status, match exec (Reconcile operator teamKey) (clusterOf team) with
          | Some (res, σ1) => res = (noRequeue, None) ∧ view σ1 KWorkspace teamKey = Some (set_W_Status status team) ∧
              fst <$> exec (Reconcile operator teamKey) σ1 = Some (noRequeue, None)
          | None => False
          end) as [status H] by (eexists; vm_compute; split; [reflexivity|split; reflexivity]).
  destruct (exec (Reconcile operator teamKey) (clusterOf team)) as [[res σ1]|]; [|destruct H].
  destruct H as (-> & Hw & [σ2 Hx]%ends). by exists status, σ1, σ2.
Qed.

Lemma Reconcile_idempotent_witness :
  ∃ σ1 σ2 : memory, exec (Reconcile operator teamKey) (clusterOf team) = Some ((noRequeue, None), σ1) ∧
    exec (Reconcile operator teamKey) σ1 = Some ((noRequeue, None), σ2) ∧
    view σ2 KRoleBinding (roleBindingKey team MemberRoleAdmin) = view σ1 KRoleBinding (roleBindingKey team MemberRoleAdmin).
Proof.
  destruct team_reconciled_twice as (status & σ1 & σ2 & H1 & Hw & H2). exists σ1, σ2.
  split; [exact H1|]. split; [exact H2|].
  apply (Reconcile_idempotent operator teamKey team status _ _ σ1 _ σ2 operator_quiet operator_conflict_free
    team_labelled team_stored H1 Hw H2).
  apply not_elem_of_cons. split; [discriminate|]. apply not_elem_of_cons. split; [discriminate|].
  apply not_elem_of_cons. split; [discriminate|]. apply not_elem_of_nil.
Defined.

(** ** The system *)

Definition alice : UserInfo := mkUserInfo "alice" "u-alice" ["system:authenticated"] ∅.
Definition red : Workspace := exampleWorkspace "red" "uid-1" "red-ns".

Definition storedColours : gmap string Workspace :=
  <["blue" := defaulted_workspace blue]> {[ "red" := defaulted_workspace red ]}.

Lemma colour_admitted (s : system) ws :
  ws ∈ [red; blue] → (∀ n w, stored s !! n = Some w → W_Namespace w ≠ W_Namespace ws) →
  step s (mkSystem (stored s) (defaulted_workspace ws :: inflight s)).
Proof.
  intros Hws Hfree. apply (creation_admitted s alice ws); try (intros n w Hw E; by destruct (Hfree n w Hw));
    apply elem_of_cons in Hws as [->| ->%list_elem_of_singleton];
    try (apply (bool_decide_unpack _); vm_compute; exact I); done.
Qed.

(** red, then blue, each admitted and stored. *)
Lemma colours_stored : rtc serial_step initial (mkSystem storedColours []).
Proof.
  assert (∀ objects ws, ws ∈ [red; blue] → (∀ n w, objects !! n = Some w → W_Namespace w ≠ W_Namespace ws) →
    objects !! W_Name ws = None →
    rtc serial_step (mkSystem objects []) (mkSystem (<[W_Name ws := defaulted_workspace ws]> objects) [])) as Hcreate.
  { intros objects ws Hws Hfree Hnone. eapply rtc_l; [split;
      [exact (colour_admitted (mkSystem objects []) ws Hws Hfree)|simpl; lia]|].
    apply rtc_once. split; [|simpl; lia].
    exact (step_store objects [] [] (defaulted_workspace ws) (defaulted_workspace ws) Hnone
      (conj eq_refl (conj eq_refl eq_refl))). }
  transitivity (mkSystem {[ "red" := defaulted_workspace red ]} []).
  - apply (Hcreate ∅ red); [set_solver|intros n w Hw; discriminate Hw|apply lookup_empty].
  - apply (Hcreate {[ "red" := defaulted_workspace red ]} blue); [set_solver| |done].
    intros n w [_ <-]%lookup_singleton_Some E. vm_compute in E. discriminate E.
Qed.

Lemma stored_wellformed_witness : wellformed (defaulted_workspace blue).
Proof.
  assert (reachable (mkSystem storedColours [])) as Hr.
  { eapply rtc_subrel; [|exact colours_stored]. intros s s' Hs. exact (proj1 Hs). }
  exact (proj2 (proj2 (stored_wellformed _ "blue" (defaulted_workspace blue) Hr (lookup_insert_eq _ _ _)))).
Defined.

Lemma namespaces_unique_witness :
  W_Namespace (defaulted_workspace red) ≠ W_Namespace (defaulted_workspace blue).
Proof.
  intros E. assert ("red" = "blue") as Hn; [|discriminate Hn].
  exact (namespaces_unique _ "red" "blue" (defaulted_workspace red) (defaulted_workspace blue) colours_stored
    eq_refl eq_refl E).
Defined.

(** A rival of [team], which slipped in with the same namespace. *)
Definition rival : Workspace :=
  set_W_Labels (Some {[ LabelWorkspaceNamespace := "team" ]})
    (workspaceWith "rival" "uid-2" "team" exampleMembers isolated).
Definition rivalKey : ObjectKey := mkKey "" "rival".
Definition contested : memory :=
  mkMemory (<[(KWorkspace, rivalKey) := Any KWorkspace rival]> (objectsOf team)) 9 permissiveHarbor.

Lemma contested_claimed :
  ∃ σ1 res2 σ2, exec (Reconcile operator teamKey) contested = Some ((noRequeue, None), σ1) ∧
    tenant_ready operator team "https://harbor" σ1 ∧ view σ1 KWorkspace rivalKey = Some rival ∧
    exec (Reconcile operator rivalKey) σ1 = Some (res2, σ2).
Proof.
  assert (match exec (Reconcile operator teamKey) contested with
          | Some (res, σ1) => res = (noRequeue, None) ∧ view σ1 KWorkspace rivalKey = Some rival ∧
              fst <$> exec (Reconcile operator rivalKey) σ1 = Some (noRequeue, None)
          | None => False
          end) as H by (vm_compute; split; [reflexivity|split; reflexivity]).
  destruct (exec (Reconcile operator teamKey) contested) as [[res σ1]|] eqn:Hx; [|destruct H].
  destruct H as (-> & Hv & Hy). apply ends in Hy as [σ2 Hy]. exists σ1, (noRequeue, None), σ2.
  split; [reflexivity|]. split; [|split; [exact Hv|exact Hy]].
  assert (view contested KWorkspace teamKey = Some team) as Hw by (vm_compute; reflexivity).
  destruct (exec_Reconcile _ _ team _ _ _ Hw team_labelled Hx)
    as [(e & [=] & _)|(synced & σa & σb & Hva & Hs & Hf & Hres)].
  destruct synced as [missing|e].
  - destruct (exec_reconcileResources operator team _ _ _ operator_quiet Hs) as [Hr _].
    destruct (Hr eq_refl) as (secret & Hsec & Ht). rewrite Hva in Hsec. vm_compute in Hsec. injection Hsec as <-.
    eapply tenant_ready_local; [|exact Ht]. intros k key Hk. apply Hf. intros Hin%list_elem_of_singleton.
    exact (Hk (f_equal fst Hin)).
  - destruct (exec_conflict operator team _ _ _ _ _ _ operator_quiet operator_conflict_free Hs Hres)
      as (ns & Hns & _). rewrite Hva in Hns. vm_compute in Hns. discriminate Hns.
Qed.

Lemma first_claim_wins_witness :
  ∃ σ1 res2 σ2, exec (Reconcile operator rivalKey) σ1 = Some (res2, σ2) ∧
    tenant_ready operator team "https://harbor" (σ1 : memory) ∧ tenant_ready operator team "https://harbor" σ2.
Proof.
  destruct contested_claimed as (σ1 & res2 & σ2 & Hx & Ht & Hv & Hy). exists σ1, res2, σ2.
  split; [exact Hy|]. split; [exact Ht|].
  refine (proj2 (first_claim_wins operator teamKey rivalKey team rival _ contested _ σ1 res2 σ2 operator_quiet
    operator_conflict_free _ eq_refl team_labelled _ _ Hx Ht Hv Hy)).
  - intros E. vm_compute in E. discriminate E.
  - vm_compute. reflexivity.
  - intros (ns & Hns & _). vm_compute in Hns. discriminate Hns.
Defined.

(** A stale member label goes, the others stay. *)
Definition relabelled : Workspace :=
  set_W_Labels (Some (<["user.otterscale.io/mallory" := "true"]> {[ "tier" := "gold" ]})) team.

Lemma Default_reference_witness :
  ∃ tr ws, runs (Default relabelled) tr (Ok ws) ∧ gomap_get (W_Labels ws) "user.otterscale.io/mallory" = "" ∧
    gomap_get (W_Labels ws) "tier" = "gold" ∧ gomap_get (W_Labels ws) "user.otterscale.io/alice" = "true".
Proof.
  exists [Obs MapOrder String.length; Obs MapOrder String.length], (set_W_Labels (Some (referenceLabels relabelled)) relabelled).
  split.
  - apply (Default_reference relabelled); [discriminate|]. split; [|reflexivity]. eexists _, _. reflexivity.
  - vm_compute. split; [reflexivity|split; reflexivity].
Defined.

(** ** Startup *)

Lemma startup_fails_closed_witness :
  ∃ tr ws, runs (main generationPredicate "v1" defaultFlags) tr 0%Z ∧
    tr = startup_events defaultFlags "v1" (mkManager (fun _ => None)) ws "" ++ [Obs Start (Ok tt)].
Proof.
  assert (runs (main generationPredicate "v1" defaultFlags)
    (startup_events defaultFlags "v1" (mkManager (fun _ => None))
       (match SetupWithManager (fun _ => None) generationPredicate with Ok ws => ws | Err _ => [] end) "" ++
     [Obs Start (Ok tt)]) 0%Z) as Hr.
  { repeat (eexists _, _; split; [reflexivity|]). split; reflexivity. }
  destruct (proj2 (startup_fails_closed _ _ _ _ _ Hr) (Obs Start (Ok tt)) (list_elem_of_further _ _ _
    (list_elem_of_further _ _ _ (list_elem_of_further _ _ _ (list_elem_of_further _ _ _ (list_elem_of_further _ _ _
    (list_elem_of_further _ _ _ (list_elem_of_here _ _))))))) eq_refl) as (_ & _ & _ & _ & _ & _ & _ & _).
  eexists _, _. split; [exact Hr|reflexivity].
Defined.
