(* ===== verification/Scenarios.v ===== *)
(** The theorems on the running controller and on the Go heap applied to concrete
    runs: a controller on the in-memory API server, and a Workspace laid out in a
    heap, with stand-ins for the third-party functions. *)
From S2P Require Import Prelude Errors Prog GoStd Heap Api DeepCopy Updates Effects Cluster Sync Stage Fakes Labels Config.
From S2P Require Import Namespace Rbac Resources Helm Harbor HarborSync Controller Conflicts Status StatusHeap Reconcile.
From S2P Require Import Watches Total Convergence Scheme Idempotence Crd System Queue Wakeups Settling EndToEnd Witnesses.

#[local] Existing Instances fakeCtrlLib fakeCtrlLaws fakeNetLib fakeNetLaws memory_laws.

(** ** The queue *)

(** The controller references of kind Workspace; a Workspace is cluster-scoped. *)
Definition ownerRequests (o : AnyObject) : list ObjectKey :=
  let 'Any _ o := o in
  omap (fun ref => if Owner_Controller ref && bool_decide (Owner_Kind ref = "Workspace")
                   then Some (mkKey "" (Owner_Name ref)) else None) (Meta_OwnerReferences (metadata o)).

#[local] Instance fakeEventLib : EventLib := {|
  GenerationChangedPredicate := generationPredicate;
  EnqueueRequestForObject o := [ObjectKeyFromObject o];
  EnqueueRequestForOwner := ownerRequests;
|}.

#[local] Instance fakeEventLaws : EventLaws.
Proof.
  split; simpl.
  - done.
  - intros k old new Hne. by apply bool_decide_eq_true.
  - intros o. apply list_elem_of_here.
  - intros w k o [Ho _]. apply own_Ok in Ho as (refs & Hs & Hr). apply list_elem_of_omap.
    exists (ownerRef (W_Name w) (W_UID w)). split; [|done].
    apply (f_equal (fun o => Meta_OwnerReferences (metadata o))) in Hr. simpl in Hr. rewrite Hr.
    simpl in Hs. unfold fakeSetControllerReference in Hs. destruct (existsb _ _); [done|].
    injection Hs as <-. set_solver.
Qed.

#[local] Instance memory_cache : CacheLaws memory.
Proof.
  split. intros σ. eexists _, _. split; [reflexivity|]. intros key w (w' & Hw & ->)%fmap_Some. exists w'.
  split; [|by destruct w' as [[? ? ? ? ? ? ? []]]]. apply bind_Some in Hw as (a & Ha & Hc).
  apply list_elem_of_omap. exists (KWorkspace, key, a). split; [by apply elem_of_map_to_list|done].
Qed.

Definition teamWatches : list watch :=
  match SetupWithManager (fun _ => None) generationPredicate with Ok ws => ws | Err _ => [] end.

Lemma teamWatches_ok : SetupWithManager (fun _ => None) GenerationChangedPredicate = Ok teamWatches.
Proof. reflexivity. Qed.

(** Only the team's workspace, and the operator's Secret. *)
Lemma objectsOf_view k key o :
  view (clusterOf team) k key = Some o → (k, key) = (KWorkspace, teamKey) ∨ (k, key) = (KSecret, operatorSecretKey).
Proof.
  intros (x & Hx & _)%fmap_Some. apply bind_Some in Hx as (a & Ha & _). simpl in Ha. unfold objectsOf in Ha.
  apply lookup_insert_Some in Ha as [[<- _]|[_ [<- _]%lookup_singleton_Some]]; [by left|by right].
Qed.

Lemma team_started : started (mkController (clusterOf team) {[ teamKey ]} ∅ ∅).
Proof.
  assert (∀ key w, view (clusterOf team) KWorkspace key = Some w → key = teamKey ∧ w = team) as Hw.
  { intros key w H. destruct (objectsOf_view _ _ _ H) as [[= ->]|[=]]. rewrite team_stored in H. by injection H. }
  split; simpl; [split|].
  - intros key w [-> ->]%Hw. split; reflexivity.
  - intros key1 key2 w1 w2 [-> _]%Hw [-> _]%Hw _. reflexivity.
  - intros s Hs. vm_compute in Hs. injection Hs as <-. reflexivity.
  - intros s [[=]|[=]]%objectsOf_view.
  - intros key w [-> _]%Hw. by apply elem_of_singleton.
Qed.

(** The cluster after the reconcile of the team's workspace. *)
Lemma team_settled :
  ∃ σ' w ns, exec (Reconcile operator teamKey) (clusterOf team) = Some ((noRequeue, None), σ') ∧
    view σ' KWorkspace teamKey = Some w ∧ view σ' KNamespace (namespaceKey team) = Some ns ∧
    ownerRequests (Any KNamespace ns) = [teamKey].
Proof.
  assert (match exec (Reconcile operator teamKey) (clusterOf team) with
          | Some (res, σ') =>
              match view σ' KWorkspace teamKey, view σ' KNamespace (namespaceKey team) with
              | Some _, Some ns => bool_decide (res = (noRequeue, None) ∧ ownerRequests (Any KNamespace ns) = [teamKey])
              | _, _ => false
              end
          | None => false
          end = true) as H by (vm_compute; reflexivity).
  destruct (exec (Reconcile operator teamKey) (clusterOf team)) as [[res σ']|]; [|discriminate H].
  destruct (view σ' KWorkspace teamKey) as [w|] eqn:Hw; [|discriminate H].
  destruct (view σ' KNamespace (namespaceKey team)) as [ns|] eqn:Hns; [|discriminate H].
  apply bool_decide_eq_true in H as [-> H]. by exists σ', w, ns.
Qed.

(** The worker takes the only request; the queue is empty and the tenant kept. *)
Lemma no_lost_wakeup_witness :
  ∃ σ' w, rtc (move operator teamWatches) (mkController (clusterOf team) {[ teamKey ]} ∅ ∅)
      (mkController σ' ∅ (∅ ∖ {[ teamKey ]}) (∅ ∖ {[ teamKey ]})) ∧
    view σ' KWorkspace teamKey = Some w ∧ tenant_kept operator w σ'.
Proof.
  destruct team_settled as (σ' & w & ns & Hx & Hw & _). exists σ', w.
  assert (rtc (move operator teamWatches) (mkController (clusterOf team) {[ teamKey ]} ∅ ∅)
    (mkController σ' ∅ (∅ ∖ {[ teamKey ]}) (∅ ∖ {[ teamKey ]}))) as Hr.
  { apply rtc_once.
    refine (move_work operator teamWatches (clusterOf team) σ' {[ teamKey ]} ∅ ∅ ∅ teamKey noRequeue None _ Hx _ _).
    - apply elem_of_singleton. reflexivity.
    - rewrite difference_diag_L. reflexivity.
    - intros [H|H]; destruct (H eq_refl). }
  split; [exact Hr|]. split; [exact Hw|].
  destruct (no_lost_wakeup (fun _ => None) operator teamWatches _ _ teamKey w operator_quiet operator_conflict_free
    teamWatches_ok team_started Hr Hw) as [H|[H|[H|H]]]; [destruct (not_elem_of_empty _ H)|..|exact H];
    destruct (not_elem_of_empty _ (proj1 (proj1 (elem_of_difference _ _ _) H))).
Defined.

(** Somebody deletes the namespace; the team is enqueued. *)
Lemma drift_noticed_witness :
  ∃ σ1 σ2 : memory, ∃ ns, view σ1 KNamespace (namespaceKey team) = Some ns ∧
    view σ2 KNamespace (namespaceKey team) = None ∧
    delivered teamWatches (Some ns) None σ2 {[ teamKey ]} ∧ workspaceKey team ∈ ({[ teamKey ]} : gset ObjectKey).
Proof.
  destruct team_settled as (σ1 & w & ns & Hx & _ & Hns & Hreq).
  assert (tenant_kept operator team σ1) as Hk.
  { destruct (exec_Reconcile_kept operator teamKey team _ _ _ operator_quiet operator_conflict_free team_stored
      eq_refl team_labelled Hx) as [H|H]; [vm_compute in H; discriminate H|exact H]. }
  set (σ2 := mem_write σ1 KNamespace (namespaceKey team) None).
  assert (view σ2 KNamespace (namespaceKey team) = None) as Hgone by (apply (mem_view_write σ1 KNamespace)).
  assert (delivered teamWatches (Some ns) None σ2 {[ teamKey ]}) as Hd.
  { intros e x o keys key [= <-] Hin Hp ->%list_elem_of_singleton Hh Hkey.
    assert (Forall (fun x => passes x KNamespace (DeleteEvent (Some (Any KNamespace ns))) = true →
      handled x (Any KNamespace ns) σ2 keys → keys = [teamKey]) teamWatches) as Hall.
    { repeat (constructor; [intros H1 H2; first [discriminate H1|simpl in H2; exact (eq_trans H2 Hreq)]|]). constructor. }
    rewrite list.Forall_forall in Hall. rewrite (Hall x Hin Hp Hh) in Hkey. apply list_elem_of_singleton in Hkey as ->. apply elem_of_singleton. reflexivity. }
  exists σ1, σ2, ns. split; [exact Hns|]. split; [exact Hgone|]. split; [exact Hd|].
  refine (drift_noticed (fun _ => None) operator teamWatches σ1 σ2 team KNamespace (namespaceKey team)
    teamWatches_ok Hk _ _ _); [apply list_elem_of_here|]. rewrite Hns, Hgone. exact Hd.
Defined.

(** ** Two tenants *)

(** The workspaces red and blue, as admission stored them. *)
Definition redKey : ObjectKey := mkKey "" "red".

Definition colours : memory :=
  mkMemory (<[(KWorkspace, blueKey) := Any KWorkspace (defaulted_workspace blue)]>
    (<[(KWorkspace, redKey) := Any KWorkspace (defaulted_workspace red)]>
      {[ (KSecret, operatorSecretKey) := Any KSecret operatorSecret ]})) 9 permissiveHarbor.

Lemma colours_view k key o :
  view colours k key = Some o →
  (k, key) ∈ [(KWorkspace, blueKey); (KWorkspace, redKey); (KSecret, operatorSecretKey)].
Proof.
  intros (x & Hx & _)%fmap_Some. apply bind_Some in Hx as (a & Ha & _). simpl in Ha.
  rewrite !elem_of_cons. apply lookup_insert_Some in Ha as [[<- _]|[_ [[<- _]|[_ [<- _]%lookup_singleton_Some]]%lookup_insert_Some]];
    auto.
Qed.

Lemma blue_stored : view colours KWorkspace blueKey = Some (defaulted_workspace blue).
Proof. vm_compute. reflexivity. Qed.
Lemma red_stored : view colours KWorkspace redKey = Some (defaulted_workspace red).
Proof. vm_compute. reflexivity. Qed.

Lemma colours_workspace key w :
  view colours KWorkspace key = Some w →
  (key = blueKey ∧ w = defaulted_workspace blue) ∨ (key = redKey ∧ w = defaulted_workspace red).
Proof.
  intros Hw. pose proof (colours_view _ _ _ Hw) as Hin. rewrite !elem_of_cons in Hin.
  destruct Hin as [[= ->]|[[= ->]|[[=]|[]%elem_of_nil]]]; [left|right]; (split; [reflexivity|]).
  - rewrite blue_stored in Hw. by injection Hw.
  - rewrite red_stored in Hw. by injection Hw.
Qed.

Lemma colours_lookup name w :
  storedColours !! name = Some w →
  (name = "blue" ∧ w = defaulted_workspace blue) ∨ (name = "red" ∧ w = defaulted_workspace red).
Proof. unfold storedColours. intros [[<- <-]|[_ [<- <-]%lookup_singleton_Some]]%lookup_insert_Some; auto. Qed.

Lemma colours_hosted : hosts (mkSystem storedColours []) colours.
Proof.
  split.
  - intros key w. split.
    + intros [[-> ->]|[-> ->]]%colours_workspace; split; reflexivity.
    + intros [Hkey [[Hn ->]|[Hn ->]]%colours_lookup]; rewrite Hkey, Hn; [exact blue_stored|exact red_stored].
  - intros key w [[-> ->]|[-> ->]]%colours_workspace; reflexivity.
  - intros key1 key2 w1 w2 [[-> ->]|[-> ->]]%colours_workspace [[-> ->]|[-> ->]]%colours_workspace H;
      first [reflexivity|discriminate H].
  - intros s Hs. vm_compute in Hs. injection Hs as <-. reflexivity.
  - intros s Hs%colours_view. rewrite !elem_of_cons in Hs. by destruct Hs as [[=]|[[=]|[[=]|[]%elem_of_nil]]].
Qed.

Lemma colours_unobstructed key w :
  view colours KWorkspace key = Some w → unobstructed w (credentialsOf operatorSecret) colours.
Proof.
  intros [[-> ->]|[-> ->]]%colours_workspace;
    (apply fresh_unobstructed; [apply (bool_decide_unpack _); vm_compute; exact I|vm_compute; reflexivity]).
Qed.

Lemma colours_clear : clear (credentialsOf operatorSecret) colours.
Proof.
  exact (admitted_clear _ _ _ (serial_reachable_ok _ colours_stored) colours_hosted colours_unobstructed).
Qed.

(** Both are in the queue, and a workspace that was deleted. *)
Definition colourRequests : list ObjectKey := [blueKey; mkKey "" "gone"; redKey].

Lemma colours_started : started (mkController colours (list_to_set colourRequests) ∅ ∅).
Proof.
  split; [exact (clear_stored _ _ colours_clear)|].
  intros key w [[-> _]|[-> _]]%colours_workspace; (apply elem_of_list_to_set; unfold colourRequests; rewrite !elem_of_cons; auto).
Qed.


Lemma admitted_workspaces_served_witness :
  ∃ σ' : memory, granted σ' red MemberRoleView "bob" ∧ ¬ granted σ' blue MemberRoleAdmin "bob".
Proof.
  destruct (@admitted_workspaces_served _ fakeCtrlLaws _ fakeNetLaws memory _ _ memory_cooperative memory_answering
    stubbed (credentialsOf operatorSecret) colourRequests (mkSystem storedColours []) colours stubbed_quiet
    stubbed_conflict_free stubbed_total (fun _ w _ => stubbed_cooperative _ w) eq_refl colours_stored colours_hosted
    colours_unobstructed) as (os & σ' & _ & Hs).
  - intros name [w [[-> _]|[-> _]]%colours_lookup]; unfold colourRequests;
      rewrite !elem_of_cons; auto.
  - exists σ'. split.
    + apply (proj1 (proj2 (proj2 (Hs "red" (defaulted_workspace red) eq_refl))) MemberRoleView "bob");
        [apply (bool_decide_unpack _); vm_compute; exact I|].
      exists (mkMember MemberRoleView "bob" None false). split; [apply (bool_decide_unpack _); vm_compute; exact I|].
      split; reflexivity.
    + intros (m & Hm & Hr & Hu)%(proj1 (proj2 (proj2 (Hs "blue" (defaulted_workspace blue) eq_refl))) MemberRoleAdmin "bob");
        [|apply (bool_decide_unpack _); vm_compute; exact I].
      change (m ∈ exampleMembers) in Hm. unfold exampleMembers in Hm. rewrite !elem_of_cons in Hm.
      destruct Hm as [->|[->|[->|[]%elem_of_nil]]]; first [discriminate Hr|discriminate Hu].
Defined.

(** ** A heap *)

(** Metadata whose labels are a Go map, in a cell of its own; everything else of
    other packages is taken to hold no pointers. *)
Record fakeMeta := mkFakeMeta { fake_plain : ObjectMeta; fake_labels : option loc }.

#[local] Instance fakeGoLib : GoLib := {|
  GoObjectMeta := fakeMeta;
  GoListMeta := ListMeta;
  GoResourceQuotaSpec := ResourceQuotaSpec;
  GoLimitRangeSpec := LimitRangeSpec;
  foreign_cell := gmap string string;
  GoObjectMeta_zero := mkFakeMeta (named "" "") None;
  GoListMeta_zero := mkListMeta "" "" None;
  GoResourceQuotaSpec_zero := zero_payload KResourceQuota;
  GoLimitRangeSpec_zero := zero_payload KLimitRange;
  go_Generation m := Meta_Generation (fake_plain m);
|}.

#[local] Instance map_stored : Stored cell (gmap string string) :=
  {| pack := CForeign; unpack c := match c with CForeign x => Some x | _ => None end; unpack_pack _ := eq_refl |}.
#[local] Instance map_zero : Zero (gmap string string) := (∅ : gmap string string).
#[local] Instance map_rep : Rep cell (gmap string string) (gmap string string) := rep_flat.

Definition fakeMeta_DeepCopyInto (m : fakeMeta) : heapM cell fakeMeta :=
  labels ← copy_ptr (T := gmap string string) mret (Ptr <$> fake_labels m);
  mret (mkFakeMeta (fake_plain m) (addr <$> labels)).

#[local] Instance fakeGoCopies : GoCopies := {|
  ObjectMeta_DeepCopyInto := fakeMeta_DeepCopyInto;
  ListMeta_DeepCopyInto := mret;
  ResourceQuotaSpec_DeepCopyInto := mret;
  LimitRangeSpec_DeepCopyInto := mret;
  Condition_DeepCopyInto := mret;
  rep_ObjectMeta h x v L := fake_plain x = set_Labels None v ∧
    rep h (Ptr (T := gmap string string) <$> fake_labels x) (Meta_Labels v) L;
  rep_ListMeta := rep_flat;
  rep_ResourceQuotaSpec := rep_flat;
  rep_LimitRangeSpec := rep_flat;
|}.

#[local] Instance fakeGoCopiesLaws : GoCopiesLaws.
Proof.
  split; try (apply rep_flat_laws || apply copies_flat).
  - split.
    + intros h h' x v L [Hp Hl] Hag. split; [done|by eapply rep_agree].
    + by intros h x v L [_ Hl%rep_dom].
  - apply copies_extends. intros h x v L [Hp Hl].
    copy_field Hl (copies_ptr (G := gmap string string) (V := gmap string string) _ copies_flat).
    apply extends_ret. eexists. split; [|done]. split; [done|]. by destruct x0 as [[]|].
  - intros h x v L [Hp _]. simpl. by rewrite Hp.
  - intros h x v L l cs [_ Hl] Hin. destruct (fake_labels x) as [q|], (Meta_Labels v) as [m|]; try done; [|set_solver].
    destruct Hl as (y & L0 & Hy & [_ ->] & ->). assert (l = q) as -> by set_solver. simpl in Hy. by rewrite Hy.
  - intros h x v L l cs [_ ->]. set_solver.
  - intros h x v L l cs [_ ->]. set_solver.
Qed.

(** As in apimachinery: a condition that is there is changed in place, another is appended. *)
Definition fake_meta_SetStatusCondition (now : Z) (s : option (slice Condition)) (c : Condition)
    : heapM cell (option (slice Condition)) :=
  match s with
  | None => append_ 0 None (newCondition now c)
  | Some w =>
      all ← load (T := list Condition) (Ptr (arr w));
      if existsb (fun x => bool_decide (Cond_Type x = Cond_Type c)) (take (len w) (drop (off w) all)) then
        modify (T := list Condition) (Ptr (arr w)) (fun xs =>
          take (off w) xs ++ fakeSetStatusCondition now (take (len w) (drop (off w) xs)) c ++ drop (off w + len w) xs);;
        mret s
      else append_ (len w) s (newCondition now c)
  end.

#[local] Instance fakeConditionsLib : ConditionsLib :=
  {| meta_SetStatusCondition := fake_meta_SetStatusCondition; spare n := n |}.

Lemma fakeSetStatusCondition_there now cs c :
  existsb (fun x => bool_decide (Cond_Type x = Cond_Type c)) cs = true →
  length (fakeSetStatusCondition now cs c) = length cs.
Proof.
  induction cs as [|x cs IH]; simpl; [done|]. case_bool_decide; simpl; [done|]. intros He. by rewrite IH.
Qed.

Lemma fakeSetStatusCondition_new now cs c :
  existsb (fun x => bool_decide (Cond_Type x = Cond_Type c)) cs = false →
  fakeSetStatusCondition now cs c = cs ++ [newCondition now c].
Proof. induction cs as [|x cs IH]; simpl; [done|]. case_bool_decide; simpl; [done|]. intros He. by rewrite IH. Qed.

#[local] Instance fakeConditionsLaws : ConditionsLaws.
Proof.
  intros now s c h cs L Hs. destruct s as [w|]; [|destruct Hs as [-> ->]; exact (append_spec 0 h None [] ∅ (newCondition now c) (conj eq_refl eq_refl))].
  pose proof (proj1 (rep_flat_slice _ _ _ _) Hs) as (all & Hl & _ & Hv & _).
  apply reaches_bind. exists all, h. split; [unfold load; simpl; by rewrite Hl|]. rewrite Hv.
  destruct (existsb _ cs) eqn:He.
  - apply reaches_bind. eapply reaches_mono; [apply (window_spec (fun cs => fakeSetStatusCondition now cs c)); [exact Hs|]|].
    + by apply fakeSetStatusCondition_there.
    + intros _ h' [Hr Hw]. apply reaches_ret. exists L. split_and!; [exact Hr|exact Hw|set_solver].
  - simpl. rewrite fakeSetStatusCondition_new by done. exact (append_spec (len w) h (Some w) cs L (newCondition now c) Hs).
Qed.

(** The team's workspace, with a status, laid out in a heap. *)
Definition notReady : Condition := mkCondition ConditionTypeReady ConditionFalse 1 5 "ReconcileError" "boom".
Definition isReady : Condition := mkCondition ConditionTypeReady ConditionTrue 1 0 "Reconciled" "".
Definition stagedMember : GoWorkspaceMember := mkGoMember MemberRoleAdmin "alice" (Some (Ptr 5%positive)) false.

Definition staged : Workspace :=
  mkObject (metadata team) (mkWorkspaceBody
    (mkWorkspaceSpec "team" [mkMember MemberRoleAdmin "alice" (Some "Alice") false] None None isolated)
    (with_Conditions [notReady] 1 (W_Status team))).
Definition workspaceTypeMeta : TypeMeta := mkTypeMeta "Workspace" "tenant.otterscale.io/v1alpha1".

Definition goStaged : GoWorkspace := mkGoWorkspace workspaceTypeMeta
  (mkFakeMeta (set_Labels None (metadata team)) (Some 2%positive))
  (mkGoSpec "team" (Some (mkSlice 3%positive 0 1 1)) None None (mkGoIsolation true (Some (mkSlice 4%positive 0 1 1))))
  (mkGoStatus 1 None None None None None None None (Some (mkSlice 6%positive 0 1 2))).

Definition stagedAt : ptr GoWorkspace := Ptr 1%positive.
Definition stagedHeap : gmap loc cell :=
  <[1%positive := pack goStaged]> (<[2%positive := pack ({[ LabelWorkspaceNamespace := "team" ]} : gmap string string)]>
  (<[3%positive := pack [stagedMember]]> (<[4%positive := pack ["shared"]]>
  (<[5%positive := pack "Alice"]> {[ 6%positive := pack [notReady; zero] ]})))).

Lemma staged_held : ∃ L, holds stagedHeap stagedAt (workspaceTypeMeta, staged) L.
Proof.
  eexists. exists goStaged. split; [reflexivity|]. split.
  - split; [reflexivity|]. eexists _, _, _. split; [|split; [|split; [|reflexivity]]].
    + split; [reflexivity|]. eexists _, _. split; [reflexivity|]. by split.
    + split; [reflexivity|]. eexists _, _, _, _. split; [|split; [|split; [|split; [|reflexivity]]]]; try reflexivity.
      * eexists _, _. split; [reflexivity|]. split; [split; simpl; lia|]. split; [|reflexivity].
        eexists _, _. split; [|by split]. split_and!; [reflexivity..|].
        eexists _, _. split; [reflexivity|]. by split.
      * split; [reflexivity|]. apply rep_flat_slice. eexists. split; [reflexivity|]. split; [split; simpl; lia|]. by split.
    + split; [reflexivity|]. eexists _, _, _, _, _, _, _, _. split_and!; try reflexivity; [split; reflexivity|].
      apply rep_flat_slice. eexists. split; [reflexivity|]. split; [split; simpl; lia|]. by split.
  - apply (bool_decide_unpack _). vm_compute. exact I.
Qed.

Lemma DeepCopy_deep_witness :
  ∃ copy h L, Workspace_DeepCopy (Some stagedAt) stagedHeap = Some (copy, h) ∧ stagedHeap ⊆ h ∧
    rep h copy (Some (workspaceTypeMeta, staged)) L ∧ L ## dom stagedHeap.
Proof.
  destruct staged_held as [L Hw]. destruct DeepCopy_deep as (_ & _ & _ & _ & _ & Hdeep & _).
  destruct (Hdeep _ _ _ _ (holds_rep _ _ _ _ Hw)) as (copy & h & L' & Hc & Hs & Hr & Hd).
  exists copy, h, L'. exact (conj Hc (conj Hs (conj Hr Hd))).
Defined.

(** The condition in the heap is replaced in place, and the base still has the old one. *)
Lemma setReadyConditionFalse_staged_witness :
  ∃ base h L, stageNotReady stagedAt (mkCondition ConditionTypeReady ConditionFalse 1 0 "NamespaceConflict" "taken") 7
      stagedHeap = Some (base, h) ∧
    holds h base (workspaceTypeMeta, staged) L ∧
    h !! 6%positive = Some (pack [mkCondition ConditionTypeReady ConditionFalse 1 5 "NamespaceConflict" "taken"; zero]).
Proof.
  destruct staged_held as [L Hw].
  destruct (setReadyConditionFalse_staged stagedHeap stagedAt workspaceTypeMeta staged L
    (mkCondition ConditionTypeReady ConditionFalse 1 0 "NamespaceConflict" "taken") 7 Hw) as (base & h & L1 & _ & Hrun & Hb & _).
  exists base, h, L1. split; [exact Hrun|]. split; [exact Hb|].
  assert ((fun r => snd r !! 6%positive) <$> stageNotReady stagedAt
    (mkCondition ConditionTypeReady ConditionFalse 1 0 "NamespaceConflict" "taken") 7 stagedHeap =
    Some (Some (pack [mkCondition ConditionTypeReady ConditionFalse 1 5 "NamespaceConflict" "taken"; zero]))) as H
    by (vm_compute; reflexivity).
  rewrite Hrun in H. exact (f_equal (default None) H).
Defined.

Lemma updateStatus_staged_witness :
  ∃ newStatus h1 base h2 L1 L2, stageStatus stagedAt None (Some (mkRef "helm" "team")) isReady 7 stagedHeap = Some (newStatus, h1) ∧
    holds h1 newStatus (computedStatus staged None (Some (mkRef "helm" "team")) [condition_since 7 isReady]) L1 ∧
    commitStatus stagedAt newStatus h1 = Some (base, h2) ∧ holds h2 base (workspaceTypeMeta, staged) L2.
Proof.
  destruct staged_held as [L Hw].
  destruct (updateStatus_staged stagedHeap stagedAt workspaceTypeMeta staged L None (Some (mkRef "helm" "team")) isReady 7 Hw)
    as (newStatus & h1 & base & h2 & L1 & L2 & L3 & Hst & _ & _ & Hn & Hc & Hb & _).
  exists newStatus, h1, base, h2, L1, L2. exact (conj Hst (conj Hn (conj Hc Hb))).
Defined.

(** ** A scheme *)

Definition fakeScheme : Type := GroupVersionKind → option GoType.

Definition fakeAdd (g : GroupVersionKind) (t : GoType) (s : fakeScheme) : fakeScheme :=
  fun g' => if decide (g' = g) then Some t else s g'.

(** Adding a kind with another type panics. *)
Fixpoint fakeAddKnownTypes (gv : GroupVersion) (types : list GoType) (s : fakeScheme) : option fakeScheme :=
  match types with
  | [] => Some s
  | t :: types =>
      if bool_decide (s (WithKind gv (Type_Name t)) = None ∨ s (WithKind gv (Type_Name t)) = Some t)
      then fakeAddKnownTypes gv types (fakeAdd (WithKind gv (Type_Name t)) t s) else None
  end.

Fixpoint fakeBuilder (fs : list (fakeScheme → option (result fakeScheme))) (s : fakeScheme) : option (result fakeScheme) :=
  match fs with
  | [] => Some (Ok s)
  | f :: fs => match f s with Some (Ok s') => fakeBuilder fs s' | r => r end
  end.

Definition clientgoKinds : list Kind :=
  [KNamespace; KSecret; KConfigMap; KServiceAccount; KRoleBinding; KResourceQuota; KLimitRange; KNetworkPolicy].

#[local] Instance fakeSchemeLib : SchemeLib := {|
  Scheme := fakeScheme;
  NewScheme := fun _ => None;
  KnownType s g := s g;
  AddKnownTypes := fakeAddKnownTypes;
  AddToGroupVersion gv s := Some s;
  SchemeBuilder_AddToScheme := fakeBuilder;
  clientgoscheme_AddToScheme s := Some (Ok (foldr (fun k => fakeAdd (gvk_of k) (type_of k)) s clientgoKinds));
  sourcev1_AddToScheme s := Some (Ok (fakeAdd (gvk_of KHelmRepository) (type_of KHelmRepository) s));
|}.

Lemma fakeAdd_eq g t s : fakeAdd g t s g = Some t.
Proof. unfold fakeAdd. by rewrite decide_True. Qed.
Lemma fakeAdd_ne g g' t s : g' ≠ g → fakeAdd g t s g' = s g'.
Proof. intros Hg. unfold fakeAdd. by rewrite decide_False. Qed.

Lemma WithKind_inj gv k k' : WithKind gv k = WithKind gv k' → k = k'.
Proof. by intros [= ->]. Qed.

Lemma fakeAddKnownTypes_spec gv types (s : fakeScheme) :
  (∀ t t', t ∈ types → s (WithKind gv (Type_Name t)) = Some t' → t' = t) → NoDup (Type_Name <$> types) →
  ∃ s', fakeAddKnownTypes gv types s = Some s' ∧
    (∀ g, (∀ t, t ∈ types → g ≠ WithKind gv (Type_Name t)) → s' g = s g) ∧
    ∀ t, t ∈ types → s' (WithKind gv (Type_Name t)) = Some t.
Proof.
  revert s. induction types as [|t types IH]; intros s Hs Hnd; simpl.
  { exists s. split_and!; [done..|]. intros t Ht. by apply elem_of_nil in Ht. }
  apply list.NoDup_cons in Hnd as [Hn Hnd].
  assert (∀ t', t' ∈ types → WithKind gv (Type_Name t') ≠ WithKind gv (Type_Name t)) as Hne.
  { intros t' Ht' Heq%WithKind_inj. apply Hn. rewrite <-Heq. by apply list_elem_of_fmap_2. }
  rewrite bool_decide_eq_true_2.
  2:{ destruct (s _) as [t'|] eqn:Hst; [right|by left]. f_equal. eapply Hs, Hst. by left. }
  destruct (IH (fakeAdd (WithKind gv (Type_Name t)) t s)) as (s' & Hx & Hother & Hin); [|done|].
  - intros t1 t2 Ht1. rewrite fakeAdd_ne by by apply Hne. apply Hs. by right.
  - exists s'. split_and!; [done| |].
    + intros g Hg. rewrite Hother by (intros t' Ht'; apply Hg; by right). apply fakeAdd_ne, Hg. by left.
    + intros t1 [->|Ht1]%elem_of_cons; [|by apply Hin].
      rewrite Hother by (intros t' Ht' Heq; by apply (Hne t')). apply fakeAdd_eq.
Qed.

#[local] Instance fakeSchemeLaws : SchemeLaws.
Proof.
  split.
  - done.
  - intros gv types s Hs Hnd. destruct (fakeAddKnownTypes_spec gv types s Hs Hnd) as (s' & Hx & Hother & Hin).
    exists s'. split_and!; [done| |done].
    assert (∀ g, (∃ t, t ∈ types ∧ g = WithKind gv (Type_Name t)) ∨ s' g = s g) as Hg.
    { intros g. destruct (decide (Exists (fun t => g = WithKind gv (Type_Name t)) types)) as [He|He].
      - left. apply list.Exists_exists in He as (t & ? & ?). by exists t.
      - right. apply Hother. intros t Ht Heq. apply He. apply list.Exists_exists. by exists t. }
    split; intros g t; simpl; destruct (Hg g) as [(t' & Ht' & ->)|Heq]; rewrite ?Heq; auto.
    + intros Hst. apply Hs in Hst as ->; [|done]. by apply Hin.
    + right. by exists t'.
  - intros gv s _. exists s. split; [done|]. split; auto.
  - done.
  - done.
  - eexists. split; [reflexivity|]. split; [intros []; try discriminate; reflexivity|].
    intros g t. simpl. unfold fakeAdd.
    repeat (case_decide; [subst; intros _; split; discriminate|]). done.
  - intros s Hs. eexists. split; [reflexivity|]. split; [apply fakeAdd_eq|]. split; intros g t; simpl.
    + intros Hg. rewrite fakeAdd_ne; [done|]. intros ->. by apply Hs in Hg.
    + unfold fakeAdd. case_decide; [subst; intros _; by right; left|by left].
Qed.

Lemma scheme_complete_witness :
  ∃ s : fakeScheme, main_init = Some s ∧ s (mkGVK "tenant.otterscale.io" "v1alpha1" "Workspace") = Some WorkspaceType.
Proof.
  destruct scheme_complete as (s & Hs & Hk & _). exists s. exact (conj Hs (Hk KWorkspace)).
Defined.
